(** * HexahedronMesh: interpolation-point numbering of fealpy's hexahedral mesh

    A shallow embedding of [fealpy/mesh/hexahedron_mesh.py].  NumPy arrays of
    integers are lists (one-dimensional) and lists of rows (two-dimensional)
    of [Z]; every NumPy operation that can raise returns a [PyResult].  *)

From Stdlib Require Import QArith.
From stdpp Require Import base numbers list sorting gmap strings.

Open Scope Z_scope.

#[global] Instance Q_eq_dec : EqDecision Q.
Proof. solve_decision. Defined.

(** ** Python exceptions and fallible computations *)

Inductive exn : Set :=
| IndexError | ValueError | NameError | AttributeError | RecursionError
| ValidationError | TopologyError | ConfigError.

#[global] Instance exn_eq_dec : EqDecision exn.
Proof. solve_decision. Defined.

Inductive PyResult (A : Type) : Type :=
| Ok (a : A)
| Raise (e : exn).
Arguments Ok {A} a.
Arguments Raise {A} e.

#[global] Instance PyResult_ret : MRet PyResult := λ A, @Ok A.
#[global] Instance PyResult_bind : MBind PyResult := λ A B f m,
  match m with Ok a => f a | Raise e => Raise e end.

Definition raises {A} (m : PyResult A) : Prop := ∃ e, m = Raise e.
Definition returns {A} (m : PyResult A) : Prop := ∃ a, m = Ok a.

(** A [for] loop whose body may raise: the accumulator is threaded through. *)
Fixpoint foldM {A B} (f : A → B → PyResult A) (a : A) (l : list B) : PyResult A :=
  match l with
  | [] => Ok a
  | x :: l => a' ← f a x; foldM f a' l
  end.

(** Row-wise combination of two arrays with the same number of rows. *)
Fixpoint map2M {A B C} (f : A → B → PyResult C) (l : list A) (k : list B)
  : PyResult (list C) :=
  match l, k with
  | [], [] => Ok []
  | x :: l, y :: k => z ← f x y; zs ← map2M f l k; Ok (z :: zs)
  | _, _ => Raise ValueError
  end.

(** ** The NumPy operations used by the mesh *)

Module np.

(** A dimension or a repeat count: negative values are refused. *)
Definition dim (n : Z) : PyResult nat :=
  if decide (0 ≤ n) then Ok (Z.to_nat n) else Raise ValueError.

(** [np.arange(lo, hi)] *)
Definition arange (lo hi : Z) : list Z := seqZ lo (hi - lo).

(** [np.zeros(n)] and [np.zeros([r, c])] *)
Definition zeros (n : Z) : PyResult (list Z) :=
  k ← dim n; Ok (replicate k 0).
Definition zeros2 (r c : Z) : PyResult (list (list Z)) :=
  k ← dim r; row ← zeros c; Ok (replicate k row).

(** [np.repeat(l, n)]: every element [n] times; [np.tile(l, n)]: the whole
    array [n] times. *)
Definition repeat (l : list Z) (n : Z) : PyResult (list Z) :=
  k ← dim n; Ok (l ≫= replicate k).
Definition tile (l : list Z) (n : Z) : PyResult (list Z) :=
  k ← dim n; Ok (mjoin (replicate k l)).

(** An index into an axis of length [n]: negative indices count from the
    end, anything outside [-n, n) is an [IndexError]. *)
Definition index (n : nat) (i : Z) : PyResult nat :=
  if decide (0 ≤ i < Z.of_nat n) then Ok (Z.to_nat i)
  else if decide (- Z.of_nat n ≤ i < 0) then Ok (Z.to_nat (i + Z.of_nat n))
  else Raise IndexError.

Definition getitem {A} (l : list A) (i : Z) : PyResult A :=
  k ← index (length l) i;
  match l !! k with Some x => Ok x | None => Raise IndexError end.

Definition setitem {A} (l : list A) (i : Z) (x : A) : PyResult (list A) :=
  k ← index (length l) i; Ok (<[k:=x]> l).

(** [a[idx]] with an integer array [idx]; [a[:, j]]; [a[:, js]]. *)
Definition getitems {A} (l : list A) (idx : list Z) : PyResult (list A) :=
  mapM (getitem l) idx.
Definition column {A} (a : list (list A)) (j : Z) : PyResult (list A) :=
  mapM (λ row, getitem row j) a.
Definition columns {A} (a : list (list A)) (js : list Z)
  : PyResult (list (list A)) :=
  mapM (λ row, getitems row js) a.

(** The value of an assignment is broadcast to the shape of its target:
    equal length, or a single value repeated. *)
Definition broadcast {A} (n : nat) (vals : list A) : PyResult (list A) :=
  if decide (length vals = n) then Ok vals
  else match vals with
       | [v] => Ok (replicate n v)
       | _ => Raise ValueError
       end.

(** [row[cols] = vals]: the stores happen in order, a later store to the
    same position wins. *)
Definition put (row : list Z) (cols : list Z) (vals : list Z)
  : PyResult (list Z) :=
  vs ← broadcast (length cols) vals;
  foldM (λ acc cv, setitem acc cv.1 cv.2) row (zip cols vs).

(** [a[:, cols] = b] where [b] has one row per row of [a]. *)
Definition put_columns (a : list (list Z)) (cols : list Z) (b : list (list Z))
  : PyResult (list (list Z)) :=
  map2M (λ row vals, put row cols vals) a b.

(** [a[rows[:, None], cols] = b] where [b] has one row per entry of [rows]. *)
Definition put_rows_columns (a : list (list Z)) (rows cols : list Z)
    (b : list (list Z)) : PyResult (list (list Z)) :=
  if decide (length rows = length b) then
    foldM (λ acc rv,
             row ← getitem acc rv.1;
             row' ← put row cols rv.2;
             setitem acc rv.1 row') a (zip rows b)
  else Raise ValueError.

(** [a[:, j] = col] and [a[i] = vals]. *)
Definition set_column (a : list (list Z)) (j : Z) (col : list Z)
  : PyResult (list (list Z)) :=
  vs ← broadcast (length a) col;
  map2M (λ row v, setitem row j v) a vs.
Definition set_row (a : list (list Z)) (i : Z) (vals : list Z)
  : PyResult (list (list Z)) :=
  row ← getitem a i;
  vs ← broadcast (length row) vals;
  setitem a i vs.

(** [np.where(mask)[0]]: the positions that hold [True], ascending. *)
Fixpoint where_from (i : Z) (mask : list bool) : list Z :=
  match mask with
  | [] => []
  | b :: mask => if b then i :: where_from (i + 1) mask
                 else where_from (i + 1) mask
  end.
Definition where_ (mask : list bool) : list Z := where_from 0 mask.

(** [row[mask] = vals] with a boolean mask as long as the row. *)
Definition put_mask (row : list Z) (mask : list bool) (vals : list Z)
  : PyResult (list Z) :=
  if decide (length mask = length row) then put row (where_ mask) vals
  else Raise IndexError.
Definition put_mask_columns (a : list (list Z)) (mask : list bool)
    (b : list (list Z)) : PyResult (list (list Z)) :=
  map2M (λ row vals, put_mask row mask vals) a b.

(** [l.reshape(n, -1)]: [n] rows of equal length; [n] must divide the size,
    and the row length cannot be inferred when [n = 0]. *)
Fixpoint chunks (rows width : nat) (l : list Z) : list (list Z) :=
  match rows with
  | O => []
  | S rows => take width l :: chunks rows width (drop width l)
  end.
Definition reshape_rows (l : list Z) (n : Z) : PyResult (list (list Z)) :=
  k ← dim n;
  if decide (k = 0%nat) then Raise ValueError
  else if decide ((length l `mod` k)%nat = 0%nat)
       then Ok (chunks k (length l `div` k)%nat l)
       else Raise ValueError.

(** [np.argsort(l)]: positions in ascending order of their keys; equal keys
    keep their order. *)
Fixpoint insert_key (x : Z * Z) (l : list (Z * Z)) : list (Z * Z) :=
  match l with
  | [] => [x]
  | y :: l' => if decide (x.1 ≤ y.1) then x :: l else y :: insert_key x l'
  end.
Definition argsort (l : list Z) : list Z :=
  (foldr insert_key [] (zip l (seqZ 0 (Z.of_nat (length l))))).*2.

(** [a.swapaxes(0, 1)] of an array with [n] entries along axis 1. *)
Definition swapaxes {A} (a : list (list A)) (n : nat) : list (list A) :=
  (λ c, omap (λ row, row !! c) a) <$> seq 0 n.

(** [np.all(cond(a), axis=-1)] *)
Definition all_rows (cond : Z → bool) (a : list (list Z)) : list bool :=
  forallb cond <$> a.

End np.

(** ** The local tables of the reference hexahedron
    (class [HexahedronMeshDataStructure]) *)

Definition localEdge : list (list Z) :=
  [ [0; 1]; [1; 2]; [2; 3]; [0; 3];
    [0; 4]; [1; 5]; [2; 6]; [3; 7];
    [4; 5]; [5; 6]; [6; 7]; [4; 7] ].

Definition localFace : list (list Z) :=
  [ [0; 3; 2; 1]; [4; 5; 6; 7];
    [0; 4; 7; 3]; [1; 2; 6; 5];
    [0; 1; 5; 4]; [2; 3; 7; 6] ].

Definition localFace2edge : list (list Z) :=
  [ [3; 2; 1; 0]; [8; 9; 10; 11];
    [4; 11; 7; 3]; [1; 6; 9; 5];
    [0; 5; 8; 4]; [2; 7; 10; 6] ].

Definition localEdge2face : list (list Z) :=
  [ [4; 0]; [3; 0]; [5; 0]; [0; 2];
    [2; 4]; [4; 3]; [3; 5]; [5; 2];
    [1; 4]; [1; 3]; [1; 5]; [2; 1] ].

Definition NVC : Z := 8.
Definition NEC : Z := 12.
Definition NFC : Z := 6.
Definition NVF : Z := 4.
Definition NEF : Z := 4.

(** The entity and adjacency tables held by [mesh.ds]. *)
Record HexahedronMeshDataStructure : Type := {
  ds_NN : Z;
  ds_cell : list (list Z);
  ds_face : list (list Z);
  ds_edge : list (list Z);
  ds_cell2face : list (list Z);
  ds_cell2edge : list (list Z);
  ds_face2edge : list (list Z);
  ds_face2cell : list (list Z)
}.

(** ** Construction of the entity tables *)

(** The key of a face or an edge: its node indices, sorted. *)
Definition entity_key (nodes : list Z) : list Z := merge_sort Z.le nodes.

(** The nodes (or edges) of a cell at the positions of a local pattern. *)
Definition local_entries (row pattern : list Z) : list Z :=
  (λ k, row !!! Z.to_nat k) <$> pattern.

(** A cell is an 8-tuple of pairwise different node indices. *)
Definition valid_cell (c : list Z) : Prop := length c = 8%nat ∧ NoDup c.

#[global] Instance valid_cell_dec c : Decision (valid_cell c).
Proof. unfold valid_cell. apply _. Defined.

Record Topology : Type := {
  t_edgeMap : gmap (list Z) Z;
  t_edge : list (list Z);
  t_faceMap : gmap (list Z) Z;
  t_face : list (list Z);
  t_face2edge : list (list Z);
  t_face2cell : list (list Z);
  t_cell2edge : list (list Z);
  t_cell2face : list (list Z)
}.

Definition empty_topology : Topology :=
  {| t_edgeMap := ∅; t_edge := []; t_faceMap := ∅; t_face := [];
     t_face2edge := []; t_face2cell := [];
     t_cell2edge := []; t_cell2face := [] |}.

(** The index of an edge: the one registered under its key, or a fresh one
    (the edge is then stored in the order of the cell that brings it). *)
Definition register_edge (st : gmap (list Z) Z * list (list Z) * list Z)
    (nodes : list Z) : gmap (list Z) Z * list (list Z) * list Z :=
  let '(m, edges, row) := st in
  match m !! entity_key nodes with
  | Some e => (m, edges, row ++ [e])
  | None =>
      let e := Z.of_nat (length edges) in
      (<[entity_key nodes := e]> m, edges ++ [nodes], row ++ [e])
  end.

Record FaceTables : Type := {
  ft_map : gmap (list Z) Z;
  ft_face : list (list Z);
  ft_face2edge : list (list Z);
  ft_face2cell : list (list Z);
  ft_row : list Z
}.

(** The index of the face in local slot [i] of cell [c]: a fresh face takes
    the node order and the edges of [c]; a face seen once gets [c] as its
    second cell; a face that already has two cells is a topology error. *)
Definition register_face (c : Z) (cellnodes celledges : list Z)
    (st : FaceTables) (i : Z) : PyResult FaceTables :=
  let nodes := local_entries cellnodes (localFace !!! Z.to_nat i) in
  match ft_map st !! entity_key nodes with
  | None =>
      let f := Z.of_nat (length (ft_face st)) in
      Ok {| ft_map := <[entity_key nodes := f]> (ft_map st);
            ft_face := ft_face st ++ [nodes];
            ft_face2edge := ft_face2edge st ++
              [local_entries celledges (localFace2edge !!! Z.to_nat i)];
            ft_face2cell := ft_face2cell st ++ [[c; -1]];
            ft_row := ft_row st ++ [f] |}
  | Some f =>
      let fc := ft_face2cell st !!! Z.to_nat f in
      if decide (fc !!! 1%nat = -1) then
        Ok {| ft_map := ft_map st;
              ft_face := ft_face st;
              ft_face2edge := ft_face2edge st;
              ft_face2cell := <[Z.to_nat f := [fc !!! 0%nat; c]]> (ft_face2cell st);
              ft_row := ft_row st ++ [f] |}
      else Raise TopologyError
  end.

Definition add_cell (st : Topology) (cn : Z * list Z) : PyResult Topology :=
  let '(c, cellnodes) := cn in
  let '(em, edges, erow) :=
    foldl register_edge (t_edgeMap st, t_edge st, [])
          (local_entries cellnodes <$> localEdge) in
  ft ← foldM (register_face c cellnodes erow)
         {| ft_map := t_faceMap st; ft_face := t_face st;
            ft_face2edge := t_face2edge st; ft_face2cell := t_face2cell st;
            ft_row := [] |}
         (seqZ 0 NFC);
  Ok {| t_edgeMap := em; t_edge := edges;
        t_faceMap := ft_map ft; t_face := ft_face ft;
        t_face2edge := ft_face2edge ft; t_face2cell := ft_face2cell ft;
        t_cell2edge := t_cell2edge st ++ [erow];
        t_cell2face := t_cell2face st ++ [ft_row ft] |}.

(** Modelled from the spec: the constructor of the data structure
    (base classes [Mesh3dDataStructure] and [HomogeneousMeshDS]) is not among
    the sources.  Following the spec's topology builder: every cell is
    validated first (a cell with a repeated node is a [ValidationError]); the
    cells are then visited in ascending order, faces and edges are keyed by
    their sorted nodes and numbered on first sight, the first cell fixes the
    orientation, the face-to-edge table follows the local incidence pattern of
    that cell, and a face key claimed by a third cell is a [TopologyError]. *)
Definition construct (NN : Z) (cell : list (list Z))
  : PyResult HexahedronMeshDataStructure :=
  if decide (Forall valid_cell cell) then
    t ← foldM add_cell empty_topology
          (zip (seqZ 0 (Z.of_nat (length cell))) cell);
    Ok {| ds_NN := NN; ds_cell := cell;
          ds_face := t_face t; ds_edge := t_edge t;
          ds_cell2face := t_cell2face t; ds_cell2edge := t_cell2edge t;
          ds_face2edge := t_face2edge t; ds_face2cell := t_face2cell t |}
  else Raise ValidationError.

(** ** The mesh object *)

Record HexahedronMesh : Type := {
  node : list (list Q);
  ds : HexahedronMeshDataStructure
}.

(** [HexahedronMesh.__init__(node, cell)] *)
Definition init (node : list (list Q)) (cell : list (list Z))
  : PyResult HexahedronMesh :=
  let NN := Z.of_nat (length node) in
  ds ← construct NN cell;
  Ok {| node := node; ds := ds |}.

(** [from_one_hexahedron]: the float literals [0.0] and [1.0] are exact. *)
Definition from_one_hexahedron : PyResult HexahedronMesh :=
  let node : list (list Q) :=
    [ [0; 0; 0];
      [1; 0; 0];
      [1; 1; 0];
      [0; 0; 0];
      [0; 0; 1];
      [1; 0; 1];
      [1; 1; 1];
      [0; 0; 1] ]%Q in
  let cell := [ [0; 1; 2; 3; 4; 5; 6; 7] ] in
  init node cell.

(** Modelled from the spec: the entity queries of the base class [Mesh3d]
    ([entity(dim)], [numberOfEntities(dim)]) are not among the sources; they
    hand out the tables of the data structure and their sizes. *)
Definition number_of_nodes (mesh : HexahedronMesh) : Z := ds_NN (ds mesh).
Definition number_of_edges (mesh : HexahedronMesh) : Z :=
  Z.of_nat (length (ds_edge (ds mesh))).
Definition number_of_faces (mesh : HexahedronMesh) : Z :=
  Z.of_nat (length (ds_face (ds mesh))).
Definition number_of_cells (mesh : HexahedronMesh) : Z :=
  Z.of_nat (length (ds_cell (ds mesh))).

(** Modelled from the spec: [edge_to_ipoint] belongs to the base class and is
    not among the sources.  An edge's row holds its first end node, its
    [p - 1] own points, numbered contiguously from [NN] in edge order, and its
    second end node. *)
Definition edge_to_ipoint (mesh : HexahedronMesh) (p : Z)
  : PyResult (list (list Z)) :=
  let NN := number_of_nodes mesh in
  mapM (λ ke : Z * list Z,
          let '(k, e) := ke in
          n0 ← np.getitem e 0;
          n1 ← np.getitem e 1;
          Ok ([n0] ++ np.arange (NN + k * (p - 1)) (NN + (k + 1) * (p - 1))
                   ++ [n1]))
       (zip (seqZ 0 (number_of_edges mesh)) (ds_edge (ds mesh))).

(** ** Counting interpolation points *)

Inductive iptype : Set := ip_cell | ip_face | ip_edge | ip_node.

Definition number_of_local_ipoints (p : Z) (t : iptype) : Z :=
  match t with
  | ip_cell => (p + 1) ^ 3
  | ip_face => (p + 1) ^ 2
  | ip_edge => p + 1
  | ip_node => 1
  end.

Definition number_of_global_ipoints (mesh : HexahedronMesh) (p : Z)
  : PyResult Z :=
  let NN := number_of_nodes mesh in
  let NE := number_of_edges mesh in
  let NF := number_of_faces mesh in
  let NC := number_of_cells mesh in
  Ok (NN + NE * (p - 1) + NF * (p - 1) ^ 2 + NC * (p - 1) ^ 3).

(** ** Points of the faces *)

(** The multi-indices [(a, b)] of the [(p+1)^2] points of a face. *)
Definition multi_index2 (p : Z) : PyResult (list (list Z)) :=
  multiIndex ← np.zeros2 ((p + 1) ^ 2) 2;
  c0 ← np.repeat (np.arange 0 (p + 1)) (p + 1);
  multiIndex ← np.set_column multiIndex 0 c0;
  c1 ← np.tile (np.arange 0 (p + 1)) (p + 1);
  np.set_column multiIndex 1 c1.

Definition eqb_col (v : Z) (col : list Z) : list bool :=
  (λ x, bool_decide (x = v)) <$> col.

(** The local positions of the points of the four edges of a face. *)
Definition face_dofidx (multiIndex : list (list Z)) (p : Z)
  : PyResult (list (list Z)) :=
  m0 ← np.column multiIndex 0;
  m1 ← np.column multiIndex 1;
  dofidx ← np.zeros2 4 (p + 1);
  dofidx ← np.set_row dofidx 0 (np.where_ (eqb_col 0 m1));
  dofidx ← np.set_row dofidx 1 (np.where_ (eqb_col p m0));
  dofidx ← np.set_row dofidx 2 (np.where_ (eqb_col p m1));
  np.set_row dofidx 3 (np.where_ (eqb_col 0 m0)).

(** The points strictly inside: all coordinates in [1, p-1]. *)
Definition interior_mask (multiIndex : list (list Z)) (p : Z) : list bool :=
  zip_with andb
    (np.all_rows (λ x, bool_decide (0 < x)) multiIndex)
    (np.all_rows (λ x, bool_decide (x < p)) multiIndex).

(** The end nodes of the four edges of a face, as positions in the face. *)
Definition face_localEdge : list (list Z) := [ [0; 1]; [1; 2]; [3; 2]; [0; 3] ].

(** One turn of the loop over the four edges of the faces. *)
Definition face_edge_step (edge face face2edge edge2ipoint dofidx : list (list Z))
    (face2ipoint : list (list Z)) (i : Z) : PyResult (list (list Z)) :=
  ge ← np.column face2edge i;
  le ← np.getitem face_localEdge i;
  l0 ← np.getitem le 0;
  fstart ← np.column face l0;
  estart ← mapM (λ g, e ← np.getitem edge g; np.getitem e 0) ge;
  let idx := np.where_ (zip_with (λ a b, bool_decide (a ≠ b)) fstart estart) in
  di ← np.getitem dofidx i;
  fwd ← np.getitems edge2ipoint ge;
  face2ipoint ← np.put_columns face2ipoint di fwd;
  gidx ← np.getitems ge idx;
  bwd ← np.getitems edge2ipoint gidx;
  np.put_rows_columns face2ipoint idx di (reverse <$> bwd).

Definition face_to_ipoint (mesh : HexahedronMesh) (p : Z)
  : PyResult (list (list Z)) :=
  let NN := number_of_nodes mesh in
  let NE := number_of_edges mesh in
  let NF := number_of_faces mesh in
  let edge := ds_edge (ds mesh) in
  let face := ds_face (ds mesh) in
  let face2edge := ds_face2edge (ds mesh) in
  edge2ipoint ← edge_to_ipoint mesh p;
  multiIndex ← multi_index2 p;
  dofidx ← face_dofidx multiIndex p;
  face2ipoint ← np.zeros2 NF ((p + 1) ^ 2);
  face2ipoint ← foldM (face_edge_step edge face face2edge edge2ipoint dofidx)
                  face2ipoint (seqZ 0 4);
  let indof := interior_mask multiIndex p in
  own ← np.reshape_rows
          (np.arange (NN + NE * (p - 1))
                     (NN + NE * (p - 1) + NF * (p - 1) ^ 2)) NF;
  np.put_mask_columns face2ipoint indof own.

(** ** Points of the cells *)

(** The multi-indices [(i, j, k)] of the [(p+1)^3] points of a cell. *)
Definition multi_index3 (p : Z) : PyResult (list (list Z)) :=
  multiIndex ← np.zeros2 ((p + 1) ^ 3) 3;
  c0 ← np.repeat (np.arange 0 (p + 1)) ((p + 1) ^ 2);
  multiIndex ← np.set_column multiIndex 0 c0;
  r1 ← np.repeat (np.arange 0 (p + 1)) (p + 1);
  c1 ← np.tile r1 (p + 1);
  multiIndex ← np.set_column multiIndex 1 c1;
  c2 ← np.tile (np.arange 0 (p + 1)) ((p + 1) ^ 2);
  np.set_column multiIndex 2 c2.

(** The local positions of the points of the six faces of a cell: the
    coordinate [axis] is [0] or [p], for the six [(axis, side)] in turn. *)
Definition cell_dofidx (multiIndex : list (list Z)) (p : Z)
    (axes : list Z) : PyResult (list (list Z)) :=
  dofidx ← np.zeros2 6 ((p + 1) ^ 2);
  foldM (λ dofidx (sa : Z * Z),
           let '(s, axis) := sa in
           m ← np.column multiIndex axis;
           np.set_row dofidx s
             (np.where_ (eqb_col (if decide (s `mod` 2 = 0) then 0 else p) m)))
        dofidx (zip (seqZ 0 6) axes).

Definition cell_lf2e : list (list Z) :=
  [ [0; 1; 2; 3]; [8; 9; 10; 11];
    [3; 7; 11; 4]; [1; 6; 9; 5];
    [0; 5; 8; 4]; [2; 6; 10; 7] ].

(** [idx0 = argsort(g); idx1 = argsort(argsort(l)); idx0[arange(NC)[:, None], idx1]] *)
Definition match_positions (g l : list (list Z)) : PyResult (list (list Z)) :=
  let idx0 := np.argsort <$> g in
  let idx1 := np.argsort <$> l in
  let idx1 := np.argsort <$> idx1 in
  map2M np.getitems idx0 idx1.

(** One turn of the loop over the six faces of the cells. *)
Definition cell_face_step (p : Z)
    (cell2face face2edge cell2edge lf2e multiIndex2d face2ipoint dofidx
       : list (list Z))
    (cell2ipoint : list (list Z)) (i : Z) : PyResult (list (list Z)) :=
  cf ← np.column cell2face i;
  gfe ← np.getitems face2edge cf;
  li ← np.getitem lf2e i;
  lfe ← np.columns cell2edge li;
  idx0 ← match_positions gfe lfe;
  idx ← mapM (λ mrow, mapM (np.getitems mrow) idx0) multiIndex2d;
  let idx := np.swapaxes idx (length idx0) in
  idx ← mapM (mapM (λ v : list Z,
                      a ← np.getitem v 0;
                      b ← np.getitem v 1;
                      Ok (a * (p + 1) + b))) idx;
  vals ← map2M (λ f irow, frow ← np.getitem face2ipoint f;
                          np.getitems frow irow) cf idx;
  di ← np.getitem dofidx i;
  np.put_columns cell2ipoint di vals.

Definition cell_to_ipoint (mesh : HexahedronMesh) (p : Z)
  : PyResult (list (list Z)) :=
  let NN := number_of_nodes mesh in
  let NE := number_of_edges mesh in
  let NF := number_of_faces mesh in
  let NC := number_of_cells mesh in
  let cell2face := ds_cell2face (ds mesh) in
  let face2edge := ds_face2edge (ds mesh) in
  let cell2edge := ds_cell2edge (ds mesh) in
  face2ipoint ← face_to_ipoint mesh p;
  multiIndex ← multi_index3 p;
  dofidx ← cell_dofidx multiIndex p [2; 2; 0; 0; 1; 1];
  cell2ipoint ← np.zeros2 NC ((p + 1) ^ 3);
  let multiIndex2d := drop 1 <$> take (Z.to_nat ((p + 1) ^ 2)) multiIndex in
  let multiIndex2d :=
    zip_with app multiIndex2d (fmap (λ x, p - x) <$> multiIndex2d) in
  lf2e ← np.columns cell_lf2e [3; 0; 1; 2];
  face2edge ← np.columns face2edge [3; 0; 1; 2];
  cell2ipoint ← foldM (cell_face_step p cell2face face2edge cell2edge lf2e
                         multiIndex2d face2ipoint dofidx)
                  cell2ipoint (seqZ 0 6);
  let indof := interior_mask multiIndex p in
  own ← np.reshape_rows
          (np.arange (NN + NE * (p - 1) + NF * (p - 1) ^ 2)
                     (NN + NE * (p - 1) + NF * (p - 1) ^ 2 + NC * (p - 1) ^ 3))
          NC;
  np.put_mask_columns cell2ipoint indof own.

(** *** The earlier version, [cell_to_ipoint0] *)

Definition cell0_localFace : list (list Z) :=
  [ [0; 1; 2; 3]; [4; 5; 6; 7];
    [0; 3; 7; 4]; [1; 2; 6; 5];
    [0; 1; 5; 4]; [3; 2; 6; 7] ].

(** [multiIndex0[q]] holds, for the four corners of a face, the multi-index of
    point [q] counted from that corner: slice [2] is [(a, b)], slice [0] is
    [p - (a, b)], slice [1] is [(a, p - b)], slice [3] is [(p - a, b)]. *)
Definition multi_index0 (p : Z) : PyResult (list (list (list Z))) :=
  c0 ← np.repeat (np.arange 0 (p + 1)) (p + 1);
  c1 ← np.tile (np.arange 0 (p + 1)) (p + 1);
  Ok (zip_with (λ a b, [ [p - a; p - b]; [a; p - b]; [a; b]; [p - a; b] ])
        c0 c1).

Definition cell_face_step0 (p : Z)
    (cell2face face cell : list (list Z))
    (multiIndex0 : list (list (list Z))) (face2ipoint dofidx : list (list Z))
    (cell2ipoint : list (list Z)) (i : Z) : PyResult (list (list Z)) :=
  cf ← np.column cell2face i;
  gf ← np.getitems face cf;
  li ← np.getitem cell0_localFace i;
  lf ← np.columns cell li;
  idx0 ← match_positions gf lf;
  idx ← mapM (λ mrow, mapM (np.getitems mrow) idx0) multiIndex0;
  let idx := np.swapaxes idx (length idx0) in
  idx ← mapM (mapM (λ v : list (list Z),
                      v2 ← np.getitem v 2;
                      a ← np.getitem v2 0;
                      b ← np.getitem v2 1;
                      Ok (a * (p + 1) + b))) idx;
  vals ← map2M (λ f irow, frow ← np.getitem face2ipoint f;
                          np.getitems frow irow) cf idx;
  di ← np.getitem dofidx i;
  np.put_columns cell2ipoint di vals.

Definition cell_to_ipoint0 (mesh : HexahedronMesh) (p : Z)
  : PyResult (list (list Z)) :=
  let NN := number_of_nodes mesh in
  let NE := number_of_edges mesh in
  let NF := number_of_faces mesh in
  let NC := number_of_cells mesh in
  let face := ds_face (ds mesh) in
  let cell := ds_cell (ds mesh) in
  let cell2face := ds_cell2face (ds mesh) in
  face2ipoint ← face_to_ipoint mesh p;
  multiIndex ← multi_index3 p;
  dofidx ← cell_dofidx multiIndex p [2; 2; 1; 1; 0; 0];
  cell2ipoint ← np.zeros2 NC ((p + 1) ^ 3);
  multiIndex0 ← multi_index0 p;
  cell2ipoint ← foldM (cell_face_step0 p cell2face face cell multiIndex0
                         face2ipoint dofidx)
                  cell2ipoint (seqZ 0 6);
  let indof := interior_mask multiIndex p in
  own ← np.reshape_rows
          (np.arange (NN + NE * (p - 1) + NF * (p - 1) ^ 2)
                     (NN + NE * (p - 1) + NF * (p - 1) ^ 2 + NC * (p - 1) ^ 3))
          NC;
  np.put_mask_columns cell2ipoint indof own.


(** ** Coordinates of the interpolation points

    [interpolation_points] places the points of a cell by three nested
    [np.linspace]: along the edges [0-4], [3-7], [1-5], [2-6], then between
    them.  Coordinates are exact rationals here. *)

Definition interp (n t : Z) (a b : list Q) : list Q :=
  zip_with (λ x y, x + inject_Z t * (y - x) / inject_Z (n - 1))%Q a b.

(** [np.linspace(A, B, n)] where [A] and [B] are arrays of points; the result
    is laid out with the new axis outermost. *)
Definition linspace (A B : list (list Q)) (n : Z) : list (list (list Q)) :=
  (λ t, zip_with (interp n t) A B) <$> seqZ 0 n.

Definition cell_point_coordinates (node : list (list Q)) (c : list Z) (p : Z)
  : PyResult (list (list Q)) :=
  n0 ← np.getitem c 0; n1 ← np.getitem c 1; n2 ← np.getitem c 2;
  n3 ← np.getitem c 3; n4 ← np.getitem c 4; n5 ← np.getitem c 5;
  n6 ← np.getitem c 6; n7 ← np.getitem c 7;
  x0 ← np.getitem node n0; x1 ← np.getitem node n1; x2 ← np.getitem node n2;
  x3 ← np.getitem node n3; x4 ← np.getitem node n4; x5 ← np.getitem node n5;
  x6 ← np.getitem node n6; x7 ← np.getitem node n7;
  let p04 := mjoin (linspace [x0] [x4] (p + 1)) in
  let p37 := mjoin (linspace [x3] [x7] (p + 1)) in
  let p15 := mjoin (linspace [x1] [x5] (p + 1)) in
  let p26 := mjoin (linspace [x2] [x6] (p + 1)) in
  let p0 := mjoin (linspace p04 p37 (p + 1)) in
  let p1 := mjoin (linspace p15 p26 (p + 1)) in
  Ok (mjoin (linspace p0 p1 (p + 1))).

(** The coordinates that [interpolation_points] stores for every cell, in the
    order of the columns of [cell_to_ipoint]. *)
Definition interpolation_point_coordinates (mesh : HexahedronMesh) (p : Z)
  : PyResult (list (list (list Q))) :=
  mapM (λ c, cell_point_coordinates (node mesh) c p) (ds_cell (ds mesh)).

(** ** Floating-point arrays, by their shapes

    The geometric methods compute with floating-point arrays; what decides
    whether they return is the shape of their operands. *)

Module fp.

Definition shape : Type := list Z.

(** One operand of an [einsum] subscript string: an optional leading
    ellipsis and the letters. *)
Record subscript : Type := {
  ellipsis : bool;
  letters : list string
}.

Definition sub (s : list string) : subscript :=
  {| ellipsis := false; letters := s |}.
Definition dots (s : list string) : subscript :=
  {| ellipsis := true; letters := s |}.

(** The dimensions an operand gives to the ellipsis and to its letters.
    Without an ellipsis the operand must have one axis per letter. *)
Definition match_operand (s : subscript) (dims : shape)
  : PyResult (shape * list (string * Z)) :=
  let k := length (letters s) in
  if ellipsis s then
    if decide (k ≤ length dims)%nat
    then Ok (take (length dims - k) dims,
             zip (letters s) (drop (length dims - k) dims))
    else Raise ValueError
  else
    if decide (length dims = k) then Ok ([], zip (letters s) dims)
    else Raise ValueError.

Definition bind_letter (env : gmap string Z) (ld : string * Z)
  : PyResult (gmap string Z) :=
  match env !! ld.1 with
  | None => Ok (<[ld.1 := ld.2]> env)
  | Some d =>
      if decide (d = ld.2) then Ok env
      else if decide (d = 1) then Ok (<[ld.1 := ld.2]> env)
      else if decide (ld.2 = 1) then Ok env
      else Raise ValueError
  end.

(** Broadcasting of two shapes, aligned at the last axis. *)
Fixpoint broadcast_rev (a b : shape) : PyResult shape :=
  match a, b with
  | [], b => Ok b
  | a, [] => Ok a
  | x :: a, y :: b =>
      r ← broadcast_rev a b;
      if decide (x = y) then Ok (x :: r)
      else if decide (x = 1) then Ok (y :: r)
      else if decide (y = 1) then Ok (x :: r)
      else Raise ValueError
  end.
Definition broadcast_shapes (a b : shape) : PyResult shape :=
  r ← broadcast_rev (reverse a) (reverse b); Ok (reverse r).

(** [np.einsum(subscripts, *operands)]: the shape of the result. *)
Definition einsum (ins : list subscript) (out : subscript)
    (operands : list shape) : PyResult shape :=
  parts ← map2M match_operand ins operands;
  env ← foldM bind_letter ∅ (mjoin (snd <$> parts));
  ell ← foldM broadcast_shapes [] (fst <$> parts);
  dims ← mapM (λ l, match env !! l with
                    | Some d => Ok d
                    | None => Raise ValueError
                    end) (letters out);
  Ok ((if ellipsis out then ell else []) ++ dims).

Definition size (s : shape) : Z := foldr Z.mul 1 s.

(** [a.reshape(-1, c)] *)
Definition reshape_to_columns (s : shape) (c : Z) : PyResult shape :=
  if decide (0 < c ∧ size s `mod` c = 0) then Ok [size s `div` c; c]
  else Raise ValueError.

(** [np.zeros(shape)] *)
Definition zeros (s : shape) : PyResult shape :=
  if decide (Forall (λ d, 0 ≤ d) s) then Ok s else Raise ValueError.

(** [a[..., i] = v]: the last axis holds index [i] and [v] is broadcast to
    the other axes. *)
Definition set_last (a : shape) (i : Z) (v : shape) : PyResult shape :=
  match reverse a with
  | [] => Raise IndexError
  | d :: front =>
      _ ← np.index (Z.to_nat d) i;
      r ← broadcast_shapes (reverse front) v;
      if decide (r = reverse front) then Ok a else Raise ValueError
  end.

End fp.

(** Python names resolve in the local scope of the function, then in the
    module; anything else is a [NameError]. *)
Definition module_globals : list string :=
  [ "np"; "coo_matrix"; "csc_matrix"; "csr_matrix"; "spdiags"; "eye"; "tril";
    "triu"; "find"; "hstack"; "Mesh3d"; "Plotable"; "Mesh3dDataStructure";
    "HomogeneousMeshDS"; "HexahedronMeshDataStructure"; "HexahedronMesh" ].

Definition resolve (locals : list string) (x : string) : PyResult unit :=
  if decide (x ∈ locals ++ module_globals) then Ok tt else Raise NameError.

Definition recursion_limit : nat := 1000.

Section geometry.

(** The one-dimensional shape functions, the entity tables of the base
    class, the inverse of a stack of matrices and the one-dimensional
    Gauss-Legendre rule (its points and weights) are not part of this file;
    each is a function on shapes that may raise. *)
Variable shape_function_1d : fp.shape → Z → PyResult fp.shape.
Variable grad_shape_function_1d : fp.shape → Z → PyResult fp.shape.
Variable entity_nodes : Z → PyResult fp.shape.
Variable linalg_inv : fp.shape → PyResult fp.shape.
Variable gauss_legendre : Z → PyResult (fp.shape * fp.shape).

(** [integrator(q, etype)] followed by [get_quadrature_points_and_weights]:
    the tensor product of the one-dimensional rule, one factor per
    dimension of the entity. *)
Definition integrator (q : Z) (etype : iptype)
  : PyResult (list fp.shape * fp.shape) :=
  qf ← gauss_legendre q;
  let '(pts, ws) := qf in
  match etype with
  | ip_cell => Ok ([pts; pts; pts], ws ++ ws ++ ws)
  | ip_face => Ok ([pts; pts], ws ++ ws)
  | ip_edge => Ok ([pts], ws)
  | ip_node => Raise AttributeError
  end.

Definition grad_shape_function_locals : list string :=
  [ "self"; "bc"; "p"; "variables"; "TD"; "Dlambda"; "phi"; "R"; "gphi";
    "n"; "ldof"; "shape"; "J"; "G" ].

Definition first_fundamental_form (J : fp.shape) : PyResult fp.shape :=
  TD ← np.getitem J (-1);
  Ok (take (length J - 2) J ++ [TD; TD]).

(** [jacobi_matrix], given the method it calls. *)
Definition jacobi_matrix_with
    (grad_shape_function : list fp.shape → Z → string → PyResult fp.shape)
    (bc : list fp.shape) : PyResult fp.shape :=
  let TD := Z.of_nat (length bc) in
  entity ← entity_nodes TD;
  gphi ← grad_shape_function bc 1 "u";
  fp.einsum [fp.sub ["c"; "i"; "m"]; fp.dots ["i"; "n"]]
            (fp.dots ["c"; "m"; "n"]) [entity; gphi].

Fixpoint grad_shape_function (depth : nat) (bc : list fp.shape) (p : Z)
    (variables : string) : PyResult fp.shape :=
  match depth with
  | O => Raise RecursionError
  | S depth =>
      let TD := Z.of_nat (length bc) in
      let Dlambda : fp.shape := [2] in
      bc0 ← np.getitem bc 0;
      phi ← shape_function_1d bc0 p;
      R ← grad_shape_function_1d bc0 p;
      gphi ← fp.einsum [fp.dots ["i"; "j"]; fp.sub ["j"]] (fp.dots ["i"])
               [R; Dlambda];
      phi0 ← np.getitem phi 0;
      philast ← np.getitem phi (-1);
      let n := phi0 ^ TD in
      let ldof := philast ^ TD in
      gphi ← fp.zeros [n; ldof; TD];
      if decide (TD = 3) then
        let subs := [fp.sub ["i"; "m"]; fp.sub ["j"; "n"]; fp.sub ["k"; "o"]] in
        let out := fp.sub ["i"; "j"; "k"; "m"; "n"; "o"] in
        v ← fp.einsum subs out [gphi; phi; phi];
        v ← fp.reshape_to_columns v ldof;
        gphi ← fp.set_last gphi 0 v;
        v ← fp.einsum subs out [phi; gphi; phi];
        v ← fp.reshape_to_columns v ldof;
        gphi ← fp.set_last gphi 1 v;
        v ← fp.einsum subs out [phi; phi; gphi];
        v ← fp.reshape_to_columns v ldof;
        gphi ← fp.set_last gphi 2 v;
        if decide (variables = "x") then
          _ ← resolve grad_shape_function_locals "index";
          J ← jacobi_matrix_with (grad_shape_function depth) bc;
          J ← linalg_inv J;
          fp.einsum [fp.dots ["c"; "m"; "n"]; fp.dots ["l"; "m"]]
                    (fp.dots ["c"; "l"; "n"]) [J; gphi]
        else Ok gphi
      else if decide (TD = 2) then
        let subs := [fp.sub ["i"; "m"]; fp.sub ["j"; "n"]] in
        let out := fp.sub ["i"; "j"; "m"; "n"] in
        v ← fp.einsum subs out [gphi; phi];
        v ← fp.reshape_to_columns v ldof;
        gphi ← fp.set_last gphi 0 v;
        v ← fp.einsum subs out [phi; gphi];
        v ← fp.reshape_to_columns v ldof;
        gphi ← fp.set_last gphi 1 v;
        if decide (variables = "x") then
          _ ← resolve grad_shape_function_locals "index";
          J ← jacobi_matrix_with (grad_shape_function depth) bc;
          G ← first_fundamental_form J;
          G ← linalg_inv G;
          fp.einsum [fp.dots ["i"; "k"; "m"]; fp.dots ["i"; "m"; "n"];
                     fp.dots ["l"; "n"]]
                    (fp.dots ["i"; "l"; "k"]) [J; G; gphi]
        else Ok gphi
      else Ok gphi
  end.

Definition jacobi_matrix (depth : nat) (bc : list fp.shape)
  : PyResult fp.shape :=
  match depth with
  | O => Raise RecursionError
  | S depth => jacobi_matrix_with (grad_shape_function depth) bc
  end.

(** The quadrature-based [cell_volume] and [face_area] (the first
    definitions of these names in the class). *)
Definition cell_volume_quadrature (depth : nat) : PyResult fp.shape :=
  match depth with
  | O => Raise RecursionError
  | S depth =>
      qf ← integrator 2 ip_cell;
      let '(bcs, ws) := qf in
      J ← jacobi_matrix depth bcs;
      let detJ := take (length J - 2) J in
      fp.einsum [fp.dots []; fp.dots ["c"]] (fp.sub ["c"]) [ws; detJ]
  end.

Definition face_area_quadrature (depth : nat) : PyResult fp.shape :=
  match depth with
  | O => Raise RecursionError
  | S depth =>
      qf ← integrator 2 ip_face;
      let '(bcs, ws) := qf in
      J ← jacobi_matrix depth bcs;
      let n := take (length J - 1) J in
      fp.einsum [fp.sub ["q"]; fp.sub ["q"; "i"]] (fp.sub ["i"])
                [ws; take (length n - 1) n]
  end.

End geometry.

(** ** The class body: later definitions of a name replace earlier ones *)

Inductive pyvalue : Type :=
| PyNone
| PyArray (s : fp.shape).

Inductive method_body : Set :=
| cell_volume_by_quadrature
| face_area_by_quadrature
| body_pass.

(** The [def] statements of the class for the measures of cells and faces, in
    the order of the source file. *)
Definition class_body : list (string * method_body) :=
  [ ("cell_volume", cell_volume_by_quadrature);
    ("face_area", face_area_by_quadrature);
    ("cell_volume", body_pass);
    ("face_area", body_pass);
    ("jacobi_at_corner", body_pass);
    ("cell_quality", body_pass) ].

Definition class_namespace : gmap string method_body :=
  foldl (λ ns d, <[d.1 := d.2]> ns) ∅ class_body.

Section methods.

Variable shape_function_1d : fp.shape → Z → PyResult fp.shape.
Variable grad_shape_function_1d : fp.shape → Z → PyResult fp.shape.
Variable entity_nodes : Z → PyResult fp.shape.
Variable linalg_inv : fp.shape → PyResult fp.shape.
Variable gauss_legendre : Z → PyResult (fp.shape * fp.shape).

Definition run_body (b : method_body) : PyResult pyvalue :=
  match b with
  | cell_volume_by_quadrature =>
      v ← cell_volume_quadrature shape_function_1d grad_shape_function_1d
            entity_nodes linalg_inv gauss_legendre recursion_limit;
      Ok (PyArray v)
  | face_area_by_quadrature =>
      v ← face_area_quadrature shape_function_1d grad_shape_function_1d
            entity_nodes linalg_inv gauss_legendre recursion_limit;
      Ok (PyArray v)
  | body_pass => Ok PyNone
  end.

(** [mesh.name()] for a method without arguments. *)
Definition call_method (mesh : HexahedronMesh) (name : string)
  : PyResult pyvalue :=
  match class_namespace !! name with
  | Some b => run_body b
  | None => Raise AttributeError
  end.

End methods.

(** ** Meshes of a box: [from_box] and [from_unit_cube]

    More NumPy operations, as [from_box] uses them.  Arrays of floats hold
    exact rationals. *)

Module nd.

(** [np.zeros((r, c))] of floats. *)
Definition zeros2 (r c : Z) : PyResult (list (list Q)) :=
  k ← np.dim r; w ← np.dim c; Ok (replicate k (replicate w 0%Q)).

(** [a[:, j] = col] for an array of floats. *)
Definition set_column (a : list (list Q)) (j : Z) (col : list Q)
  : PyResult (list (list Q)) :=
  vs ← np.broadcast (length a) col;
  map2M (λ row v, np.setitem row j v) a vs.

(** One axis of [np.mgrid[start:stop:n*1j]]: [|n|] points; the step is
    [(stop - start) / (|n| - 1)] unless [|n| = 1], where it stays 1. *)
Definition grid_step (start stop : Q) (n : Z) : Q :=
  if decide (Z.abs n = 1) then 1%Q
  else ((stop - start) / inject_Z (Z.abs n - 1))%Q.
Definition grid_point (start stop : Q) (n : Z) (i : Z) : Q :=
  (inject_Z i * grid_step start stop n + start)%Q.
Definition grid_axis (start stop : Q) (n : Z) : list Q :=
  grid_point start stop n <$> seqZ 0 (Z.abs n).

(** The three arrays of [np.mgrid] over three axes, and [a.flat] or
    [a.flatten()] of an array with three axes. *)
Definition mgrid3 (xs ys zs : list Q)
  : list (list (list Q)) * list (list (list Q)) * list (list (list Q)) :=
  ((λ x, replicate (length ys) (replicate (length zs) x)) <$> xs,
   replicate (length xs) ((λ y, replicate (length zs) y) <$> ys),
   replicate (length xs) (replicate (length ys) zs)).
Definition flat {A} (a : list (list (list A))) : list A := mjoin (mjoin a).

(** The shape that [reshape] gives to an array of [size] entries: no
    dimension below [-1], at most one [-1], which is inferred if the others
    have a product that is not zero and divides the size. *)
Definition infer_dims (size : Z) (dims : list Z) : PyResult (list Z) :=
  if decide (Exists (λ d, d < -1) dims) then Raise ValueError
  else
    match filter (λ d, d = -1) dims with
    | [] => if decide (foldr Z.mul 1 dims = size) then Ok dims
            else Raise ValueError
    | [_] =>
        let q := foldr Z.mul 1 (filter (λ d, d ≠ -1) dims) in
        if decide (q = 0) then Raise ValueError
        else if decide (size `mod` q = 0)
             then Ok ((λ d, if decide (d = -1) then size `div` q else d)
                        <$> dims)
             else Raise ValueError
    | _ => Raise ValueError
    end.

(** [l.reshape(a, b, c)] *)
Definition reshape3 (l : list Z) (a b c : Z)
  : PyResult (list (list (list Z))) :=
  dims ← infer_dims (Z.of_nat (length l)) [a; b; c];
  match dims with
  | [a; b; c] =>
      Ok (np.chunks (Z.to_nat b) (Z.to_nat c)
            <$> np.chunks (Z.to_nat a) (Z.to_nat (b * c)) l)
  | _ => Raise ValueError
  end.

(** [l[:-1]] *)
Definition drop_last {A} (l : list A) : list A := take (length l - 1) l.

(** [a[mask]] with a boolean array along the first axis, which must have the
    length of that axis. *)
Fixpoint pick {A} (a : list A) (mask : list bool) : list A :=
  match a, mask with
  | x :: a, b :: mask => if b then x :: pick a mask else pick a mask
  | _, _ => []
  end.
Definition select {A} (a : list A) (mask : list bool) : PyResult (list A) :=
  if decide (length mask = length a) then Ok (pick a mask)
  else Raise IndexError.

(** [flags[idx] = True] for an array [idx] of indices with two axes. *)
Definition mark (flags : list bool) (idx : list (list Z))
  : PyResult (list bool) :=
  foldM (λ acc i, np.setitem acc i true) flags (mjoin idx).

(** [np.sum(pts, axis=0)] of a list of points with three coordinates. *)
Definition sum_points (pts : list (list Q)) : list Q :=
  foldr (zip_with Qplus) [0; 0; 0]%Q pts.

End nd.

(** The body of [if threshold is not None:] in [from_box]: the cells whose
    barycentre the function [threshold] marks are removed, then the nodes
    that no cell uses, and the cells are renumbered. *)
Definition from_box_threshold
    (threshold : list (list Q) → PyResult (list bool)) (NN : Z)
    (node : list (list Q)) (cell : list (list Z))
  : PyResult (list (list Q) * list (list Z)) :=
  pts ← mapM (np.getitems node) cell;
  let width := match cell with
               | [] => 8
               | row :: _ => Z.of_nat (length row)
               end in
  let bc := (λ ps, (λ s, s / inject_Z width)%Q <$> nd.sum_points ps) <$> pts in
  isDelCell ← threshold bc;
  cell ← nd.select cell (negb <$> isDelCell);
  isValidNode ← np.dim NN ≫= λ k, Ok (replicate k false);
  isValidNode ← nd.mark isValidNode cell;
  node ← nd.select node isValidNode;
  idxMap ← np.zeros NN;
  idxMap ← np.put_mask idxMap isValidNode
             (np.arange 0 (Z.of_nat (length (filter (λ b, b = true)
                                               isValidNode))));
  cell ← mapM (np.getitems idxMap) cell;
  Ok (node, cell).

Section from_box.

(** The optional argument [threshold]: a function of the array of the
    barycentres of the cells that returns a boolean array (or raises). *)
Variable threshold : option (list (list Q) → PyResult (list bool)).

(** The arrays [node] and [cell] with which [from_box] calls the
    constructor. *)
Definition from_box_arrays (box : list Q) (nx ny nz : Z)
  : PyResult (list (list Q) * list (list Z)) :=
  let NN := (nx + 1) * (ny + 1) * (nz + 1) in
  let NC := nx * ny * nz in
  node ← nd.zeros2 NN 3;
  b0 ← np.getitem box 0; b1 ← np.getitem box 1;
  b2 ← np.getitem box 2; b3 ← np.getitem box 3;
  b4 ← np.getitem box 4; b5 ← np.getitem box 5;
  let '(X, Y, Z) :=
    nd.mgrid3 (nd.grid_axis b0 b1 (nx + 1)) (nd.grid_axis b2 b3 (ny + 1))
              (nd.grid_axis b4 b5 (nz + 1)) in
  node ← nd.set_column node 0 (nd.flat X);
  node ← nd.set_column node 1 (nd.flat Y);
  node ← nd.set_column node 2 (nd.flat Z);
  idx ← nd.reshape3 (np.arange 0 NN) (nx + 1) (ny + 1) (nz + 1);
  let c := (λ plane, nd.drop_last <$> nd.drop_last plane) <$> nd.drop_last idx in
  cell ← np.zeros2 NC 8;
  let nyz := (ny + 1) * (nz + 1) in
  cell ← np.set_column cell 0 (nd.flat c);
  c0 ← np.column cell 0;
  cell ← np.set_column cell 1 ((λ v, v + nyz) <$> c0);
  c1 ← np.column cell 1;
  cell ← np.set_column cell 2 ((λ v, v + nz + 1) <$> c1);
  c0 ← np.column cell 0;
  cell ← np.set_column cell 3 ((λ v, v + nz + 1) <$> c0);
  c0 ← np.column cell 0;
  cell ← np.set_column cell 4 ((λ v, v + 1) <$> c0);
  c4 ← np.column cell 4;
  cell ← np.set_column cell 5 ((λ v, v + nyz) <$> c4);
  c5 ← np.column cell 5;
  cell ← np.set_column cell 6 ((λ v, v + nz + 1) <$> c5);
  c4 ← np.column cell 4;
  cell ← np.set_column cell 7 ((λ v, v + nz + 1) <$> c4);
  match threshold with
  | None => Ok (node, cell)
  | Some threshold => from_box_threshold threshold NN node cell
  end.

(** [from_box(box, nx, ny, nz, threshold)] *)
Definition from_box (box : list Q) (nx ny nz : Z) : PyResult HexahedronMesh :=
  nc ← from_box_arrays box nx ny nz;
  init nc.1 nc.2.

(** [from_unit_cube(nx, ny, nz, threshold)] *)
Definition from_unit_cube (nx ny nz : Z) : PyResult HexahedronMesh :=
  from_box [0; 1; 0; 1; 0; 1]%Q nx ny nz.

End from_box.

(** The local vertices of a cell as corners of the unit cube. *)
Definition corner_offsets : list (list Z) :=
  [ [0; 0; 0]; [1; 0; 0]; [1; 1; 0]; [0; 1; 0];
    [0; 0; 1]; [1; 0; 1]; [1; 1; 1]; [0; 1; 1] ].

(** ** Shape functions and points of the reference element, by shapes

    The argument [bc] of [shape_function] and [bc_to_point] is a tuple of
    arrays, one per direction of the reference element, or one array. *)

Inductive bcarg : Type :=
| bc_tuple (vals : list fp.shape)
| bc_array (val : fp.shape).

Module gather.

(** [a[:, cols]] with a list of column numbers: the array needs two axes and
    every number must be an index of the second one. *)
Definition columns (a : fp.shape) (cols : list Z) : PyResult fp.shape :=
  match a with
  | r :: c :: rest =>
      _ ← mapM (np.index (Z.to_nat c)) cols;
      Ok (r :: Z.of_nat (length cols) :: rest)
  | _ => Raise IndexError
  end.

(** [node[t]] with an array [t] of indices of the first axis (their values
    do not show in the shapes and are taken to be in range). *)
Definition rows (node t : fp.shape) : PyResult fp.shape :=
  match node with
  | [] => Raise IndexError
  | _ :: rest => Ok (t ++ rest)
  end.

(** A tuple of arrays where an array is expected: arrays of one shape are
    stacked along a new first axis, others are refused. *)
Definition stack (vals : list fp.shape) : PyResult fp.shape :=
  match vals with
  | [] => Ok [0]
  | s :: rest =>
      if decide (Forall (λ s', s' = s) rest)
      then Ok (Z.of_nat (length vals) :: s)
      else Raise ValueError
  end.

End gather.

Section reference_element.

(** The one-dimensional shape functions [_shape_function] and the entity
    tables [entity(name)] belong to the base class; by shapes, each is a
    function that may raise. *)
Variable shape_function_1d : fp.shape → Z → PyResult fp.shape.
Variable entity : string → PyResult fp.shape.

(** [shape_function(bc, p)] *)
Definition shape_function (bc : bcarg) (p : Z) : PyResult fp.shape :=
  match bc with
  | bc_tuple vals =>
      let TD := Z.of_nat (length vals) in
      phi ← mapM (λ val, shape_function_1d val p) vals;
      let ldof := (p + 1) ^ TD in
      if decide (TD = 3) then
        phi0 ← np.getitem phi 0;
        phi1 ← np.getitem phi 1;
        phi2 ← np.getitem phi 2;
        v ← fp.einsum [fp.sub ["i"; "m"]; fp.sub ["j"; "n"]; fp.sub ["k"; "o"]]
              (fp.sub ["i"; "j"; "k"; "m"; "n"; "o"]) [phi0; phi1; phi2];
        fp.reshape_to_columns v ldof
      else
        phi0 ← np.getitem phi 0;
        phi1 ← np.getitem phi 1;
        v ← fp.einsum [fp.sub ["i"; "m"]; fp.sub ["j"; "n"]]
              (fp.sub ["i"; "j"; "m"; "n"]) [phi0; phi1];
        fp.reshape_to_columns v ldof
  | bc_array val => shape_function_1d val p
  end.

(** [bc_to_point(bc)] with the default [index], the whole table.  The three
    cases are two [if] statements; the [else] belongs to the second one. *)
Definition bc_to_point (bc : bcarg) : PyResult fp.shape :=
  node ← entity "node";
  st ← match bc with
       | bc_tuple [b0; b1; b2] =>
           cell ← entity "cell";
           bc0 ← fp.reshape_to_columns b0 2;
           bc1 ← fp.reshape_to_columns b1 2;
           bc2 ← fp.reshape_to_columns b2 2;
           v ← fp.einsum
                 [fp.sub ["i"; "m"]; fp.sub ["j"; "n"]; fp.sub ["k"; "o"]]
                 (fp.sub ["i"; "j"; "k"; "m"; "n"; "o"]) [bc0; bc1; bc2];
           bc ← fp.reshape_to_columns v 8;
           t ← gather.columns cell [0; 4; 5; 7; 1; 5; 2; 6];
           x ← gather.rows node t;
           p ← fp.einsum [fp.dots ["j"]; fp.sub ["c"; "j"; "k"]]
                 (fp.dots ["c"; "k"]) [bc; x];
           Ok (bc_array bc, Some p)
       | _ => Ok (bc, None)
       end;
  let '(bc, p) := st in
  match bc with
  | bc_tuple [b0; b1] =>
      face ← entity "face";
      bc0 ← fp.reshape_to_columns b0 2;
      bc1 ← fp.reshape_to_columns b1 2;
      v ← fp.einsum [fp.sub ["i"; "m"]; fp.sub ["j"; "n"]]
            (fp.sub ["i"; "j"; "m"; "n"]) [bc0; bc1];
      bc ← fp.reshape_to_columns v 4;
      t ← gather.columns face [0; 3; 1; 2];
      x ← gather.rows node t;
      fp.einsum [fp.dots ["j"]; fp.sub ["c"; "j"; "k"]]
        (fp.dots ["c"; "k"]) [bc; x]
  | _ =>
      edge ← entity "edge";
      bc ← match bc with
           | bc_array val => Ok val
           | bc_tuple vals => gather.stack vals
           end;
      x ← gather.rows node edge;
      fp.einsum [fp.dots ["j"]; fp.sub ["e"; "j"; "k"]]
        (fp.dots ["e"; "k"]) [bc; x]
  end.

End reference_element.

(** ** The first fundamental form, by entries

    [first_fundamental_form] treats every matrix of the array [J] alone.
    Here [J] is one matrix, given by its rows, with [TD = J.shape[-1]]
    columns; the entries are exact rationals. *)

#[global] Instance Q_inhabited : Inhabited Q := populate 0%Q.

Module values.

(** [np.einsum('...d, ...d->...', u, v)] for two vectors. *)
Definition dot (u v : list Q) : Q := foldr Qplus 0%Q (zip_with Qmult u v).

(** [G[i, j]] and [G[i, j] = v] *)
Definition getitem2 (G : list (list Q)) (i j : Z) : PyResult Q :=
  row ← np.getitem G i; np.getitem row j.
Definition setitem2 (G : list (list Q)) (i j : Z) (v : Q)
  : PyResult (list (list Q)) :=
  row ← np.getitem G i;
  row ← np.setitem row j v;
  np.setitem G i row.

Definition first_fundamental_form (J : list (list Q)) (TD : Z)
  : PyResult (list (list Q)) :=
  G ← nd.zeros2 TD TD;
  foldM (λ G i,
           Ji ← np.column J i;
           G ← setitem2 G i i (dot Ji Ji);
           foldM (λ G j,
                    Jj ← np.column J j;
                    G ← setitem2 G i j (dot Ji Jj);
                    v ← getitem2 G i j;
                    setitem2 G j i v)
                 G (np.arange (i + 1) TD))
        G (np.arange 0 TD).

End values.

(** ** Well-formed meshes *)

(** A table with [rows] rows of [width] entries; a table whose entries lie in
    [[lo, hi)]. *)
Definition table_shape (rows width : nat) (t : list (list Z)) : Prop :=
  length t = rows ∧ Forall (λ r, length r = width) t.
Definition entries_in (lo hi : Z) (t : list (list Z)) : Prop :=
  Forall (Forall (λ v, lo ≤ v < hi)) t.

(** What the numbering relies on: there is a cell, every table has the shape
    of its kind, and every reference to an edge, a face or a node is the
    index of one. *)
Definition well_formed (mesh : HexahedronMesh) : Prop :=
  let d := ds mesh in
  let NE := length (ds_edge d) in
  let NF := length (ds_face d) in
  let NC := length (ds_cell d) in
  (1 ≤ NC)%nat ∧
  table_shape NC 8 (ds_cell d) ∧
  table_shape NF 4 (ds_face d) ∧
  table_shape NE 2 (ds_edge d) ∧
  entries_in 0 (ds_NN d) (ds_edge d) ∧
  table_shape NC 6 (ds_cell2face d) ∧
  entries_in 0 (Z.of_nat NF) (ds_cell2face d) ∧
  table_shape NC 12 (ds_cell2edge d) ∧
  table_shape NF 4 (ds_face2edge d) ∧
  entries_in 0 (Z.of_nat NE) (ds_face2edge d).

#[global] Instance well_formed_dec mesh : Decision (well_formed mesh).
Proof. unfold well_formed, table_shape, entries_in. apply _. Defined.

(** The edge in slot [i] of every face joins the two nodes that the face has
    at the ends of that slot, in one order or the other, and these nodes
    differ. *)
Definition edges_fit_faces (mesh : HexahedronMesh) : Prop :=
  Forall2 (λ f fe,
    length f = 4%nat ∧
    Forall2 (λ le g,
      let a := f !!! Z.to_nat (le !!! 0%nat) in
      let b := f !!! Z.to_nat (le !!! 1%nat) in
      a ≠ b ∧ (ds_edge (ds mesh) !! Z.to_nat g = Some [a; b]
               ∨ ds_edge (ds mesh) !! Z.to_nat g = Some [b; a]))
      face_localEdge fe)
    (ds_face (ds mesh)) (ds_face2edge (ds mesh)).

#[global] Instance edges_fit_faces_dec mesh : Decision (edges_fit_faces mesh).
Proof. unfold edges_fit_faces. apply _. Defined.

(** ** Meshes used as test inputs *)

(** Two unit cubes stacked along [z]; the upper cell lists its nodes so that
    the shared face [4 5 6 7] is its local face 5, a quarter turn away from
    the order in which the lower cell registered it. *)
Definition stacked_nodes : list (list Q) :=
  [ [0; 0; 0]; [1; 0; 0]; [1; 1; 0]; [0; 1; 0];
    [0; 0; 1]; [1; 0; 1]; [1; 1; 1]; [0; 1; 1];
    [0; 0; 2]; [1; 0; 2]; [1; 1; 2]; [0; 1; 2] ]%Q.

Definition twisted_cells : list (list Z) :=
  [ [0; 1; 2; 3; 4; 5; 6; 7]; [11; 8; 4; 7; 10; 9; 5; 6] ].

Definition twisted_mesh : PyResult HexahedronMesh :=
  init stacked_nodes twisted_cells.

(** One cube and a ninth node that no cell uses. *)
Definition cube_with_spare_node : PyResult HexahedronMesh :=
  init (take 9 stacked_nodes) [ [0; 1; 2; 3; 4; 5; 6; 7] ].

(** One cube whose table [cell2face] names face 0 in all six slots: the
    tables have the right shapes, but the constructor does not build them. *)
Definition cube_with_one_face : PyResult HexahedronMesh :=
  mesh ← init (take 8 stacked_nodes) [ [0; 1; 2; 3; 4; 5; 6; 7] ];
  Ok {| node := node mesh;
        ds := {| ds_NN := ds_NN (ds mesh); ds_cell := ds_cell (ds mesh);
                 ds_face := ds_face (ds mesh); ds_edge := ds_edge (ds mesh);
                 ds_cell2face := [ [0; 0; 0; 0; 0; 0] ];
                 ds_cell2edge := ds_cell2edge (ds mesh);
                 ds_face2edge := ds_face2edge (ds mesh);
                 ds_face2cell := ds_face2cell (ds mesh) |} |}.

Definition same_point (a b : list Q) : Prop := Forall2 Qeq a b.

(** The entry of a table in row [r], column [c]. *)
Definition entry {A} (t : list (list A)) (r c : nat) : option A :=
  t !! r ≫= (.!! c).

(** The largest entry of a table of indices (none is negative). *)
Definition table_max (t : list (list Z)) : Z := foldr Z.max 0 (mjoin t).


(** The edge vectors of a cell at its local vertex 0 and their determinant:
    the Jacobian of the trilinear map at that corner. *)
Definition vector (a b : list Q) : list Q := zip_with Qminus b a.

Definition det3 (u v w : list Q) : Q :=
  match u, v, w with
  | [u0; u1; u2], [v0; v1; v2], [w0; w1; w2] =>
      (u0 * (v1 * w2 - v2 * w1) - u1 * (v0 * w2 - v2 * w0)
       + u2 * (v0 * w1 - v1 * w0))%Q
  | _, _, _ => 0%Q
  end.

Definition det_at_vertex0 (mesh : HexahedronMesh) (c : list Z) : PyResult Q :=
  n0 ← np.getitem c 0; n1 ← np.getitem c 1;
  n3 ← np.getitem c 3; n4 ← np.getitem c 4;
  x0 ← np.getitem (node mesh) n0; x1 ← np.getitem (node mesh) n1;
  x3 ← np.getitem (node mesh) n3; x4 ← np.getitem (node mesh) n4;
  Ok (det3 (vector x0 x1) (vector x0 x3) (vector x0 x4)).

(** The same at every local vertex: the three edges of the reference cube
    that meet at vertex [v], each from its lower to its upper end (vertex
    [v] of the cube is the [v]-th of (0,0,0), (1,0,0), (1,1,0), (0,1,0),
    (0,0,1), (1,0,1), (1,1,1), (0,1,1)). *)
Definition corner_edges : list (list (Z * Z)) :=
  [ [(0, 1); (0, 3); (0, 4)]; [(0, 1); (1, 2); (1, 5)];
    [(3, 2); (1, 2); (2, 6)]; [(3, 2); (0, 3); (3, 7)];
    [(4, 5); (4, 7); (0, 4)]; [(4, 5); (5, 6); (1, 5)];
    [(7, 6); (5, 6); (2, 6)]; [(7, 6); (4, 7); (3, 7)] ].

Definition edge_vector (mesh : HexahedronMesh) (c : list Z) (e : Z * Z)
  : PyResult (list Q) :=
  a ← np.getitem c e.1; b ← np.getitem c e.2;
  xa ← np.getitem (node mesh) a; xb ← np.getitem (node mesh) b;
  Ok (vector xa xb).

Definition det_at_vertex (mesh : HexahedronMesh) (c : list Z) (v : Z)
  : PyResult Q :=
  es ← np.getitem corner_edges v;
  ds ← mapM (edge_vector mesh c) es;
  match ds with
  | [du; dv; dw] => Ok (det3 du dv dw)
  | _ => Raise IndexError
  end.

(** The height of a point [x] in the direction [n]. *)
Definition height (n x : list Q) : Q :=
  match n, x with
  | [a; b; c], [x0; x1; x2] => (a * x0 + b * x1 + c * x2)%Q
  | _, _ => 0%Q
  end.

(** * Properties *)

(** ** Pure counterparts of the array code

    The functions above follow the source statement by statement and may
    raise.  The lemmas below relate them, under the conditions in which they
    do not raise, to the following total functions and predicates. *)

(** What [row[cols] = vals] leaves in the row when every store is in range. *)
Definition store (acc : list Z) (cv : Z * Z) : list Z :=
  <[Z.to_nat cv.1 := cv.2]> acc.
Definition stores (row cols vals : list Z) : list Z :=
  foldl store row (zip cols vals).

Definition in_range (n : nat) (i : Z) : Prop := 0 ≤ i < Z.of_nat n.

(** The values of one coordinate, and the two ways they fill a column: every
    value [p+1] times in a row, or the whole range [p+1] times. *)
Definition axis_values (p : Z) : list Z := seqZ 0 (p + 1).
Definition axis_outer (p : Z) : list Z :=
  axis_values p ≫= replicate (Z.to_nat (p + 1)).
Definition axis_inner (p : Z) : list Z :=
  mjoin (replicate (Z.to_nat (p + 1)) (axis_values p)).

(** The local position of point [t] of the edge in slot [i]. *)
Definition edge_position (p i t : Z) : Z :=
  if decide (i = 0) then t * (p + 1)
  else if decide (i = 1) then p * (p + 1) + t
  else if decide (i = 2) then t * (p + 1) + p
  else t.

Definition edge_positions (p i : Z) : list Z :=
  edge_position p i <$> seqZ 0 (p + 1).

Definition inside (p x : Z) : bool := bool_decide (0 < x) && bool_decide (x < p).

Definition count_true (m : list bool) : nat := length (filter (λ b, b = true) m).

Definition cube_axis0 (p : Z) : list Z :=
  axis_values p ≫= replicate (Z.to_nat ((p + 1) ^ 2)).
Definition cube_axis1 (p : Z) : list Z :=
  mjoin (replicate (Z.to_nat (p + 1)) (axis_outer p)).
Definition cube_axis2 (p : Z) : list Z :=
  mjoin (replicate (Z.to_nat ((p + 1) ^ 2)) (axis_values p)).
Definition square_rows (p : Z) : list (list Z) :=
  zip_with (λ a b, [a; b]) (axis_outer p) (axis_inner p).
Definition cube_rows (p : Z) : list (list Z) :=
  zip_with (λ a bc, a :: bc) (cube_axis0 p)
    (zip_with (λ b c, [b; c]) (cube_axis1 p) (cube_axis2 p)).

Definition good_positions (len size : nat) (d : list Z) : Prop :=
  length d = len ∧ Forall (in_range size) d ∧ NoDup d.

(** The row of edge [k] with nodes [e]. *)
Definition edge_row (NN p : Z) (ke : Z * list Z) : list Z :=
  [ke.2 !!! 0%nat] ++ seqZ (NN + ke.1 * (p - 1)) (p - 1) ++ [ke.2 !!! 1%nat].

Definition edge_rows (mesh : HexahedronMesh) (p : Z) : list (list Z) :=
  edge_row (number_of_nodes mesh) p
    <$> zip (seqZ 0 (number_of_edges mesh)) (ds_edge (ds mesh)).

(** [row'] is [row] after the values [o] were stored at the positions [di]. *)
Definition written (di o row row' : list Z) : Prop :=
  length row' = length row ∧
  (∀ j, Forall (λ c, Z.to_nat c ≠ j) di → row' !! j = row !! j) ∧
  (∀ t c v, di !! t = Some c → o !! t = Some v → row' !! Z.to_nat c = Some v) ∧
  (∀ P : Z → Prop, Forall P row → Forall P o → Forall P row').

(** The row of the edge in slot [i] of face [f], in the direction in which
    the face runs along it. *)
Definition oriented_edge_row (edge face face2edge e2i : list (list Z))
    (i : Z) (f : nat) : list Z :=
  let g := Z.to_nat ((face2edge !!! f) !!! Z.to_nat i) in
  let l0 := Z.to_nat ((face_localEdge !!! Z.to_nat i) !!! 0%nat) in
  if decide ((face !!! f) !!! l0 = (edge !!! g) !!! 0%nat)
  then e2i !!! g else reverse (e2i !!! g).

(** The vertex of the face at the end [T = 0] or [T = p] of the edge in slot
    [i]. *)
Definition end_vertex (i T : Z) : Z :=
  (face_localEdge !!! Z.to_nat i) !!! (if decide (T = 0) then 0%nat else 1%nat).

(** The row of face [f] holds the oriented rows of its first [k] edges. *)
Definition edges_written (mesh : HexahedronMesh) (p k : Z) (f : nat)
    (row : list Z) : Prop :=
  ∀ i t c v, 0 ≤ i < k → edge_positions p i !! t = Some c →
             oriented_edge_row (ds_edge (ds mesh)) (ds_face (ds mesh))
               (ds_face2edge (ds mesh)) (edge_rows mesh p) i f !! t = Some v →
             row !! Z.to_nat c = Some v.

(** The key of the face in local slot [i] of a cell. *)
Definition face_key (cellnodes : list Z) (i : Z) : list Z :=
  entity_key (local_entries cellnodes (localFace !!! Z.to_nat i)).

Definition face_keys (cellnodes : list Z) : list (list Z) :=
  face_key cellnodes <$> seqZ 0 NFC.

(** The number of cells that claim the face key [k]. *)
Definition claims (k : list Z) (cell : list (list Z)) : nat :=
  length (filter (λ c, k ∈ face_keys c) cell).

(** A key is claimed once it is in the map; its face is full once the slot of
    the second cell is taken. *)
Definition claimed (k : list Z) (m : gmap (list Z) Z) : Prop := is_Some (m !! k).
Definition full (k : list Z) (m : gmap (list Z) Z) (f2c : list (list Z)) : Prop :=
  ∃ f, m !! k = Some f ∧ (f2c !!! Z.to_nat f) !!! 1%nat ≠ -1.
Definition indexed (m : gmap (list Z) Z) (faces f2c : list (list Z)) : Prop :=
  length f2c = length faces
  ∧ ∀ k f, m !! k = Some f → 0 ≤ f < Z.of_nat (length f2c).

(** How one state of the face tables follows another. *)
Record extends (m : gmap (list Z) Z) (f2c : list (list Z))
    (m' : gmap (list Z) Z) (f2c' : list (list Z)) : Prop := {
  extends_claimed : ∀ k, claimed k m → claimed k m';
  extends_full : ∀ k, full k m f2c → full k m' f2c'
}.

(** The edge [g] joins the end nodes of the slot [le] of the face [f]. *)
Definition edge_fits (edges : list (list Z)) (f le : list Z) (g : Z) : Prop :=
  let a := f !!! Z.to_nat (le !!! 0%nat) in
  let b := f !!! Z.to_nat (le !!! 1%nat) in
  0 ≤ g ∧ a ≠ b
  ∧ (edges !! Z.to_nat g = Some [a; b] ∨ edges !! Z.to_nat g = Some [b; a]).

Definition face_fits (edges : list (list Z)) (f fe : list Z) : Prop :=
  length f = 4%nat ∧ Forall2 (edge_fits edges f) face_localEdge fe.

(** Every key of the edge map leads to an edge with this key; edges have two
    nodes of the mesh. *)
Definition edges_ok (NN : Z) (em : gmap (list Z) Z) (edges : list (list Z))
  : Prop :=
  (∀ k e, em !! k = Some e →
          0 ≤ e ∧ ∃ nodes, edges !! Z.to_nat e = Some nodes ∧ entity_key nodes = k)
  ∧ Forall (λ e, length e = 2%nat ∧ Forall (λ v, 0 ≤ v < NN) e) edges.

(** The entry [g] of a row of [cell2edge] stands for the edge with the nodes
    [nodes]. *)
Definition edge_found (edges : list (list Z)) (nodes : list Z) (g : Z) : Prop :=
  0 ≤ g ∧ ∃ stored, edges !! Z.to_nat g = Some stored
                    ∧ entity_key stored = entity_key nodes.

(** The local tables agree: the edge that [localFace2edge] gives for slot [j]
    of local face [i] joins the local vertices at the ends of that slot. *)
Definition local_tables_agree : Prop :=
  Forall2 (λ lf lfe,
    Forall2 (λ le m,
      let p0 := lf !!! Z.to_nat (le !!! 0%nat) in
      let p1 := lf !!! Z.to_nat (le !!! 1%nat) in
      let e := localEdge !!! Z.to_nat m in
      0 ≤ m < 12 ∧ 0 ≤ p0 < 8 ∧ 0 ≤ p1 < 8 ∧ p0 ≠ p1
      ∧ 0 ≤ le !!! 0%nat < 4 ∧ 0 ≤ le !!! 1%nat < 4
      ∧ (e = [p0; p1] ∨ e = [p1; p0]))
      face_localEdge lfe)
    localFace localFace2edge.

Definition topology_ok (NN : Z) (st : Topology) : Prop :=
  edges_ok NN (t_edgeMap st) (t_edge st)
  ∧ indexed (t_faceMap st) (t_face st) (t_face2cell st)
  ∧ Forall2 (face_fits (t_edge st)) (t_face st) (t_face2edge st)
  ∧ Forall (λ r, length r = 12%nat
                 ∧ Forall (λ g, 0 ≤ g < Z.of_nat (length (t_edge st))) r)
           (t_cell2edge st)
  ∧ Forall (λ r, length r = 6%nat
                 ∧ Forall (λ f, 0 ≤ f < Z.of_nat (length (t_face st))) r)
           (t_cell2face st).

(** The positions in [g] that [match_positions] finds for the entries of
    [l]. *)
Definition matched (g l : list Z) : list Z :=
  (λ k, np.argsort g !!! Z.to_nat k) <$> np.argsort (np.argsort l).

(** The positions in the row of a face that [cell_face_step] computes from
    the matched positions [irow]. *)
Definition face_index (p : Z) (mi2d : list (list Z)) (irow : list Z) : list Z :=
  (λ mrow, mrow !!! Z.to_nat (irow !!! 0%nat) * (p + 1)
           + mrow !!! Z.to_nat (irow !!! 1%nat)) <$> mi2d.

(** The row of a cell after [cell_face_step] for its face [f]. *)
Definition cell_face_row (p : Z) (f2e f2i mi2d : list (list Z))
    (li di : list Z) (f : Z) (erow row : list Z) : list Z :=
  stores row di
    ((λ k, (f2i !!! Z.to_nat f) !!! Z.to_nat k)
       <$> face_index p mi2d
             (matched (f2e !!! Z.to_nat f) (local_entries erow li))).

(** Cell [n] brought the face with the nodes [fnodes] into the tables as its
    local face [i]: the face has the edges of the cell in the order of
    [localFace2edge], and these four edges differ. *)
Definition brings (face face2edge cell2face cell2edge : list (list Z))
    (n : nat) (i : Z) (fnodes : list Z) : Prop :=
  ∃ crow erow f,
    cell2face !! n = Some crow ∧ crow !! Z.to_nat i = Some f ∧
    cell2edge !! n = Some erow ∧
    face !! Z.to_nat f = Some fnodes ∧
    face2edge !! Z.to_nat f
    = Some (local_entries erow (localFace2edge !!! Z.to_nat i)) ∧
    NoDup (local_entries erow (localFace2edge !!! Z.to_nat i)).

(** Every key of the face map leads to a face with this key. *)
Definition face_map_ok (m : gmap (list Z) Z) (faces : list (list Z)) : Prop :=
  ∀ k f, m !! k = Some f →
    0 ≤ f ∧ ∃ fnodes, faces !! Z.to_nat f = Some fnodes ∧ entity_key fnodes = k.

(** Node [v] lies on a face that some cell brought as its local face 4 or
    5. *)
Definition brought (face face2edge cell2face cell2edge : list (list Z))
    (v : Z) : Prop :=
  ∃ n i fnodes, (i = 4 ∨ i = 5)
    ∧ brings face face2edge cell2face cell2edge n i fnodes ∧ v ∈ fnodes.

Definition nodes_brought (st : Topology) : Prop :=
  face_map_ok (t_faceMap st) (t_face st)
  ∧ length (t_face2edge st) = length (t_face st)
  ∧ length (t_cell2edge st) = length (t_cell2face st)
  ∧ ∀ fnodes v, fnodes ∈ t_face st → v ∈ fnodes →
      brought (t_face st) (t_face2edge st) (t_cell2face st) (t_cell2edge st) v.

(** The face tables after the slots below [k] of the cell [cn] with the
    edges [erow] were registered, starting from the faces [face0]. *)
Record faces_added (face0 f2e0 : list (list Z)) (cn erow : list Z) (k : Z)
    (ft : FaceTables) : Prop := {
  fa_map : face_map_ok (ft_map ft) (ft_face ft);
  fa_face : ∃ new, ft_face ft = face0 ++ new
    ∧ Forall (λ fnodes, ∃ j, 0 ≤ j < k
                ∧ fnodes = local_entries cn (localFace !!! Z.to_nat j)) new;
  fa_f2e : ∃ new, ft_face2edge ft = f2e0 ++ new;
  fa_len : length (ft_face2edge ft) = length (ft_face ft);
  fa_rowlen : length (ft_row ft) = Z.to_nat k;
  fa_row : ∀ (j : nat) f, ft_row ft !! j = Some f →
    0 ≤ f ∧ ∃ fnodes, ft_face ft !! Z.to_nat f = Some fnodes
      ∧ entity_key fnodes = face_key cn (Z.of_nat j)
      ∧ ((length face0 ≤ Z.to_nat f)%nat →
         ft_face2edge ft !! Z.to_nat f
         = Some (local_entries erow (localFace2edge !!! j)))
}.

(** The entries [g x y z] over three axes, the last one running fastest. *)
Definition grid3 {A B C D} (xs : list A) (ys : list B) (zs : list C)
    (g : A → B → C → D) : list D :=
  xs ≫= λ x, ys ≫= λ y, zs ≫= λ z, [g x y z].

(** The row of the cell whose first node is [b]. *)
Definition box_cell (ny nz b : Z) : list Z :=
  let nyz := (ny + 1) * (nz + 1) in
  [ b; b + nyz; b + nyz + nz + 1; b + nz + 1;
    b + 1; b + 1 + nyz; b + 1 + nyz + nz + 1; b + 1 + nz + 1 ].

(** The nodes and the cells of the grid. *)
Definition box_nodes (b0 b1 b2 b3 b4 b5 : Q) (nx ny nz : Z) : list (list Q) :=
  grid3 (seqZ 0 (nx + 1)) (seqZ 0 (ny + 1)) (seqZ 0 (nz + 1))
    (λ i j k, [ nd.grid_point b0 b1 (nx + 1) i;
                nd.grid_point b2 b3 (ny + 1) j;
                nd.grid_point b4 b5 (nz + 1) k ]).
Definition box_cells (nx ny nz : Z) : list (list Z) :=
  grid3 (seqZ 0 nx) (seqZ 0 ny) (seqZ 0 nz)
    (λ i j k, box_cell ny nz (i * ((ny + 1) * (nz + 1)) + j * (nz + 1) + k)).

(** The barycentres of the cells, the flags of the nodes after the entries
    [idx] are marked, and the number of flagged nodes before node [n]. *)
Definition barycentres (node : list (list Q)) (cell : list (list Z))
  : list (list Q) :=
  (λ row, (λ s, s / inject_Z 8)%Q
            <$> nd.sum_points ((λ n, node !!! Z.to_nat n) <$> row)) <$> cell.
Definition marked (flags : list bool) (idx : list Z) : list bool :=
  foldl (λ acc i, <[Z.to_nat i := true]> acc) flags idx.
Definition rank (flags : list bool) (n : nat) : nat :=
  count_true (take n flags).

(** The cells that a mask of the cells to delete leaves, and the flags of
    the nodes that the cells [cell] use, among [NN] nodes. *)
Definition kept_cells (cell : list (list Z)) (mask : list bool)
  : list (list Z) :=
  nd.pick cell (negb <$> mask).
Definition used_nodes (NN : Z) (cell : list (list Z)) : list bool :=
  marked (replicate (Z.to_nat NN) false) (mjoin cell).

(** The new number of node [v], and the cells with the new numbers. *)
Definition new_index (flags : list bool) (v : Z) : Z :=
  Z.of_nat (rank flags (Z.to_nat v)).
Definition renumbered (flags : list bool) (cell : list (list Z))
  : list (list Z) :=
  (λ row : list Z, new_index flags <$> row) <$> cell.

(** Column [i] of a matrix; a matrix with one entry replaced; a square
    matrix; and the turns of the two loops of [first_fundamental_form]. *)
Definition col (J : list (list Q)) (i : Z) : list Q :=
  (λ row, row !!! Z.to_nat i) <$> J.
Definition set2 (G : list (list Q)) (i j : Z) (v : Q) : list (list Q) :=
  <[Z.to_nat i := <[Z.to_nat j := v]> (G !!! Z.to_nat i)]> G.
Definition square (n : Z) (G : list (list Q)) : Prop :=
  Z.of_nat (length G) = n ∧ Forall (λ row, Z.of_nat (length row) = n) G.
Definition gram_inner (J : list (list Q)) (i : Z) (G : list (list Q)) (j : Z)
  : list (list Q) :=
  set2 (set2 G i j (values.dot (col J i) (col J j))) j i
       (values.dot (col J i) (col J j)).
Definition gram_outer (J : list (list Q)) (TD : Z) (G : list (list Q)) (i : Z)
  : list (list Q) :=
  foldl (gram_inner J i) (set2 G i i (values.dot (col J i) (col J i)))
        (seqZ (i + 1) (TD - (i + 1))).

(** ** Evaluation on the test inputs *)

Lemma from_one_hexahedron_tables :
  ∃ mesh, from_one_hexahedron = Ok mesh ∧
    ds_cell (ds mesh) = [ [0; 1; 2; 3; 4; 5; 6; 7] ] ∧
    number_of_nodes mesh = 8 ∧ number_of_edges mesh = 12 ∧
    number_of_faces mesh = 6 ∧ number_of_cells mesh = 1.
Proof. eexists. split; [vm_compute; reflexivity|]. vm_compute. tauto. Qed.

Lemma class_namespace_cell_volume :
  class_namespace !! "cell_volume" = Some body_pass.
Proof. vm_compute. reflexivity. Qed.

Lemma class_namespace_face_area :
  class_namespace !! "face_area" = Some body_pass.
Proof. vm_compute. reflexivity. Qed.

(** ** The factory mesh *)

(** C10 fails as stated: the cell of [from_one_hexahedron] is not of zero
    thickness along any direction.  A direction in which all eight nodes
    have the same height is the zero vector. *)
Lemma from_one_hexahedron_is_not_flat :
  ∃ mesh, from_one_hexahedron = Ok mesh ∧
    ∀ a b c : Q,
      (∀ x, x ∈ node mesh → (height [a; b; c] x == height [a; b; c] [0; 0; 0])%Q) →
      (a == 0)%Q ∧ (b == 0)%Q ∧ (c == 0)%Q.
Proof.
  eexists. split; [vm_compute; reflexivity|]. cbn [node].
  intros a b c H.
  assert (a == 0)%Q as Ha.
  { pose proof (H [1; 0; 0]%Q ltac:(set_solver)) as H1.
    unfold height in H1. ring_simplify in H1. exact H1. }
  assert (c == 0)%Q as Hc.
  { pose proof (H [0; 0; 1]%Q ltac:(set_solver)) as H1.
    unfold height in H1. ring_simplify in H1. exact H1. }
  split; [exact Ha|]. split; [|exact Hc].
  pose proof (H [1; 1; 0]%Q ltac:(set_solver)) as H1.
  unfold height in H1. rewrite Ha in H1. ring_simplify in H1. exact H1.
Qed.

(** C10, amended: [from_one_hexahedron] returns a mesh whose node table
    repeats the coordinates of node 0 at node 3 and those of node 4 at node
    7, while the cell lists the eight different indices 0..7.  The cell is
    not the unit cube (the corners (0,1,0) and (0,1,1) are absent) and it is
    degenerate: its edges from local vertex 0 to 3 and from 4 to 7 have
    length zero, the four nodes of its left face occupy two positions only,
    and the Jacobian determinant vanishes at the local vertices 0, 3, 4 and
    7.  It is not of zero thickness: the determinant is 1 at the local
    vertices 1, 2, 5 and 6, and the eight nodes have the same height in no
    direction but the zero vector. *)
Theorem from_one_hexahedron_degenerate :
  ∃ mesh, from_one_hexahedron = Ok mesh ∧
    node mesh !! 0%nat = Some [0; 0; 0]%Q ∧
    node mesh !! 3%nat = Some [0; 0; 0]%Q ∧
    node mesh !! 4%nat = Some [0; 0; 1]%Q ∧
    node mesh !! 7%nat = Some [0; 0; 1]%Q ∧
    ds_cell (ds mesh) = [ [0; 1; 2; 3; 4; 5; 6; 7] ] ∧
    NoDup [0; 1; 2; 3; 4; 5; 6; 7] ∧
    ([0; 1; 0]%Q ∉ node mesh) ∧ ([0; 1; 1]%Q ∉ node mesh) ∧
    (∀ x0 x3, node mesh !! 0%nat = Some x0 → node mesh !! 3%nat = Some x3 →
              vector x0 x3 = [0 - 0; 0 - 0; 0 - 0]%Q) ∧
    (∀ x4 x7, node mesh !! 4%nat = Some x4 → node mesh !! 7%nat = Some x7 →
              vector x4 x7 = [0 - 0; 0 - 0; 1 - 1]%Q) ∧
    remove_dups ((λ k, node mesh !!! Z.to_nat k) <$> [0; 4; 7; 3])
      = [ [0; 0; 1]; [0; 0; 0] ]%Q ∧
    (∃ d, det_at_vertex0 mesh [0; 1; 2; 3; 4; 5; 6; 7] = Ok d ∧ (d == 0)%Q) ∧
    (∃ ds, mapM (det_at_vertex mesh [0; 1; 2; 3; 4; 5; 6; 7]) (seqZ 0 8)
           = Ok ds ∧
           Forall2 Qeq ds [0; 1; 1; 0; 0; 1; 1; 0]%Q) ∧
    (∀ a b c : Q,
       (∀ x, x ∈ node mesh →
             (height [a; b; c] x == height [a; b; c] [0; 0; 0])%Q) →
       (a == 0)%Q ∧ (b == 0)%Q ∧ (c == 0)%Q).
Proof.
  eexists. split; [vm_compute; reflexivity|]. cbn [node ds ds_cell].
  repeat split; try reflexivity.
  - refine (bool_decide_unpack _ _). vm_compute. exact I.
  - refine (bool_decide_unpack _ _). vm_compute. exact I.
  - refine (bool_decide_unpack _ _). vm_compute. exact I.
  - intros x0 x3 H0 H3. cbn in H0, H3. by simplify_eq.
  - intros x4 x7 H4 H7. cbn in H4, H7. by simplify_eq.
  - eexists. split; [vm_compute; reflexivity | reflexivity].
  - eexists. split; [vm_compute; reflexivity|].
    repeat constructor.
  - pose proof (H [1; 0; 0]%Q ltac:(set_solver)) as H1.
    unfold height in H1. ring_simplify in H1. exact H1.
  - pose proof (H [1; 0; 0]%Q ltac:(set_solver)) as Ha.
    unfold height in Ha. ring_simplify in Ha.
    pose proof (H [1; 1; 0]%Q ltac:(set_solver)) as H1.
    unfold height in H1. rewrite Ha in H1. ring_simplify in H1. exact H1.
  - pose proof (H [0; 0; 1]%Q ltac:(set_solver)) as H1.
    unfold height in H1. ring_simplify in H1. exact H1.
Qed.

(** ** Measures of cells and faces *)

(** C5: the class defines [cell_volume] and [face_area] twice; the second
    definitions, whose body is [pass], are the ones a call reaches.  On the
    factory mesh (as on any mesh) [cell_volume()] and [face_area()] return
    [None] rather than an array holding 1.0. *)
Theorem cell_volume_of_factory_mesh_is_None :
  ∀ sf gsf ent inv quad, ∃ mesh, from_one_hexahedron = Ok mesh ∧
    call_method sf gsf ent inv quad mesh "cell_volume" = Ok PyNone ∧
    call_method sf gsf ent inv quad mesh "face_area" = Ok PyNone ∧
    ∀ s, call_method sf gsf ent inv quad mesh "cell_volume" ≠ Ok (PyArray s).
Proof.
  intros. eexists. split; [vm_compute; reflexivity|].
  unfold call_method.
  rewrite class_namespace_cell_volume, class_namespace_face_area. cbn.
  repeat split; discriminate.
Qed.

(** ** Order zero *)

(** C7, as the code has it: [number_of_global_ipoints] makes no check of the
    order; for [p = 0] it returns [NN - NE + NF - NC]. *)
Theorem number_of_global_ipoints_order_zero mesh :
  number_of_global_ipoints mesh 0
  = Ok (((number_of_nodes mesh - number_of_edges mesh)
         + number_of_faces mesh) - number_of_cells mesh).
Proof. unfold number_of_global_ipoints. f_equal. lia. Qed.

(** C7 fails as stated: on the factory mesh the request with [p = 0] is not
    rejected, it returns the count 1. *)
Lemma order_zero_not_rejected :
  ∃ mesh, from_one_hexahedron = Ok mesh ∧
    number_of_global_ipoints mesh 0 = Ok 1 ∧
    ¬ raises (number_of_global_ipoints mesh 0).
Proof.
  eexists. split; [vm_compute; reflexivity|].
  split; [vm_compute; reflexivity|]. intros [e He]. discriminate He.
Qed.

(** ** Gradients of the shape functions *)

Lemma raises_bind {A B} (m : PyResult A) (f : A → PyResult B) :
  raises m → raises (m ≫= f).
Proof. intros [e ->]. by exists e. Qed.

Lemma raises_Raise {A} e : raises (@Raise A e).
Proof. by exists e. Qed.

(** An array with three axes under a subscript of two letters. *)
Lemma einsum_three_axes_two_letters a b subs out n ldof TD rest :
  fp.einsum (fp.sub [a; b] :: subs) out ([n; ldof; TD] :: rest)
  = Raise ValueError.
Proof. reflexivity. Qed.

Lemma zeros_shape s s' : fp.zeros s = Ok s' → s' = s.
Proof. unfold fp.zeros. case_decide; congruence. Qed.

Ltac bind_cases :=
  repeat match goal with
    | |- raises (Raise _) => apply raises_Raise
    | |- raises (?m ≫= _) =>
        let E := fresh "E" in
        destruct m eqn:E; [cbn [mbind PyResult_bind] | apply raises_Raise]
    end.

Section geometry_raises.

Variable sf gsf : fp.shape → Z → PyResult fp.shape.
Variable ent : Z → PyResult fp.shape.
Variable inv : fp.shape → PyResult fp.shape.
Variable gl : Z → PyResult (fp.shape * fp.shape).

Lemma grad_shape_function_raises depth bc p variables :
  (length bc = 2 ∨ length bc = 3)%nat →
  raises (grad_shape_function sf gsf ent inv depth bc p variables).
Proof.
  intros Hbc. destruct depth as [|depth]; [apply raises_Raise|].
  cbn [grad_shape_function]. bind_cases.
  match goal with H : fp.zeros _ = Ok _ |- _ => apply zeros_shape in H as -> end.
  destruct Hbc as [Hbc|Hbc]; rewrite Hbc; cbn; apply raises_Raise.
Qed.

Lemma jacobi_matrix_raises depth bc :
  (length bc = 2 ∨ length bc = 3)%nat →
  raises (jacobi_matrix sf gsf ent inv depth bc).
Proof.
  intros Hbc. destruct depth as [|depth]; [apply raises_Raise|].
  cbn [jacobi_matrix]. unfold jacobi_matrix_with.
  destruct (ent _); [cbn [mbind PyResult_bind] | apply raises_Raise].
  by apply raises_bind, grad_shape_function_raises.
Qed.

Lemma integrator_arity q etype bcs ws :
  integrator gl q etype = Ok (bcs, ws) →
  length bcs = match etype with
               | ip_cell => 3 | ip_face => 2 | _ => 1 end%nat.
Proof.
  unfold integrator. destruct (gl q) as [[pts w]|]; [|discriminate].
  cbn. destruct etype; intros; by simplify_eq.
Qed.

Lemma cell_volume_quadrature_raises depth :
  raises (cell_volume_quadrature sf gsf ent inv gl depth).
Proof.
  destruct depth as [|depth]; [apply raises_Raise|].
  cbn [cell_volume_quadrature].
  destruct (integrator gl 2 ip_cell) as [[bcs ws]|] eqn:E;
    [cbn [mbind PyResult_bind] | apply raises_Raise].
  apply integrator_arity in E.
  apply raises_bind, jacobi_matrix_raises. by right.
Qed.

Lemma face_area_quadrature_raises depth :
  raises (face_area_quadrature sf gsf ent inv gl depth).
Proof.
  destruct depth as [|depth]; [apply raises_Raise|].
  cbn [face_area_quadrature].
  destruct (integrator gl 2 ip_face) as [[bcs ws]|] eqn:E;
    [cbn [mbind PyResult_bind] | apply raises_Raise].
  apply integrator_arity in E.
  apply raises_bind, jacobi_matrix_raises. by left.
Qed.

End geometry_raises.

(** C9: whatever the collaborators do, [grad_shape_function] raises for a
    pair and for a triple of reference coordinates: the zero array it stores
    in [gphi] has three axes and is the first operand of an [einsum] whose
    subscript has two letters (a [ValueError]); the name [index] used in the
    [variables = 'x'] branch is bound nowhere ([NameError]).  Hence
    [jacobi_matrix] and the quadrature-based [cell_volume] and [face_area]
    raise as well. *)
Theorem grad_shape_function_never_returns sf gsf ent inv gl :
  (∀ depth b0 b1 p variables,
     raises (grad_shape_function sf gsf ent inv depth [b0; b1] p variables)) ∧
  (∀ depth b0 b1 b2 p variables,
     raises (grad_shape_function sf gsf ent inv depth [b0; b1; b2] p variables)) ∧
  (∀ a b subs out n ldof TD rest,
     fp.einsum (fp.sub [a; b] :: subs) out ([n; ldof; TD] :: rest)
     = Raise ValueError) ∧
  resolve grad_shape_function_locals "index" = Raise NameError ∧
  (∀ depth b0 b1, raises (jacobi_matrix sf gsf ent inv depth [b0; b1])) ∧
  (∀ depth b0 b1 b2,
     raises (jacobi_matrix sf gsf ent inv depth [b0; b1; b2])) ∧
  (∀ depth, raises (cell_volume_quadrature sf gsf ent inv gl depth)) ∧
  (∀ depth, raises (face_area_quadrature sf gsf ent inv gl depth)).
Proof.
  repeat split; intros.
  - apply grad_shape_function_raises. by left.
  - apply grad_shape_function_raises. by right.
  - apply jacobi_matrix_raises. by left.
  - apply jacobi_matrix_raises. by right.
  - apply cell_volume_quadrature_raises.
  - apply face_area_quadrature_raises.
Qed.

(** With collaborators that return arrays of the documented shapes, the
    exception is the [ValueError] of the [einsum]. *)
Example grad_shape_function_ValueError :
  let sf := λ (s : fp.shape) (p : Z), Ok [default 0 (s !! 0%nat); p + 1] in
  let gsf := λ (s : fp.shape) (p : Z), Ok [default 0 (s !! 0%nat); p + 1; 2] in
  let ent := λ _ : Z, Ok [1; 8; 3] in
  grad_shape_function sf gsf ent Ok recursion_limit
    [ [4; 2]; [4; 2]; [4; 2] ] 1 "u" = Raise ValueError
  ∧ grad_shape_function sf gsf ent Ok recursion_limit
      [ [4; 2]; [4; 2] ] 1 "x" = Raise ValueError.
Proof. split; vm_compute; reflexivity. Qed.

(** ** The numbering on two cells that share a twisted face *)

Lemma twisted_mesh_tables :
  ∃ mesh, twisted_mesh = Ok mesh ∧
    node mesh = stacked_nodes ∧
    ds_cell (ds mesh) = twisted_cells ∧
    ds_face (ds mesh) !! 1%nat = Some [4; 5; 6; 7] ∧
    ds_face2cell (ds mesh) !! 1%nat = Some [0; 1] ∧
    entry (ds_cell2face (ds mesh)) 0 1 = Some 1 ∧
    entry (ds_cell2face (ds mesh)) 1 5 = Some 1.
Proof. eexists. split; [vm_compute; reflexivity|]. vm_compute. tauto. Qed.

(** C1, evaluated: in the twisted two-cell mesh the face 1, with nodes
    [4 5 6 7], is shared by the cells 0 and 1.  Column 3 of cell 0 and column
    2 of cell 1 are the same physical point, the corner (0,1,1) of that face
    (where node 7 sits), yet [cell_to_ipoint(1)] gives it the global index 7
    in cell 0 and the global index 5 in cell 1. *)
Theorem shared_face_point_gets_two_indices :
  ∃ mesh tbl xyz,
    twisted_mesh = Ok mesh ∧
    ds_face2cell (ds mesh) !! 1%nat = Some [0; 1] ∧
    cell_to_ipoint mesh 1 = Ok tbl ∧
    interpolation_point_coordinates mesh 1 = Ok xyz ∧
    (∃ a b, entry xyz 0 3 = Some a ∧ entry xyz 1 2 = Some b ∧
            same_point a [0; 1; 1]%Q ∧ same_point b [0; 1; 1]%Q ∧
            same_point a b) ∧
    entry tbl 0 3 = Some 7 ∧
    entry tbl 1 2 = Some 5.
Proof.
  eexists _, _, _. split; [vm_compute; reflexivity|].
  split; [vm_compute; reflexivity|].
  split; [vm_compute; reflexivity|].
  split; [vm_compute; reflexivity|].
  split; [|split; vm_compute; reflexivity].
  eexists _, _. split; [vm_compute; reflexivity|].
  split; [vm_compute; reflexivity|].
  repeat split; repeat constructor.
Qed.

(** C3, evaluated: on the twisted two-cell mesh the table [cell_to_ipoint(1)]
    holds node indices only, but its second row puts the nodes 5, 4 where the
    cell has 7, 6 and conversely: no reordering of the eight local vertices,
    the same for all cells, turns the cell table into it. *)
Theorem order_one_is_not_a_reordering_of_the_cells :
  ∃ mesh tbl,
    twisted_mesh = Ok mesh ∧
    cell_to_ipoint mesh 1 = Ok tbl ∧
    tbl = [ [0; 4; 3; 7; 1; 5; 2; 6]; [11; 10; 5; 4; 8; 9; 6; 7] ] ∧
    ds_cell (ds mesh) = [ [0; 1; 2; 3; 4; 5; 6; 7]; [11; 8; 4; 7; 10; 9; 5; 6] ] ∧
    ¬ ∃ order : list nat,
        Forall2 (λ row c, Forall2 (λ v k, c !! k = Some v) row order)
                tbl (ds_cell (ds mesh)).
Proof.
  eexists _, _. split; [vm_compute; reflexivity|].
  split; [vm_compute; reflexivity|]. split; [reflexivity|].
  split; [reflexivity|]. cbn [ds ds_cell].
  intros [order H].
  apply Forall2_cons_1 in H as [H0 H]. apply Forall2_cons_1 in H as [H1 _].
  destruct (Forall2_lookup_l _ _ _ 2%nat 3 H0 eq_refl) as (k & Hk & Hc0).
  pose proof (Forall2_lookup_lr _ _ _ 2%nat 5 k H1 eq_refl Hk) as Hc1.
  do 8 (destruct k as [|k]; [cbn in Hc0, Hc1; congruence|]).
  cbn in Hc0. discriminate.
Qed.

(** ** The two versions of the cell numbering *)

(** C8 fails as stated: on the factory mesh with [p = 1] the two versions
    return different tables. *)
Lemma cell_to_ipoint0_differs :
  ∃ mesh, from_one_hexahedron = Ok mesh ∧
    cell_to_ipoint mesh 1 = Ok [ [0; 4; 3; 7; 1; 5; 2; 6] ] ∧
    cell_to_ipoint0 mesh 1 = Ok [ [0; 4; 1; 5; 3; 7; 2; 6] ] ∧
    cell_to_ipoint mesh 1 ≠ cell_to_ipoint0 mesh 1.
Proof.
  eexists. split; [vm_compute; reflexivity|].
  split; [vm_compute; reflexivity|]. split; [vm_compute; reflexivity|].
  vm_compute. discriminate.
Qed.

(** * The numbering in general

    What follows holds for every well-formed mesh and every order. *)

(** ** Results of fallible computations *)

Lemma bind_Ok {A B} (m : PyResult A) (f : A → PyResult B) b :
  m ≫= f = Ok b ↔ ∃ a, m = Ok a ∧ f a = Ok b.
Proof.
  destruct m as [a|e]; cbn; split.
  - intros. by exists a.
  - by intros (? & [= <-] & ?).
  - discriminate.
  - by intros (? & ? & ?).
Qed.

Lemma mapM_Ok_fmap {A B} (f : A → PyResult B) (g : A → B) l :
  Forall (λ x, f x = Ok (g x)) l → mapM f l = Ok (g <$> l).
Proof.
  induction 1 as [|x l Hx _ IH]; [done|]. cbn. rewrite Hx. cbn.
  by rewrite IH.
Qed.

Lemma mapM_Ok_inv {A B} (f : A → PyResult B) l k :
  mapM f l = Ok k → Forall2 (λ x y, f x = Ok y) l k.
Proof.
  revert k. induction l as [|x l IH]; intros k; cbn.
  - intros [= <-]. constructor.
  - intros (y & Hy & H)%bind_Ok. apply bind_Ok in H as (k' & Hk' & [= <-]).
    constructor; auto.
Qed.

Lemma map2M_Ok_zip_with {A B C} (f : A → B → PyResult C) (g : A → B → C) l k :
  Forall2 (λ x y, f x y = Ok (g x y)) l k →
  map2M f l k = Ok (zip_with g l k).
Proof.
  induction 1 as [|x y l k Hxy _ IH]; [done|]. cbn. rewrite Hxy. cbn.
  by rewrite IH.
Qed.

Lemma foldM_Ok_foldl {A B} (f : A → B → PyResult A) (g : A → B → A)
    (P : A → Prop) l a :
  (∀ a x, P a → x ∈ l → f a x = Ok (g a x) ∧ P (g a x)) →
  P a → foldM f a l = Ok (foldl g a l) ∧ P (foldl g a l).
Proof.
  revert a. induction l as [|x l IH]; intros a Hf Ha; [done|]. cbn.
  destruct (Hf a x Ha) as [-> Hg]; [left|]. cbn.
  apply IH; [|done]. intros a' y Ha' Hy. apply Hf; [done|by right].
Qed.

(** An invariant of a loop that is kept by every turn that returns. *)
Lemma foldM_invariant {A B} (f : A → B → PyResult A) (P : A → Prop) l a a' :
  (∀ a x a', P a → x ∈ l → f a x = Ok a' → P a') →
  P a → foldM f a l = Ok a' → P a'.
Proof.
  revert a. induction l as [|x l IH]; intros a Hf Ha; cbn.
  - by intros [= <-].
  - intros (a1 & H1 & H2)%bind_Ok. eapply IH; [|eapply Hf; [done|left|done]|done].
    intros ???? Hx. apply Hf; [done|by right].
Qed.

(** ** Indexing *)

Lemma index_Ok n i : 0 ≤ i < Z.of_nat n → np.index n i = Ok (Z.to_nat i).
Proof. intros. unfold np.index. by rewrite decide_True. Qed.

Lemma getitem_Ok {A} (l : list A) i x :
  0 ≤ i → l !! Z.to_nat i = Some x → np.getitem l i = Ok x.
Proof.
  intros Hi Hx. unfold np.getitem. rewrite index_Ok; [cbn; by rewrite Hx|].
  apply lookup_lt_Some in Hx. lia.
Qed.

Lemma getitem_Ok_total `{Inhabited A} (l : list A) i :
  0 ≤ i < Z.of_nat (length l) → np.getitem l i = Ok (l !!! Z.to_nat i).
Proof.
  intros Hi. apply getitem_Ok; [lia|]. apply list_lookup_lookup_total_lt. lia.
Qed.

Lemma getitem_elem_of {A} (l : list A) i x : np.getitem l i = Ok x → x ∈ l.
Proof.
  unfold np.getitem. intros (k & _ & Hk)%bind_Ok.
  destruct (l !! k) eqn:E; [|done]. injection Hk as <-.
  by eapply list_elem_of_lookup_2.
Qed.

Lemma setitem_Ok {A} (l : list A) i x :
  0 ≤ i < Z.of_nat (length l) → np.setitem l i x = Ok (<[Z.to_nat i := x]> l).
Proof. intros. unfold np.setitem. by rewrite index_Ok. Qed.

Lemma setitem_inv {A} (l l' : list A) i x :
  np.setitem l i x = Ok l' → ∃ k, (k < length l)%nat ∧ l' = <[k := x]> l.
Proof.
  unfold np.setitem. intros (k & Hk & [= <-])%bind_Ok. exists k. split; [|done].
  unfold np.index in Hk. repeat case_decide; simplify_eq; lia.
Qed.

Lemma getitems_Ok `{Inhabited A} (l : list A) idx :
  Forall (λ i, 0 ≤ i < Z.of_nat (length l)) idx →
  np.getitems l idx = Ok ((λ i, l !!! Z.to_nat i) <$> idx).
Proof.
  intros Hidx. apply mapM_Ok_fmap. eapply Forall_impl; [done|].
  intros i Hi. by apply getitem_Ok_total.
Qed.

Lemma getitems_elem_of {A} (l : list A) idx k :
  np.getitems l idx = Ok k → Forall (.∈ l) k ∧ length k = length idx.
Proof.
  intros Hk%mapM_Ok_inv. split; [|symmetry; by eapply Forall2_length].
  induction Hk; constructor; eauto using getitem_elem_of.
Qed.

(** A loop returns when every turn does, as long as an invariant holds. *)
Lemma foldM_success {A B} (f : A → B → PyResult A) (P : A → Prop) l a :
  (∀ a x, P a → x ∈ l → ∃ a', f a x = Ok a' ∧ P a') →
  P a → ∃ a', foldM f a l = Ok a' ∧ P a'.
Proof.
  revert a. induction l as [|x l IH]; intros a Hf Ha; [by exists a|]. cbn.
  destruct (Hf a x Ha) as (a1 & -> & Ha1); [left|]. cbn.
  apply IH; [|done]. intros a' y Ha' Hy. apply Hf; [done|by right].
Qed.

Lemma mapM_success {A B} (f : A → PyResult B) (Q : A → B → Prop) l :
  Forall (λ x, ∃ y, f x = Ok y ∧ Q x y) l →
  ∃ k, mapM f l = Ok k ∧ Forall2 Q l k.
Proof.
  induction 1 as [|x l (y & Hy & HQ) _ (k & Hk & IH)].
  - exists []. by split; [|constructor].
  - exists (y :: k). cbn. rewrite Hy. cbn. rewrite Hk. cbn.
    split; [done|by constructor].
Qed.

Lemma map2M_success {A B C} (f : A → B → PyResult C) (Q : A → B → C → Prop) l k :
  Forall2 (λ x y, ∃ z, f x y = Ok z ∧ Q x y z) l k →
  ∃ r, map2M f l k = Ok r ∧ length r = length l
       ∧ ∀ i x y z, l !! i = Some x → k !! i = Some y → r !! i = Some z → Q x y z.
Proof.
  induction 1 as [|x y l k (z & Hz & HQ) _ (r & Hr & Hlen & IH)].
  - exists []. repeat split; done.
  - exists (z :: r). cbn. rewrite Hz. cbn. rewrite Hr. cbn.
    repeat split; [by rewrite Hlen|].
    intros [|i] x' y' z' ???; simplify_eq/=; eauto.
Qed.

(** ** Stores into a row *)

Lemma length_stores row cols vals : length (stores row cols vals) = length row.
Proof.
  unfold stores. revert row. induction (zip cols vals) as [|cv l IH]; intros row;
    [done|]. cbn. rewrite IH. unfold store. by rewrite length_insert.
Qed.

Lemma stores_Forall (P : Z → Prop) row cols vals :
  Forall P row → Forall P vals → Forall P (stores row cols vals).
Proof.
  unfold stores. revert row vals. induction cols as [|c cols IH];
    intros row [|v vals] Hrow Hvals; try done. cbn.
  apply Forall_cons in Hvals as [Hv Hvals]. apply IH; [|done].
  unfold store. cbn. by apply Forall_insert.
Qed.

Lemma stores_lookup_other row cols vals j :
  Forall (λ c, Z.to_nat c ≠ j) cols →
  stores row cols vals !! j = row !! j.
Proof.
  unfold stores. revert row vals. induction cols as [|c cols IH];
    intros row [|v vals] Hj; try done. cbn.
  apply Forall_cons in Hj as [Hc Hj]. rewrite IH; [|done].
  unfold store. cbn. by rewrite list_lookup_insert_ne.
Qed.

Lemma stores_lookup row cols vals t c v :
  Forall (in_range (length row)) cols → NoDup cols →
  cols !! t = Some c → vals !! t = Some v →
  stores row cols vals !! Z.to_nat c = Some v.
Proof.
  unfold stores. revert row vals t. induction cols as [|c' cols IH];
    intros row [|v' vals] t Hr Hnd Hc Hv; try done.
  apply Forall_cons in Hr as [Hc' Hr]. apply NoDup_cons in Hnd as [Hnc Hnd].
  destruct t as [|t]; cbn in *.
  - simplify_eq. fold (stores (store row (c, v)) cols vals).
    rewrite stores_lookup_other.
    + unfold store. cbn. apply list_lookup_insert_eq. unfold in_range in Hc'. lia.
    + rewrite Forall_forall in Hr. apply Forall_forall. intros x Hx Heq.
      specialize (Hr x Hx). unfold in_range in *.
      assert (x = c) as -> by lia. done.
  - eapply IH; [|done..]. unfold store. by rewrite length_insert.
Qed.

Lemma stores_snoc row cols vals c v :
  length cols = length vals →
  stores row (cols ++ [c]) (vals ++ [v]) = store (stores row cols vals) (c, v).
Proof.
  intros Hl. unfold stores. rewrite zip_with_app by done. by rewrite foldl_app.
Qed.

Lemma put_Ok row cols vals :
  length vals = length cols → Forall (in_range (length row)) cols →
  np.put row cols vals = Ok (stores row cols vals).
Proof.
  intros Hl Hr. unfold np.put, np.broadcast. rewrite decide_True by done. cbn.
  unfold stores.
  edestruct (foldM_Ok_foldl (λ acc cv, np.setitem acc cv.1 cv.2) store
               (λ acc, length acc = length row) (zip cols vals) row) as [-> _];
    [|done..].
  intros acc [c v] Hacc Hin. cbn. unfold store. cbn.
  rewrite length_insert. split; [|done]. apply setitem_Ok.
  apply elem_of_zip_l in Hin. cbn in Hin.
  rewrite Forall_forall in Hr. rewrite Hacc. by apply Hr.
Qed.

(** ** Positions of the [True] entries of a mask *)

Lemma where_from_app s m1 m2 :
  np.where_from s (m1 ++ m2)
  = np.where_from s m1 ++ np.where_from (s + Z.of_nat (length m1)) m2.
Proof.
  revert s. induction m1 as [|b m1 IH]; intros s; cbn.
  - f_equal. lia.
  - replace (s + Z.of_nat (S (length m1))) with (s + 1 + Z.of_nat (length m1)) by lia.
    destruct b; rewrite IH; done.
Qed.

Lemma where_from_bounds s m :
  Forall (λ i, s ≤ i < s + Z.of_nat (length m)) (np.where_from s m).
Proof.
  revert s. induction m as [|b m IH]; intros s; cbn; [constructor|].
  assert (Forall (λ i, s ≤ i < s + Z.of_nat (S (length m))) (np.where_from (s + 1) m)).
  { eapply Forall_impl; [apply IH|]. cbn. intros. lia. }
  destruct b; [constructor; [lia|done]|done].
Qed.

Lemma where_from_NoDup s m : NoDup (np.where_from s m).
Proof.
  revert s. induction m as [|b m IH]; intros s; cbn; [constructor|].
  destruct b; [|done]. constructor; [|done].
  intros Hin. pose proof (where_from_bounds (s + 1) m) as Hb.
  rewrite Forall_forall in Hb. specialize (Hb _ Hin). lia.
Qed.

Lemma elem_of_where_from s m i :
  i ∈ np.where_from s m ↔ ∃ k, i = s + Z.of_nat k ∧ m !! k = Some true.
Proof.
  revert s. induction m as [|b m IH]; intros s; cbn.
  - rewrite elem_of_nil. split; [done|]. by intros (k & _ & ?).
  - assert (i ∈ np.where_from (s + 1) m ↔
            ∃ k, i = s + Z.of_nat (S k) ∧ m !! k = Some true) as Hrec.
    { rewrite IH. split; intros (k & -> & Hk); exists k; (split; [lia|done]). }
    destruct b.
    + rewrite elem_of_cons, Hrec. split.
      * intros [->|(k & -> & Hk)]; [exists 0%nat|exists (S k)];
          (split; [lia|done]).
      * intros ([|k] & -> & Hk); [left; lia|right; by exists k].
    + rewrite Hrec. split.
      * intros (k & -> & Hk). by exists (S k).
      * intros ([|k] & -> & Hk); [done|by exists k].
Qed.

Lemma where_in_range m : Forall (in_range (length m)) (np.where_ m).
Proof.
  eapply Forall_impl; [apply (where_from_bounds 0 m)|]. unfold in_range.
  cbn. intros. lia.
Qed.

Lemma length_where_from s m :
  length (np.where_from s m) = length (filter (λ b, b = true) m).
Proof.
  revert s. induction m as [|b m IH]; intros s; [done|].
  cbn [np.where_from]. rewrite filter_cons. destruct b.
  - rewrite decide_True by done. cbn [length]. by rewrite IH.
  - rewrite decide_False by done. by rewrite IH.
Qed.

(** ** Building arrays *)

Lemma dim_Ok n : 0 ≤ n → np.dim n = Ok (Z.to_nat n).
Proof. intros. unfold np.dim. by rewrite decide_True. Qed.

Lemma zeros_Ok n : 0 ≤ n → np.zeros n = Ok (replicate (Z.to_nat n) 0).
Proof. intros. unfold np.zeros. by rewrite dim_Ok. Qed.

Lemma zeros2_Ok r c :
  0 ≤ r → 0 ≤ c →
  np.zeros2 r c = Ok (replicate (Z.to_nat r) (replicate (Z.to_nat c) 0)).
Proof. intros. unfold np.zeros2. rewrite dim_Ok, zeros_Ok by done. done. Qed.

Lemma repeat_Ok l n :
  0 ≤ n → np.repeat l n = Ok (l ≫= replicate (Z.to_nat n)).
Proof. intros. unfold np.repeat. by rewrite dim_Ok. Qed.

Lemma tile_Ok l n :
  0 ≤ n → np.tile l n = Ok (mjoin (replicate (Z.to_nat n) l)).
Proof. intros. unfold np.tile. by rewrite dim_Ok. Qed.

Lemma join_replicate_S {A} (l : list A) k :
  mjoin (replicate (S k) l) = l ++ mjoin (replicate k l).
Proof. reflexivity. Qed.

Lemma length_bind_replicate {A} (l : list A) k :
  length (l ≫= replicate k) = (length l * k)%nat.
Proof.
  induction l as [|x l IH]; [done|]. rewrite bind_cons.
  rewrite length_app, length_replicate, IH. cbn. lia.
Qed.

Lemma length_join_replicate {A} (l : list A) k :
  length (mjoin (replicate k l)) = (k * length l)%nat.
Proof.
  induction k as [|k IH]; [done|]. rewrite join_replicate_S.
  rewrite length_app, IH. lia.
Qed.

Lemma Forall_bind_replicate {A} (P : A → Prop) (l : list A) k :
  Forall P l → Forall P (l ≫= replicate k).
Proof.
  induction 1 as [|x l Hx _ IH]; [constructor|]. rewrite bind_cons.
  apply Forall_app. split; [by apply Forall_replicate|done].
Qed.

Lemma Forall_join_replicate {A} (P : A → Prop) (l : list A) k :
  Forall P l → Forall P (mjoin (replicate k l)).
Proof.
  intros Hl. induction k as [|k IH]; [constructor|]. rewrite join_replicate_S.
  apply Forall_app. by split.
Qed.

Lemma Forall2_of_Forall_l {A B} (P : A → Prop) (l : list A) (k : list B) :
  Forall P l → length l = length k → Forall2 (λ x _, P x) l k.
Proof.
  intros Hl. revert k. induction Hl as [|x l Hx _ IH]; intros [|y k] ?;
    simplify_eq/=; constructor; auto.
Qed.

Lemma Forall2_of_Forall_r {A B} (P : B → Prop) (l : list A) (k : list B) :
  Forall P k → length l = length k → Forall2 (λ _ y, P y) l k.
Proof.
  intros Hk. revert l. induction Hk as [|y k Hy _ IH]; intros [|x l] ?;
    simplify_eq/=; constructor; auto.
Qed.

Lemma Forall2_and {A B} (P Q : A → B → Prop) l k :
  Forall2 P l k → Forall2 Q l k → Forall2 (λ x y, P x y ∧ Q x y) l k.
Proof.
  intros HP. induction HP; inversion 1; simplify_eq; constructor; auto.
Qed.

Lemma set_column_Ok a j col :
  Forall (λ row, in_range (length row) j) a → length col = length a →
  np.set_column a j col
  = Ok (zip_with (λ row v, <[Z.to_nat j := v]> row) a col).
Proof.
  intros Ha Hl. unfold np.set_column, np.broadcast.
  rewrite decide_True by done. cbn.
  apply map2M_Ok_zip_with.
  apply (Forall2_of_Forall_l _ a col) in Ha; [|done].
  eapply Forall2_impl; [exact Ha|].
  cbn. intros row v Hrow. by apply setitem_Ok.
Qed.

Lemma set_row_Ok a i vals row :
  0 ≤ i → a !! Z.to_nat i = Some row → length vals = length row →
  np.set_row a i vals = Ok (<[Z.to_nat i := vals]> a).
Proof.
  intros Hi Hrow Hl. unfold np.set_row. erewrite getitem_Ok by done. cbn.
  unfold np.broadcast. rewrite decide_True by done. cbn.
  apply setitem_Ok. apply lookup_lt_Some in Hrow. lia.
Qed.

Lemma column_Ok_fmap `{Inhabited A} (a : list (list A)) j :
  Forall (λ row, in_range (length row) j) a →
  np.column a j = Ok ((λ row, row !!! Z.to_nat j) <$> a).
Proof.
  intros Ha. apply mapM_Ok_fmap. eapply Forall_impl; [done|].
  intros row Hrow. by apply getitem_Ok_total.
Qed.

Lemma columns_Ok_fmap `{Inhabited A} (a : list (list A)) js :
  Forall (λ row, Forall (in_range (length row)) js) a →
  np.columns a js
  = Ok ((λ row, (λ j, row !!! Z.to_nat j) <$> js) <$> a).
Proof.
  intros Ha. apply mapM_Ok_fmap. eapply Forall_impl; [done|].
  intros row Hrow. by apply getitems_Ok.
Qed.

(** ** Reshaping a range into rows *)

Lemma length_chunks rows width l : length (np.chunks rows width l) = rows.
Proof.
  revert l. induction rows as [|rows IH]; intros l; [done|]. cbn. by rewrite IH.
Qed.

Lemma chunks_seqZ rows width lo :
  np.chunks rows width (seqZ lo (Z.of_nat (rows * width)))
  = (λ k : nat, seqZ (lo + Z.of_nat (k * width)) (Z.of_nat width)) <$> seq 0 rows.
Proof.
  revert lo. induction rows as [|rows IH]; intros lo; [done|].
  cbn [np.chunks seq fmap list_fmap].
  replace (Z.of_nat (S rows * width))
    with (Z.of_nat width + Z.of_nat (rows * width)) by lia.
  rewrite seqZ_app by lia.
  rewrite take_app_length' by (rewrite length_seqZ; lia).
  rewrite drop_app_length' by (rewrite length_seqZ; lia).
  f_equal; [f_equal; lia|].
  rewrite IH. rewrite <- fmap_S_seq, <- list_fmap_compose.
  apply list_fmap_ext. intros _ k _. cbn. f_equal. lia.
Qed.

Lemma reshape_rows_arange lo n w :
  0 < n → 0 ≤ w →
  np.reshape_rows (np.arange lo (lo + n * w)) n
  = Ok ((λ k : nat, seqZ (lo + Z.of_nat k * w) w) <$> seq 0 (Z.to_nat n)).
Proof.
  intros Hn Hw. unfold np.reshape_rows, np.arange. rewrite dim_Ok by lia. cbn.
  rewrite decide_False by lia.
  replace (lo + n * w - lo) with (Z.of_nat (Z.to_nat n * Z.to_nat w)) by nia.
  rewrite length_seqZ, Nat2Z.id.
  assert ((Z.to_nat n * Z.to_nat w) `mod` Z.to_nat n = 0)%nat as ->
    by (rewrite Nat.mul_comm; apply Nat.Div0.mod_mul).
  assert ((Z.to_nat n * Z.to_nat w) `div` Z.to_nat n = Z.to_nat w)%nat as ->
    by (rewrite Nat.mul_comm; apply Nat.div_mul; lia).
  rewrite decide_True by done.
  rewrite chunks_seqZ. f_equal. apply list_fmap_ext. intros _ k _.
  f_equal; nia.
Qed.

(** ** The multi-indices *)

Lemma length_axis_values p : length (axis_values p) = Z.to_nat (p + 1).
Proof. unfold axis_values. by rewrite length_seqZ. Qed.

Lemma length_axis_outer p :
  length (axis_outer p) = (Z.to_nat (p + 1) * Z.to_nat (p + 1))%nat.
Proof. unfold axis_outer. by rewrite length_bind_replicate, length_axis_values. Qed.

Lemma length_axis_inner p :
  length (axis_inner p) = (Z.to_nat (p + 1) * Z.to_nat (p + 1))%nat.
Proof. unfold axis_inner. by rewrite length_join_replicate, length_axis_values. Qed.

Lemma to_nat_square p : 0 ≤ p →
  Z.to_nat ((p + 1) ^ 2) = (Z.to_nat (p + 1) * Z.to_nat (p + 1))%nat.
Proof. intros. replace ((p + 1) ^ 2) with ((p + 1) * (p + 1)) by lia. nia. Qed.

Lemma to_nat_cube p : 0 ≤ p →
  Z.to_nat ((p + 1) ^ 3)
  = (Z.to_nat (p + 1) * (Z.to_nat (p + 1) * Z.to_nat (p + 1)))%nat.
Proof.
  intros. replace ((p + 1) ^ 3) with ((p + 1) * ((p + 1) * (p + 1))) by lia. nia.
Qed.

Lemma axis_values_range p : Forall (λ x, 0 ≤ x ≤ p) (axis_values p).
Proof.
  apply Forall_forall. intros x Hx. apply elem_of_seqZ in Hx. lia.
Qed.

Lemma fmap_zip_with {A B C D} (f : A → B → C) (g : C → D) l k :
  g <$> zip_with f l k = zip_with (λ x y, g (f x y)) l k.
Proof.
  revert k. induction l as [|x l IH]; intros [|y k]; cbn; [done..|].
  by rewrite IH.
Qed.

Lemma Forall_zip_with {A B C} (f : A → B → C) (P : C → Prop) l k :
  (∀ x y, x ∈ l → y ∈ k → P (f x y)) → Forall P (zip_with f l k).
Proof.
  revert k. induction l as [|x l IH]; intros [|y k] Hf; cbn; constructor.
  - apply Hf; left.
  - apply IH. intros. apply Hf; by right.
Qed.

Lemma arange_0 n : np.arange 0 n = seqZ 0 n.
Proof. unfold np.arange. f_equal. lia. Qed.

Lemma multi_index2_Ok p :
  0 ≤ p →
  multi_index2 p = Ok (zip_with (λ a b, [a; b]) (axis_outer p) (axis_inner p)).
Proof.
  intros Hp. unfold multi_index2. rewrite arange_0.
  rewrite zeros2_Ok by lia. cbn [mbind PyResult_bind].
  rewrite repeat_Ok by lia. cbn [mbind PyResult_bind].
  fold (axis_values p). fold (axis_outer p).
  rewrite set_column_Ok; cycle 1.
  { apply Forall_replicate. unfold in_range. rewrite length_replicate. lia. }
  { by rewrite length_replicate, length_axis_outer, to_nat_square. }
  cbn [mbind PyResult_bind].
  rewrite tile_Ok by lia. cbn [mbind PyResult_bind].
  fold (axis_values p). fold (axis_inner p).
  rewrite zip_with_replicate_l
    by (by rewrite length_axis_outer, to_nat_square).
  rewrite set_column_Ok; cycle 1.
  { apply Forall_fmap, Forall_true. intros x. unfold in_range. cbn.
    rewrite length_insert, length_replicate. lia. }
  { by rewrite length_fmap, length_axis_outer, length_axis_inner. }
  f_equal. rewrite zip_with_fmap_l. done.
Qed.

Lemma multi_index2_columns p :
  np.column (zip_with (λ a b, [a; b]) (axis_outer p) (axis_inner p)) 0
  = Ok (axis_outer p)
  ∧ np.column (zip_with (λ a b, [a; b]) (axis_outer p) (axis_inner p)) 1
  = Ok (axis_inner p).
Proof.
  split.
  - rewrite column_Ok_fmap.
    + f_equal. apply fmap_zip_with_l; [done|].
      by rewrite length_axis_outer, length_axis_inner.
    + apply Forall_zip_with. intros. unfold in_range. cbn. lia.
  - rewrite column_Ok_fmap.
    + f_equal. apply fmap_zip_with_r; [done|].
      by rewrite length_axis_outer, length_axis_inner.
    + apply Forall_zip_with. intros. unfold in_range. cbn. lia.
Qed.

(** *** Where a column holds a given value *)

Lemma where_from_replicate s v x k :
  np.where_from s (eqb_col v (replicate k x))
  = if decide (x = v) then seqZ s (Z.of_nat k) else [].
Proof.
  revert s. induction k as [|k IH]; intros s.
  - cbn. by case_decide.
  - cbn [replicate eqb_col fmap list_fmap np.where_from].
    fold (eqb_col v (replicate k x)). rewrite IH.
    case_decide as Hx.
    + rewrite bool_decide_eq_true_2 by done.
      replace (Z.of_nat (S k)) with (1 + Z.of_nat k) by lia.
      rewrite (seqZ_app s 1) by lia. done.
    + by rewrite bool_decide_eq_false_2.
Qed.

Lemma eqb_col_app v l k : eqb_col v (l ++ k) = eqb_col v l ++ eqb_col v k.
Proof. unfold eqb_col. apply fmap_app. Qed.

Lemma length_eqb_col v l : length (eqb_col v l) = length l.
Proof. unfold eqb_col. apply length_fmap. Qed.

Lemma where_from_absent s v l :
  Forall (λ x, x ≠ v) l → np.where_from s (eqb_col v l) = [].
Proof.
  intros Hl. revert s. induction Hl as [|x l Hx _ IH]; intros s; [done|].
  cbn. rewrite bool_decide_eq_false_2 by done. apply IH.
Qed.

Lemma Forall_ne_of_not_elem_of (v : Z) l : v ∉ l → Forall (λ x, x ≠ v) l.
Proof.
  intros Hv. apply Forall_forall. intros x Hx ->. done.
Qed.

(** A value that occurs once, at position [j], in the repeated range. *)
Lemma where_from_once s v l j :
  NoDup l → l !! j = Some v →
  np.where_from s (eqb_col v l) = [s + Z.of_nat j].
Proof.
  intros Hnd. revert s j. induction Hnd as [|x l Hx Hnd IH]; intros s j Hj;
    [done|].
  destruct j as [|j]; cbn in Hj.
  - simplify_eq. cbn. rewrite bool_decide_eq_true_2 by done.
    fold (eqb_col v l). rewrite where_from_absent
      by by apply Forall_ne_of_not_elem_of.
    f_equal. lia.
  - cbn. rewrite bool_decide_eq_false_2.
    + fold (eqb_col v l). rewrite (IH _ j) by done. f_equal. lia.
    + intros ->. apply Hx. by eapply list_elem_of_lookup_2.
Qed.

Lemma where_from_outer s v l j k :
  NoDup l → l !! j = Some v →
  np.where_from s (eqb_col v (l ≫= replicate k))
  = seqZ (s + Z.of_nat j * Z.of_nat k) (Z.of_nat k).
Proof.
  intros Hnd. revert s j. induction Hnd as [|x l Hx Hnd IH]; intros s j Hj;
    [done|].
  rewrite bind_cons, eqb_col_app, where_from_app, where_from_replicate.
  rewrite length_eqb_col, length_replicate.
  destruct j as [|j]; cbn in Hj.
  - simplify_eq. rewrite decide_True by done.
    rewrite where_from_absent.
    + rewrite app_nil_r. f_equal. lia.
    + apply Forall_bind_replicate. by apply Forall_ne_of_not_elem_of.
  - rewrite decide_False.
    + rewrite (IH _ j) by done. cbn. f_equal. lia.
    + intros ->. apply Hx. by eapply list_elem_of_lookup_2.
Qed.

Lemma where_from_inner s v l j m :
  NoDup l → l !! j = Some v →
  np.where_from s (eqb_col v (mjoin (replicate m l)))
  = (λ t, s + t * Z.of_nat (length l) + Z.of_nat j) <$> seqZ 0 (Z.of_nat m).
Proof.
  intros Hnd Hj. revert s. induction m as [|m IH]; intros s; [done|].
  rewrite join_replicate_S, eqb_col_app, where_from_app, length_eqb_col.
  rewrite (where_from_once _ _ _ j) by done. rewrite IH.
  replace (Z.of_nat (S m)) with (1 + Z.of_nat m) by lia.
  rewrite (seqZ_app 0 1) by lia. rewrite fmap_app. cbn [seqZ].
  assert (seqZ 0 1 = [0]) as -> by done. cbn [fmap list_fmap app].
  f_equal; [lia|].
  rewrite <- (fmap_add_seqZ 1 0), <- list_fmap_compose.
  apply list_fmap_ext. intros _ t _. cbn. lia.
Qed.

Lemma axis_values_NoDup p : NoDup (axis_values p).
Proof. apply NoDup_seqZ. Qed.

Lemma axis_values_lookup p v :
  0 ≤ v ≤ p → axis_values p !! Z.to_nat v = Some v.
Proof.
  intros Hv. unfold axis_values. rewrite lookup_seqZ. split; [lia|lia].
Qed.

(** *** The positions of the edges of a face *)

Lemma where_inner p v :
  0 ≤ v ≤ p →
  np.where_ (eqb_col v (axis_inner p))
  = (λ t, t * (p + 1) + v) <$> seqZ 0 (p + 1).
Proof.
  intros Hv. unfold np.where_, axis_inner.
  rewrite (where_from_inner _ _ _ (Z.to_nat v))
    by (apply axis_values_NoDup || by apply axis_values_lookup).
  rewrite length_axis_values. rewrite !Z2Nat.id by lia.
  apply list_fmap_ext. intros _ t _. lia.
Qed.

Lemma where_outer p v :
  0 ≤ v ≤ p →
  np.where_ (eqb_col v (axis_outer p)) = seqZ (v * (p + 1)) (p + 1).
Proof.
  intros Hv. unfold np.where_, axis_outer.
  rewrite (where_from_outer _ _ _ (Z.to_nat v))
    by (apply axis_values_NoDup || by apply axis_values_lookup).
  rewrite !Z2Nat.id by lia. f_equal.
Qed.

Lemma edge_positions_0 p :
  (λ t, t * (p + 1) + 0) <$> seqZ 0 (p + 1) = edge_positions p 0.
Proof. apply list_fmap_ext. intros _ t _. unfold edge_position. repeat case_decide; lia. Qed.

Lemma edge_positions_1 p : seqZ (p * (p + 1)) (p + 1) = edge_positions p 1.
Proof.
  rewrite <- (Z.add_0_r (p * (p + 1))) at 1. rewrite <- fmap_add_seqZ.
  apply list_fmap_ext. intros _ t _. unfold edge_position. repeat case_decide; lia.
Qed.

Lemma edge_positions_2 p :
  (λ t, t * (p + 1) + p) <$> seqZ 0 (p + 1) = edge_positions p 2.
Proof. apply list_fmap_ext. intros _ t _. unfold edge_position. repeat case_decide; lia. Qed.

Lemma edge_positions_3 p : seqZ (0 * (p + 1)) (p + 1) = edge_positions p 3.
Proof.
  replace (0 * (p + 1)) with 0 by lia.
  rewrite <- (list_fmap_id (seqZ 0 (p + 1))) at 1.
  apply list_fmap_ext. intros _ t _. unfold edge_position.
  repeat case_decide; try lia. done.
Qed.

Lemma length_edge_positions p i : length (edge_positions p i) = Z.to_nat (p + 1).
Proof. unfold edge_positions. by rewrite length_fmap, length_seqZ. Qed.

Lemma face_dofidx_Ok p :
  0 ≤ p →
  face_dofidx (zip_with (λ a b, [a; b]) (axis_outer p) (axis_inner p)) p
  = Ok (edge_positions p <$> [0; 1; 2; 3]).
Proof.
  intros Hp. unfold face_dofidx.
  destruct (multi_index2_columns p) as [-> ->]. cbn [mbind PyResult_bind].
  rewrite zeros2_Ok by lia. cbn [mbind PyResult_bind].
  rewrite !where_inner, !where_outer by lia.
  rewrite edge_positions_0, edge_positions_1, edge_positions_2, edge_positions_3.
  assert (Z.to_nat 4 = 4%nat) as -> by done. cbn [replicate].
  do 3 (erewrite set_row_Ok;
        [|lia|reflexivity|by rewrite length_edge_positions, length_replicate];
        cbn [mbind PyResult_bind]).
  erewrite set_row_Ok;
    [|lia|reflexivity|by rewrite length_edge_positions, length_replicate].
  reflexivity.
Qed.

(** *** The interior mask *)

Lemma interior_mask_fmap rows p :
  interior_mask rows p
  = (λ row, forallb (inside p) row) <$> rows.
Proof.
  unfold interior_mask, np.all_rows. rewrite zip_with_fmap_l, zip_with_fmap_r.
  rewrite zip_with_diag. apply list_fmap_ext. intros _ row _.
  induction row as [|x row IH]; [done|]. cbn. rewrite <- IH. unfold inside.
  destruct (bool_decide (0 < x)), (bool_decide (x < p)),
    (forallb _ row), (forallb _ row); done.
Qed.

Lemma count_true_app m1 m2 : count_true (m1 ++ m2) = (count_true m1 + count_true m2)%nat.
Proof. unfold count_true. by rewrite filter_app, length_app. Qed.

Lemma length_where m : length (np.where_ m) = count_true m.
Proof. apply length_where_from. Qed.

(** Counting in a product: the outer column repeats each of its values over a
    block, the inner rows repeat the block. *)
Lemma count_true_all m : Forall (λ b, b = true) m → count_true m = length m.
Proof.
  unfold count_true. induction 1 as [|b m Hb _ IH]; [done|].
  rewrite filter_cons_True by done. cbn. by rewrite IH.
Qed.

Lemma count_true_none m : Forall (λ b, b = false) m → count_true m = 0%nat.
Proof.
  unfold count_true. induction 1 as [|b m Hb _ IH]; [done|].
  rewrite filter_cons_False; [done|]. by rewrite Hb.
Qed.

Lemma count_true_product {A B} (f : A → bool) (g : B → bool) (l : list A)
    (blk : list B) :
  count_true (zip_with (λ a r, f a && g r)
                (l ≫= replicate (length blk))
                (mjoin (replicate (length l) blk)))
  = (count_true (f <$> l) * count_true (g <$> blk))%nat.
Proof.
  induction l as [|x l IH]; [done|].
  rewrite bind_cons. cbn [length]. rewrite join_replicate_S.
  rewrite zip_with_app by by rewrite length_replicate.
  rewrite count_true_app, IH. rewrite fmap_cons.
  change (f x :: (f <$> l)) with ([f x] ++ (f <$> l)).
  rewrite count_true_app, Nat.mul_add_distr_r. f_equal.
  rewrite zip_with_replicate_l by done.
  destruct (f x).
  - replace (count_true [true]) with 1%nat by done. rewrite Nat.mul_1_l. done.
  - replace (count_true [false]) with 0%nat by done.
    rewrite count_true_none; [done|]. apply Forall_fmap, Forall_true. done.
Qed.

Lemma count_true_inside p :
  1 ≤ p → count_true (inside p <$> axis_values p) = Z.to_nat (p - 1).
Proof.
  intros Hp. unfold axis_values.
  replace (p + 1) with (1 + ((p - 1) + 1)) by lia.
  rewrite (seqZ_app 0 1), (seqZ_app (0 + 1) (p - 1)) by lia.
  rewrite !fmap_app, !count_true_app.
  rewrite (count_true_none (inside p <$> seqZ 0 1)) by (repeat constructor).
  rewrite (count_true_none (inside p <$> seqZ (0 + 1 + (p - 1)) 1)).
  - rewrite count_true_all.
    + rewrite length_fmap, length_seqZ. lia.
    + apply Forall_fmap, Forall_forall. intros x Hx%elem_of_seqZ. cbn.
      unfold inside. rewrite !bool_decide_eq_true_2 by lia. done.
  - apply Forall_fmap, Forall_forall. intros x Hx%elem_of_seqZ. cbn.
    unfold inside. rewrite (bool_decide_eq_false_2 (x < p)) by lia.
    apply andb_false_r.
Qed.

(** The interior of a face has [(p-1)^2] points. *)
Lemma count_interior2 p :
  1 ≤ p →
  count_true
    (interior_mask (zip_with (λ a b, [a; b]) (axis_outer p) (axis_inner p)) p)
  = (Z.to_nat (p - 1) * Z.to_nat (p - 1))%nat.
Proof.
  intros Hp. rewrite interior_mask_fmap.
  rewrite <- (count_true_inside p) by done.
  rewrite <- (count_true_product (inside p) (inside p)).
  rewrite length_axis_values. fold (axis_outer p). fold (axis_inner p).
  f_equal. rewrite fmap_zip_with. apply zip_with_ext; [|done..].
  intros a b. cbn. by rewrite andb_true_r.
Qed.

(** *** The multi-indices of a cell *)

Lemma length_cube_axis0 p : 0 ≤ p → length (cube_axis0 p) = Z.to_nat ((p + 1) ^ 3).
Proof.
  intros. unfold cube_axis0.
  rewrite length_bind_replicate, length_axis_values, to_nat_square, to_nat_cube by done.
  done.
Qed.

Lemma length_cube_axis1 p : 0 ≤ p → length (cube_axis1 p) = Z.to_nat ((p + 1) ^ 3).
Proof.
  intros. unfold cube_axis1.
  rewrite length_join_replicate, length_axis_outer, to_nat_cube by done. done.
Qed.

Lemma length_cube_axis2 p : 0 ≤ p → length (cube_axis2 p) = Z.to_nat ((p + 1) ^ 3).
Proof.
  intros. unfold cube_axis2.
  rewrite length_join_replicate, length_axis_values, to_nat_square, to_nat_cube by done.
  lia.
Qed.

Lemma length_square_rows p : 0 ≤ p → length (square_rows p) = Z.to_nat ((p + 1) ^ 2).
Proof.
  intros. unfold square_rows.
  rewrite length_zip_with, length_axis_outer, length_axis_inner, to_nat_square by done.
  lia.
Qed.

Lemma length_cube_rows p : 0 ≤ p → length (cube_rows p) = Z.to_nat ((p + 1) ^ 3).
Proof.
  intros. unfold cube_rows.
  rewrite !length_zip_with, length_cube_axis0, length_cube_axis1, length_cube_axis2
    by done. lia.
Qed.

Lemma zip_columns3 (x0 x1 x2 : list Z) :
  zip_with (λ r c, <[2%nat := c]> r)
    (zip_with (λ r b, <[1%nat := b]> r) ((λ a, [a; 0; 0]) <$> x0) x1) x2
  = zip_with (λ a bc, a :: bc) x0 (zip_with (λ b c, [b; c]) x1 x2).
Proof.
  revert x1 x2. induction x0 as [|a x0 IH]; intros [|b x1] [|c x2]; cbn;
    try done. by rewrite IH.
Qed.

Lemma multi_index3_Ok p : 0 ≤ p → multi_index3 p = Ok (cube_rows p).
Proof.
  intros Hp. unfold multi_index3. rewrite arange_0.
  assert (0 ≤ (p + 1) ^ 2) by lia. assert (0 ≤ (p + 1) ^ 3) by lia.
  rewrite zeros2_Ok by lia. rewrite !repeat_Ok by lia.
  cbn [mbind PyResult_bind]. rewrite !tile_Ok by lia.
  cbn [mbind PyResult_bind].
  fold (axis_values p). fold (cube_axis0 p).
  fold (axis_outer p). fold (cube_axis1 p). fold (cube_axis2 p).
  rewrite set_column_Ok; cycle 1.
  { apply Forall_replicate. unfold in_range. rewrite length_replicate. lia. }
  { by rewrite length_replicate, length_cube_axis0. }
  cbn [mbind PyResult_bind].
  rewrite zip_with_replicate_l by by rewrite length_cube_axis0.
  rewrite set_column_Ok; cycle 1.
  { apply Forall_fmap, Forall_true. intros x. unfold in_range. cbn.
    rewrite length_insert, length_replicate. lia. }
  { by rewrite length_fmap, length_cube_axis0, length_cube_axis1. }
  cbn [mbind PyResult_bind].
  rewrite set_column_Ok; cycle 1.
  { apply Forall_zip_with. intros r b (a & -> & _)%list_elem_of_fmap _.
    unfold in_range. cbn. rewrite !length_insert, length_replicate. lia. }
  { rewrite length_zip_with, length_fmap, length_cube_axis0, length_cube_axis1,
      length_cube_axis2 by done. lia. }
  f_equal. apply zip_columns3.
Qed.

Lemma cube_axis_range p :
  Forall (λ x, 0 ≤ x ≤ p) (cube_axis0 p)
  ∧ Forall (λ x, 0 ≤ x ≤ p) (cube_axis1 p)
  ∧ Forall (λ x, 0 ≤ x ≤ p) (cube_axis2 p).
Proof.
  pose proof (axis_values_range p) as H. repeat split.
  - by apply Forall_bind_replicate.
  - by apply Forall_join_replicate, Forall_bind_replicate.
  - by apply Forall_join_replicate.
Qed.

Lemma cube_rows_shape p :
  Forall (λ row, length row = 3%nat ∧ Forall (λ x, 0 ≤ x ≤ p) row) (cube_rows p).
Proof.
  destruct (cube_axis_range p) as (H0 & H1 & H2).
  rewrite Forall_forall in H0, H1, H2.
  apply Forall_zip_with. intros a bc Ha Hbc.
  apply elem_of_zip_with in Hbc as (b & c & -> & Hb & Hc).
  split; [done|]. repeat (apply Forall_cons; split; [by auto|]). constructor.
Qed.

Lemma fmap_zip3 (x0 x1 x2 : list Z) :
  length x0 = length x1 → length x1 = length x2 →
  let rows := zip_with (λ a bc, a :: bc) x0 (zip_with (λ b c, [b; c]) x1 x2) in
  (λ row : list Z, row !!! 0%nat) <$> rows = x0
  ∧ (λ row : list Z, row !!! 1%nat) <$> rows = x1
  ∧ (λ row : list Z, row !!! 2%nat) <$> rows = x2.
Proof.
  revert x1 x2. induction x0 as [|a x0 IH]; intros [|b x1] [|c x2] H1 H2;
    simplify_eq/=; [done|].
  destruct (IH x1 x2) as (-> & -> & ->); done.
Qed.

Lemma cube_columns p :
  0 ≤ p →
  np.column (cube_rows p) 0 = Ok (cube_axis0 p)
  ∧ np.column (cube_rows p) 1 = Ok (cube_axis1 p)
  ∧ np.column (cube_rows p) 2 = Ok (cube_axis2 p).
Proof.
  intros Hp.
  assert (Forall (λ row, length row = 3%nat) (cube_rows p)) as Hs.
  { eapply Forall_impl; [apply cube_rows_shape|]. by intros ? [? _]. }
  destruct (fmap_zip3 (cube_axis0 p) (cube_axis1 p) (cube_axis2 p))
    as (H0 & H1 & H2).
  { by rewrite length_cube_axis0, length_cube_axis1. }
  { by rewrite length_cube_axis1, length_cube_axis2. }
  repeat split; (rewrite column_Ok_fmap;
    [|eapply Forall_impl; [exact Hs|]; intros row ->; unfold in_range; lia]);
    f_equal; unfold cube_rows; done.
Qed.

(** *** How often a value occurs in a column *)

Lemma count_true_eqb_once p v :
  0 ≤ v ≤ p → count_true (eqb_col v (axis_values p)) = 1%nat.
Proof.
  intros Hv. rewrite <- length_where. unfold np.where_.
  rewrite (where_from_once _ _ _ (Z.to_nat v));
    [done|apply axis_values_NoDup|by apply axis_values_lookup].
Qed.

Lemma count_true_bind_replicate v l k :
  count_true (eqb_col v (l ≫= replicate k))
  = (count_true (eqb_col v l) * k)%nat.
Proof.
  induction l as [|x l IH]; [done|].
  rewrite bind_cons, eqb_col_app, count_true_app, IH.
  change (x :: l) with ([x] ++ l). rewrite eqb_col_app, count_true_app.
  rewrite Nat.mul_add_distr_r. f_equal.
  rewrite <- !length_where. unfold np.where_.
  rewrite where_from_replicate. cbn. case_decide.
  - rewrite bool_decide_eq_true_2 by done. cbn. rewrite length_seqZ. lia.
  - rewrite bool_decide_eq_false_2 by done. done.
Qed.

Lemma count_true_join_replicate v l k :
  count_true (eqb_col v (mjoin (replicate k l)))
  = (k * count_true (eqb_col v l))%nat.
Proof.
  induction k as [|k IH]; [done|].
  rewrite join_replicate_S, eqb_col_app, count_true_app, IH. lia.
Qed.

Lemma count_cube_axis p v :
  0 ≤ p → 0 ≤ v ≤ p →
  count_true (eqb_col v (cube_axis0 p)) = Z.to_nat ((p + 1) ^ 2)
  ∧ count_true (eqb_col v (cube_axis1 p)) = Z.to_nat ((p + 1) ^ 2)
  ∧ count_true (eqb_col v (cube_axis2 p)) = Z.to_nat ((p + 1) ^ 2).
Proof.
  intros Hp Hv. unfold cube_axis0, cube_axis1, cube_axis2, axis_outer.
  rewrite !count_true_join_replicate, !count_true_bind_replicate,
    count_true_eqb_once, to_nat_square by done.
  lia.
Qed.

(** *** The positions of the faces of a cell *)

Lemma where_good m len :
  count_true m = len → good_positions len (length m) (np.where_ m).
Proof.
  intros Hc. split; [by rewrite length_where|].
  split; [apply where_in_range|apply where_from_NoDup].
Qed.

Lemma cell_dofidx_spec p axes :
  0 ≤ p → Forall (λ a, 0 ≤ a ≤ 2) axes →
  ∃ dofidx, cell_dofidx (cube_rows p) p axes = Ok dofidx ∧
    length dofidx = 6%nat ∧
    Forall (λ d, length d = Z.to_nat ((p + 1) ^ 2)
                 ∧ Forall (in_range (Z.to_nat ((p + 1) ^ 3))) d) dofidx.
Proof.
  intros Hp Haxes. unfold cell_dofidx.
  assert (0 ≤ (p + 1) ^ 2) by lia. assert (0 < (p + 1) ^ 3) by lia.
  rewrite zeros2_Ok by lia. cbn [mbind PyResult_bind].
  apply foldM_success.
  - intros dofidx [s axis] (Hlen & Hrows) Hin.
    apply elem_of_zip_with in Hin as (s1 & a1 & Heq & Hs & Ha).
    injection Heq as <- <-.
    apply elem_of_seqZ in Hs. rewrite Forall_forall in Haxes.
    specialize (Haxes _ Ha).
    destruct (cube_columns p Hp) as (C0 & C1 & C2).
    destruct (lookup_lt_is_Some_2 dofidx (Z.to_nat s)) as [row Hrow]; [lia|].
    assert (length row = Z.to_nat ((p + 1) ^ 2)) as Hrl.
    { rewrite Forall_forall in Hrows. eapply Hrows, list_elem_of_lookup_2, Hrow. }
    set (v := if decide (s `mod` 2 = 0) then 0 else p).
    assert (0 ≤ v ≤ p) as Hv by (unfold v; case_decide; lia).
    destruct (count_cube_axis p v Hp Hv) as (N0 & N1 & N2).
    assert (∃ col, np.column (cube_rows p) axis = Ok col
                   ∧ length col = Z.to_nat ((p + 1) ^ 3)
                   ∧ count_true (eqb_col v col) = Z.to_nat ((p + 1) ^ 2))
      as (col & -> & Hcl & Hcc).
    { assert (axis = 0 ∨ axis = 1 ∨ axis = 2) as [-> | [-> | ->] ] by lia;
        eexists; (split; [done|]); split; try done;
        by rewrite ?length_cube_axis0, ?length_cube_axis1, ?length_cube_axis2. }
    cbn [mbind PyResult_bind].
    erewrite set_row_Ok; [|lia|done|by rewrite length_where, Hrl].
    eexists. split; [done|]. split; [by rewrite length_insert|].
    apply Forall_insert; [done|]. split; [by rewrite length_where|].
    rewrite <- Hcl, <- (length_eqb_col v col). apply where_in_range.
  - split; [by rewrite length_replicate|]. apply Forall_replicate.
    split; [by rewrite length_replicate|]. apply Forall_replicate.
    unfold in_range. lia.
Qed.

(** *** The interior of a cell *)

Lemma join_replicate_mul {A} (l : list A) n m :
  mjoin (replicate (n * m) l) = mjoin (replicate n (mjoin (replicate m l))).
Proof.
  induction n as [|n IH]; [done|]. cbn [Nat.mul].
  rewrite replicate_add, join_app, IH. done.
Qed.

Lemma zip_with_join_replicate {A B C} (f : A → B → C) l k n :
  length l = length k →
  zip_with f (mjoin (replicate n l)) (mjoin (replicate n k))
  = mjoin (replicate n (zip_with f l k)).
Proof.
  intros Hl. induction n as [|n IH]; [done|].
  rewrite !join_replicate_S, zip_with_app by done. by rewrite IH.
Qed.

Lemma cube_rows_blocks p :
  0 ≤ p →
  cube_rows p
  = zip_with (λ a bc, a :: bc)
      (axis_values p ≫= replicate (length (square_rows p)))
      (mjoin (replicate (length (axis_values p)) (square_rows p))).
Proof.
  intros Hp. unfold cube_rows, cube_axis0, cube_axis1, cube_axis2.
  rewrite length_square_rows, length_axis_values by done.
  f_equal. rewrite to_nat_square, join_replicate_mul by done.
  fold (axis_inner p). apply zip_with_join_replicate.
  by rewrite length_axis_outer, length_axis_inner.
Qed.

Lemma count_interior3 p :
  1 ≤ p →
  count_true (interior_mask (cube_rows p) p)
  = (Z.to_nat (p - 1) * (Z.to_nat (p - 1) * Z.to_nat (p - 1)))%nat.
Proof.
  intros Hp. rewrite interior_mask_fmap, cube_rows_blocks by lia.
  rewrite fmap_zip_with.
  etrans; [apply (count_true_product (inside p) (forallb (inside p)))|].
  rewrite count_true_inside by done. rewrite <- interior_mask_fmap.
  unfold square_rows. by rewrite count_interior2.
Qed.

Lemma to_nat_pred_square p : 1 ≤ p →
  Z.to_nat ((p - 1) ^ 2) = (Z.to_nat (p - 1) * Z.to_nat (p - 1))%nat.
Proof. intros. replace ((p - 1) ^ 2) with ((p - 1) * (p - 1)) by lia. nia. Qed.

Lemma to_nat_pred_cube p : 1 ≤ p →
  Z.to_nat ((p - 1) ^ 3)
  = (Z.to_nat (p - 1) * (Z.to_nat (p - 1) * Z.to_nat (p - 1)))%nat.
Proof.
  intros. replace ((p - 1) ^ 3) with ((p - 1) * ((p - 1) * (p - 1))) by lia. nia.
Qed.

(** ** Points of the edges *)

Lemma edge_to_ipoint_Ok mesh p :
  Forall (λ e, length e = 2%nat) (ds_edge (ds mesh)) →
  edge_to_ipoint mesh p = Ok (edge_rows mesh p).
Proof.
  intros He. unfold edge_to_ipoint, edge_rows. apply mapM_Ok_fmap.
  apply Forall_forall. intros [k e] Hin. apply elem_of_zip_r in Hin. cbn in Hin.
  rewrite Forall_forall in He. specialize (He _ Hin).
  assert (np.getitem e 0 = Ok (e !!! 0%nat)) as ->
    by (apply getitem_Ok_total; lia).
  assert (np.getitem e 1 = Ok (e !!! 1%nat)) as ->
    by (apply getitem_Ok_total; lia).
  cbn. unfold edge_row, np.arange. cbn.
  replace (number_of_nodes mesh + (k + 1) * (p - 1)
           - (number_of_nodes mesh + k * (p - 1))) with (p - 1) by ring.
  done.
Qed.

Lemma length_edge_rows mesh p :
  length (edge_rows mesh p) = length (ds_edge (ds mesh)).
Proof.
  unfold edge_rows, number_of_edges.
  rewrite length_fmap, length_zip_with, length_seqZ. lia.
Qed.

Lemma edge_rows_lookup mesh p g e :
  ds_edge (ds mesh) !! g = Some e →
  edge_rows mesh p !! g = Some (edge_row (number_of_nodes mesh) p (Z.of_nat g, e)).
Proof.
  intros He. unfold edge_rows. rewrite list_lookup_fmap.
  assert (zip (seqZ 0 (number_of_edges mesh)) (ds_edge (ds mesh)) !! g
          = Some (Z.of_nat g, e)) as ->; [|done].
  apply lookup_zip_Some. split; [|done]. apply lookup_seqZ.
  apply lookup_lt_Some in He. unfold number_of_edges. lia.
Qed.

Lemma length_edge_row NN p ke : 1 ≤ p → length (edge_row NN p ke) = Z.to_nat (p + 1).
Proof.
  intros. unfold edge_row. rewrite !length_app, length_seqZ. cbn. lia.
Qed.

Lemma edge_row_bounds NN NE p k e :
  1 ≤ p → 0 ≤ k < NE → length e = 2%nat → Forall (λ v, 0 ≤ v < NN) e →
  Forall (λ v, 0 ≤ v < NN + NE * (p - 1)) (edge_row NN p (k, e)).
Proof.
  intros Hp Hk Hl He. destruct e as [|a [|b [|]]]; try done.
  apply Forall_cons in He as [Ha He]. apply Forall_cons in He as [Hb _].
  unfold edge_row. cbn. constructor; [nia|].
  apply Forall_app. split; [|constructor; [nia|constructor]].
  apply Forall_forall. intros x Hx%elem_of_seqZ. nia.
Qed.

(** The entries of an edge row: its first node, its own points, its second
    node. *)
Lemma edge_row_first NN p k a b : edge_row NN p (k, [a; b]) !! 0%nat = Some a.
Proof. done. Qed.

Lemma edge_row_last NN p k a b :
  1 ≤ p → edge_row NN p (k, [a; b]) !! Z.to_nat p = Some b.
Proof.
  intros. unfold edge_row. cbn [fst snd].
  rewrite lookup_app_r; cbn [length]; [|lia].
  rewrite lookup_app_r; rewrite length_seqZ; [|lia].
  replace (Z.to_nat p - 1 - Z.to_nat (p - 1))%nat with 0%nat by lia. done.
Qed.

Lemma reverse_lookup_Some {A} (l : list A) i x :
  reverse l !! i = Some x ↔ (i < length l)%nat ∧ l !! (length l - S i)%nat = Some x.
Proof.
  split.
  - intros H. assert (i < length l)%nat as Hi
      by (apply lookup_lt_Some in H; by rewrite length_reverse in H).
    split; [done|]. by rewrite reverse_lookup in H.
  - intros [Hi H]. by rewrite reverse_lookup.
Qed.

(** ** Stores into the rows of a table *)

Lemma put_columns_Ok a cols b :
  Forall2 (λ row vals, length vals = length cols
                       ∧ Forall (in_range (length row)) cols) a b →
  np.put_columns a cols b
  = Ok (zip_with (λ row vals, stores row cols vals) a b).
Proof.
  intros H. unfold np.put_columns. apply map2M_Ok_zip_with.
  eapply Forall2_impl; [done|]. intros row vals [? ?]. by apply put_Ok.
Qed.

Lemma put_rows_columns_spec a rows cols b w :
  Forall (λ row, length row = w) a → Forall (in_range w) cols →
  Forall (in_range (length a)) rows → NoDup rows →
  Forall (λ v, length v = length cols) b → length rows = length b →
  ∃ out, np.put_rows_columns a rows cols b = Ok out ∧
    length out = length a ∧ Forall (λ row, length row = w) out ∧
    ∀ f row, a !! f = Some row →
      (Z.of_nat f ∉ rows → out !! f = Some row) ∧
      (∀ k v, rows !! k = Some (Z.of_nat f) → b !! k = Some v →
              out !! f = Some (stores row cols v)).
Proof.
  intros Ha Hcols Hrows Hnd Hb Hlen. unfold np.put_rows_columns.
  rewrite decide_True by done.
  revert a b Ha Hrows Hb Hlen.
  induction Hnd as [|r rows Hr Hnd IH]; intros a b Ha Hrows Hb Hlen.
  { exists a. destruct b; [|done]. cbn.
    split; [done|]. split; [done|]. split; [done|].
    intros f row Hf. split; [done|]. intros k v Hk. by rewrite lookup_nil in Hk. }
  destruct b as [|v b]; [done|].
  apply Forall_cons in Hrows as [Hrin Hrows].
  apply Forall_cons in Hb as [Hv Hb].
  cbn [zip zip_with foldM fst snd].
  destruct (lookup_lt_is_Some_2 a (Z.to_nat r)) as [row0 Hrow0];
    [unfold in_range in Hrin; lia|].
  assert (length row0 = w) as Hw0.
  { rewrite Forall_forall in Ha. eapply Ha, list_elem_of_lookup_2, Hrow0. }
  erewrite getitem_Ok; [|unfold in_range in Hrin; lia|done].
  cbn [mbind PyResult_bind].
  rewrite put_Ok by (by rewrite ?Hw0). cbn [mbind PyResult_bind].
  rewrite setitem_Ok by done. cbn [mbind PyResult_bind].
  set (a1 := <[Z.to_nat r := stores row0 cols v]> a).
  destruct (IH a1 b) as (out & -> & Hlo & Hwo & Hout).
  { apply Forall_insert; [done|]. by rewrite length_stores. }
  { unfold a1. by rewrite length_insert. }
  { done. }
  { cbn in Hlen. lia. }
  exists out. split; [done|]. split; [by rewrite Hlo; unfold a1; rewrite length_insert|].
  split; [done|]. intros f row Hf. split.
  - intros Hnot. apply not_elem_of_cons in Hnot as [Hne Hnot].
    apply Hout; [|done]. unfold a1. rewrite list_lookup_insert_ne; [done|].
    unfold in_range in Hrin. lia.
  - intros [|k] v' Hk Hv'; cbn in Hk, Hv'; simplify_eq.
    + rewrite Nat2Z.id in Hrow0. simplify_eq.
      apply Hout; [|done]. unfold a1. rewrite Nat2Z.id.
      apply list_lookup_insert_eq. by eapply lookup_lt_Some.
    + assert (Z.of_nat f ≠ r) as Hne.
      { intros <-. apply Hr. by eapply list_elem_of_lookup_2. }
      eapply Hout; [|done..]. unfold a1. rewrite list_lookup_insert_ne; [done|].
      unfold in_range in Hrin. lia.
Qed.

Lemma edge_positions_good p i :
  0 ≤ p → 0 ≤ i < 4 →
  good_positions (Z.to_nat (p + 1)) (Z.to_nat ((p + 1) ^ 2)) (edge_positions p i).
Proof.
  intros Hp Hi.
  assert (length (axis_inner p) = Z.to_nat ((p + 1) ^ 2)) as Hli
    by by rewrite length_axis_inner, to_nat_square.
  assert (length (axis_outer p) = Z.to_nat ((p + 1) ^ 2)) as Hlo
    by by rewrite length_axis_outer, to_nat_square.
  assert (i = 0 ∨ i = 1 ∨ i = 2 ∨ i = 3) as [-> | [-> | [-> | ->] ] ] by lia.
  - rewrite <- edge_positions_0, <- (where_inner p 0) by lia.
    rewrite <- Hli, <- (length_eqb_col 0). apply where_good.
    rewrite <- length_where, where_inner, length_fmap, length_seqZ by lia. done.
  - rewrite <- edge_positions_1, <- (where_outer p p) by lia.
    rewrite <- Hlo, <- (length_eqb_col p). apply where_good.
    rewrite <- length_where, where_outer, length_seqZ by lia. done.
  - rewrite <- edge_positions_2, <- (where_inner p p) by lia.
    rewrite <- Hli, <- (length_eqb_col p). apply where_good.
    rewrite <- length_where, where_inner, length_fmap, length_seqZ by lia. done.
  - rewrite <- edge_positions_3, <- (where_outer p 0) by lia.
    rewrite <- Hlo, <- (length_eqb_col 0). apply where_good.
    rewrite <- length_where, where_outer, length_seqZ by lia. done.
Qed.

(** ** One turn of the loop over the edges of the faces *)

Lemma written_stores di o row :
  Forall (in_range (length row)) di → NoDup di →
  written di o row (stores row di o).
Proof.
  intros Hr Hnd. split; [apply length_stores|].
  split; [intros; by apply stores_lookup_other|].
  split; [intros; by eapply stores_lookup|].
  intros. by apply stores_Forall.
Qed.

Lemma written_stores_twice di e row :
  Forall (in_range (length row)) di → NoDup di →
  written di (reverse e) row (stores (stores row di e) di (reverse e)).
Proof.
  intros Hr Hnd. split; [by rewrite !length_stores|].
  split; [intros; by rewrite !stores_lookup_other|].
  split.
  - intros. eapply stores_lookup; [by rewrite length_stores|done..].
  - intros P HP He. apply stores_Forall; [|done].
    apply stores_Forall; [done|]. by apply Forall_reverse.
Qed.

Section face_edge_step.

Context (p : Z) (edge face face2edge e2i : list (list Z)).
Hypothesis Hp : 0 ≤ p.
Hypothesis Hface : Forall (λ r, length r = 4%nat) face.
Hypothesis Hf2e : table_shape (length face) 4 face2edge.
Hypothesis Hf2e_in : entries_in 0 (Z.of_nat (length edge)) face2edge.
Hypothesis Hedge : Forall (λ r, length r = 2%nat) edge.
Hypothesis He2i : table_shape (length edge) (Z.to_nat (p + 1)) e2i.

Lemma face_edge_step_spec tbl i :
  0 ≤ i < 4 →
  table_shape (length face) (Z.to_nat ((p + 1) ^ 2)) tbl →
  ∃ out,
    face_edge_step edge face face2edge e2i (edge_positions p <$> [0; 1; 2; 3])
      tbl i = Ok out ∧
    table_shape (length face) (Z.to_nat ((p + 1) ^ 2)) out ∧
    ∀ f row, tbl !! f = Some row →
      ∃ row', out !! f = Some row' ∧
        written (edge_positions p i)
          (oriented_edge_row edge face face2edge e2i i f) row row'.
Proof.
  intros Hi [Htl Htw]. destruct Hf2e as [Hfl Hfw]. destruct He2i as [Hel Hew].
  destruct (edge_positions_good p i Hp Hi) as (Hdl & Hdr & Hdn).
  unfold face_edge_step.
  (* ge *)
  rewrite column_Ok_fmap; cycle 1.
  { eapply Forall_impl; [exact Hfw|]. intros r ->. unfold in_range. lia. }
  cbn [mbind PyResult_bind]. set (ge := (λ row : list Z, row !!! Z.to_nat i) <$> face2edge).
  assert (length ge = length face) as Hgl by (unfold ge; by rewrite length_fmap).
  assert (Forall (in_range (length edge)) ge) as Hge.
  { unfold ge. apply Forall_fmap. apply Forall_forall. intros r Hr.
    rewrite Forall_forall in Hfw. specialize (Hfw r Hr).
    unfold entries_in in Hf2e_in. rewrite Forall_forall in Hf2e_in.
    specialize (Hf2e_in r Hr). rewrite Forall_forall in Hf2e_in.
    apply Hf2e_in. apply list_elem_of_lookup_total_2. lia. }
  (* localEdge[i], localEdge[i, 0] *)
  rewrite (getitem_Ok_total face_localEdge i) by (cbn; lia).
  cbn [mbind PyResult_bind].
  set (lei := face_localEdge !!! Z.to_nat i).
  assert (length lei = 2%nat ∧ 0 ≤ lei !!! 0%nat < 4) as [Hlel Hl0].
  { unfold lei. assert (i = 0 ∨ i = 1 ∨ i = 2 ∨ i = 3) as [-> | [-> | [-> | ->] ] ]
      by lia; (split; [reflexivity|vm_compute; split; easy]). }
  rewrite (getitem_Ok_total lei 0) by lia. cbn [mbind PyResult_bind].
  change (Z.to_nat 0) with 0%nat.
  (* face[:, l0] *)
  rewrite column_Ok_fmap; cycle 1.
  { eapply Forall_impl; [exact Hface|]. intros r ->. unfold in_range. lia. }
  cbn [mbind PyResult_bind].
  (* edge[ge, 0] *)
  rewrite (mapM_Ok_fmap _ (λ g, (edge !!! Z.to_nat g) !!! 0%nat)); cycle 1.
  { eapply Forall_impl; [exact Hge|]. intros g Hg.
    rewrite (getitem_Ok_total edge g) by done. cbn [mbind PyResult_bind].
    apply getitem_Ok_total. rewrite Forall_forall in Hedge.
    rewrite (Hedge (edge !!! Z.to_nat g)); [lia|].
    apply list_elem_of_lookup_total_2. unfold in_range in Hg. lia. }
  cbn [mbind PyResult_bind].
  set (mask := zip_with (λ a b : Z, bool_decide (a ≠ b)) _ _).
  assert (length mask = length face) as Hml.
  { unfold mask. rewrite length_zip_with, !length_fmap. lia. }
  (* dofidx[i] *)
  rewrite (getitem_Ok_total _ i) by (cbn; lia). cbn [mbind PyResult_bind].
  assert ((edge_positions p <$> [0; 1; 2; 3]) !!! Z.to_nat i = edge_positions p i)
    as ->.
  { assert (i = 0 ∨ i = 1 ∨ i = 2 ∨ i = 3) as [-> | [-> | [-> | ->] ] ] by lia;
      done. }
  (* forward *)
  assert (Forall (λ g, 0 ≤ g < Z.of_nat (length e2i)) ge) as Hge'
    by (rewrite Hel; exact Hge).
  rewrite (getitems_Ok e2i ge Hge').
  cbn [mbind PyResult_bind].
  set (fwd := (λ g, e2i !!! Z.to_nat g) <$> ge).
  assert (Forall (λ r, length r = Z.to_nat (p + 1)) fwd) as Hfwd.
  { unfold fwd. apply Forall_fmap. eapply Forall_impl; [exact Hge|].
    intros g Hg. cbn. rewrite Forall_forall in Hew. apply Hew.
    apply list_elem_of_lookup_total_2. unfold in_range in Hg. lia. }
  rewrite put_columns_Ok; cycle 1.
  { apply Forall2_and.
    - apply Forall2_of_Forall_r; [|unfold fwd; rewrite length_fmap; lia].
      eapply Forall_impl; [exact Hfwd|]. intros r ->. by rewrite Hdl.
    - apply Forall2_of_Forall_l; [|unfold fwd; rewrite length_fmap; lia].
      eapply Forall_impl; [exact Htw|]. intros r ->. exact Hdr. }
  cbn [mbind PyResult_bind].
  set (tbl1 := zip_with _ tbl fwd).
  assert (length tbl1 = length face) as Ht1l.
  { unfold tbl1, fwd. rewrite length_zip_with, length_fmap. lia. }
  assert (Forall (λ r, length r = Z.to_nat ((p + 1) ^ 2)) tbl1) as Ht1w.
  { unfold tbl1. apply Forall_zip_with. intros r v Hr _.
    rewrite length_stores. rewrite Forall_forall in Htw. by apply Htw. }
  (* backward *)
  assert (Forall (in_range (length face)) (np.where_ mask)) as Hidx
    by (rewrite <- Hml; apply where_in_range).
  assert (Forall (λ k, 0 ≤ k < Z.of_nat (length ge)) (np.where_ mask)) as Hidx'
    by (rewrite Hgl; exact Hidx).
  rewrite (getitems_Ok ge _ Hidx').
  cbn [mbind PyResult_bind].
  rewrite getitems_Ok; cycle 1.
  { apply Forall_fmap. eapply Forall_impl; [exact Hidx|]. intros k Hk. cbn.
    rewrite Forall_forall in Hge'. apply Hge'.
    apply list_elem_of_lookup_total_2. unfold in_range in Hk. lia. }
  cbn [mbind PyResult_bind].
  rewrite <- !list_fmap_compose.
  edestruct (put_rows_columns_spec tbl1 (np.where_ mask) (edge_positions p i))
    as (out & -> & Hol & How & Hout); [exact Ht1w|exact Hdr|by rewrite Ht1l|
    apply where_from_NoDup| |by rewrite length_fmap|].
  { apply Forall_fmap. eapply Forall_impl; [exact Hidx|]. intros k Hk.
    unfold compose. rewrite length_reverse, Hdl. rewrite Forall_forall in Hew. apply Hew.
    apply list_elem_of_lookup_total_2.
    assert (in_range (length edge) (ge !!! Z.to_nat k)) as Hg.
    { rewrite Forall_forall in Hge. apply Hge.
      apply list_elem_of_lookup_total_2. unfold in_range in Hk. lia. }
    unfold in_range in Hg. lia. }
  exists out. split; [done|]. split; [split; [lia|done]|].
  intros f row Hrow.
  assert (f < length face)%nat as Hf by (apply lookup_lt_Some in Hrow; lia).
  assert (length row = Z.to_nat ((p + 1) ^ 2)) as Hrw.
  { rewrite Forall_forall in Htw. eapply Htw, list_elem_of_lookup_2, Hrow. }
  assert (ge !! f = Some (ge !!! f)) as Hgf
    by (apply list_lookup_lookup_total_lt; lia).
  assert (tbl1 !! f = Some (stores row (edge_positions p i)
                              (e2i !!! Z.to_nat (ge !!! f)))) as Ht1.
  { unfold tbl1. apply lookup_zip_with_Some. eexists _, _.
    split; [done|]. split; [done|]. unfold fwd. rewrite list_lookup_fmap, Hgf.
    done. }
  destruct (Hout f _ Ht1) as [Hnot Hin].
  assert (ge !!! f = (face2edge !!! f) !!! Z.to_nat i) as Hgeq.
  { unfold ge.
    rewrite (list_lookup_total_fmap (λ row : list Z, row !!! Z.to_nat i)
               face2edge f) by lia. done. }
  assert (mask !! f = Some (bool_decide
            ((face !!! f) !!! Z.to_nat (lei !!! 0%nat)
             ≠ (edge !!! Z.to_nat (ge !!! f)) !!! 0%nat))) as Hmf.
  { unfold mask. apply lookup_zip_with_Some. eexists _, _. split; [done|].
    rewrite !list_lookup_fmap, Hgf.
    rewrite (list_lookup_lookup_total_lt face f) by lia. done. }
  unfold oriented_edge_row. fold lei. rewrite <- Hgeq.
  case_decide as Hor.
  - (* same direction: the row keeps the forward values *)
    eexists. split.
    + apply Hnot. intros Hel'. apply elem_of_where_from in Hel' as (k & Hk & Hmk).
      assert (k = f) as -> by lia. rewrite Hmf in Hmk. done.
    + apply written_stores; [by rewrite Hrw|done].
  - (* opposite direction *)
    assert (Z.of_nat f ∈ np.where_ mask) as Hel'.
    { apply elem_of_where_from. exists f. split; [lia|].
      rewrite Hmf. done. }
    apply list_elem_of_lookup in Hel' as [k Hk].
    eexists. split.
    + eapply Hin; [done|]. rewrite list_lookup_fmap, Hk. cbn.
      rewrite Nat2Z.id. done.
    + apply written_stores_twice; [by rewrite Hrw|done].
Qed.

End face_edge_step.

Lemma foldM_app {A B} (f : A → B → PyResult A) a l1 l2 :
  foldM f a (l1 ++ l2) = foldM f a l1 ≫= λ a', foldM f a' l2.
Proof.
  revert a. induction l1 as [|x l1 IH]; intros a; [done|]. cbn.
  destruct (f a x); [cbn; apply IH|done].
Qed.

(** ** Facts that follow from well-formedness *)

Lemma lookup_total_elem_of `{Inhabited A} (l : list A) (i : nat) :
  (i < length l)%nat → l !!! i ∈ l.
Proof. apply list_elem_of_lookup_total_2. Qed.

Section well_formed_facts.

Context (mesh : HexahedronMesh) (Hwf : well_formed mesh).

Let NE := length (ds_edge (ds mesh)).
Let NF := length (ds_face (ds mesh)).
Let NC := length (ds_cell (ds mesh)).

Lemma wf_NF_pos : (1 ≤ NF)%nat.
Proof.
  destruct Hwf as (Hc & _ & _ & _ & _ & [Hl Hw] & Hin & _).
  destruct (ds_cell2face (ds mesh)) as [|r t] eqn:E; [cbn in Hl; lia|].
  apply Forall_cons in Hw as [Hr _]. apply Forall_cons in Hin as [Hrin _].
  destruct r as [|x r]; [done|]. apply Forall_cons in Hrin as [Hx _].
  unfold NF. lia.
Qed.

Lemma wf_NE_pos : (1 ≤ NE)%nat.
Proof.
  pose proof wf_NF_pos as HF.
  destruct Hwf as (_ & _ & _ & _ & _ & _ & _ & _ & [Hl Hw] & Hin).
  destruct (ds_face2edge (ds mesh)) as [|r t] eqn:E; [cbn in Hl; unfold NF in HF; lia|].
  apply Forall_cons in Hw as [Hr _]. apply Forall_cons in Hin as [Hrin _].
  destruct r as [|x r]; [done|]. apply Forall_cons in Hrin as [Hx _].
  unfold NE. lia.
Qed.

Lemma wf_NN_pos : 1 ≤ ds_NN (ds mesh).
Proof.
  pose proof wf_NE_pos as HE.
  destruct Hwf as (_ & _ & _ & [Hl Hw] & Hin & _).
  unfold NE in HE.
  destruct (ds_edge (ds mesh)) as [|r t] eqn:E; [cbn in HE; lia|].
  apply Forall_cons in Hw as [Hr _]. apply Forall_cons in Hin as [Hrin _].
  destruct r as [|x r]; [done|]. apply Forall_cons in Hrin as [Hx _]. lia.
Qed.

End well_formed_facts.

(** ** Where two edges of a face meet *)

Lemma edge_positions_lookup p i t c :
  edge_positions p i !! t = Some c
  ↔ c = edge_position p i (Z.of_nat t) ∧ Z.of_nat t < p + 1.
Proof.
  unfold edge_positions. rewrite list_lookup_fmap. split.
  - intros (x & Hx & ->)%fmap_Some. apply lookup_seqZ in Hx as [-> ?].
    split; [f_equal; lia|done].
  - intros [-> Ht]. apply fmap_Some. exists (Z.of_nat t).
    split; [apply lookup_seqZ; lia|done].
Qed.

Lemma edge_position_eqs p t :
  edge_position p 0 t = t * (p + 1) ∧ edge_position p 1 t = p * (p + 1) + t
  ∧ edge_position p 2 t = t * (p + 1) + p ∧ edge_position p 3 t = t.
Proof. done. Qed.

Lemma corner_lt p i j T T' :
  1 ≤ p → 0 ≤ i → i < j → j < 4 → 0 ≤ T ≤ p → 0 ≤ T' ≤ p →
  edge_position p i T = edge_position p j T' →
  (T = 0 ∨ T = p) ∧ (T' = 0 ∨ T' = p) ∧ end_vertex i T = end_vertex j T'.
Proof.
  intros Hp Hi Hij Hj HT HT' Heq.
  assert ((i = 0 ∧ j = 1) ∨ (i = 0 ∧ j = 2) ∨ (i = 0 ∧ j = 3)
          ∨ (i = 1 ∧ j = 2) ∨ (i = 1 ∧ j = 3) ∨ (i = 2 ∧ j = 3))
    as [[-> ->] | [[-> ->] | [[-> ->] | [[-> ->] | [[-> ->] | [-> ->] ] ] ] ] ]
    by lia;
    destruct (edge_position_eqs p T) as (E0 & E1 & E2 & E3);
    destruct (edge_position_eqs p T') as (E0' & E1' & E2' & E3');
    rewrite ?E0, ?E1, ?E2, ?E3, ?E0', ?E1', ?E2', ?E3' in Heq;
    clear E0 E1 E2 E3 E0' E1' E2' E3'.
  - assert (T = p) as -> by nia. assert (T' = 0) as -> by nia.
    unfold end_vertex. rewrite decide_False by lia. rewrite decide_True by done.
    split; [by right|]. split; [by left|done].
  - exfalso. assert (T - T' ≤ 0 ∨ 1 ≤ T - T') as [?|?] by lia; nia.
  - assert (T = 0) as -> by nia. assert (T' = 0) as -> by nia.
    unfold end_vertex. rewrite !decide_True by done.
    split; [by left|]. split; [by left|done].
  - assert (T' = p) as -> by nia. assert (T = p) as -> by nia.
    unfold end_vertex. rewrite !decide_False by lia.
    split; [by right|]. split; [by right|done].
  - exfalso. nia.
  - assert (T = 0) as -> by nia. assert (T' = p) as -> by nia.
    unfold end_vertex. rewrite decide_True by done. rewrite decide_False by lia.
    split; [by left|]. split; [by right|done].
Qed.

Lemma corner p i j T T' :
  1 ≤ p → 0 ≤ i < 4 → 0 ≤ j < 4 → i ≠ j → 0 ≤ T ≤ p → 0 ≤ T' ≤ p →
  edge_position p i T = edge_position p j T' →
  (T = 0 ∨ T = p) ∧ (T' = 0 ∨ T' = p) ∧ end_vertex i T = end_vertex j T'.
Proof.
  intros Hp Hi Hj Hij HT HT' Heq.
  destruct (decide (i < j)).
  - apply (corner_lt p i j T T'); lia || done.
  - destruct (corner_lt p j i T' T) as (? & ? & ?); try lia; done.
Qed.

Section face_rows.

Context (mesh : HexahedronMesh) (p : Z).
Hypothesis Hwf : well_formed mesh.
Hypothesis Hp : 1 ≤ p.

Local Abbreviation edge := (ds_edge (ds mesh)).
Local Abbreviation face := (ds_face (ds mesh)).
Local Abbreviation face2edge := (ds_face2edge (ds mesh)).
Local Abbreviation NN := (number_of_nodes mesh).
Local Abbreviation NE := (number_of_edges mesh).
Local Abbreviation NF := (number_of_faces mesh).
Local Abbreviation e2i := (edge_rows mesh p).
Local Abbreviation oriented := (oriented_edge_row edge face face2edge e2i).

Lemma e2i_shape : table_shape (length edge) (Z.to_nat (p + 1)) e2i.
Proof.
  split; [apply length_edge_rows|]. unfold edge_rows.
  apply Forall_fmap, Forall_true. intros ke. cbn. by apply length_edge_row.
Qed.

Lemma e2i_bounds : entries_in 0 (NN + NE * (p - 1)) e2i.
Proof.
  destruct Hwf as (_ & _ & _ & [_ Hw] & Hin & _).
  unfold entries_in, edge_rows. apply Forall_fmap, Forall_forall.
  intros [k e] Hke. cbn.
  pose proof (elem_of_zip_l _ _ _ _ Hke) as Hk. apply elem_of_seqZ in Hk.
  pose proof (elem_of_zip_r _ _ _ _ Hke) as He.
  rewrite Forall_forall in Hw. unfold entries_in in Hin.
  rewrite Forall_forall in Hin.
  apply edge_row_bounds; [done|lia|by apply Hw|by apply Hin].
Qed.

Lemma face_edge_in_range (f : nat) (i : Z) :
  (f < length face)%nat → 0 ≤ i < 4 →
  0 ≤ (face2edge !!! f) !!! Z.to_nat i < Z.of_nat (length edge).
Proof.
  intros Hf Hi.
  destruct Hwf as (_ & _ & _ & _ & _ & _ & _ & _ & [Hl Hw] & Hin).
  assert (face2edge !!! f ∈ face2edge) as Hr
    by (apply lookup_total_elem_of; lia).
  rewrite Forall_forall in Hw. specialize (Hw _ Hr).
  unfold entries_in in Hin. rewrite Forall_forall in Hin. specialize (Hin _ Hr).
  rewrite Forall_forall in Hin. apply Hin. apply lookup_total_elem_of. lia.
Qed.

Lemma oriented_shape i f :
  (f < length face)%nat → 0 ≤ i < 4 →
  length (oriented i f) = Z.to_nat (p + 1)
  ∧ Forall (λ v, 0 ≤ v < NN + NE * (p - 1)) (oriented i f).
Proof.
  intros Hf Hi. pose proof (face_edge_in_range f i Hf Hi) as Hg.
  destruct e2i_shape as [Hl Hw]. pose proof e2i_bounds as Hb.
  assert (e2i !!! Z.to_nat ((face2edge !!! f) !!! Z.to_nat i) ∈ e2i) as Hr
    by (apply lookup_total_elem_of; lia).
  rewrite Forall_forall in Hw. unfold entries_in in Hb.
  rewrite Forall_forall in Hb.
  unfold oriented_edge_row. case_decide.
  - split; [by apply Hw|by apply Hb].
  - rewrite length_reverse. split; [by apply Hw|]. by apply Forall_reverse, Hb.
Qed.

(** With edges that fit the faces, the oriented row of an edge starts at the
    first and stops at the second of the two vertices of its slot. *)
Lemma oriented_ends i f T :
  edges_fit_faces mesh → (f < length face)%nat → 0 ≤ i < 4 →
  T = 0 ∨ T = p →
  oriented i f !! Z.to_nat T
  = Some ((face !!! f) !!! Z.to_nat (end_vertex i T)).
Proof.
  intros Hfit Hf Hi HT.
  pose proof (face_edge_in_range f i Hf Hi) as Hg.
  destruct Hwf as (_ & _ & _ & _ & _ & _ & _ & _ & [Hl Hw] & _).
  unfold edges_fit_faces in Hfit.
  assert (face !! f = Some (face !!! f)) as Hfr
    by (apply list_lookup_lookup_total_lt; lia).
  assert (face2edge !! f = Some (face2edge !!! f)) as Hfe
    by (apply list_lookup_lookup_total_lt; lia).
  pose proof (Forall2_lookup_lr _ _ _ _ _ _ Hfit Hfr Hfe) as [Hl4 Hslots].
  assert (face2edge !!! f ∈ face2edge) as Hr
    by (apply lookup_total_elem_of; lia).
  rewrite Forall_forall in Hw. specialize (Hw _ Hr).
  assert (face_localEdge !! Z.to_nat i = Some (face_localEdge !!! Z.to_nat i))
    as Hle by (apply list_lookup_lookup_total_lt; cbn; lia).
  assert ((face2edge !!! f) !! Z.to_nat i
          = Some ((face2edge !!! f) !!! Z.to_nat i)) as Hgi
    by (apply list_lookup_lookup_total_lt; lia).
  pose proof (Forall2_lookup_lr _ _ _ _ _ _ Hslots Hle Hgi) as Hslot.
  cbn zeta in Hslot. destruct Hslot as [Hab Hedge].
  set (g := Z.to_nat ((face2edge !!! f) !!! Z.to_nat i)) in *.
  set (a := (face !!! f) !!! Z.to_nat ((face_localEdge !!! Z.to_nat i) !!! 0%nat)) in *.
  set (b := (face !!! f) !!! Z.to_nat ((face_localEdge !!! Z.to_nat i) !!! 1%nat)) in *.
  unfold oriented_edge_row. cbn zeta. fold g. fold a.
  unfold end_vertex.
  destruct Hedge as [He|He].
  - rewrite (list_lookup_total_correct _ _ _ He). cbn.
    rewrite decide_True by done.
    rewrite (list_lookup_total_correct _ _ _ (edge_rows_lookup mesh p g _ He)).
    destruct HT as [-> | ->].
    + rewrite decide_True by done. done.
    + rewrite decide_False by lia. by apply edge_row_last.
  - rewrite (list_lookup_total_correct _ _ _ He). cbn.
    rewrite decide_False by done.
    rewrite (list_lookup_total_correct _ _ _ (edge_rows_lookup mesh p g _ He)).
    apply reverse_lookup_Some. rewrite length_edge_row by done.
    destruct HT as [-> | ->].
    + rewrite decide_True by done. split; [lia|].
      replace (Z.to_nat (p + 1) - S (Z.to_nat 0))%nat with (Z.to_nat p) by lia.
      by apply edge_row_last.
    + rewrite decide_False by lia. split; [lia|].
      replace (Z.to_nat (p + 1) - S (Z.to_nat p))%nat with 0%nat by lia.
      done.
Qed.

End face_rows.

(** ** The table of the faces *)

Section face_to_ipoint.

Context (mesh : HexahedronMesh) (p : Z).
Hypothesis Hwf : well_formed mesh.
Hypothesis Hp : 1 ≤ p.

Local Abbreviation edge := (ds_edge (ds mesh)).
Local Abbreviation face := (ds_face (ds mesh)).
Local Abbreviation face2edge := (ds_face2edge (ds mesh)).
Local Abbreviation NN := (number_of_nodes mesh).
Local Abbreviation NE := (number_of_edges mesh).
Local Abbreviation NF := (number_of_faces mesh).
Local Abbreviation e2i := (edge_rows mesh p).
Local Abbreviation oriented := (oriented_edge_row edge face face2edge e2i).
Local Abbreviation W := (Z.to_nat ((p + 1) ^ 2)).

Lemma corner_agree f i j t t' c v v' :
  edges_fit_faces mesh → (f < length face)%nat → 0 ≤ i < 4 → 0 ≤ j < 4 → i ≠ j →
  edge_positions p i !! t = Some c → edge_positions p j !! t' = Some c →
  oriented i f !! t = Some v → oriented j f !! t' = Some v' → v = v'.
Proof.
  intros Hfit Hf Hi Hj Hij Hc Hc' Hv Hv'.
  apply edge_positions_lookup in Hc as [-> Ht].
  apply edge_positions_lookup in Hc' as [Hc' Ht'].
  destruct (corner p i j (Z.of_nat t) (Z.of_nat t')) as (HT & HT' & Hend);
    [done|done|done|done|lia|lia|done|].
  rewrite <- (Nat2Z.id t) in Hv. rewrite <- (Nat2Z.id t') in Hv'.
  rewrite (oriented_ends mesh p Hwf Hp) in Hv by done.
  rewrite (oriented_ends mesh p Hwf Hp) in Hv' by done.
  congruence.
Qed.

Lemma face_loop (k : nat) tbl0 :
  (k ≤ 4)%nat → table_shape (length face) W tbl0 →
  entries_in 0 (NN + NE * (p - 1)) tbl0 →
  ∃ tbl,
    foldM (face_edge_step edge face face2edge e2i
             (edge_positions p <$> [0; 1; 2; 3]))
      tbl0 (seqZ 0 (Z.of_nat k)) = Ok tbl ∧
    table_shape (length face) W tbl ∧
    entries_in 0 (NN + NE * (p - 1)) tbl ∧
    (edges_fit_faces mesh →
     ∀ f row, tbl !! f = Some row → edges_written mesh p (Z.of_nat k) f row).
Proof.
  intros Hk Hs0 Hb0. induction k as [|k IH].
  { exists tbl0. split; [done|]. split; [done|]. split; [done|].
    intros _ f row _ i t c v Hi. lia. }
  destruct IH as (tbl1 & Hloop & Hs1 & Hb1 & Hc1); [lia|].
  replace (Z.of_nat (S k)) with (Z.of_nat k + 1) by lia.
  rewrite seqZ_app by lia. rewrite foldM_app, Hloop. cbn [mbind PyResult_bind].
  assert (seqZ (0 + Z.of_nat k) 1 = [Z.of_nat k]) as ->
    by (rewrite Z.add_0_l; done).
  cbn [foldM].
  destruct Hwf as (_ & _ & [_ Hface] & [_ Hedge] & _ & _ & _ & _ & Hf2e & Hf2e_in).
  destruct (face_edge_step_spec p edge face face2edge e2i) with (tbl := tbl1)
    (i := Z.of_nat k) as (out & -> & Hso & Hout);
    [lia|done|done|done|done|apply (e2i_shape mesh p Hp)|lia|done|].
  cbn [mbind PyResult_bind]. exists out. split; [done|]. split; [done|].
  assert (∀ f row', out !! f = Some row' →
            ∃ row, tbl1 !! f = Some row ∧
              written (edge_positions p (Z.of_nat k))
                (oriented (Z.of_nat k) f) row row') as Hrows.
  { intros f row' Hrow'.
    destruct Hso as [Hlo _]. destruct Hs1 as [Hl1 _].
    destruct (lookup_lt_is_Some_2 tbl1 f) as [row Hrow].
    { apply lookup_lt_Some in Hrow'. lia. }
    destruct (Hout f row Hrow) as (row'' & Hrow'' & Hw). simplify_eq. eauto. }
  split.
  - unfold entries_in. apply Forall_forall. intros row' Hin.
    apply list_elem_of_lookup in Hin as [f Hf].
    destruct (Hrows f row' Hf) as (row & Hrow & _ & _ & _ & HP).
    apply HP.
    + unfold entries_in in Hb1. rewrite Forall_forall in Hb1.
      eapply Hb1, list_elem_of_lookup_2, Hrow.
    + apply (oriented_shape mesh p Hwf Hp); [|lia].
      apply lookup_lt_Some in Hrow. destruct Hs1. lia.
  - intros Hfit f row' Hf.
    destruct (Hrows f row' Hf) as (row & Hrow & Hlen & Hother & Hhere & _).
    assert (f < length face)%nat as Hfl
      by (apply lookup_lt_Some in Hrow; destruct Hs1; lia).
    intros i t c v Hi Hc Hv.
    destruct (decide (i = Z.of_nat k)) as [->|Hne]; [by eapply Hhere|].
    destruct (decide (c ∈ edge_positions p (Z.of_nat k))) as [Hin|Hnin].
    + apply list_elem_of_lookup in Hin as [t' Ht'].
      destruct (oriented_shape mesh p Hwf Hp (Z.of_nat k) f) as [Hol _];
        [done|lia|].
      destruct (lookup_lt_is_Some_2 (oriented (Z.of_nat k) f) t') as [v' Hv'].
      { apply lookup_lt_Some in Ht'. rewrite length_edge_positions in Ht'. lia. }
      rewrite (Hhere t' c v' Ht' Hv'). f_equal. symmetry.
      eapply (corner_agree f i (Z.of_nat k)); [done|done|lia|lia|done|done..].
    + rewrite Hother.
      * eapply (Hc1 Hfit f row Hrow i); [lia|done..].
      * apply Forall_forall. intros c' Hc' Heq. apply Hnin.
        assert (c' = c) as <-; [|done].
        destruct (edge_positions_good p (Z.of_nat k)) as (_ & Hr & _); [lia..|].
        rewrite Forall_forall in Hr. specialize (Hr c' Hc').
        apply edge_positions_lookup in Hc as [-> Ht].
        destruct (edge_position_eqs p (Z.of_nat t)) as (E0 & E1 & E2 & E3).
        unfold in_range in Hr.
        assert (0 ≤ edge_position p i (Z.of_nat t)); [|lia].
        assert (i = 0 ∨ i = 1 ∨ i = 2 ∨ i = 3) as [-> | [-> | [-> | ->] ] ]
          by lia; rewrite ?E0, ?E1, ?E2, ?E3; nia.
Qed.

End face_to_ipoint.

(** ** Edge positions are not interior positions *)

Lemma where_eqb_lookup v col c :
  c ∈ np.where_ (eqb_col v col) → col !! Z.to_nat c = Some v.
Proof.
  intros (k & -> & Hk)%elem_of_where_from.
  replace (Z.to_nat (0 + Z.of_nat k)) with k by lia.
  unfold eqb_col in Hk. rewrite list_lookup_fmap in Hk.
  destruct (col !! k) as [x|]; [|done]. cbn in Hk. injection Hk as Hk.
  apply bool_decide_eq_true_1 in Hk. by subst.
Qed.

Lemma interior_lookup rows p c :
  c ∈ np.where_ (interior_mask rows p) →
  ∃ row, rows !! Z.to_nat c = Some row ∧ forallb (inside p) row = true.
Proof.
  intros (k & -> & Hk)%elem_of_where_from.
  replace (Z.to_nat (0 + Z.of_nat k)) with k by lia.
  rewrite interior_mask_fmap, list_lookup_fmap in Hk.
  destruct (rows !! k) as [row|]; [|done]. cbn in Hk. injection Hk as Hk.
  eauto.
Qed.

Lemma inside_ends p v : v = 0 ∨ v = p → inside p v = false.
Proof.
  intros [-> | ->]; unfold inside.
  - by rewrite bool_decide_eq_false_2 by lia.
  - rewrite (bool_decide_eq_false_2 (p < p)) by lia. apply andb_false_r.
Qed.

Lemma edge_position_not_interior p i c :
  0 ≤ p → 0 ≤ i < 4 → c ∈ edge_positions p i →
  c ∉ np.where_ (interior_mask (square_rows p) p).
Proof.
  intros Hp Hi Hc Hint.
  apply interior_lookup in Hint as (row & Hrow & Hin).
  unfold square_rows in Hrow.
  apply lookup_zip_with_Some in Hrow as (a & b & -> & Ha & Hb).
  cbn in Hin. rewrite andb_true_r in Hin.
  apply andb_true_iff in Hin as [Hia Hib].
  assert (i = 0 ∨ i = 1 ∨ i = 2 ∨ i = 3) as [-> | [-> | [-> | ->] ] ] by lia.
  - rewrite <- edge_positions_0, <- (where_inner p 0) in Hc by lia.
    apply where_eqb_lookup in Hc.
    simplify_eq; rewrite inside_ends in Hib by auto; done.
  - rewrite <- edge_positions_1, <- (where_outer p p) in Hc by lia.
    apply where_eqb_lookup in Hc.
    simplify_eq; rewrite inside_ends in Hia by auto; done.
  - rewrite <- edge_positions_2, <- (where_inner p p) in Hc by lia.
    apply where_eqb_lookup in Hc.
    simplify_eq; rewrite inside_ends in Hib by auto; done.
  - rewrite <- edge_positions_3, <- (where_outer p 0) in Hc by lia.
    apply where_eqb_lookup in Hc.
    simplify_eq; rewrite inside_ends in Hia by auto; done.
Qed.

(** ** The interior blocks *)

Lemma length_interior_mask rows p : length (interior_mask rows p) = length rows.
Proof. by rewrite interior_mask_fmap, length_fmap. Qed.

(** [a[:, mask] = arange(lo, lo + n * w).reshape(n, -1)] on a table of [n]
    rows whose mask has [w] entries. *)
Lemma put_mask_columns_Ok a mask lo w :
  Forall (λ row, length row = length mask) a →
  0 ≤ w → count_true mask = Z.to_nat w →
  np.put_mask_columns a mask
    ((λ k : nat, seqZ (lo + Z.of_nat k * w) w) <$> seq 0 (length a))
  = Ok (zip_with (λ row vals, stores row (np.where_ mask) vals) a
          ((λ k : nat, seqZ (lo + Z.of_nat k * w) w) <$> seq 0 (length a))).
Proof.
  intros Ha Hw Hc. unfold np.put_mask_columns. apply map2M_Ok_zip_with.
  set (own := (λ k : nat, seqZ (lo + Z.of_nat k * w) w) <$> seq 0 (length a)).
  assert (length a = length own) as Hl
    by (unfold own; by rewrite length_fmap, length_seq).
  assert (Forall (λ vals, length vals = Z.to_nat w) own) as Hown.
  { unfold own. apply Forall_fmap, Forall_true. intros k. cbn.
    by rewrite length_seqZ. }
  pose proof (Forall2_and _ _ _ _
                (Forall2_of_Forall_l _ a own Ha Hl)
                (Forall2_of_Forall_r _ a own Hown Hl)) as H.
  eapply Forall2_impl; [exact H|]. cbn. intros row vals [Hr Hv].
  unfold np.put_mask. rewrite decide_True by done.
  apply put_Ok; [by rewrite length_where, Hc|].
  rewrite Hr. apply where_in_range.
Qed.

Section face_table.

Context (mesh : HexahedronMesh) (p : Z).
Hypothesis Hwf : well_formed mesh.
Hypothesis Hp : 1 ≤ p.

Local Abbreviation edge := (ds_edge (ds mesh)).
Local Abbreviation face := (ds_face (ds mesh)).
Local Abbreviation face2edge := (ds_face2edge (ds mesh)).
Local Abbreviation NN := (number_of_nodes mesh).
Local Abbreviation NE := (number_of_edges mesh).
Local Abbreviation NF := (number_of_faces mesh).
Local Abbreviation W := (Z.to_nat ((p + 1) ^ 2)).

Lemma face_to_ipoint_spec :
  ∃ tbl, face_to_ipoint mesh p = Ok tbl ∧
    table_shape (length face) W tbl ∧
    entries_in 0 (NN + NE * (p - 1) + NF * (p - 1) ^ 2) tbl ∧
    (edges_fit_faces mesh →
     ∀ f row, tbl !! f = Some row → edges_written mesh p 4 f row).
Proof.
  pose proof (wf_NF_pos mesh Hwf) as HNF.
  pose proof (wf_NE_pos mesh Hwf) as HNE.
  pose proof (wf_NN_pos mesh Hwf) as HNN.
  assert (0 ≤ (p + 1) ^ 2) as Hsq by lia.
  assert (0 ≤ (p - 1) ^ 2) as Hsq' by lia.
  unfold face_to_ipoint.
  rewrite edge_to_ipoint_Ok by (by destruct Hwf as (_ & _ & _ & [_ ?] & _)).
  cbn [mbind PyResult_bind].
  rewrite multi_index2_Ok by lia. cbn [mbind PyResult_bind].
  rewrite face_dofidx_Ok by lia. cbn [mbind PyResult_bind].
  rewrite zeros2_Ok by (unfold number_of_faces; lia).
  cbn [mbind PyResult_bind].
  change 4 with (Z.of_nat 4).
  destruct (face_loop mesh p Hwf Hp 4
              (replicate (Z.to_nat NF) (replicate W 0)))
    as (tbl4 & -> & [Hl4 Hw4] & Hb4 & Hc4).
  { lia. }
  { split; [rewrite length_replicate; unfold number_of_faces; lia|].
    apply Forall_replicate. by rewrite length_replicate. }
  { apply Forall_replicate, Forall_replicate. unfold number_of_nodes.
    unfold number_of_edges. nia. }
  cbn [mbind PyResult_bind].
  rewrite reshape_rows_arange by (unfold number_of_faces; lia).
  cbn [mbind PyResult_bind].
  fold (square_rows p).
  assert (Z.to_nat NF = length tbl4) as -> by (unfold number_of_faces; lia).
  rewrite put_mask_columns_Ok; cycle 1.
  { eapply Forall_impl; [exact Hw4|]. intros row ->.
    by rewrite length_interior_mask, length_square_rows by lia. }
  { done. }
  { unfold square_rows. rewrite count_interior2, to_nat_pred_square by done. done. }
  eexists. split; [done|].
  set (own := (λ k : nat, seqZ _ _) <$> seq 0 (length tbl4)).
  split; [|split].
  - split.
    + unfold own. rewrite length_zip_with, length_fmap, length_seq. lia.
    + apply Forall_zip_with. intros row vals Hrow _. rewrite length_stores.
      rewrite Forall_forall in Hw4. by apply Hw4.
  - unfold entries_in. apply Forall_zip_with. intros row vals Hrow Hvals.
    apply stores_Forall.
    + unfold entries_in in Hb4. rewrite Forall_forall in Hb4.
      eapply Forall_impl; [by apply Hb4|]. cbn. intros v Hv.
      assert (0 ≤ NF * (p - 1) ^ 2)
        by (apply Z.mul_nonneg_nonneg; unfold number_of_faces; lia).
      lia.
    + unfold own in Hvals. apply list_elem_of_fmap in Hvals as (k & -> & Hk).
      apply elem_of_seq in Hk. apply Forall_forall.
      intros v Hv%elem_of_seqZ. unfold number_of_faces, number_of_nodes in *.
      assert (0 ≤ NE * (p - 1)) by (unfold number_of_edges; nia).
      assert ((Z.of_nat k + 1) * (p - 1) ^ 2
              ≤ Z.of_nat (length face) * (p - 1) ^ 2)
        by (apply Z.mul_le_mono_nonneg_r; lia).
      assert (0 ≤ Z.of_nat k * (p - 1) ^ 2)
        by (apply Z.mul_nonneg_nonneg; lia).
      lia.
  - intros Hfit f row' Hrow' i t c v Hi Hc Hv.
    apply lookup_zip_with_Some in Hrow' as (row & vals & -> & Hrow & Hvals).
    rewrite stores_lookup_other; [by eapply (Hc4 Hfit f row Hrow i)|].
    apply Forall_forall. intros c' Hc' Heq.
    assert (c' = c) as ->.
    { pose proof (where_in_range (interior_mask (square_rows p) p)) as Hr.
      rewrite Forall_forall in Hr. specialize (Hr c' Hc').
      destruct (edge_positions_good p i) as (_ & Hr' & _); [lia..|].
      rewrite Forall_forall in Hr'.
      specialize (Hr' c (list_elem_of_lookup_2 _ _ _ Hc)).
      unfold in_range in *. lia. }
    eapply (edge_position_not_interior p i c); [lia|lia| |done].
    by eapply list_elem_of_lookup_2.
Qed.

End face_table.

(** ** Sorting positions *)

Lemma insert_key_perm x l : np.insert_key x l ≡ₚ x :: l.
Proof.
  induction l as [|y l IH]; [done|]. cbn. case_decide; [done|].
  rewrite IH. apply Permutation_swap.
Qed.

Lemma argsort_perm l : np.argsort l ≡ₚ seqZ 0 (Z.of_nat (length l)).
Proof.
  unfold np.argsort.
  assert (∀ ps : list (Z * Z), foldr np.insert_key [] ps ≡ₚ ps) as Hs.
  { induction ps as [|x ps IH]; [done|]. cbn. by rewrite insert_key_perm, IH. }
  rewrite Hs. rewrite snd_zip; [done|]. rewrite length_seqZ. lia.
Qed.

Lemma argsort_shape l :
  length (np.argsort l) = length l
  ∧ Forall (in_range (length l)) (np.argsort l).
Proof.
  pose proof (argsort_perm l) as Hp. split.
  - rewrite Hp, length_seqZ. lia.
  - rewrite Hp. apply Forall_forall. intros x Hx%elem_of_seqZ.
    unfold in_range. lia.
Qed.

(** [match_positions] returns, for every row, positions within the row. *)
Lemma match_positions_spec g l n :
  length g = length l →
  Forall (λ r, length r = n) g → Forall (λ r, length r = n) l →
  ∃ idx0, match_positions g l = Ok idx0 ∧ length idx0 = length g ∧
    Forall (λ r, length r = n ∧ Forall (in_range n) r) idx0.
Proof.
  intros Hl Hg Hln. unfold match_positions.
  edestruct (map2M_success np.getitems
               (λ _ _ (r : list Z), length r = n ∧ Forall (in_range n) r)
               (np.argsort <$> g) (np.argsort <$> (np.argsort <$> l)))
    as (idx0 & -> & Hlen & Hrows).
  - apply Forall2_fmap. apply Forall2_fmap_r.
    pose proof (Forall2_and _ _ _ _
                  (Forall2_of_Forall_l _ g l Hg Hl)
                  (Forall2_of_Forall_r _ g l Hln Hl)) as H.
    eapply Forall2_impl; [exact H|]. cbn. intros rg rl [Hrg Hrl].
    destruct (argsort_shape rg) as [Hg1 Hg2].
    destruct (argsort_shape rl) as [Hl1 Hl2].
    destruct (argsort_shape (np.argsort rl)) as [Hl3 Hl4].
    rewrite getitems_Ok.
    + eexists. split; [done|]. split.
      * rewrite length_fmap. lia.
      * apply Forall_fmap. rewrite Hl1, Hrl, <- Hrg, <- Hg1 in Hl4.
        eapply Forall_impl; [exact Hl4|]. intros k Hk. cbn.
        rewrite Forall_forall in Hg2. rewrite <- Hrg. apply Hg2.
        apply lookup_total_elem_of. unfold in_range in Hk. lia.
    + rewrite Hg1, Hrg, <- Hrl, <- Hl1. exact Hl4.
  - exists idx0. split; [done|]. rewrite length_fmap in Hlen.
    split; [done|]. apply Forall_forall. intros r Hr.
    apply list_elem_of_lookup in Hr as [c Hc].
    destruct (lookup_lt_is_Some_2 (np.argsort <$> g) c) as [x Hx];
      [rewrite length_fmap; apply lookup_lt_Some in Hc; lia|].
    destruct (lookup_lt_is_Some_2 (np.argsort <$> (np.argsort <$> l)) c)
      as [y Hy];
      [rewrite !length_fmap; apply lookup_lt_Some in Hc; lia|].
    by eapply Hrows.
Qed.

(** ** Exchanging the first two axes *)

Lemma swapaxes_shape {A} (P : A → Prop) (a : list (list A)) n :
  Forall (λ row, length row = n ∧ Forall P row) a →
  length (np.swapaxes a n) = n
  ∧ Forall (λ r, length r = length a ∧ Forall P r) (np.swapaxes a n).
Proof.
  intros Ha. unfold np.swapaxes. split; [by rewrite length_fmap, length_seq|].
  apply Forall_fmap, Forall_forall. intros c Hc%elem_of_seq. cbn.
  clear -Ha Hc. induction Ha as [|row a [Hl HP] _ [IHl IHP]]; [done|].
  cbn. destruct (lookup_lt_is_Some_2 row c) as [x Hx]; [lia|]. rewrite Hx.
  cbn. split; [by rewrite IHl|]. constructor; [|done].
  rewrite Forall_forall in HP. eapply HP, list_elem_of_lookup_2, Hx.
Qed.

(** ** One turn of the loop over the faces of the cells *)

(** Reading the face table at the computed positions and storing the values
    in the columns of the face. *)
Lemma gather_store_spec (cf : list Z) (idx f2i dofidx c2i : list (list Z))
    (i : Z) (NF K Wf Wc : nat) :
  length cf = length c2i → length idx = length c2i →
  Forall (in_range NF) cf →
  table_shape NF Wf f2i →
  Forall (λ r, length r = K ∧ Forall (in_range Wf) r) idx →
  0 ≤ i < Z.of_nat (length dofidx) →
  Forall (λ d, length d = K ∧ Forall (in_range Wc) d) dofidx →
  Forall (λ r, length r = Wc) c2i →
  ∃ out,
    (map2M (λ f irow, frow ← np.getitem f2i f; np.getitems frow irow) cf idx
     ≫= λ vals, np.getitem dofidx i ≫= λ di, np.put_columns c2i di vals)
    = Ok out ∧
    table_shape (length c2i) Wc out ∧
    ∀ P : Z → Prop, Forall (Forall P) f2i → Forall (Forall P) c2i →
                    Forall (Forall P) out.
Proof.
  intros Hlcf Hlidx Hcf [Hfl Hfw] Hidx Hi Hdof Hc2i.
  rewrite (map2M_Ok_zip_with _
             (λ f irow, (λ k, (f2i !!! Z.to_nat f) !!! Z.to_nat k) <$> irow));
    cycle 1.
  { pose proof (Forall2_and _ _ _ _
                  (Forall2_of_Forall_l _ cf idx Hcf ltac:(lia))
                  (Forall2_of_Forall_r _ cf idx Hidx ltac:(lia))) as H.
    eapply Forall2_impl; [exact H|]. cbn. intros f irow [Hf [Hil Hir]].
    rewrite getitem_Ok_total by (unfold in_range in Hf; lia).
    cbn [mbind PyResult_bind]. apply getitems_Ok.
    rewrite Forall_forall in Hfw. rewrite (Hfw (f2i !!! Z.to_nat f)); [done|].
    apply lookup_total_elem_of. unfold in_range in Hf. lia. }
  cbn [mbind PyResult_bind].
  rewrite getitem_Ok_total by done. cbn [mbind PyResult_bind].
  set (di := dofidx !!! Z.to_nat i).
  assert (length di = K ∧ Forall (in_range Wc) di) as [Hdl Hdr].
  { rewrite Forall_forall in Hdof. apply Hdof, lookup_total_elem_of. lia. }
  set (vals := zip_with _ cf idx).
  assert (length vals = length c2i) as Hvl
    by (unfold vals; rewrite length_zip_with; lia).
  assert (Forall (λ v, length v = K) vals) as Hvk.
  { unfold vals. apply Forall_zip_with. intros f irow _ Hirow.
    rewrite length_fmap. rewrite Forall_forall in Hidx. by apply Hidx. }
  rewrite put_columns_Ok; cycle 1.
  { pose proof (Forall2_and _ _ _ _
                  (Forall2_of_Forall_l _ c2i vals Hc2i ltac:(lia))
                  (Forall2_of_Forall_r _ c2i vals Hvk ltac:(lia))) as H.
    eapply Forall2_impl; [exact H|]. cbn. intros row v [Hr Hv].
    split; [lia|by rewrite Hr]. }
  eexists. split; [done|]. split; [split|].
  - rewrite length_zip_with. lia.
  - apply Forall_zip_with. intros row v Hrow _. rewrite length_stores.
    rewrite Forall_forall in Hc2i. by apply Hc2i.
  - intros P HPf HPc. apply Forall_zip_with. intros row v Hrow Hv.
    apply stores_Forall; [rewrite Forall_forall in HPc; by apply HPc|].
    unfold vals in Hv. apply elem_of_zip_with in Hv as (f & irow & -> & Hf & Hirow).
    apply Forall_fmap, Forall_forall. intros k Hk. cbn.
    rewrite Forall_forall in Hcf. specialize (Hcf f Hf).
    rewrite Forall_forall in Hidx. destruct (Hidx irow Hirow) as [_ Hir].
    rewrite Forall_forall in Hir. specialize (Hir k Hk).
    assert (f2i !!! Z.to_nat f ∈ f2i) as Hrf
      by (apply lookup_total_elem_of; unfold in_range in Hcf; lia).
    rewrite Forall_forall in HPf. specialize (HPf _ Hrf).
    rewrite Forall_forall in HPf. apply HPf. apply lookup_total_elem_of.
    rewrite Forall_forall in Hfw. rewrite (Hfw _ Hrf).
    unfold in_range in Hir. lia.
Qed.

(** The positions in the face table that [cell_face_step] computes. *)
Lemma face_index_spec (p : Z) (idx0 mi2d : list (list Z)) :
  0 ≤ p →
  Forall (λ r, length r = 4%nat ∧ Forall (in_range 4) r) idx0 →
  Forall (λ r, length r = 4%nat ∧ Forall (λ x, 0 ≤ x ≤ p) r) mi2d →
  ∃ idx,
    (mapM (λ mrow, mapM (np.getitems mrow) idx0) mi2d
     ≫= λ idx3,
       mapM (mapM (λ v : list Z,
                     a ← np.getitem v 0; b ← np.getitem v 1;
                     Ok (a * (p + 1) + b)))
            (np.swapaxes idx3 (length idx0)))
    = Ok idx ∧
    length idx = length idx0 ∧
    Forall (λ r, length r = length mi2d
                 ∧ Forall (in_range (Z.to_nat ((p + 1) ^ 2))) r) idx.
Proof.
  intros Hp Hidx0 Hmi.
  rewrite (mapM_Ok_fmap _
    (λ mrow, (λ irow, (λ t, mrow !!! Z.to_nat t) <$> irow) <$> idx0)); cycle 1.
  { eapply Forall_impl; [exact Hmi|]. cbn. intros mrow [Hml _].
    apply mapM_Ok_fmap. eapply Forall_impl; [exact Hidx0|]. cbn.
    intros irow [_ Hir]. apply getitems_Ok. by rewrite Hml. }
  cbn [mbind PyResult_bind].
  set (idx3 := _ <$> mi2d).
  destruct (swapaxes_shape (λ v : list Z, length v = 4%nat ∧ Forall (λ x, 0 ≤ x ≤ p) v)
              idx3 (length idx0)) as [Hsl Hsw].
  { unfold idx3. apply Forall_fmap. eapply Forall_impl; [exact Hmi|]. cbn.
    intros mrow [Hml Hmr]. rewrite length_fmap. split; [done|].
    apply Forall_fmap. eapply Forall_impl; [exact Hidx0|]. cbn.
    intros irow [Hil Hir]. rewrite length_fmap. split; [done|].
    apply Forall_fmap. eapply Forall_impl; [exact Hir|]. cbn. intros t Ht.
    rewrite Forall_forall in Hmr. apply Hmr, lookup_total_elem_of.
    unfold in_range in Ht. lia. }
  rewrite (mapM_Ok_fmap _
    (fmap (λ v : list Z, v !!! 0%nat * (p + 1) + v !!! 1%nat))); cycle 1.
  { eapply Forall_impl; [exact Hsw|]. cbn. intros r [_ Hr].
    apply mapM_Ok_fmap. eapply Forall_impl; [exact Hr|]. cbn. intros v [Hv _].
    rewrite !getitem_Ok_total by lia. done. }
  eexists. split; [done|]. rewrite length_fmap. split; [done|].
  apply Forall_fmap. eapply Forall_impl; [exact Hsw|]. cbn. intros r [Hrl Hr].
  rewrite length_fmap. unfold idx3 in Hrl. rewrite length_fmap in Hrl.
  split; [done|]. apply Forall_fmap. eapply Forall_impl; [exact Hr|]. cbn.
  intros v [Hvl Hv].
  destruct v as [|a [|b v]]; [done..|].
  apply Forall_cons in Hv as [Ha Hv]. apply Forall_cons in Hv as [Hb _].
  unfold in_range. cbn. nia.
Qed.

Lemma table_row_elem (t : list (list Z)) rows width (i : Z) :
  table_shape rows width t → 0 ≤ i < Z.of_nat rows →
  length (t !!! Z.to_nat i) = width ∧ t !!! Z.to_nat i ∈ t.
Proof.
  intros [Hl Hw] Hi.
  assert (t !!! Z.to_nat i ∈ t) as Hr by (apply lookup_total_elem_of; lia).
  rewrite Forall_forall in Hw. split; [by apply Hw|done].
Qed.

Lemma column_in_range (t : list (list Z)) rows width n (i : Z) :
  table_shape rows width t → entries_in 0 (Z.of_nat n) t →
  0 ≤ i < Z.of_nat width →
  np.column t i = Ok ((λ row, row !!! Z.to_nat i) <$> t)
  ∧ Forall (in_range n) ((λ row : list Z, row !!! Z.to_nat i) <$> t).
Proof.
  intros [Hl Hw] Hin Hi. split.
  - apply column_Ok_fmap. eapply Forall_impl; [exact Hw|]. by intros r ->.
  - apply Forall_fmap, Forall_forall. intros r Hr. cbn.
    unfold entries_in in Hin. rewrite Forall_forall in Hin, Hw.
    specialize (Hin r Hr). rewrite Forall_forall in Hin.
    apply Hin, lookup_total_elem_of. rewrite (Hw r Hr). lia.
Qed.

Section cell_face_step.

Context (p : Z) (NF NC Wc : nat).
Context (cell2face f2i dofidx : list (list Z)).
Hypothesis Hp : 0 ≤ p.
Hypothesis Hc2f : table_shape NC 6 cell2face.
Hypothesis Hc2f_in : entries_in 0 (Z.of_nat NF) cell2face.
Hypothesis Hf2i : table_shape NF (Z.to_nat ((p + 1) ^ 2)) f2i.
Hypothesis Hdofl : length dofidx = 6%nat.

(** The part shared by the two versions: the rows [g] of the faces and [l]
    of the cells are matched, the positions are computed from [mi] by
    [index], and the values are gathered and stored. *)
Lemma cell_face_step_spec (f2e cell2edge lf2e mi2d c2i : list (list Z)) (i : Z) :
  0 ≤ i < 6 →
  table_shape NF 4 f2e → table_shape NC 12 cell2edge →
  table_shape 6 4 lf2e → entries_in 0 12 lf2e →
  Forall (λ r, length r = 4%nat ∧ Forall (λ x, 0 ≤ x ≤ p) r) mi2d →
  Forall (λ d, length d = length mi2d ∧ Forall (in_range Wc) d) dofidx →
  table_shape NC Wc c2i →
  ∃ out,
    cell_face_step p cell2face f2e cell2edge lf2e mi2d f2i dofidx c2i i = Ok out ∧
    table_shape NC Wc out ∧
    ∀ P : Z → Prop, Forall (Forall P) f2i → Forall (Forall P) c2i →
                    Forall (Forall P) out.
Proof.
  intros Hi Hf2e Hc2e Hlf Hlf_in Hmi Hdof [Hcl Hcw].
  unfold cell_face_step.
  destruct (column_in_range cell2face NC 6 NF i) as [-> Hcf]; [done|done|lia|].
  cbn [mbind PyResult_bind]. set (cf := _ <$> cell2face).
  assert (length cf = NC) as Hcfl
    by (unfold cf; rewrite length_fmap; by destruct Hc2f).
  destruct Hf2e as [Hfl Hfw].
  rewrite (getitems_Ok f2e cf) by by rewrite Hfl.
  cbn [mbind PyResult_bind].
  destruct (table_row_elem lf2e 6 4 i Hlf) as [Hlil Hlie]; [lia|].
  rewrite (getitem_Ok_total lf2e i) by (destruct Hlf as [-> _]; lia).
  cbn [mbind PyResult_bind].
  destruct Hc2e as [Hel Hew].
  rewrite columns_Ok_fmap; cycle 1.
  { eapply Forall_impl; [exact Hew|]. intros r ->.
    unfold entries_in in Hlf_in. rewrite Forall_forall in Hlf_in.
    exact (Hlf_in _ Hlie). }
  cbn [mbind PyResult_bind].
  edestruct (match_positions_spec) with (n := 4%nat) as (idx0 & -> & Hil & Hiw);
    cycle 3.
  { cbn [mbind PyResult_bind]. rewrite length_fmap, Hcfl in Hil.
    destruct (face_index_spec p idx0 mi2d Hp Hiw Hmi) as (idx & Hidx & Hidl & Hidw).
    apply bind_Ok in Hidx as (idx3 & -> & Hidx). cbn [mbind PyResult_bind].
    rewrite Hidx. cbn [mbind PyResult_bind].
    destruct (gather_store_spec cf idx f2i dofidx c2i i NF (length mi2d)
                (Z.to_nat ((p + 1) ^ 2)) Wc) as (out & -> & Hos & HoP);
      [lia|lia|done|done|done|lia|done|done|].
    exists out. rewrite Hcl in Hos. done. }
  - rewrite !length_fmap. lia.
  - apply Forall_fmap. eapply Forall_impl; [exact Hcf|]. intros f Hf. cbn.
    rewrite Forall_forall in Hfw. apply Hfw, lookup_total_elem_of.
    unfold in_range in Hf. lia.
  - apply Forall_fmap, Forall_true. intros r. cbn. by rewrite length_fmap.
Qed.

End cell_face_step.

(** ** The block of own points *)

Lemma own_block_spec (a : list (list Z)) (mask : list bool) (lo w n : Z) :
  0 < n → Z.of_nat (length a) = n → 0 ≤ w →
  Forall (λ row, length row = length mask) a →
  count_true mask = Z.to_nat w →
  ∃ out,
    (np.reshape_rows (np.arange lo (lo + n * w)) n
     ≫= λ own, np.put_mask_columns a mask own) = Ok out ∧
    table_shape (length a) (length mask) out ∧
    (∀ P : Z → Prop, Forall (Forall P) a → (∀ v, lo ≤ v < lo + n * w → P v) →
                     Forall (Forall P) out) ∧
    (∀ (c t : nat) col, (c < length a)%nat →
        np.where_ mask !! t = Some col →
        entry out c (Z.to_nat col) = Some (lo + Z.of_nat c * w + Z.of_nat t)).
Proof.
  intros Hn Hln Hw Ha Hc.
  rewrite reshape_rows_arange by lia. cbn [mbind PyResult_bind].
  replace (Z.to_nat n) with (length a) by lia.
  rewrite put_mask_columns_Ok by done.
  eexists. split; [done|].
  set (own := (λ k : nat, seqZ _ _) <$> seq 0 (length a)).
  assert (length own = length a) as Hol
    by (unfold own; by rewrite length_fmap, length_seq).
  split; [split|split].
  - rewrite length_zip_with. lia.
  - apply Forall_zip_with. intros row vals Hrow _. rewrite length_stores.
    rewrite Forall_forall in Ha. by apply Ha.
  - intros P HPa HPv. apply Forall_zip_with. intros row vals Hrow Hvals.
    apply stores_Forall; [rewrite Forall_forall in HPa; by apply HPa|].
    unfold own in Hvals. apply list_elem_of_fmap in Hvals as (k & -> & Hk).
    apply elem_of_seq in Hk. apply Forall_forall. intros v Hv%elem_of_seqZ.
    apply HPv.
    assert (0 ≤ Z.of_nat k * w) by (apply Z.mul_nonneg_nonneg; lia).
    assert ((Z.of_nat k + 1) * w ≤ n * w)
      by (apply Z.mul_le_mono_nonneg_r; lia).
    lia.
  - intros c t col Hcl Hcol. unfold entry.
    destruct (lookup_lt_is_Some_2 a c) as [row Hrow]; [done|].
    assert (own !! c = Some (seqZ (lo + Z.of_nat c * w) w)) as Hown.
    { unfold own. rewrite list_lookup_fmap, lookup_seq_lt by done. done. }
    rewrite (proj2 (lookup_zip_with_Some _ _ _ _ _)
               (ex_intro _ row (ex_intro _ _ (conj eq_refl (conj Hrow Hown))))).
    cbn. eapply stores_lookup; [| |done|].
    + rewrite Forall_forall in Ha.
      rewrite (Ha row (list_elem_of_lookup_2 _ _ _ Hrow)).
      apply where_in_range.
    + apply where_from_NoDup.
    + apply lookup_seqZ. split; [done|].
      apply lookup_lt_Some in Hcol. rewrite length_where in Hcol. lia.
Qed.

(** ** The table of the cells *)

Lemma cell_lf2e_columns :
  ∃ lf2e, np.columns cell_lf2e [3; 0; 1; 2] = Ok lf2e ∧
    table_shape 6 4 lf2e ∧ entries_in 0 12 lf2e.
Proof.
  eexists. split; [vm_compute; reflexivity|].
  split; refine (bool_decide_unpack _ _); vm_compute; exact I.
Qed.

Lemma square_multi_index p :
  0 ≤ p →
  let m := drop 1 <$> take (Z.to_nat ((p + 1) ^ 2)) (cube_rows p) in
  let mi2d := zip_with app m (fmap (λ x, p - x) <$> m) in
  length mi2d = Z.to_nat ((p + 1) ^ 2)
  ∧ Forall (λ r, length r = 4%nat ∧ Forall (λ x, 0 ≤ x ≤ p) r) mi2d.
Proof.
  intros Hp m mi2d.
  assert (Forall (λ r, length r = 2%nat ∧ Forall (λ x, 0 ≤ x ≤ p) r) m) as Hm.
  { unfold m. apply Forall_fmap, Forall_take.
    eapply Forall_impl; [apply cube_rows_shape|]. cbn. intros r [Hl Hr].
    rewrite length_drop, Hl. split; [done|]. by apply Forall_drop. }
  split.
  - unfold mi2d, m. rewrite length_zip_with, !length_fmap, length_take.
    rewrite length_cube_rows by done.
    assert ((p + 1) ^ 2 ≤ (p + 1) ^ 3) by nia. lia.
  - unfold mi2d. rewrite Forall_forall in Hm.
    apply Forall_zip_with. intros r r' Hr Hr'.
    apply list_elem_of_fmap in Hr' as (r0 & -> & Hr0).
    destruct (Hm r Hr) as [Hl HP]. destruct (Hm r0 Hr0) as [Hl0 HP0].
    rewrite length_app, length_fmap, Hl, Hl0. split; [done|].
    apply Forall_app. split; [done|]. apply Forall_fmap.
    eapply Forall_impl; [exact HP0|]. cbn. lia.
Qed.

Section cell_table.

Context (mesh : HexahedronMesh) (p : Z).
Hypothesis Hwf : well_formed mesh.
Hypothesis Hp : 1 ≤ p.

Local Abbreviation NN := (number_of_nodes mesh).
Local Abbreviation NE := (number_of_edges mesh).
Local Abbreviation NF := (number_of_faces mesh).
Local Abbreviation NC := (number_of_cells mesh).
Local Abbreviation cells := (ds_cell (ds mesh)).
Local Abbreviation total :=
  (NN + NE * (p - 1) + NF * (p - 1) ^ 2 + NC * (p - 1) ^ 3).

Lemma cell_to_ipoint_spec :
  ∃ tbl, cell_to_ipoint mesh p = Ok tbl ∧
    table_shape (length cells) (Z.to_nat ((p + 1) ^ 3)) tbl ∧
    entries_in 0 total tbl ∧
    (∀ (c t : nat) col, (c < length cells)%nat →
        np.where_ (interior_mask (cube_rows p) p) !! t = Some col →
        entry tbl c (Z.to_nat col)
        = Some (NN + NE * (p - 1) + NF * (p - 1) ^ 2
                + Z.of_nat c * (p - 1) ^ 3 + Z.of_nat t)).
Proof.
  pose proof (wf_NF_pos mesh Hwf) as HNF.
  pose proof (wf_NE_pos mesh Hwf) as HNE.
  pose proof (wf_NN_pos mesh Hwf) as HNN.
  assert (0 ≤ (p + 1) ^ 2) as Hsq by lia.
  assert (0 < (p + 1) ^ 3) as Hcu by lia.
  assert (0 ≤ (p - 1) ^ 2) as Hsq' by lia.
  assert (0 ≤ (p - 1) ^ 3) as Hcu' by lia.
  assert (0 ≤ NE * (p - 1)) as HE by (unfold number_of_edges; nia).
  assert (0 ≤ NF * (p - 1) ^ 2) as HF
    by (apply Z.mul_nonneg_nonneg; unfold number_of_faces; lia).
  assert (0 ≤ NC * (p - 1) ^ 3) as HC
    by (apply Z.mul_nonneg_nonneg; unfold number_of_cells; lia).
  unfold cell_to_ipoint.
  destruct (face_to_ipoint_spec mesh p Hwf Hp) as (f2i & -> & Hf2i & Hf2i_in & _).
  cbn [mbind PyResult_bind].
  rewrite multi_index3_Ok by lia. cbn [mbind PyResult_bind].
  destruct (cell_dofidx_spec p [2; 2; 0; 0; 1; 1]) as (dofidx & -> & Hdl & Hdw);
    [lia|repeat constructor; lia|].
  cbn [mbind PyResult_bind].
  rewrite zeros2_Ok by (unfold number_of_cells; lia).
  cbn [mbind PyResult_bind].
  destruct cell_lf2e_columns as (lf2e & -> & Hlf & Hlf_in).
  cbn [mbind PyResult_bind].
  destruct Hwf as (HNC & _ & _ & _ & _ & Hc2f & Hc2f_in & Hc2e & Hf2e & _).
  rewrite columns_Ok_fmap; cycle 1.
  { destruct Hf2e as [_ Hw]. eapply Forall_impl; [exact Hw|]. intros r ->.
    repeat constructor; unfold in_range; lia. }
  cbn [mbind PyResult_bind].
  destruct (square_multi_index p) as [Hml Hmw]; [lia|]. cbn zeta in Hml, Hmw.
  set (P := λ v, 0 ≤ v < total).
  edestruct (foldM_success
    (cell_face_step p (ds_cell2face (ds mesh))
       ((λ row : list Z, (λ j, row !!! Z.to_nat j) <$> [3; 0; 1; 2])
          <$> ds_face2edge (ds mesh))
       (ds_cell2edge (ds mesh)) lf2e
       (zip_with app
          (drop 1 <$> take (Z.to_nat ((p + 1) ^ 2)) (cube_rows p))
          (fmap (λ x, p - x) <$>
             (drop 1 <$> take (Z.to_nat ((p + 1) ^ 2)) (cube_rows p))))
       f2i dofidx)
    (λ c2i, table_shape (length cells) (Z.to_nat ((p + 1) ^ 3)) c2i
            ∧ Forall (Forall P) c2i))
    as (c2i & -> & [Hcl Hcw] & HcP); cycle 2.
  { cbn [mbind PyResult_bind].
    edestruct (own_block_spec c2i (interior_mask (cube_rows p) p))
      as (out & -> & Hos & HoP & Hown); cycle 5.
    { exists out. split; [done|]. rewrite length_interior_mask,
        length_cube_rows in Hos by lia.
      rewrite Hcl in Hos, Hown. split; [done|]. split; [|exact Hown].
      apply HoP; [done|]. intros v Hv. unfold P.
      unfold number_of_nodes, number_of_edges, number_of_faces,
        number_of_cells in *. lia. }
    - unfold number_of_cells. lia.
    - unfold number_of_cells. lia.
    - done.
    - rewrite length_interior_mask, length_cube_rows by lia. done.
    - rewrite count_interior3, to_nat_pred_cube by done. done. }
  - intros c2i i [Hs HP] Hi%elem_of_seqZ.
    destruct (cell_face_step_spec p (length (ds_face (ds mesh))) (length cells)
                (Z.to_nat ((p + 1) ^ 3)) (ds_cell2face (ds mesh)) f2i dofidx)
      with (f2e := (λ row : list Z, (λ j, row !!! Z.to_nat j) <$> [3; 0; 1; 2])
                     <$> ds_face2edge (ds mesh))
           (cell2edge := ds_cell2edge (ds mesh)) (lf2e := lf2e)
           (mi2d := zip_with app
                      (drop 1 <$> take (Z.to_nat ((p + 1) ^ 2)) (cube_rows p))
                      (fmap (λ x, p - x) <$>
                         (drop 1 <$> take (Z.to_nat ((p + 1) ^ 2)) (cube_rows p))))
           (c2i := c2i) (i := i)
      as (out & -> & Hos & HoP);
      [lia|done|done|done|done|lia| |done|done|done|done| |done|].
    + destruct Hf2e as [Hl _]. split; [by rewrite length_fmap|].
      apply Forall_fmap, Forall_true. intros r. done.
    + rewrite Hml. exact Hdw.
    + exists out. split; [done|]. split; [done|]. apply HoP; [|done].
      unfold entries_in in Hf2i_in. eapply Forall_impl; [exact Hf2i_in|].
      cbn. intros r Hr. eapply Forall_impl; [exact Hr|]. cbn. intros v Hv.
      unfold P. lia.
  - split.
    + split; [rewrite length_replicate; unfold number_of_cells; lia|].
      apply Forall_replicate. by rewrite length_replicate.
    + apply Forall_replicate, Forall_replicate. unfold P.
      unfold number_of_nodes. lia.
Qed.

End cell_table.

(** ** The earlier version *)

Lemma multi_index0_spec p :
  0 ≤ p →
  ∃ mi0, multi_index0 p = Ok mi0 ∧
    length mi0 = Z.to_nat ((p + 1) ^ 2) ∧
    Forall (λ r, length r = 4%nat
                 ∧ Forall (λ v, length v = 2%nat ∧ Forall (λ x, 0 ≤ x ≤ p) v) r)
           mi0.
Proof.
  intros Hp. unfold multi_index0. rewrite arange_0.
  rewrite !repeat_Ok, !tile_Ok by lia. cbn [mbind PyResult_bind].
  fold (axis_values p). fold (axis_outer p). fold (axis_inner p).
  eexists. split; [done|]. split.
  - rewrite length_zip_with, length_axis_outer, length_axis_inner,
      to_nat_square by done. lia.
  - assert (Forall (λ x, 0 ≤ x ≤ p) (axis_outer p)) as Ho
      by apply Forall_bind_replicate, axis_values_range.
    assert (Forall (λ x, 0 ≤ x ≤ p) (axis_inner p)) as Hi
      by apply Forall_join_replicate, axis_values_range.
    rewrite Forall_forall in Ho, Hi.
    apply Forall_zip_with. intros a b Ha%Ho Hb%Hi. split; [done|].
    repeat constructor; lia.
Qed.

(** The positions in the face table that [cell_face_step0] computes. *)
Lemma face_index0_spec (p : Z) (idx0 : list (list Z))
    (mi0 : list (list (list Z))) :
  0 ≤ p →
  Forall (λ r, length r = 4%nat ∧ Forall (in_range 4) r) idx0 →
  Forall (λ r, length r = 4%nat
               ∧ Forall (λ v, length v = 2%nat ∧ Forall (λ x, 0 ≤ x ≤ p) v) r)
         mi0 →
  ∃ idx,
    (mapM (λ mrow, mapM (np.getitems mrow) idx0) mi0
     ≫= λ idx3,
       mapM (mapM (λ v : list (list Z),
                     v2 ← np.getitem v 2;
                     a ← np.getitem v2 0; b ← np.getitem v2 1;
                     Ok (a * (p + 1) + b)))
            (np.swapaxes idx3 (length idx0)))
    = Ok idx ∧
    length idx = length idx0 ∧
    Forall (λ r, length r = length mi0
                 ∧ Forall (in_range (Z.to_nat ((p + 1) ^ 2))) r) idx.
Proof.
  intros Hp Hidx0 Hmi.
  rewrite (mapM_Ok_fmap _
    (λ mrow, (λ irow, (λ t, mrow !!! Z.to_nat t) <$> irow) <$> idx0)); cycle 1.
  { eapply Forall_impl; [exact Hmi|]. cbn. intros mrow [Hml _].
    apply mapM_Ok_fmap. eapply Forall_impl; [exact Hidx0|]. cbn.
    intros irow [_ Hir]. apply getitems_Ok. by rewrite Hml. }
  cbn [mbind PyResult_bind].
  set (idx3 := _ <$> mi0).
  destruct (swapaxes_shape
              (λ v : list (list Z),
                 length v = 4%nat
                 ∧ Forall (λ w, length w = 2%nat ∧ Forall (λ x, 0 ≤ x ≤ p) w) v)
              idx3 (length idx0)) as [Hsl Hsw].
  { unfold idx3. apply Forall_fmap. eapply Forall_impl; [exact Hmi|]. cbn.
    intros mrow [Hml Hmr]. rewrite length_fmap. split; [done|].
    apply Forall_fmap. eapply Forall_impl; [exact Hidx0|]. cbn.
    intros irow [Hil Hir]. rewrite length_fmap. split; [done|].
    apply Forall_fmap. eapply Forall_impl; [exact Hir|]. cbn. intros t Ht.
    rewrite Forall_forall in Hmr. apply Hmr, lookup_total_elem_of.
    unfold in_range in Ht. lia. }
  rewrite (mapM_Ok_fmap _
    (fmap (λ v : list (list Z),
             (v !!! 2%nat) !!! 0%nat * (p + 1) + (v !!! 2%nat) !!! 1%nat)));
    cycle 1.
  { eapply Forall_impl; [exact Hsw|]. cbn. intros r [_ Hr].
    apply mapM_Ok_fmap. eapply Forall_impl; [exact Hr|]. cbn. intros v [Hv Hw].
    rewrite (getitem_Ok_total v 2) by lia. cbn [mbind PyResult_bind].
    change (Z.to_nat 2) with 2%nat.
    assert (length (v !!! 2%nat) = 2%nat) as Hl2.
    { rewrite Forall_forall in Hw. apply Hw, (lookup_total_elem_of v 2). lia. }
    rewrite !getitem_Ok_total by lia. done. }
  eexists. split; [done|]. rewrite length_fmap. split; [done|].
  apply Forall_fmap. eapply Forall_impl; [exact Hsw|]. cbn. intros r [Hrl Hr].
  rewrite length_fmap. unfold idx3 in Hrl. rewrite length_fmap in Hrl.
  split; [done|]. apply Forall_fmap. eapply Forall_impl; [exact Hr|]. cbn.
  intros v [Hvl Hv].
  destruct v as [|v0 [|v1 [|v2 v]]]; [done..|].
  apply Forall_cons in Hv as [_ Hv]. apply Forall_cons in Hv as [_ Hv].
  apply Forall_cons in Hv as [[Hl2 Hv2] _].
  destruct v2 as [|a [|b v2]]; [done..|].
  apply Forall_cons in Hv2 as [Ha Hv2]. apply Forall_cons in Hv2 as [Hb _].
  unfold in_range. cbn. nia.
Qed.

Lemma cell0_localFace_shape :
  table_shape 6 4 cell0_localFace ∧ entries_in 0 8 cell0_localFace.
Proof. split; refine (bool_decide_unpack _ _); vm_compute; exact I. Qed.

Section cell_face_step0.

Context (p : Z) (NF NC Wc : nat).
Context (cell2face f2i dofidx : list (list Z)).
Hypothesis Hp : 0 ≤ p.
Hypothesis Hc2f : table_shape NC 6 cell2face.
Hypothesis Hc2f_in : entries_in 0 (Z.of_nat NF) cell2face.
Hypothesis Hf2i : table_shape NF (Z.to_nat ((p + 1) ^ 2)) f2i.
Hypothesis Hdofl : length dofidx = 6%nat.

Lemma cell_face_step0_spec (face cell : list (list Z))
    (mi0 : list (list (list Z))) (c2i : list (list Z)) (i : Z) :
  0 ≤ i < 6 →
  table_shape NF 4 face → table_shape NC 8 cell →
  Forall (λ r, length r = 4%nat
               ∧ Forall (λ v, length v = 2%nat ∧ Forall (λ x, 0 ≤ x ≤ p) v) r)
         mi0 →
  Forall (λ d, length d = length mi0 ∧ Forall (in_range Wc) d) dofidx →
  table_shape NC Wc c2i →
  ∃ out,
    cell_face_step0 p cell2face face cell mi0 f2i dofidx c2i i = Ok out ∧
    table_shape NC Wc out ∧
    ∀ P : Z → Prop, Forall (Forall P) f2i → Forall (Forall P) c2i →
                    Forall (Forall P) out.
Proof.
  intros Hi Hface Hcell Hmi Hdof [Hcl Hcw].
  unfold cell_face_step0.
  destruct (column_in_range cell2face NC 6 NF i) as [-> Hcf]; [done|done|lia|].
  cbn [mbind PyResult_bind]. set (cf := _ <$> cell2face).
  assert (length cf = NC) as Hcfl
    by (unfold cf; rewrite length_fmap; by destruct Hc2f).
  destruct Hface as [Hfl Hfw].
  rewrite (getitems_Ok face cf) by by rewrite Hfl.
  cbn [mbind PyResult_bind].
  destruct cell0_localFace_shape as [Hlf Hlf_in].
  destruct (table_row_elem cell0_localFace 6 4 i Hlf) as [Hlil Hlie]; [lia|].
  rewrite (getitem_Ok_total cell0_localFace i) by (destruct Hlf as [-> _]; lia).
  cbn [mbind PyResult_bind].
  destruct Hcell as [Hel Hew].
  rewrite columns_Ok_fmap; cycle 1.
  { eapply Forall_impl; [exact Hew|]. intros r ->.
    unfold entries_in in Hlf_in. rewrite Forall_forall in Hlf_in.
    exact (Hlf_in _ Hlie). }
  cbn [mbind PyResult_bind].
  edestruct (match_positions_spec) with (n := 4%nat) as (idx0 & -> & Hil & Hiw);
    cycle 3.
  { cbn [mbind PyResult_bind]. rewrite length_fmap, Hcfl in Hil.
    destruct (face_index0_spec p idx0 mi0 Hp Hiw Hmi) as (idx & Hidx & Hidl & Hidw).
    apply bind_Ok in Hidx as (idx3 & -> & Hidx). cbn [mbind PyResult_bind].
    rewrite Hidx. cbn [mbind PyResult_bind].
    destruct (gather_store_spec cf idx f2i dofidx c2i i NF (length mi0)
                (Z.to_nat ((p + 1) ^ 2)) Wc) as (out & -> & Hos & HoP);
      [lia|lia|done|done|done|lia|done|done|].
    exists out. rewrite Hcl in Hos. done. }
  - rewrite !length_fmap. lia.
  - apply Forall_fmap. eapply Forall_impl; [exact Hcf|]. intros f Hf. cbn.
    rewrite Forall_forall in Hfw. apply Hfw, lookup_total_elem_of.
    unfold in_range in Hf. lia.
  - apply Forall_fmap, Forall_true. intros r. cbn. by rewrite length_fmap.
Qed.

End cell_face_step0.

Section cell_table0.

Context (mesh : HexahedronMesh) (p : Z).
Hypothesis Hwf : well_formed mesh.
Hypothesis Hp : 1 ≤ p.

Local Abbreviation NN := (number_of_nodes mesh).
Local Abbreviation NE := (number_of_edges mesh).
Local Abbreviation NF := (number_of_faces mesh).
Local Abbreviation NC := (number_of_cells mesh).
Local Abbreviation cells := (ds_cell (ds mesh)).
Local Abbreviation total :=
  (NN + NE * (p - 1) + NF * (p - 1) ^ 2 + NC * (p - 1) ^ 3).

Lemma cell_to_ipoint0_spec :
  ∃ tbl, cell_to_ipoint0 mesh p = Ok tbl ∧
    table_shape (length cells) (Z.to_nat ((p + 1) ^ 3)) tbl ∧
    entries_in 0 total tbl ∧
    (∀ (c t : nat) col, (c < length cells)%nat →
        np.where_ (interior_mask (cube_rows p) p) !! t = Some col →
        entry tbl c (Z.to_nat col)
        = Some (NN + NE * (p - 1) + NF * (p - 1) ^ 2
                + Z.of_nat c * (p - 1) ^ 3 + Z.of_nat t)).
Proof.
  pose proof (wf_NF_pos mesh Hwf) as HNF.
  pose proof (wf_NE_pos mesh Hwf) as HNE.
  pose proof (wf_NN_pos mesh Hwf) as HNN.
  assert (0 ≤ (p + 1) ^ 2) as Hsq by lia.
  assert (0 < (p + 1) ^ 3) as Hcu by lia.
  assert (0 ≤ (p - 1) ^ 2) as Hsq' by lia.
  assert (0 ≤ (p - 1) ^ 3) as Hcu' by lia.
  assert (0 ≤ NE * (p - 1)) as HE by (unfold number_of_edges; nia).
  assert (0 ≤ NF * (p - 1) ^ 2) as HF
    by (apply Z.mul_nonneg_nonneg; unfold number_of_faces; lia).
  assert (0 ≤ NC * (p - 1) ^ 3) as HC
    by (apply Z.mul_nonneg_nonneg; unfold number_of_cells; lia).
  unfold cell_to_ipoint0.
  destruct (face_to_ipoint_spec mesh p Hwf Hp) as (f2i & -> & Hf2i & Hf2i_in & _).
  cbn [mbind PyResult_bind].
  rewrite multi_index3_Ok by lia. cbn [mbind PyResult_bind].
  destruct (cell_dofidx_spec p [2; 2; 1; 1; 0; 0]) as (dofidx & -> & Hdl & Hdw);
    [lia|repeat constructor; lia|].
  cbn [mbind PyResult_bind].
  rewrite zeros2_Ok by (unfold number_of_cells; lia).
  cbn [mbind PyResult_bind].
  destruct (multi_index0_spec p) as (mi0 & -> & Hml & Hmw); [lia|].
  cbn [mbind PyResult_bind].
  destruct Hwf as (HNC & Hcell & Hface & _ & _ & Hc2f & Hc2f_in & _).
  set (P := λ v, 0 ≤ v < total).
  edestruct (foldM_success
    (cell_face_step0 p (ds_cell2face (ds mesh)) (ds_face (ds mesh)) cells
       mi0 f2i dofidx)
    (λ c2i, table_shape (length cells) (Z.to_nat ((p + 1) ^ 3)) c2i
            ∧ Forall (Forall P) c2i))
    as (c2i & -> & [Hcl Hcw] & HcP); cycle 2.
  { cbn [mbind PyResult_bind].
    edestruct (own_block_spec c2i (interior_mask (cube_rows p) p))
      as (out & -> & Hos & HoP & Hown); cycle 5.
    { exists out. split; [done|]. rewrite length_interior_mask,
        length_cube_rows in Hos by lia.
      rewrite Hcl in Hos, Hown. split; [done|]. split; [|exact Hown].
      apply HoP; [done|]. intros v Hv. unfold P.
      unfold number_of_nodes, number_of_edges, number_of_faces,
        number_of_cells in *. lia. }
    - unfold number_of_cells. lia.
    - unfold number_of_cells. lia.
    - done.
    - rewrite length_interior_mask, length_cube_rows by lia. done.
    - rewrite count_interior3, to_nat_pred_cube by done. done. }
  - intros c2i i [Hs HP] Hi%elem_of_seqZ.
    destruct (cell_face_step0_spec p (length (ds_face (ds mesh))) (length cells)
                (Z.to_nat ((p + 1) ^ 3)) (ds_cell2face (ds mesh)) f2i dofidx)
      with (face := ds_face (ds mesh)) (cell := cells) (mi0 := mi0)
           (c2i := c2i) (i := i)
      as (out & -> & Hos & HoP);
      [lia|done|done|done|done|lia|done|done|done| |done|].
    + rewrite Hml. exact Hdw.
    + exists out. split; [done|]. split; [done|]. apply HoP; [|done].
      unfold entries_in in Hf2i_in. eapply Forall_impl; [exact Hf2i_in|].
      cbn. intros r Hr. eapply Forall_impl; [exact Hr|]. cbn. intros v Hv.
      unfold P. lia.
  - split.
    + split; [rewrite length_replicate; unfold number_of_cells; lia|].
      apply Forall_replicate. by rewrite length_replicate.
    + apply Forall_replicate, Forall_replicate. unfold P.
      unfold number_of_nodes. lia.
Qed.

End cell_table0.

(** ** The largest index *)

Lemma foldr_max_le (l : list Z) M :
  0 ≤ M → Forall (λ v, v ≤ M) l → foldr Z.max 0 l ≤ M.
Proof. intros HM. induction 1 as [|v l Hv _ IH]; cbn; lia. Qed.

Lemma foldr_max_ge (l : list Z) v : v ∈ l → v ≤ foldr Z.max 0 l.
Proof.
  induction l as [|w l IH]; [by intros ?%elem_of_nil|].
  intros [->|Hv%IH]%elem_of_cons; cbn; lia.
Qed.

Lemma table_max_eq (t : list (list Z)) M :
  0 ≤ M → Forall (Forall (λ v, v ≤ M)) t →
  (∃ r c, entry t r c = Some M) → table_max t = M.
Proof.
  intros HM Hle (r & c & He). unfold table_max.
  apply Z.le_antisymm.
  - apply foldr_max_le; [done|]. apply Forall_forall. intros v Hv.
    apply list_elem_of_join in Hv as (row & Hv & Hrow).
    rewrite Forall_forall in Hle. specialize (Hle row Hrow).
    rewrite Forall_forall in Hle. by apply Hle.
  - apply foldr_max_ge. unfold entry in He.
    destruct (t !! r) as [row|] eqn:Hr; [|done]. cbn in He.
    apply list_elem_of_join. exists row.
    split; [by eapply list_elem_of_lookup_2|by eapply list_elem_of_lookup_2].
Qed.

Lemma foldr_max_attained (l : list Z) :
  foldr Z.max 0 l = 0 ∨ foldr Z.max 0 l ∈ l.
Proof.
  induction l as [|v l [IH | IH]]; [by left|..]; cbn.
  - destruct (Z.max_spec v (foldr Z.max 0 l)) as [[_ ->] | [_ ->]];
      [by left|right; left].
  - right. destruct (Z.max_spec v (foldr Z.max 0 l)) as [[_ ->] | [_ ->]];
      [by right|left].
Qed.

(** A table with an entry, all entries in [0, M]: its largest entry is [M]
    exactly when [M] is one of the entries. *)
Lemma table_max_iff (t : list (list Z)) M :
  Forall (Forall (λ v, 0 ≤ v ≤ M)) t → (∃ r c v, entry t r c = Some v) →
  table_max t = M ↔ ∃ r c, entry t r c = Some M.
Proof.
  intros Hin (r0 & c0 & v0 & H0).
  assert (∀ v, v ∈ mjoin t → ∃ r c, entry t r c = Some v) as Hentry.
  { intros v Hv. apply list_elem_of_join in Hv as (row & Hv & Hrow).
    apply list_elem_of_lookup in Hrow as [r Hr].
    apply list_elem_of_lookup in Hv as [c Hc].
    exists r, c. unfold entry. by rewrite Hr. }
  assert (v0 ∈ mjoin t) as Hv0.
  { unfold entry in H0. destruct (t !! r0) as [row|] eqn:Hr; [|done].
    apply list_elem_of_join. exists row.
    split; by eapply list_elem_of_lookup_2. }
  assert (Forall (λ v, 0 ≤ v ≤ M) (mjoin t)) as Hall.
  { apply Forall_forall. intros v Hv.
    apply list_elem_of_join in Hv as (row & Hv & Hrow).
    rewrite Forall_forall in Hin. specialize (Hin row Hrow).
    rewrite Forall_forall in Hin. by apply Hin. }
  rewrite Forall_forall in Hall.
  split.
  - intros Hmax. unfold table_max in Hmax.
    destruct (foldr_max_attained (mjoin t)) as [Hz | Hm].
    + apply Hentry. pose proof (foldr_max_ge _ _ Hv0) as Hge.
      specialize (Hall _ Hv0). cbv beta in Hall.
      replace M with v0 by lia. done.
    + apply Hentry. by rewrite <- Hmax.
  - intros He. apply table_max_eq; [|..|done].
    + specialize (Hall _ Hv0). cbv beta in Hall. lia.
    + eapply Forall_impl; [exact Hin|]. intros row Hrow.
      eapply Forall_impl; [exact Hrow|]. cbv beta. lia.
Qed.

(** ** The edges in the table of the faces *)

(** C4: let the mesh be well formed with edges that join the end nodes of
    their face slots, and let [p >= 1].  Then [face_to_ipoint] returns a table
    in which, for every face [f] and every local edge slot [i], the positions
    [dofidx[i]] of the row of [f] hold the row of the edge [g =
    face2edge[f, i]] of [edge_to_ipoint]: as it is when the edge runs from the
    first to the second local end node of the slot ([edge[g] = (face[f, l0],
    face[f, l1])]), reversed when it runs the other way. *)
Theorem face_to_ipoint_edge_orientation (mesh : HexahedronMesh) (p : Z) :
  well_formed mesh → edges_fit_faces mesh → 1 ≤ p →
  ∃ e2i mi dofidx f2i,
    edge_to_ipoint mesh p = Ok e2i ∧
    multi_index2 p = Ok mi ∧ face_dofidx mi p = Ok dofidx ∧
    face_to_ipoint mesh p = Ok f2i ∧
    ∀ (f i : nat) fnodes,
      ds_face (ds mesh) !! f = Some fnodes → (i < 4)%nat →
      ∃ fedges row g erow di l0 l1 a b,
        ds_face2edge (ds mesh) !! f = Some fedges ∧ f2i !! f = Some row ∧
        fedges !! i = Some g ∧ e2i !! Z.to_nat g = Some erow ∧
        dofidx !! i = Some di ∧
        face_localEdge !! i = Some [l0; l1] ∧
        fnodes !! Z.to_nat l0 = Some a ∧ fnodes !! Z.to_nat l1 = Some b ∧
        ((ds_edge (ds mesh) !! Z.to_nat g = Some [a; b]
          ∧ (λ c, row !!! Z.to_nat c) <$> di = erow)
         ∨ (ds_edge (ds mesh) !! Z.to_nat g = Some [b; a]
            ∧ (λ c, row !!! Z.to_nat c) <$> di = reverse erow)).
Proof.
  intros Hwf Hfit Hp.
  destruct (face_to_ipoint_spec mesh p Hwf Hp) as (f2i & Hf2i & [Hfl _] & _ & Hw).
  specialize (Hw Hfit).
  exists (edge_rows mesh p),
    (zip_with (λ a b, [a; b]) (axis_outer p) (axis_inner p)),
    (edge_positions p <$> [0; 1; 2; 3]), f2i.
  split; [apply edge_to_ipoint_Ok; by destruct Hwf as (_ & _ & _ & [_ ?] & _)|].
  split; [apply multi_index2_Ok; lia|].
  split; [apply face_dofidx_Ok; lia|]. split; [done|].
  intros f i fnodes Hfn Hi.
  destruct (Forall2_lookup_l _ _ _ _ _ Hfit Hfn) as (fedges & Hfe & Hlen & Hslots).
  destruct (lookup_lt_is_Some_2 f2i f) as [row Hrow];
    [rewrite Hfl; by eapply lookup_lt_Some|].
  assert (∃ l0 l1, face_localEdge !! i = Some [l0; l1]
                   ∧ 0 ≤ l0 < 4 ∧ 0 ≤ l1 < 4) as (l0 & l1 & Hle & Hl0 & Hl1).
  { destruct i as [|[|[|[|i]]]]; [..|lia]; eexists _, _; (split; [done|lia]). }
  destruct (Forall2_lookup_l _ _ _ _ _ Hslots Hle) as (g & Hg & Hab & Hedge).
  cbn in Hab, Hedge.
  change (Z.to_nat 0) with 0%nat in *. change (Z.to_nat 1) with 1%nat in *.
  cbn [lookup_total list_lookup_total] in Hab, Hedge.
  set (a := fnodes !!! Z.to_nat l0) in *. set (b := fnodes !!! Z.to_nat l1) in *.
  assert (∃ e, ds_edge (ds mesh) !! Z.to_nat g = Some e) as [e He]
    by (destruct Hedge as [-> | ->]; by eexists).
  pose proof (edge_rows_lookup mesh p _ _ He) as Herow.
  exists fedges, row, g,
    (edge_row (number_of_nodes mesh) p (Z.of_nat (Z.to_nat g), e)),
    (edge_positions p (Z.of_nat i)), l0, l1, a, b.
  split; [done|]. split; [done|]. split; [done|]. split; [exact Herow|].
  split.
  { destruct i as [|[|[|[|i]]]]; [done..|lia]. }
  split; [done|].
  split; [apply list_lookup_lookup_total_lt; lia|].
  split; [apply list_lookup_lookup_total_lt; lia|].
  specialize (Hw f row Hrow (Z.of_nat i)).
  assert (oriented_edge_row (ds_edge (ds mesh)) (ds_face (ds mesh))
            (ds_face2edge (ds mesh)) (edge_rows mesh p) (Z.of_nat i) f
          = if decide (a = e !!! 0%nat)
            then edge_row (number_of_nodes mesh) p (Z.of_nat (Z.to_nat g), e)
            else reverse (edge_row (number_of_nodes mesh) p
                            (Z.of_nat (Z.to_nat g), e))) as Hor.
  { unfold oriented_edge_row. cbn zeta. rewrite Nat2Z.id.
    rewrite (list_lookup_total_correct _ _ _ Hfe).
    rewrite (list_lookup_total_correct _ _ _ Hg).
    rewrite (list_lookup_total_correct _ _ _ Hfn).
    rewrite (list_lookup_total_correct _ _ _ He).
    rewrite (list_lookup_total_correct _ _ _ Herow).
    rewrite (list_lookup_total_correct _ _ _ Hle). done. }
  rewrite Hor in Hw.
  assert (∀ o, length o = Z.to_nat (p + 1) →
            (∀ t c v, edge_positions p (Z.of_nat i) !! t = Some c →
                      o !! t = Some v → row !! Z.to_nat c = Some v) →
            (λ c, row !!! Z.to_nat c) <$> edge_positions p (Z.of_nat i) = o)
    as Heq.
  { intros o Hol Ho. apply list_eq_same_length with (Z.to_nat (p + 1)).
    - done.
    - by rewrite length_fmap, length_edge_positions.
    - intros t x y Ht. rewrite list_lookup_fmap.
      destruct (edge_positions p (Z.of_nat i) !! t) as [c|] eqn:Hc; [|done].
      cbn. intros [= <-] Hy.
      by rewrite (list_lookup_total_correct _ _ _ (Ho _ _ _ Hc Hy)). }
  assert (length (edge_row (number_of_nodes mesh) p (Z.of_nat (Z.to_nat g), e))
          = Z.to_nat (p + 1)) as Hel by (by apply length_edge_row).
  destruct Hedge as [Hedge | Hedge]; rewrite Hedge in He; simplify_eq;
    cbn [lookup_total list_lookup_total] in Hw.
  - left. split; [done|]. rewrite decide_True in Hw by done.
    apply Heq; [done|]. intros t c v Hc Hv. eapply Hw; [lia|done..].
  - right. split; [done|]. rewrite decide_False in Hw by done.
    apply Heq; [by rewrite length_reverse|].
    intros t c v Hc Hv. eapply Hw; [lia|done..].
Qed.

Lemma face_to_ipoint_edge_orientation_witness :
  ∃ mesh, twisted_mesh = Ok mesh ∧
    well_formed mesh ∧ edges_fit_faces mesh ∧ 1 ≤ 2 ∧
    ∃ e2i mi dofidx f2i,
      edge_to_ipoint mesh 2 = Ok e2i ∧
      multi_index2 2 = Ok mi ∧ face_dofidx mi 2 = Ok dofidx ∧
      face_to_ipoint mesh 2 = Ok f2i ∧
      ∀ (f i : nat) fnodes,
        ds_face (ds mesh) !! f = Some fnodes → (i < 4)%nat →
        ∃ fedges row g erow di l0 l1 a b,
          ds_face2edge (ds mesh) !! f = Some fedges ∧ f2i !! f = Some row ∧
          fedges !! i = Some g ∧ e2i !! Z.to_nat g = Some erow ∧
          dofidx !! i = Some di ∧
          face_localEdge !! i = Some [l0; l1] ∧
          fnodes !! Z.to_nat l0 = Some a ∧ fnodes !! Z.to_nat l1 = Some b ∧
          ((ds_edge (ds mesh) !! Z.to_nat g = Some [a; b]
            ∧ (λ c, row !!! Z.to_nat c) <$> di = erow)
           ∨ (ds_edge (ds mesh) !! Z.to_nat g = Some [b; a]
              ∧ (λ c, row !!! Z.to_nat c) <$> di = reverse erow)).
Proof.
  eexists. split; [vm_compute; reflexivity|].
  assert (1 ≤ 2) as Hp by lia.
  match goal with |- well_formed ?m ∧ _ =>
    assert (well_formed m) as Hwf
      by (refine (bool_decide_unpack _ _); vm_compute; exact I);
    assert (edges_fit_faces m) as Hfit
      by (refine (bool_decide_unpack _ _); vm_compute; exact I)
  end.
  split; [exact Hwf|]. split; [exact Hfit|]. split; [exact Hp|].
  exact (face_to_ipoint_edge_orientation _ 2 Hwf Hfit Hp).
Defined.

(** ** The two versions of the numbering of the cells *)

(** C8, amended: for a well-formed mesh and [p >= 1] both versions return a
    table with one row of [(p+1)^3] entries per cell, all entries in [0,
    total); the two tables agree at the positions of the points strictly
    inside the cells (there are none for [p = 1]).  On the faces they may
    differ. *)
Theorem cell_to_ipoint0_agrees_inside (mesh : HexahedronMesh) (p : Z) :
  well_formed mesh → 1 ≤ p →
  ∃ tbl tbl0 mi total,
    cell_to_ipoint mesh p = Ok tbl ∧ cell_to_ipoint0 mesh p = Ok tbl0 ∧
    multi_index3 p = Ok mi ∧ number_of_global_ipoints mesh p = Ok total ∧
    table_shape (length (ds_cell (ds mesh))) (Z.to_nat ((p + 1) ^ 3)) tbl ∧
    table_shape (length (ds_cell (ds mesh))) (Z.to_nat ((p + 1) ^ 3)) tbl0 ∧
    entries_in 0 total tbl ∧ entries_in 0 total tbl0 ∧
    ∀ c col : nat, (c < length (ds_cell (ds mesh)))%nat →
      interior_mask mi p !! col = Some true →
      is_Some (entry tbl c col) ∧ entry tbl c col = entry tbl0 c col.
Proof.
  intros Hwf Hp.
  destruct (cell_to_ipoint_spec mesh p Hwf Hp) as (tbl & Ht & Hs & Hin & Hown).
  destruct (cell_to_ipoint0_spec mesh p Hwf Hp)
    as (tbl0 & Ht0 & Hs0 & Hin0 & Hown0).
  exists tbl, tbl0, (cube_rows p),
    (number_of_nodes mesh + number_of_edges mesh * (p - 1)
     + number_of_faces mesh * (p - 1) ^ 2 + number_of_cells mesh * (p - 1) ^ 3).
  split; [done|]. split; [done|]. split; [apply multi_index3_Ok; lia|].
  split; [done|]. split; [done|]. split; [done|]. split; [done|].
  split; [done|].
  intros c col Hc Hm.
  assert (Z.of_nat col ∈ np.where_ (interior_mask (cube_rows p) p)) as Hcol.
  { apply elem_of_where_from. exists col. split; [lia|done]. }
  apply list_elem_of_lookup in Hcol as [t Hcol].
  specialize (Hown c t _ Hc Hcol). specialize (Hown0 c t _ Hc Hcol).
  rewrite Nat2Z.id in Hown, Hown0. rewrite Hown, Hown0. done.
Qed.

Lemma cell_to_ipoint0_agrees_inside_witness :
  ∃ mesh, twisted_mesh = Ok mesh ∧ well_formed mesh ∧ 1 ≤ 2 ∧
    ∃ tbl tbl0 mi total,
      cell_to_ipoint mesh 2 = Ok tbl ∧ cell_to_ipoint0 mesh 2 = Ok tbl0 ∧
      multi_index3 2 = Ok mi ∧ number_of_global_ipoints mesh 2 = Ok total ∧
      table_shape (length (ds_cell (ds mesh))) (Z.to_nat ((2 + 1) ^ 3)) tbl ∧
      table_shape (length (ds_cell (ds mesh))) (Z.to_nat ((2 + 1) ^ 3)) tbl0 ∧
      entries_in 0 total tbl ∧ entries_in 0 total tbl0 ∧
      ∀ c col : nat, (c < length (ds_cell (ds mesh)))%nat →
        interior_mask mi 2 !! col = Some true →
        is_Some (entry tbl c col) ∧ entry tbl c col = entry tbl0 c col.
Proof.
  eexists. split; [vm_compute; reflexivity|].
  assert (1 ≤ 2) as Hp by lia.
  match goal with |- well_formed ?m ∧ _ =>
    assert (well_formed m) as Hwf
      by (refine (bool_decide_unpack _ _); vm_compute; exact I)
  end.
  split; [exact Hwf|]. split; [exact Hp|].
  exact (cell_to_ipoint0_agrees_inside _ 2 Hwf Hp).
Defined.

(** ** Construction: malformed input *)

Lemma extends_refl m f2c : extends m f2c m f2c.
Proof. by split. Qed.

Lemma extends_trans m1 c1 m2 c2 m3 c3 :
  extends m1 c1 m2 c2 → extends m2 c2 m3 c3 → extends m1 c1 m3 c3.
Proof. intros [] []. split; eauto. Qed.

Lemma foldM_raises {A B} (f : A → B → PyResult A) (P : exn → Prop) l a e :
  (∀ a x e, f a x = Raise e → P e) → foldM f a l = Raise e → P e.
Proof.
  intros Hf. revert a. induction l as [|x l IH]; intros a; cbn; [done|].
  destruct (f a x) as [a'|e'] eqn:Hfx; cbn.
  - apply IH.
  - intros [= <-]. by eapply Hf.
Qed.

Lemma register_face_raises c cn ce st i e :
  register_face c cn ce st i = Raise e → e = TopologyError.
Proof.
  unfold register_face. destruct (ft_map st !! _); [|done].
  case_decide; [done|]. by intros [= <-].
Qed.

Lemma add_cell_raises st cn e : add_cell st cn = Raise e → e = TopologyError.
Proof.
  destruct cn as [c cellnodes]. unfold add_cell.
  destruct (foldl register_edge _ _) as [[em edges] erow].
  destruct (foldM _ _ _) as [ft|e'] eqn:Hft; cbn; [done|].
  intros [= <-]. eapply (foldM_raises _ (λ e, e = TopologyError)); [|exact Hft].
  intros ???. apply register_face_raises.
Qed.

(** One face of one cell. *)
Lemma register_face_step c cn ce st i st' :
  c ≠ -1 →
  indexed (ft_map st) (ft_face st) (ft_face2cell st) →
  register_face c cn ce st i = Ok st' →
  indexed (ft_map st') (ft_face st') (ft_face2cell st')
  ∧ extends (ft_map st) (ft_face2cell st) (ft_map st') (ft_face2cell st')
  ∧ claimed (face_key cn i) (ft_map st')
  ∧ (claimed (face_key cn i) (ft_map st) →
     full (face_key cn i) (ft_map st') (ft_face2cell st'))
  ∧ ¬ full (face_key cn i) (ft_map st) (ft_face2cell st).
Proof.
  intros Hc [Hlen Hidx]. unfold register_face. fold (face_key cn i).
  destruct (ft_map st !! face_key cn i) as [f|] eqn:Hk.
  - case_decide as Hslot; [|done]. intros [= <-]. cbn.
    destruct (Hidx _ _ Hk) as [Hf0 Hf1].
    split; [|split; [split|split; [|split] ] ].
    + split; [by rewrite length_insert|]. intros k f' Hk'.
      rewrite length_insert. by eapply Hidx.
    + done.
    + intros k (f' & Hk' & Hfull). exists f'. split; [done|].
      rewrite list_lookup_total_insert. case_decide as Hd; [|done].
      cbn. done.
    + by exists f.
    + intros _. exists f. split; [done|].
      rewrite list_lookup_total_insert. rewrite decide_True by (split; [done|lia]).
      done.
    + intros (f' & Hk' & Hfull). by simplify_eq.
  - intros [= <-]. cbn.
    split; [|split; [split|split; [|split] ] ].
    + split; [by rewrite !length_app, Hlen|]. intros k f.
      rewrite lookup_insert. case_decide.
      * intros [= <-]. rewrite length_app. cbn. lia.
      * intros Hk'%Hidx. rewrite length_app. lia.
    + intros k [f Hk']. exists f. rewrite lookup_insert_ne; [done|].
      intros <-. by simplify_eq.
    + intros k (f & Hk' & Hfull). exists f. split.
      * rewrite lookup_insert_ne; [done|]. intros <-. by simplify_eq.
      * rewrite lookup_total_app_l; [done|]. apply Hidx in Hk'. lia.
    + unfold claimed. rewrite lookup_insert_eq. by eexists.
    + intros [f Hf]. by simplify_eq.
    + intros (f & Hf & _). by simplify_eq.
Qed.

(** The faces of one cell. *)
Lemma register_faces_loop c cn ce (l : list Z) st st' :
  c ≠ -1 →
  indexed (ft_map st) (ft_face st) (ft_face2cell st) →
  foldM (register_face c cn ce) st l = Ok st' →
  indexed (ft_map st') (ft_face st') (ft_face2cell st')
  ∧ extends (ft_map st) (ft_face2cell st) (ft_map st') (ft_face2cell st')
  ∧ ∀ i, i ∈ l →
      claimed (face_key cn i) (ft_map st')
      ∧ (claimed (face_key cn i) (ft_map st) →
         full (face_key cn i) (ft_map st') (ft_face2cell st'))
      ∧ ¬ full (face_key cn i) (ft_map st) (ft_face2cell st).
Proof.
  intros Hc. revert st. induction l as [|i l IH]; intros st Hidx; cbn.
  - intros [= <-]. split; [done|]. split; [apply extends_refl|].
    by intros i ?%elem_of_nil.
  - intros (st1 & Hst1 & Hrest)%bind_Ok.
    destruct (register_face_step _ _ _ _ _ _ Hc Hidx Hst1)
      as (Hidx1 & Hext1 & Hcl & Hfu & Hnf).
    destruct (IH _ Hidx1 Hrest) as (Hidx' & Hext' & Hl).
    split; [done|]. split; [by eapply extends_trans|].
    intros j [->|Hj]%elem_of_cons.
    + split; [by apply Hext'|]. split; [|done].
      intros Hcl0. by apply Hext', Hfu.
    + destruct (Hl j Hj) as (Hcl' & Hfu' & Hnf').
      split; [done|]. split.
      * intros Hcl0. by apply Hfu', Hext1.
      * intros Hf. by apply Hnf', Hext1.
Qed.

(** One cell. *)
Lemma add_cell_step st c cn st' :
  c ≠ -1 →
  indexed (t_faceMap st) (t_face st) (t_face2cell st) →
  add_cell st (c, cn) = Ok st' →
  indexed (t_faceMap st') (t_face st') (t_face2cell st')
  ∧ extends (t_faceMap st) (t_face2cell st) (t_faceMap st') (t_face2cell st')
  ∧ ∀ k, k ∈ face_keys cn →
      claimed k (t_faceMap st')
      ∧ (claimed k (t_faceMap st) → full k (t_faceMap st') (t_face2cell st'))
      ∧ ¬ full k (t_faceMap st) (t_face2cell st).
Proof.
  intros Hc Hidx. unfold add_cell.
  destruct (foldl register_edge _ _) as [[em edges] erow].
  intros (ft & Hft & [= <-])%bind_Ok. cbn.
  destruct (register_faces_loop _ _ _ _ _ _ Hc
              (Hidx : indexed (ft_map {| ft_map := t_faceMap st;
                                         ft_face := t_face st;
                                         ft_face2edge := t_face2edge st;
                                         ft_face2cell := t_face2cell st;
                                         ft_row := [] |}) _ _) Hft)
    as (Hidx' & Hext & Hl).
  split; [done|]. split; [done|].
  intros k (i & -> & Hi)%list_elem_of_fmap. by apply Hl.
Qed.

Lemma claims_cons k c cell :
  claims k (c :: cell)
  = ((if decide (k ∈ face_keys c) then 1 else 0) + claims k cell)%nat.
Proof. unfold claims. rewrite filter_cons. by case_decide. Qed.

(** All cells: no face key is claimed more than twice when the loop ends
    without an error. *)
Lemma add_cells_loop (l : list (Z * list Z)) st st' (n : list Z → nat) :
  Forall (λ x, x.1 ≠ -1) l →
  indexed (t_faceMap st) (t_face st) (t_face2cell st) →
  (∀ k, (1 ≤ n k → claimed k (t_faceMap st))
        ∧ (2 ≤ n k → full k (t_faceMap st) (t_face2cell st)))%nat →
  foldM add_cell st l = Ok st' →
  ∀ k, (1 ≤ claims k l.*2 → n k + claims k l.*2 ≤ 2)%nat.
Proof.
  intros Hl. revert st n.
  induction Hl as [|[c cn] l Hc _ IH]; intros st n Hidx Hn.
  - intros _ k. unfold claims. cbn. lia.
  - cbn [foldM]. intros (st1 & Hst1 & Hrest)%bind_Ok k.
    rewrite fmap_cons. cbn [snd].
    destruct (add_cell_step _ _ _ _ Hc Hidx Hst1) as (Hidx1 & [Hec Hef] & Hkeys).
    rewrite claims_cons.
    specialize (IH st1 (λ k, ((if decide (k ∈ face_keys cn) then 1 else 0)
                               + n k)%nat) Hidx1).
    cbn beta in IH.
    assert (∀ k, (1 ≤ (if decide (k ∈ face_keys cn) then 1 else 0) + n k
                  → claimed k (t_faceMap st1))
                 ∧ (2 ≤ (if decide (k ∈ face_keys cn) then 1 else 0) + n k
                    → full k (t_faceMap st1) (t_face2cell st1)))%nat as Hn1.
    { intros k'. destruct (Hn k') as [Hn1 Hn2]. case_decide as Hk'.
      - destruct (Hkeys k' Hk') as (Hcl & Hfu & _). split; [done|].
        intros ?. apply Hfu, Hn1. lia.
      - split; intros ?; [apply Hec, Hn1|apply Hef, Hn2]; lia. }
    specialize (IH Hn1 Hrest k). case_decide as Hk.
    + destruct (Hkeys k Hk) as (_ & _ & Hnf). destruct (Hn k) as [_ Hn2].
      assert (n k < 2)%nat
        by (destruct (decide (2 ≤ n k)%nat) as [Hge|]; [by apply Hn2, Hnf in Hge|lia]).
      lia.
    + lia.
Qed.

Lemma construct_claims NN cell d :
  construct NN cell = Ok d → ∀ k, (claims k cell ≤ 2)%nat.
Proof.
  unfold construct. case_decide; [|done].
  intros (t & Ht & _)%bind_Ok k.
  epose proof (add_cells_loop _ empty_topology t (λ _, 0%nat) _ _ _ Ht k)
    as Hloop.
  rewrite snd_zip in Hloop by (rewrite length_seqZ; lia). lia.
  Unshelve.
  - apply Forall_forall. intros [c cn] Hc%elem_of_zip_l%elem_of_seqZ. cbn. lia.
  - split; [done|]. intros k' f. cbn. by rewrite lookup_empty.
  - intros k'. split; lia.
Qed.

Lemma construct_raises NN cell e :
  construct NN cell = Raise e →
  if decide (Forall valid_cell cell) then e = TopologyError
  else e = ValidationError.
Proof.
  unfold construct. case_decide; [|by intros [= <-]].
  destruct (foldM _ _ _) as [t|e'] eqn:Ht; cbn; [done|]. intros [= <-].
  eapply (foldM_raises _ (λ e, e = TopologyError)); [|exact Ht].
  intros ???. apply add_cell_raises.
Qed.

(** C6: the constructor raises [ValidationError] when a cell has a repeated
    node, and [TopologyError] when every cell is valid and some face key is
    claimed by more than two cells; in both cases it returns no mesh. *)
Theorem init_rejects_malformed_input (node : list (list Q)) (cell : list (list Z)) :
  (Exists (λ c, ¬ NoDup c) cell →
   init node cell = Raise ValidationError ∧ ¬ returns (init node cell))
  ∧ (Forall valid_cell cell → (∃ k, (2 < claims k cell)%nat) →
     init node cell = Raise TopologyError ∧ ¬ returns (init node cell)).
Proof.
  assert (∀ e, init node cell = Raise e → ¬ returns (init node cell)) as Hno
    by (intros e -> [m Hm]; discriminate).
  split.
  - intros Hex.
    assert (init node cell = Raise ValidationError) as Hr; [|by eauto].
    unfold init, construct. rewrite decide_False; [done|].
    intros Hall. apply Exists_exists in Hex as (c & Hc & Hdup).
    rewrite Forall_forall in Hall. by destruct (Hall c Hc).
  - intros Hall [k Hk].
    assert (init node cell = Raise TopologyError) as Hr; [|by eauto].
    unfold init.
    destruct (construct (Z.of_nat (length node)) cell) as [d|e] eqn:Hd; cbn.
    + pose proof (construct_claims _ _ _ Hd k). lia.
    + apply construct_raises in Hd. rewrite decide_True in Hd by done.
      by subst.
Qed.

Lemma init_rejects_malformed_input_witness :
  (init [] [ [0; 0; 2; 3; 4; 5; 6; 7] ] = Raise ValidationError
   ∧ ¬ returns (init [] [ [0; 0; 2; 3; 4; 5; 6; 7] ]))
  ∧ (init [] [ [0; 1; 2; 3; 4; 5; 6; 7]; [4; 5; 6; 7; 8; 9; 10; 11];
               [4; 5; 6; 7; 12; 13; 14; 15] ] = Raise TopologyError
     ∧ ¬ returns (init [] [ [0; 1; 2; 3; 4; 5; 6; 7]; [4; 5; 6; 7; 8; 9; 10; 11];
                            [4; 5; 6; 7; 12; 13; 14; 15] ])).
Proof.
  split.
  - apply (proj1 (init_rejects_malformed_input [] [ [0; 0; 2; 3; 4; 5; 6; 7] ])).
    refine (bool_decide_unpack _ _). vm_compute. exact I.
  - apply (proj2 (init_rejects_malformed_input []
             [ [0; 1; 2; 3; 4; 5; 6; 7]; [4; 5; 6; 7; 8; 9; 10; 11];
               [4; 5; 6; 7; 12; 13; 14; 15] ])).
    + refine (bool_decide_unpack _ _). vm_compute. exact I.
    + exists [4; 5; 6; 7].
      assert (claims [4; 5; 6; 7]
                [ [0; 1; 2; 3; 4; 5; 6; 7]; [4; 5; 6; 7; 8; 9; 10; 11];
                  [4; 5; 6; 7; 12; 13; 14; 15] ] = 3%nat) as ->
        by (vm_compute; reflexivity).
      lia.
Defined.

(** ** Construction: what the builder returns *)

#[global] Instance local_tables_agree_dec : Decision local_tables_agree.
Proof. unfold local_tables_agree. apply _. Defined.

Lemma local_tables_agree_holds : local_tables_agree.
Proof. refine (bool_decide_unpack _ _). vm_compute. exact I. Qed.

Lemma entity_key_pair (x y a b : Z) :
  entity_key [x; y] = entity_key [a; b] → [x; y] = [a; b] ∨ [x; y] = [b; a].
Proof.
  intros Hk. unfold entity_key in Hk.
  assert ([x; y] ≡ₚ [a; b]) as Hp.
  { rewrite <- (merge_sort_Permutation Z.le [x; y]), Hk.
    apply merge_sort_Permutation. }
  apply Permutation_length_2 in Hp as [[-> ->]|[-> ->]]; auto.
Qed.

Lemma edge_fits_app edges ext f le g :
  edge_fits edges f le g → edge_fits (edges ++ ext) f le g.
Proof.
  unfold edge_fits. intros (Hg & Hab & He). split; [done|]. split; [done|].
  destruct He as [He|He]; [left|right]; by apply lookup_app_l_Some.
Qed.

Lemma face_fits_app edges ext f fe :
  face_fits edges f fe → face_fits (edges ++ ext) f fe.
Proof.
  intros [Hl Hs]. split; [done|]. eapply Forall2_impl; [exact Hs|].
  intros le g. apply edge_fits_app.
Qed.

Lemma edge_found_app edges ext nodes g :
  edge_found edges nodes g → edge_found (edges ++ ext) nodes g.
Proof.
  intros (Hg & stored & Hs & Hk). split; [done|]. exists stored.
  split; [by apply lookup_app_l_Some|done].
Qed.

(** *** The edges of one cell *)

Lemma register_edge_step NN em edges row nodes em' edges' row' :
  edges_ok NN em edges →
  length nodes = 2%nat → Forall (λ v, 0 ≤ v < NN) nodes →
  register_edge (em, edges, row) nodes = (em', edges', row') →
  edges_ok NN em' edges'
  ∧ (∃ ext, edges' = edges ++ ext)
  ∧ ∃ g, row' = row ++ [g] ∧ edge_found edges' nodes g.
Proof.
  intros [Hmap Hshape] Hlen Hrange. unfold register_edge.
  destruct (em !! entity_key nodes) as [e|] eqn:Hk; intros [= <- <- <-].
  - split; [done|]. split; [exists []; by rewrite app_nil_r|].
    exists e. split; [done|]. destruct (Hmap _ _ Hk) as (He & stored & Hs & Hks).
    split; [done|]. by exists stored.
  - split; [split|split].
    + intros k e. rewrite lookup_insert. case_decide as Hd.
      * intros [= <-]. split; [lia|]. exists nodes. rewrite Nat2Z.id.
        split; [by apply list_lookup_middle|done].
      * intros (He & stored & Hs & Hks)%Hmap. split; [done|]. exists stored.
        split; [by apply lookup_app_l_Some|done].
    + apply Forall_app. split; [done|]. by repeat constructor.
    + by eexists.
    + exists (Z.of_nat (length edges)). split; [done|]. split; [lia|].
      exists nodes. rewrite Nat2Z.id. split; [by apply list_lookup_middle|done].
Qed.

Lemma register_edges_loop NN (ns : list (list Z)) em edges row em' edges' row' :
  edges_ok NN em edges →
  Forall (λ n, length n = 2%nat ∧ Forall (λ v, 0 ≤ v < NN) n) ns →
  foldl register_edge (em, edges, row) ns = (em', edges', row') →
  edges_ok NN em' edges'
  ∧ (∃ ext, edges' = edges ++ ext)
  ∧ ∃ gs, row' = row ++ gs ∧ Forall2 (edge_found edges') ns gs.
Proof.
  intros Hok Hns. revert em edges row Hok.
  induction Hns as [|n ns [Hl Hr] _ IH]; intros em edges row Hok; cbn [foldl].
  - intros [= <- <- <-]. split; [done|]. split; [exists []; by rewrite app_nil_r|].
    exists []. split; [by rewrite app_nil_r|constructor].
  - destruct (register_edge (em, edges, row) n) as [[em1 edges1] row1] eqn:H1.
    destruct (register_edge_step _ _ _ _ _ _ _ _ Hok Hl Hr H1)
      as (Hok1 & [ext1 ->] & g & -> & Hg).
    intros Hrest.
    destruct (IH _ _ _ Hok1 Hrest) as (Hok' & [ext ->] & gs & -> & Hgs).
    split; [done|]. split; [exists (ext1 ++ ext); by rewrite app_assoc|].
    exists (g :: gs). split; [by rewrite <- app_assoc|].
    constructor; [by apply edge_found_app|done].
Qed.

(** *** The faces of one cell *)

Section faces_of_a_cell.

Context (c : Z) (cn erow : list Z) (edges : list (list Z)).
Hypothesis Hvalid : valid_cell cn.
Hypothesis Hedges : Forall (λ e, length e = 2%nat) edges.
Hypothesis Herow : Forall2 (edge_found edges) (local_entries cn <$> localEdge) erow.

Lemma new_face_fits (i : nat) lf lfe :
  localFace !! i = Some lf → localFace2edge !! i = Some lfe →
  face_fits edges (local_entries cn lf) (local_entries erow lfe).
Proof.
  intros Hlf Hlfe. destruct Hvalid as [Hlen Hnd].
  pose proof (Forall2_lookup_lr _ _ _ _ _ _ local_tables_agree_holds Hlf Hlfe)
    as Hagree. cbn beta in Hagree.
  assert (length lf = 4%nat) as Hlf4.
  { assert (Forall (λ r, length r = 4%nat) localFace) as Hall
      by (by repeat constructor).
    rewrite Forall_forall in Hall. eapply Hall, list_elem_of_lookup_2, Hlf. }
  split; [unfold local_entries; by rewrite length_fmap|].
  unfold local_entries at 2. apply Forall2_fmap_r.
  eapply Forall2_impl; [exact Hagree|]. cbn beta zeta.
  intros le m (Hm & Hp0 & Hp1 & Hne & Hle0 & Hle1 & He). unfold compose.
  set (p0 := lf !!! Z.to_nat (le !!! 0%nat)) in *.
  set (p1 := lf !!! Z.to_nat (le !!! 1%nat)) in *.
  assert (∀ j, 0 ≤ j < 4 →
            local_entries cn lf !!! Z.to_nat j = cn !!! Z.to_nat (lf !!! Z.to_nat j))
    as Hloc.
  { intros j Hj. unfold local_entries.
    apply (list_lookup_total_fmap (λ k, cn !!! Z.to_nat k) lf). lia. }
  unfold edge_fits. cbn zeta. rewrite !Hloc by done. fold p0 p1.
  assert (∃ e, localEdge !! Z.to_nat m = Some e) as [e Hem]
    by (apply lookup_lt_is_Some_2; cbn; lia).
  rewrite (list_lookup_total_correct _ _ _ Hem) in He.
  assert ((local_entries cn <$> localEdge) !! Z.to_nat m
          = Some (local_entries cn e)) as Hns
    by (by rewrite list_lookup_fmap, Hem).
  destruct (Forall2_lookup_l _ _ _ _ _ Herow Hns) as (g & Hg & Hg0 & stored & Hs & Hk).
  rewrite (list_lookup_total_correct _ _ _ Hg).
  split; [done|]. split.
  { intros Heq. apply Hne.
    assert (Z.to_nat p0 = Z.to_nat p1); [|lia].
    eapply (NoDup_lookup cn); [done| |].
    - apply list_lookup_lookup_total_lt. lia.
    - rewrite Heq. apply list_lookup_lookup_total_lt. lia. }
  assert (length stored = 2%nat) as Hs2.
  { rewrite Forall_forall in Hedges. eapply Hedges, list_elem_of_lookup_2, Hs. }
  destruct stored as [|x [|y [|z stored]]]; [done..| |done].
  rewrite Hs.
  destruct He as [-> | ->]; cbn in Hk; fold p0 p1 in Hk;
    apply entity_key_pair in Hk as [Hk|Hk]; rewrite Hk; auto.
Qed.

Lemma register_face_ok st i st' :
  indexed (ft_map st) (ft_face st) (ft_face2cell st) →
  Forall2 (face_fits edges) (ft_face st) (ft_face2edge st) →
  i ∈ seqZ 0 NFC →
  register_face c cn erow st i = Ok st' →
  Forall2 (face_fits edges) (ft_face st') (ft_face2edge st')
  ∧ (length (ft_face st) ≤ length (ft_face st'))%nat
  ∧ ∃ f, ft_row st' = ft_row st ++ [f] ∧ 0 ≤ f < Z.of_nat (length (ft_face st')).
Proof.
  intros [Hlen Hidx] Hfit Hi%elem_of_seqZ. unfold register_face.
  destruct (ft_map st !! _) as [f|] eqn:Hk.
  - case_decide; [|done]. intros [= <-]. cbn. split; [done|]. split; [done|].
    exists f. split; [done|]. rewrite <- Hlen. by eapply Hidx.
  - intros [= <-]. cbn. split; [|split].
    + apply Forall2_app; [done|]. constructor; [|constructor].
      assert (∃ lf, localFace !! Z.to_nat i = Some lf) as [lf Hlf]
        by (apply lookup_lt_is_Some_2; cbn; unfold NFC in Hi; lia).
      assert (∃ lfe, localFace2edge !! Z.to_nat i = Some lfe) as [lfe Hlfe]
        by (apply lookup_lt_is_Some_2; cbn; unfold NFC in Hi; lia).
      rewrite (list_lookup_total_correct _ _ _ Hlf).
      rewrite (list_lookup_total_correct _ _ _ Hlfe).
      by eapply new_face_fits.
    + rewrite length_app. lia.
    + eexists. split; [done|]. rewrite length_app. cbn. lia.
Qed.

Lemma register_faces_ok (l : list Z) st st' :
  indexed (ft_map st) (ft_face st) (ft_face2cell st) →
  Forall2 (face_fits edges) (ft_face st) (ft_face2edge st) →
  c ≠ -1 → l ⊆ seqZ 0 NFC →
  foldM (register_face c cn erow) st l = Ok st' →
  Forall2 (face_fits edges) (ft_face st') (ft_face2edge st')
  ∧ (length (ft_face st) ≤ length (ft_face st'))%nat
  ∧ ∃ fs, ft_row st' = ft_row st ++ fs ∧ length fs = length l
          ∧ Forall (λ f, 0 ≤ f < Z.of_nat (length (ft_face st'))) fs.
Proof.
  intros Hidx Hfit Hc. revert st Hidx Hfit.
  induction l as [|i l IH]; intros st Hidx Hfit Hl; cbn.
  - intros [= <-]. split; [done|]. split; [done|]. exists [].
    split; [by rewrite app_nil_r|]. split; [done|constructor].
  - intros (st1 & Hst1 & Hrest)%bind_Ok.
    destruct (register_face_ok _ _ _ Hidx Hfit ltac:(apply Hl; left) Hst1)
      as (Hfit1 & Hle1 & f & Hrow1 & Hf).
    destruct (register_face_step _ _ _ _ _ _ Hc Hidx Hst1) as (Hidx1 & _).
    destruct (IH st1 Hidx1 Hfit1) as (Hfit' & Hle' & fs & Hrow' & Hfsl & Hfs);
      [intros j Hj; apply Hl; by right|done|].
    split; [done|]. split; [lia|]. exists (f :: fs).
    split; [by rewrite Hrow', Hrow1, <- app_assoc|]. split; [cbn; lia|].
    constructor; [lia|done].
Qed.

End faces_of_a_cell.

(** *** One cell, all cells *)

Lemma local_edges_shape NN cn :
  length cn = 8%nat → Forall (λ v, 0 ≤ v < NN) cn →
  Forall (λ n, length n = 2%nat ∧ Forall (λ v, 0 ≤ v < NN) n)
         (local_entries cn <$> localEdge).
Proof.
  intros Hlen Hr. apply Forall_fmap.
  assert (Forall (λ le, length le = 2%nat ∧ Forall (λ k, 0 ≤ k < 8) le) localEdge)
    as Hle by (repeat constructor; lia).
  eapply Forall_impl; [exact Hle|]. cbn. intros le [Hl Hk].
  unfold local_entries. rewrite length_fmap. split; [done|].
  apply Forall_fmap. eapply Forall_impl; [exact Hk|]. cbn. intros k Hk8.
  rewrite Forall_forall in Hr. apply Hr, lookup_total_elem_of. lia.
Qed.

Lemma add_cell_ok NN st c cn st' :
  topology_ok NN st → c ≠ -1 →
  valid_cell cn → Forall (λ v, 0 ≤ v < NN) cn →
  add_cell st (c, cn) = Ok st' →
  topology_ok NN st'
  ∧ length (t_cell2edge st') = S (length (t_cell2edge st))
  ∧ length (t_cell2face st') = S (length (t_cell2face st)).
Proof.
  intros (Hedges & Hidx & Hfit & Hc2e & Hc2f) Hc Hvalid Hrange Hadd.
  pose proof (add_cell_step _ _ _ _ Hc Hidx Hadd) as (Hidx' & _).
  revert Hadd Hidx'. unfold add_cell.
  destruct (foldl register_edge _ _) as [[em edges] erow] eqn:Hfold.
  destruct (register_edges_loop NN _ _ _ _ _ _ _ Hedges
              (local_edges_shape NN cn (proj1 Hvalid) Hrange) Hfold)
    as (Hedges' & [ext ->] & gs & -> & Hgs).
  clear Hfold. rewrite app_nil_l.
  intros (ft & Hft & [= <-])%bind_Ok Hidx'.
  cbn [t_edgeMap t_edge t_faceMap t_face t_face2edge t_face2cell t_cell2edge
       t_cell2face] in *.
  assert (Forall (λ e, length e = 2%nat) (t_edge st ++ ext)) as Hsh.
  { destruct Hedges' as [_ Hs]. eapply Forall_impl; [exact Hs|]. by intros e [? _]. }
  destruct (register_faces_ok c cn gs (t_edge st ++ ext) Hvalid Hsh Hgs
              (seqZ 0 NFC)
              {| ft_map := t_faceMap st; ft_face := t_face st;
                 ft_face2edge := t_face2edge st;
                 ft_face2cell := t_face2cell st; ft_row := [] |}
              ft Hidx) as (Hfit' & Hle & fs & Hrow & Hfsl & Hfs);
    [cbn; eapply Forall2_impl; [exact Hfit|]; intros; by apply face_fits_app
    |done|done|exact Hft|].
  cbn in Hrow, Hle. unfold topology_ok.
  cbn [t_edgeMap t_edge t_faceMap t_face t_face2edge t_face2cell t_cell2edge
       t_cell2face].
  split; [|by rewrite !length_app; cbn; lia].
  split; [done|]. split; [done|]. split; [done|]. split.
  - apply Forall_app. split.
    + eapply Forall_impl; [exact Hc2e|]. cbn. intros r [Hl Hr]. split; [done|].
      eapply Forall_impl; [exact Hr|]. cbn. intros g. rewrite length_app. lia.
    + constructor; [|constructor]. split.
      * rewrite <- (Forall2_length _ _ _ Hgs). by rewrite length_fmap.
      * clear -Hgs. induction Hgs as [|n g ns gs (Hg & stored & Hs & _) _ IH];
          constructor; [|done]. apply lookup_lt_Some in Hs. cbv beta. lia.
  - apply Forall_app. split.
    + eapply Forall_impl; [exact Hc2f|]. cbn. intros r [Hl Hr]. split; [done|].
      eapply Forall_impl; [exact Hr|]. cbn. intros f. lia.
    + constructor; [|constructor]. rewrite Hrow. cbn. split; [|done].
      rewrite Hfsl. done.
Qed.

Lemma add_cells_ok NN (l : list (Z * list Z)) st st' :
  topology_ok NN st →
  Forall (λ x, x.1 ≠ -1 ∧ valid_cell x.2 ∧ Forall (λ v, 0 ≤ v < NN) x.2) l →
  foldM add_cell st l = Ok st' →
  topology_ok NN st'
  ∧ length (t_cell2edge st') = (length (t_cell2edge st) + length l)%nat
  ∧ length (t_cell2face st') = (length (t_cell2face st) + length l)%nat.
Proof.
  intros Hok Hl. revert st Hok.
  induction Hl as [|[c cn] l (Hc & Hv & Hr) _ IH]; intros st Hok; cbn [foldM].
  - intros [= <-]. split; [done|]. cbn. lia.
  - intros (st1 & Hst1 & Hrest)%bind_Ok.
    destruct (add_cell_ok _ _ _ _ _ Hok Hc Hv Hr Hst1) as (Hok1 & He1 & Hf1).
    destruct (IH _ Hok1 Hrest) as (Hok' & He' & Hf').
    split; [done|]. cbn. lia.
Qed.

Lemma topology_ok_empty NN : topology_ok NN empty_topology.
Proof.
  split; [split|split; [split|] ]; cbn.
  - intros k e. by rewrite lookup_empty.
  - constructor.
  - done.
  - intros k f. by rewrite lookup_empty.
  - repeat split; constructor.
Qed.

(** The constructor returns well-formed meshes whose edges fit their faces,
    when there is a cell and every node index is one of the mesh. *)
Theorem init_well_formed (node : list (list Q)) (cell : list (list Z)) mesh :
  init node cell = Ok mesh →
  cell ≠ [] →
  Forall (Forall (λ v, 0 ≤ v < Z.of_nat (length node))) cell →
  well_formed mesh ∧ edges_fit_faces mesh.
Proof.
  unfold init. intros (d & Hd & [= <-])%bind_Ok Hne Hrange.
  revert Hd. unfold construct. case_decide as Hvalid; [|done].
  intros (t & Ht & [= <-])%bind_Ok.
  assert (Forall (λ x : Z * list Z,
                    x.1 ≠ -1 ∧ valid_cell x.2
                    ∧ Forall (λ v, 0 ≤ v < Z.of_nat (length node)) x.2)
            (zip (seqZ 0 (Z.of_nat (length cell))) cell)) as Hcells.
  { apply Forall_forall. intros [c cn] Hin. cbn.
    pose proof (elem_of_zip_l _ _ _ _ Hin) as Hc%elem_of_seqZ.
    pose proof (elem_of_zip_r _ _ _ _ Hin) as Hcn.
    rewrite Forall_forall in Hvalid, Hrange. split; [lia|]. split; auto. }
  destruct (add_cells_ok (Z.of_nat (length node)) _ _ _
              (topology_ok_empty _) Hcells Ht)
    as ((Hedges & Hidx & Hfit & Hc2e & Hc2f) & Hle & Hlf).
  rewrite length_zip, length_seqZ in Hle, Hlf. cbn in Hle, Hlf.
  assert (Forall2 (λ f fe, length f = 4%nat ∧ length fe = 4%nat
                           ∧ Forall (λ g, 0 ≤ g < Z.of_nat (length (t_edge t))) fe)
            (t_face t) (t_face2edge t)) as Hshape.
  { eapply Forall2_impl; [exact Hfit|]. intros f fe [Hf Hs]. split; [done|].
    split; [by rewrite <- (Forall2_length _ _ _ Hs)|].
    clear -Hs. induction Hs as [|le g les fe (Hg & _ & He) _ IH];
      constructor; [|done].
    destruct He as [He|He]; apply lookup_lt_Some in He; lia. }
  split.
  - unfold well_formed. cbn.
    split; [destruct cell; [done|cbn; lia]|].
    split; [split; [done|]; eapply Forall_impl; [exact Hvalid|]; by intros c [? _]|].
    split.
    { split; [done|]. clear -Hshape.
      induction Hshape as [|???? (? & _) _ IH]; constructor; done. }
    split.
    { split; [done|]. destruct Hedges as [_ Hs].
      eapply Forall_impl; [exact Hs|]. by intros e [? _]. }
    split.
    { destruct Hedges as [_ Hs]. eapply Forall_impl; [exact Hs|]. by intros e [_ ?]. }
    split.
    { split; [lia|]. eapply Forall_impl; [exact Hc2f|]. by intros r [? _]. }
    split.
    { eapply Forall_impl; [exact Hc2f|]. by intros r [_ ?]. }
    split.
    { split; [lia|]. eapply Forall_impl; [exact Hc2e|]. by intros r [? _]. }
    split.
    { split; [symmetry; by eapply Forall2_length|]. clear -Hshape.
      induction Hshape as [|???? (_ & ? & _) _ IH]; constructor; done. }
    clear -Hshape.
    induction Hshape as [|???? (_ & _ & ?) _ IH]; constructor; done.
  - unfold edges_fit_faces. cbn. eapply Forall2_impl; [exact Hfit|].
    intros f fe [Hf Hs]. split; [done|]. eapply Forall2_impl; [exact Hs|].
    intros le g (_ & Hab & He). done.
Qed.

(** ** The nodes in the table of order one *)

(** *** One turn of the loop over the faces, row by row *)

Lemma match_positions_Ok g l n :
  length g = length l →
  Forall (λ r, length r = n) g → Forall (λ r, length r = n) l →
  match_positions g l = Ok (zip_with matched g l).
Proof.
  intros Hl Hg Hln. unfold match_positions.
  rewrite (map2M_Ok_zip_with _ (λ x y, (λ k, x !!! Z.to_nat k) <$> y)).
  - f_equal. rewrite zip_with_fmap_l, !zip_with_fmap_r. reflexivity.
  - apply Forall2_fmap. apply Forall2_fmap_r.
    pose proof (Forall2_and _ _ _ _
                  (Forall2_of_Forall_l _ g l Hg Hl)
                  (Forall2_of_Forall_r _ g l Hln Hl)) as H.
    eapply Forall2_impl; [exact H|]. cbn. intros rg rl [Hrg Hrl].
    destruct (argsort_shape rg) as [Hg1 Hg2].
    destruct (argsort_shape rl) as [Hl1 Hl2].
    destruct (argsort_shape (np.argsort rl)) as [Hl3 Hl4].
    apply getitems_Ok. rewrite Hg1, Hrg, <- Hrl, <- Hl1. exact Hl4.
Qed.

Lemma swapaxes_fmap {A B} (f : A → B → list Z) (l : list A) (k : list B) :
  np.swapaxes ((λ x, f x <$> k) <$> l) (length k)
  = (λ y, (λ x, f x y) <$> l) <$> k.
Proof.
  unfold np.swapaxes.
  apply list_eq_same_length with (length k);
    [by rewrite length_fmap|by rewrite length_fmap, length_seq|].
  intros c x y Hc. rewrite !list_lookup_fmap, lookup_seq_lt by done.
  destruct (lookup_lt_is_Some_2 k c) as [b Hb]; [done|]. rewrite Hb. cbn.
  intros [= <-] [= <-]. clear Hc.
  induction l as [|a l IH]; [done|]. cbn.
  rewrite list_lookup_fmap, Hb. cbn. by rewrite IH.
Qed.

Lemma face_index_Ok (p : Z) (idx0 mi2d : list (list Z)) :
  Forall (λ r, length r = 4%nat ∧ Forall (in_range 4) r) idx0 →
  Forall (λ r, length r = 4%nat) mi2d →
  (mapM (λ mrow, mapM (np.getitems mrow) idx0) mi2d
   ≫= λ idx3,
     mapM (mapM (λ v : list Z,
                   a ← np.getitem v 0; b ← np.getitem v 1;
                   Ok (a * (p + 1) + b)))
          (np.swapaxes idx3 (length idx0)))
  = Ok (face_index p mi2d <$> idx0).
Proof.
  intros Hidx0 Hmi.
  rewrite (mapM_Ok_fmap _
    (λ mrow, (λ irow, (λ t, mrow !!! Z.to_nat t) <$> irow) <$> idx0)); cycle 1.
  { eapply Forall_impl; [exact Hmi|]. cbn. intros mrow Hml.
    apply mapM_Ok_fmap. eapply Forall_impl; [exact Hidx0|]. cbn.
    intros irow [_ Hir]. apply getitems_Ok. by rewrite Hml. }
  cbn [mbind PyResult_bind].
  rewrite (swapaxes_fmap (λ mrow irow, (λ t, mrow !!! Z.to_nat t) <$> irow)).
  rewrite (mapM_Ok_fmap _
    (fmap (λ v : list Z, v !!! 0%nat * (p + 1) + v !!! 1%nat))); cycle 1.
  { apply Forall_fmap. eapply Forall_impl; [exact Hidx0|]. cbn.
    intros irow [Hil _]. apply mapM_Ok_fmap, Forall_fmap, Forall_true.
    intros mrow. cbn.
    rewrite !getitem_Ok_total by (rewrite length_fmap; lia). done. }
  f_equal. rewrite <- list_fmap_compose.
  apply Forall_fmap_ext. eapply Forall_impl; [exact Hidx0|]. cbn.
  intros irow [Hil _]. unfold face_index. rewrite <- list_fmap_compose.
  apply list_fmap_ext. intros _ mrow _. cbn.
  rewrite !(list_lookup_total_fmap (λ t, mrow !!! Z.to_nat t)) by lia. done.
Qed.

Section cell_face_rows.

Context (p : Z) (NF NC Wc : nat).
Context (cell2face f2i dofidx : list (list Z)).
Hypothesis Hc2f : table_shape NC 6 cell2face.
Hypothesis Hc2f_in : entries_in 0 (Z.of_nat NF) cell2face.
Hypothesis Hf2i : table_shape NF (Z.to_nat ((p + 1) ^ 2)) f2i.
Hypothesis Hdofl : length dofidx = 6%nat.

(** One turn of the loop over the faces, row by row. *)
Lemma cell_face_step_rows (f2e cell2edge lf2e mi2d c2i : list (list Z)) (i : Z) :
  0 ≤ p → 0 ≤ i < 6 →
  table_shape NF 4 f2e → table_shape NC 12 cell2edge →
  table_shape 6 4 lf2e → entries_in 0 12 lf2e →
  Forall (λ r, length r = 4%nat ∧ Forall (λ x, 0 ≤ x ≤ p) r) mi2d →
  Forall (λ d, length d = length mi2d ∧ Forall (in_range Wc) d) dofidx →
  table_shape NC Wc c2i →
  ∃ out,
    cell_face_step p cell2face f2e cell2edge lf2e mi2d f2i dofidx c2i i = Ok out ∧
    table_shape NC Wc out ∧
    ∀ (n : nat) crow erow row,
      cell2face !! n = Some crow → cell2edge !! n = Some erow →
      c2i !! n = Some row →
      out !! n
      = Some (cell_face_row p f2e f2i mi2d (lf2e !!! Z.to_nat i)
                (dofidx !!! Z.to_nat i) (crow !!! Z.to_nat i) erow row).
Proof.
  intros Hp Hi Hf2e Hc2e Hlf Hlf_in Hmi Hdof [Hcl Hcw].
  unfold cell_face_step.
  destruct (column_in_range cell2face NC 6 NF i) as [-> Hcf]; [done|done|lia|].
  cbn [mbind PyResult_bind]. set (cf := _ <$> cell2face).
  assert (length cf = NC) as Hcfl
    by (unfold cf; rewrite length_fmap; by destruct Hc2f).
  destruct Hf2e as [Hfl Hfw].
  rewrite (getitems_Ok f2e cf) by by rewrite Hfl.
  cbn [mbind PyResult_bind].
  destruct (table_row_elem lf2e 6 4 i Hlf) as [Hlil Hlie]; [lia|].
  rewrite (getitem_Ok_total lf2e i) by (destruct Hlf as [-> _]; lia).
  cbn [mbind PyResult_bind].
  destruct Hc2e as [Hel Hew].
  rewrite columns_Ok_fmap; cycle 1.
  { eapply Forall_impl; [exact Hew|]. intros r ->.
    unfold entries_in in Hlf_in. rewrite Forall_forall in Hlf_in.
    exact (Hlf_in _ Hlie). }
  cbn [mbind PyResult_bind].
  set (gfe := (λ f, f2e !!! Z.to_nat f) <$> cf).
  set (lfe := (λ row : list Z, _) <$> cell2edge).
  assert (length gfe = length lfe) as Hgl
    by (unfold gfe, lfe; rewrite !length_fmap; lia).
  assert (Forall (λ r, length r = 4%nat) gfe) as Hg4.
  { unfold gfe. apply Forall_fmap. eapply Forall_impl; [exact Hcf|].
    intros f Hf. cbn. rewrite Forall_forall in Hfw.
    apply Hfw, lookup_total_elem_of. unfold in_range in Hf. lia. }
  assert (Forall (λ r, length r = 4%nat) lfe) as Hl4.
  { unfold lfe. apply Forall_fmap, Forall_true. intros r. cbn.
    by rewrite length_fmap. }
  rewrite (match_positions_Ok gfe lfe 4 Hgl Hg4 Hl4).
  cbn [mbind PyResult_bind].
  destruct (match_positions_spec gfe lfe 4 Hgl Hg4 Hl4)
    as (idx0 & Hidx0 & Hil & Hiw).
  rewrite (match_positions_Ok gfe lfe 4 Hgl Hg4 Hl4) in Hidx0.
  injection Hidx0 as <-.
  set (idx0 := zip_with matched gfe lfe) in *.
  assert (Forall (λ r, length r = 4%nat) mi2d) as Hmi4
    by (eapply Forall_impl; [exact Hmi|]; by intros r [? _]).
  pose proof (face_index_Ok p idx0 mi2d Hiw Hmi4) as Hidx.
  destruct (face_index_spec p idx0 mi2d Hp Hiw Hmi) as (idx & Hidx' & Hidl & Hidw).
  rewrite Hidx in Hidx'. injection Hidx' as <-.
  apply bind_Ok in Hidx as (idx3 & -> & Hidx). cbn [mbind PyResult_bind].
  rewrite Hidx. cbn [mbind PyResult_bind].
  set (idx := face_index p mi2d <$> idx0) in *.
  assert (length idx0 = NC) as Hi0l by (rewrite Hil; unfold gfe; by rewrite length_fmap).
  rewrite (map2M_Ok_zip_with _
             (λ f irow, (λ k, (f2i !!! Z.to_nat f) !!! Z.to_nat k) <$> irow));
    cycle 1.
  { pose proof (Forall2_and _ _ _ _
                  (Forall2_of_Forall_l _ cf idx Hcf ltac:(lia))
                  (Forall2_of_Forall_r _ cf idx Hidw ltac:(lia))) as H.
    eapply Forall2_impl; [exact H|]. cbn. intros f irow [Hf [Hirl Hir]].
    destruct Hf2i as [Hf2l Hf2w].
    rewrite getitem_Ok_total by (unfold in_range in Hf; lia).
    cbn [mbind PyResult_bind]. apply getitems_Ok.
    rewrite Forall_forall in Hf2w. rewrite (Hf2w (f2i !!! Z.to_nat f)); [done|].
    apply lookup_total_elem_of. unfold in_range in Hf. lia. }
  cbn [mbind PyResult_bind].
  rewrite getitem_Ok_total by lia. cbn [mbind PyResult_bind].
  set (di := dofidx !!! Z.to_nat i).
  assert (length di = length mi2d ∧ Forall (in_range Wc) di) as [Hdl Hdr].
  { rewrite Forall_forall in Hdof. apply Hdof, lookup_total_elem_of. lia. }
  set (vals := zip_with _ cf idx).
  assert (length vals = length c2i) as Hvl
    by (unfold vals; rewrite length_zip_with; lia).
  assert (Forall (λ v, length v = length mi2d) vals) as Hvk.
  { unfold vals. apply Forall_zip_with. intros f irow _ Hirow.
    rewrite length_fmap. rewrite Forall_forall in Hidw. by apply Hidw. }
  rewrite put_columns_Ok; cycle 1.
  { pose proof (Forall2_and _ _ _ _
                  (Forall2_of_Forall_l _ c2i vals Hcw ltac:(lia))
                  (Forall2_of_Forall_r _ c2i vals Hvk ltac:(lia))) as H.
    eapply Forall2_impl; [exact H|]. cbn. intros row v [Hr Hv].
    split; [lia|by rewrite Hr]. }
  eexists. split; [done|]. split; [split|].
  - rewrite length_zip_with. lia.
  - apply Forall_zip_with. intros row v Hrow _. rewrite length_stores.
    rewrite Forall_forall in Hcw. by apply Hcw.
  - intros n crow erow row Hcrow Herow Hrow.
    apply lookup_zip_with_Some. eexists row, _. split; [|split; [done|] ].
    2:{ unfold vals. apply lookup_zip_with_Some. eexists _, _.
        split; [done|]. split.
        - unfold cf. by rewrite list_lookup_fmap, Hcrow.
        - unfold idx, idx0. rewrite list_lookup_fmap.
          erewrite (proj2 (lookup_zip_with_Some matched gfe lfe n _)); [done|].
          eexists _, _. split; [done|]. split.
          + unfold gfe, cf. by rewrite !list_lookup_fmap, Hcrow.
          + unfold lfe. by rewrite list_lookup_fmap, Herow. }
    done.
Qed.

End cell_face_rows.

Ltac order_of a b :=
  destruct (Z.lt_total a b) as [?|[?|?] ]; [|lia|]; try lia.
Ltac order_cases a b c d :=
  order_of a b; order_of a c; order_of a d;
  order_of b c; order_of b d; order_of c d.

Lemma NoDup_4 (a b c d : Z) :
  NoDup [a; b; c; d] → a ≠ b ∧ a ≠ c ∧ a ≠ d ∧ b ≠ c ∧ b ≠ d ∧ c ≠ d.
Proof.
  intros H. repeat (apply NoDup_cons in H as [? H]). set_solver.
Qed.

Lemma matched_same a b c d :
  NoDup [a; b; c; d] → matched [a; b; c; d] [a; b; c; d] = [0; 1; 2; 3].
Proof.
  intros (? & ? & ? & ? & ? & ?)%NoDup_4.
  unfold matched, np.argsort.
  order_cases a b c d;
    repeat (progress (cbn; change (seqZ 0 (Z.of_nat 4)) with [0; 1; 2; 3];
                      repeat (case_decide; try lia)));
    reflexivity.
Qed.

Lemma matched_swap a b c d :
  NoDup [a; b; c; d] → matched [a; b; c; d] [c; b; a; d] = [2; 1; 0; 3].
Proof.
  intros (? & ? & ? & ? & ? & ?)%NoDup_4.
  unfold matched, np.argsort.
  order_cases a b c d;
    repeat (progress (cbn; change (seqZ 0 (Z.of_nat 4)) with [0; 1; 2; 3];
                      repeat (case_decide; try lia)));
    reflexivity.
Qed.

(** Without a point strictly inside, the block of own points changes
    nothing. *)
Lemma own_block_empty (a : list (list Z)) (mask : list bool) (lo n : Z) :
  0 < n → Z.of_nat (length a) = n →
  Forall (λ row, length row = length mask) a →
  np.where_ mask = [] →
  (np.reshape_rows (np.arange lo (lo + n * 0)) n
   ≫= λ own, np.put_mask_columns a mask own) = Ok a.
Proof.
  intros Hn Hln Ha Hw.
  rewrite reshape_rows_arange by lia. cbn [mbind PyResult_bind].
  replace (Z.to_nat n) with (length a) by lia.
  rewrite put_mask_columns_Ok; [|done|lia|].
  2:{ rewrite <- length_where, Hw. done. }
  f_equal. rewrite Hw.
  apply list_eq_same_length with (length a);
    [done|rewrite length_zip_with, length_fmap, length_seq; lia|].
  intros k x y Hk Hx Hy.
  apply lookup_zip_with_Some in Hx as (row & vals & -> & Hrow & _).
  unfold stores. cbn. congruence.
Qed.

(** For [p = 1] the row of a face holds the nodes of the face. *)
Lemma face_rows_order_one (mesh : HexahedronMesh) :
  well_formed mesh → edges_fit_faces mesh →
  ∃ f2i, face_to_ipoint mesh 1 = Ok f2i ∧
    table_shape (length (ds_face (ds mesh))) 4 f2i ∧
    ∀ (f : nat) fnodes, ds_face (ds mesh) !! f = Some fnodes →
      ∃ n0 n1 n2 n3, fnodes = [n0; n1; n2; n3]
                     ∧ f2i !! f = Some [n0; n3; n1; n2].
Proof.
  intros Hwf Hfit. assert (1 ≤ 1) as Hp by lia.
  destruct (face_to_ipoint_spec mesh 1 Hwf Hp)
    as (f2i & Hf2i & [Hfl Hfw] & _ & Hw).
  specialize (Hw Hfit). exists f2i. split; [done|]. split; [done|].
  intros f fnodes Hfn.
  pose proof (lookup_lt_Some _ _ _ Hfn) as Hf.
  destruct (lookup_lt_is_Some_2 f2i f) as [row Hrow]; [lia|].
  assert (length fnodes = 4%nat) as Hl4.
  { destruct Hwf as (_ & _ & [_ Hface] & _). rewrite Forall_forall in Hface.
    eapply Hface, list_elem_of_lookup_2, Hfn. }
  assert (length row = 4%nat) as Hr4.
  { rewrite Forall_forall in Hfw. eapply Hfw, list_elem_of_lookup_2, Hrow. }
  destruct fnodes as [|n0 [|n1 [|n2 [|n3 [|]]]]]; try done.
  exists n0, n1, n2, n3. split; [done|].
  assert (∀ i T, 0 ≤ i < 4 → T = 0 ∨ T = 1 →
            row !! Z.to_nat (edge_position 1 i T)
            = Some ([n0; n1; n2; n3] !!! Z.to_nat (end_vertex i T))) as Hend.
  { intros i T Hi HT.
    pose proof (oriented_ends mesh 1 Hwf Hp i f T Hfit Hf Hi HT) as Ho.
    rewrite (list_lookup_total_correct _ _ _ Hfn) in Ho.
    apply (Hw f row Hrow i (Z.to_nat T)); [lia| |exact Ho].
    apply edge_positions_lookup. split; [f_equal; lia|lia]. }
  pose proof (Hend 0 0 ltac:(lia) ltac:(lia)) as H00.
  pose proof (Hend 0 1 ltac:(lia) ltac:(lia)) as H01.
  pose proof (Hend 2 0 ltac:(lia) ltac:(lia)) as H20.
  pose proof (Hend 2 1 ltac:(lia) ltac:(lia)) as H21.
  change (Z.to_nat (edge_position 1 0 0)) with 0%nat in H00.
  change (Z.to_nat (edge_position 1 0 1)) with 2%nat in H01.
  change (Z.to_nat (edge_position 1 2 0)) with 1%nat in H20.
  change (Z.to_nat (edge_position 1 2 1)) with 3%nat in H21.
  change (Z.to_nat (end_vertex 0 0)) with 0%nat in H00.
  change (Z.to_nat (end_vertex 0 1)) with 1%nat in H01.
  change (Z.to_nat (end_vertex 2 0)) with 3%nat in H20.
  change (Z.to_nat (end_vertex 2 1)) with 2%nat in H21.
  rewrite Hrow. f_equal.
  destruct row as [|r0 [|r1 [|r2 [|r3 [|]]]]]; try done.
  cbn in H00, H01, H20, H21. congruence.
Qed.

(** For [p = 1] the row of a cell holds the nodes of the faces that the cell
    brought as its local faces 4 and 5. *)
Lemma order_one_row (mesh : HexahedronMesh) (n : nat) (i : Z) fnodes :
  well_formed mesh → edges_fit_faces mesh → i = 4 ∨ i = 5 →
  brings (ds_face (ds mesh)) (ds_face2edge (ds mesh))
    (ds_cell2face (ds mesh)) (ds_cell2edge (ds mesh)) n i fnodes →
  ∃ c2i row, cell_to_ipoint mesh 1 = Ok c2i ∧ c2i !! n = Some row
             ∧ ∀ v, v ∈ fnodes → v ∈ row.
Proof.
  intros Hwf Hfit Hi (crow & erow & f & Hcrow & Hf & Herow & Hfn & Hfe & Hnd).
  pose proof (wf_NF_pos mesh Hwf) as HNF.
  unfold cell_to_ipoint.
  destruct (face_rows_order_one mesh Hwf Hfit) as (f2i & -> & Hf2i & Hrows).
  cbn [mbind PyResult_bind].
  rewrite multi_index3_Ok by lia. cbn [mbind PyResult_bind].
  assert (cell_dofidx (cube_rows 1) 1 [2; 2; 0; 0; 1; 1]
          = Ok [ [0; 2; 4; 6]; [1; 3; 5; 7]; [0; 1; 2; 3]; [4; 5; 6; 7];
                 [0; 1; 4; 5]; [2; 3; 6; 7] ]) as -> by (vm_compute; reflexivity).
  cbn [mbind PyResult_bind].
  rewrite zeros2_Ok by (unfold number_of_cells; lia).
  cbn [mbind PyResult_bind].
  assert (np.columns cell_lf2e [3; 0; 1; 2]
          = Ok [ [3; 0; 1; 2]; [11; 8; 9; 10]; [4; 3; 7; 11]; [5; 1; 6; 9];
                 [4; 0; 5; 8]; [7; 2; 6; 10] ]) as -> by (vm_compute; reflexivity).
  cbn [mbind PyResult_bind].
  destruct Hwf as (HNC & _ & Hface & _ & _ & Hc2f & Hc2f_in & Hc2e & Hf2e & _).
  rewrite columns_Ok_fmap; cycle 1.
  { destruct Hf2e as [_ Hw]. eapply Forall_impl; [exact Hw|]. intros r ->.
    repeat constructor; unfold in_range; lia. }
  cbn [mbind PyResult_bind].
  set (mi2d := zip_with app _ _).
  assert (mi2d = [ [0; 0; 1; 1]; [0; 1; 1; 0]; [1; 0; 0; 1]; [1; 1; 0; 0] ])
    as Hmi by (vm_compute; reflexivity).
  clearbody mi2d. subst mi2d.
  set (dofidx := [ [0; 2; 4; 6]; [1; 3; 5; 7]; [0; 1; 2; 3]; [4; 5; 6; 7];
                   [0; 1; 4; 5]; [2; 3; 6; 7] ]).
  set (lf2e := [ [3; 0; 1; 2]; [11; 8; 9; 10]; [4; 3; 7; 11]; [5; 1; 6; 9];
                 [4; 0; 5; 8]; [7; 2; 6; 10] ]).
  set (mi2d := [ [0; 0; 1; 1]; [0; 1; 1; 0]; [1; 0; 0; 1]; [1; 1; 0; 0] ]).
  set (f2e := (λ row : list Z, _) <$> ds_face2edge (ds mesh)).
  set (NF := length (ds_face (ds mesh))) in *.
  set (NC := length (ds_cell (ds mesh))) in *.
  assert (table_shape NF 4 f2e) as Hf2e'.
  { destruct Hf2e as [Hl _]. split; [unfold f2e; by rewrite length_fmap|].
    apply Forall_fmap, Forall_true. intros r. done. }
  assert (table_shape 6 4 lf2e) as Hlf by (split; [done|by repeat constructor]).
  assert (entries_in 0 12 lf2e) as Hlf_in by (repeat constructor; lia).
  assert (Forall (λ r, length r = 4%nat ∧ Forall (λ x, 0 ≤ x ≤ 1) r) mi2d)
    as Hmi by (repeat constructor; lia).
  assert (Forall (λ d, length d = length mi2d ∧ Forall (in_range 8) d) dofidx)
    as Hdof by (repeat constructor; unfold in_range; lia).
  change (Z.to_nat ((1 + 1) ^ 3)) with 8%nat.
  change (Z.to_nat ((1 + 1) ^ 2)) with 4%nat in *.
  replace (Z.to_nat (number_of_cells mesh)) with NC
    by (unfold number_of_cells, NC; lia).
  change (seqZ 0 6) with ([0; 1; 2; 3] ++ [4; 5]).
  rewrite foldM_app.
  edestruct (foldM_success
    (cell_face_step 1 (ds_cell2face (ds mesh)) f2e (ds_cell2edge (ds mesh))
       lf2e mi2d f2i dofidx)
    (λ c2i, table_shape NC 8 c2i) [0; 1; 2; 3])
    as (c2i3 & -> & Hs3); cycle 2.
  { cbn [mbind PyResult_bind foldM].
    destruct (lookup_lt_is_Some_2 c2i3 n) as [row3 Hrow3].
    { destruct Hs3 as [-> _], Hc2f as [<- _]. by eapply lookup_lt_Some. }
    destruct (cell_face_step_rows 1 NF NC 8 (ds_cell2face (ds mesh)) f2i dofidx
                Hc2f Hc2f_in Hf2i eq_refl f2e (ds_cell2edge (ds mesh)) lf2e mi2d
                c2i3 4)
      as (c2i4 & -> & Hs4 & Hrow4); [lia|lia|done..|].
    cbn [mbind PyResult_bind].
    destruct (cell_face_step_rows 1 NF NC 8 (ds_cell2face (ds mesh)) f2i dofidx
                Hc2f Hc2f_in Hf2i eq_refl f2e (ds_cell2edge (ds mesh)) lf2e mi2d
                c2i4 5)
      as (c2i5 & -> & Hs5 & Hrow5); [lia|lia|done..|].
    cbn [mbind PyResult_bind].
    specialize (Hrow4 n crow erow row3 Hcrow Herow Hrow3).
    specialize (Hrow5 n crow erow _ Hcrow Herow Hrow4).
    replace (number_of_nodes mesh + number_of_edges mesh * (1 - 1)
             + number_of_faces mesh * (1 - 1) ^ 2
             + number_of_cells mesh * (1 - 1) ^ 3)
      with (number_of_nodes mesh + number_of_edges mesh * (1 - 1)
            + number_of_faces mesh * (1 - 1) ^ 2 + number_of_cells mesh * 0)
      by ring.
    rewrite own_block_empty; cycle 1.
    - unfold number_of_cells. lia.
    - destruct Hs5 as [-> _]. unfold number_of_cells, NC. done.
    - destruct Hs5 as [_ Hw]. eapply Forall_impl; [exact Hw|]. by intros r ->.
    - vm_compute. reflexivity.
    - eexists _, _. split; [done|]. split; [exact Hrow5|].
      assert (0 ≤ f < Z.of_nat NF) as Hfr.
      { unfold entries_in in Hc2f_in. rewrite Forall_forall in Hc2f_in.
        specialize (Hc2f_in _ (list_elem_of_lookup_2 _ _ _ Hcrow)).
        rewrite Forall_forall in Hc2f_in.
        apply (Hc2f_in _ (list_elem_of_lookup_2 _ _ _ Hf)). }
      destruct (Hrows _ _ Hfn) as (n0 & n1 & n2 & n3 & -> & Hfrow).
      assert (length row3 = 8%nat) as Hl3.
      { destruct Hs3 as [_ Hw]. rewrite Forall_forall in Hw.
        eapply Hw, list_elem_of_lookup_2, Hrow3. }
      assert (f2e !!! Z.to_nat f
              = (λ j, local_entries erow (localFace2edge !!! Z.to_nat i)
                        !!! Z.to_nat j) <$> [3; 0; 1; 2]) as Hge.
      { unfold f2e.
        rewrite (list_lookup_total_fmap
                   (λ row : list Z, (λ j, row !!! Z.to_nat j) <$> [3; 0; 1; 2])
                   (ds_face2edge (ds mesh)) (Z.to_nat f))
          by (destruct Hf2e as [-> _]; lia).
        by rewrite (list_lookup_total_correct _ _ _ Hfe). }
      destruct row3 as [|r0 [|r1 [|r2 [|r3 [|r4 [|r5 [|r6 [|r7 [|]]]]]]]]];
        try done.
      unfold cell_face_row.
      destruct Hi as [-> | ->].
      + rewrite (list_lookup_total_correct _ _ _ Hf), Hge.
        rewrite (list_lookup_total_correct _ _ _ Hfrow).
        change (lf2e !!! Z.to_nat 4) with [4; 0; 5; 8].
        change (dofidx !!! Z.to_nat 4) with [0; 1; 4; 5].
        change (dofidx !!! Z.to_nat 5) with [2; 3; 6; 7].
        change (localFace2edge !!! Z.to_nat 4) with [0; 5; 8; 4] in *.
        cbn [local_entries fmap list_fmap] in Hnd |- *.
        cbn [lookup_total list_lookup_total Z.to_nat Pos.to_nat
             Pos.iter_op Init.Nat.add] in Hnd |- *.
        rewrite matched_same.
        2:{ eapply NoDup_Permutation_proper; [|exact Hnd].
            change (Z.to_nat 0) with 0%nat.
            apply (Permutation_cons_append [_; _; _]). }
        intros v Hv.
        match goal with |- v ∈ stores ?r ?c ?x =>
          set (vals5 := x); set (row4 := r) end.
        assert (∀ (t : nat) c w, [0; 1; 4; 5] !! t = Some c →
                  [n0; n3; n1; n2] !! t = Some w →
                  stores row4 [2; 3; 6; 7] vals5 !! Z.to_nat c = Some w) as Hat.
        { intros t c w Hc Hw. rewrite stores_lookup_other.
          - unfold row4. eapply stores_lookup; [| |exact Hc|exact Hw].
            + repeat constructor; unfold in_range; cbn; lia.
            + refine (bool_decide_unpack _ _). vm_compute. exact I.
          - destruct t as [|[|[|[|t]]]]; cbn in Hc; simplify_eq;
              repeat constructor; lia. }
        apply elem_of_cons in Hv as [->|Hv];
          [eapply list_elem_of_lookup_2, (Hat 0%nat); reflexivity|].
        apply elem_of_cons in Hv as [->|Hv];
          [eapply list_elem_of_lookup_2, (Hat 2%nat); reflexivity|].
        apply elem_of_cons in Hv as [->|Hv];
          [eapply list_elem_of_lookup_2, (Hat 3%nat); reflexivity|].
        apply elem_of_cons in Hv as [->|Hv];
          [eapply list_elem_of_lookup_2, (Hat 1%nat); reflexivity|].
        by apply elem_of_nil in Hv.
      + rewrite (list_lookup_total_correct _ _ _ Hf), Hge.
        rewrite (list_lookup_total_correct _ _ _ Hfrow).
        change (lf2e !!! Z.to_nat 5) with [7; 2; 6; 10].
        change (dofidx !!! Z.to_nat 5) with [2; 3; 6; 7].
        change (localFace2edge !!! Z.to_nat 5) with [2; 7; 10; 6] in *.
        cbn [local_entries fmap list_fmap] in Hnd |- *.
        cbn [lookup_total list_lookup_total Z.to_nat Pos.to_nat
             Pos.iter_op Init.Nat.add] in Hnd |- *.
        rewrite matched_swap.
        2:{ eapply NoDup_Permutation_proper; [|exact Hnd].
            change (Z.to_nat 0) with 0%nat.
            apply (Permutation_cons_append [_; _; _]). }
        intros v Hv.
        match goal with |- v ∈ stores ?r ?c ?x => set (row4 := r) end.
        assert (∀ (t : nat) c w, [2; 3; 6; 7] !! t = Some c →
                  [n1; n2; n0; n3] !! t = Some w →
                  stores row4 [2; 3; 6; 7] [n1; n2; n0; n3] !! Z.to_nat c
                  = Some w) as Hat.
        { intros t c w Hc Hw. eapply stores_lookup; [| |exact Hc|exact Hw].
          - unfold row4. rewrite length_stores.
            repeat constructor; unfold in_range; cbn; lia.
          - refine (bool_decide_unpack _ _). vm_compute. exact I. }
        apply elem_of_cons in Hv as [->|Hv];
          [eapply list_elem_of_lookup_2, (Hat 2%nat); reflexivity|].
        apply elem_of_cons in Hv as [->|Hv];
          [eapply list_elem_of_lookup_2, (Hat 0%nat); reflexivity|].
        apply elem_of_cons in Hv as [->|Hv];
          [eapply list_elem_of_lookup_2, (Hat 1%nat); reflexivity|].
        apply elem_of_cons in Hv as [->|Hv];
          [eapply list_elem_of_lookup_2, (Hat 3%nat); reflexivity|].
        by apply elem_of_nil in Hv. }
  - intros c2i k Hs Hk.
    assert (0 ≤ k < 6) as Hk6
      by (rewrite !elem_of_cons, elem_of_nil in Hk; lia).
    destruct (cell_face_step_spec 1 NF NC 8 (ds_cell2face (ds mesh)) f2i dofidx
                ltac:(lia) Hc2f Hc2f_in Hf2i eq_refl f2e
                (ds_cell2edge (ds mesh)) lf2e mi2d c2i k Hk6 Hf2e' Hc2e Hlf
                Hlf_in Hmi Hdof Hs) as (out & -> & Hos & _).
    by exists out.
  - split; [by rewrite length_replicate|].
    apply Forall_replicate. by rewrite length_replicate.
Qed.

(** *** The cell that brings a node

    Faces are registered by the first cell that has them, with the nodes and
    the edges of that cell.  Every node of a cell lies on its local face 4
    or 5, the two faces that [cell_to_ipoint] writes last. *)

Lemma brings_app face f2e c2f c2e xf xe xcf xce n i fnodes :
  brings face f2e c2f c2e n i fnodes →
  brings (face ++ xf) (f2e ++ xe) (c2f ++ xcf) (c2e ++ xce) n i fnodes.
Proof.
  intros (crow & erow & f & H1 & H2 & H3 & H4 & H5 & H6).
  exists crow, erow, f. split; [by apply lookup_app_l_Some|].
  split; [done|]. split; [by apply lookup_app_l_Some|].
  split; [by apply lookup_app_l_Some|].
  split; [by apply lookup_app_l_Some|done].
Qed.

Lemma brought_app face f2e c2f c2e xf xe xcf xce v :
  brought face f2e c2f c2e v →
  brought (face ++ xf) (f2e ++ xe) (c2f ++ xcf) (c2e ++ xce) v.
Proof.
  intros (n & i & fnodes & Hi & Hb & Hv). exists n, i, fnodes.
  split; [done|]. split; [by apply brings_app|done].
Qed.

(** Equal keys: the same nodes, hence the same positions in a cell. *)
Lemma key_positions cn (l l' : list Z) :
  valid_cell cn → Forall (λ p, 0 ≤ p < 8) l → Forall (λ p, 0 ≤ p < 8) l' →
  entity_key (local_entries cn l) = entity_key (local_entries cn l') →
  Forall (λ p, p ∈ l') l.
Proof.
  intros [Hlen Hnd] Hl Hl' Hk. unfold entity_key in Hk.
  assert (local_entries cn l ≡ₚ local_entries cn l') as Hp.
  { rewrite <- (merge_sort_Permutation Z.le (local_entries cn l)), Hk.
    apply merge_sort_Permutation. }
  rewrite Forall_forall in Hl, Hl'. apply Forall_forall. intros p Hpl.
  assert (cn !!! Z.to_nat p ∈ local_entries cn l') as Hin.
  { rewrite <- Hp. unfold local_entries. apply list_elem_of_fmap. by exists p. }
  unfold local_entries in Hin. apply list_elem_of_fmap in Hin as (p' & Heq & Hp').
  specialize (Hl p Hpl). specialize (Hl' p' Hp').
  assert (Z.to_nat p = Z.to_nat p') as Hpp; [|by replace p with p' by lia].
  eapply (NoDup_lookup cn); [done| |].
  - apply list_lookup_lookup_total_lt. lia.
  - rewrite Heq. apply list_lookup_lookup_total_lt. lia.
Qed.

Lemma localFace_positions :
  Forall (Forall (λ p, 0 ≤ p < 8)) localFace.
Proof. repeat constructor; lia. Qed.

Lemma localEdge_positions :
  Forall (Forall (λ p, 0 ≤ p < 8)) localEdge.
Proof. repeat constructor; lia. Qed.

Lemma localFace_differ :
  Forall (λ j, Forall (λ j',
            Forall (λ p, p ∈ localFace !!! Z.to_nat j')
                   (localFace !!! Z.to_nat j) → j = j') (seqZ 0 6))
         (seqZ 0 6).
Proof. refine (bool_decide_unpack _ _). vm_compute. exact I. Qed.

Lemma localEdge_differ :
  Forall (λ j, Forall (λ j',
            Forall (λ p, p ∈ localEdge !!! Z.to_nat j')
                   (localEdge !!! Z.to_nat j) → j = j') (seqZ 0 12))
         (seqZ 0 12).
Proof. refine (bool_decide_unpack _ _). vm_compute. exact I. Qed.

Lemma face_key_inj cn j j' :
  valid_cell cn → 0 ≤ j < 6 → 0 ≤ j' < 6 →
  face_key cn j = face_key cn j' → j = j'.
Proof.
  intros Hv Hj Hj' Hk. unfold face_key in Hk.
  pose proof localFace_positions as Hpos. rewrite Forall_forall in Hpos.
  apply key_positions in Hk; [|done|..];
    [|apply Hpos, lookup_total_elem_of; cbn; lia..].
  pose proof localFace_differ as Hd. rewrite Forall_forall in Hd.
  specialize (Hd j ltac:(apply elem_of_seqZ; lia)).
  rewrite Forall_forall in Hd.
  apply (Hd j' ltac:(apply elem_of_seqZ; lia) Hk).
Qed.

(** The twelve edges of a valid cell differ. *)
Lemma cell_edges_differ cn erow edges :
  valid_cell cn →
  Forall2 (edge_found edges) (local_entries cn <$> localEdge) erow →
  NoDup erow.
Proof.
  intros Hv Herow. apply NoDup_alt. intros k k' g Hk Hk'.
  destruct (Forall2_lookup_r _ _ _ _ _ Herow Hk) as (ns & Hns & _ & st & Hst & Hkey).
  destruct (Forall2_lookup_r _ _ _ _ _ Herow Hk')
    as (ns' & Hns' & _ & st' & Hst' & Hkey').
  rewrite list_lookup_fmap in Hns, Hns'.
  destruct (localEdge !! k) as [le|] eqn:Hle; [|done].
  destruct (localEdge !! k') as [le'|] eqn:Hle'; [|done].
  cbn in Hns, Hns'. simplify_eq.
  pose proof (lookup_lt_Some _ _ _ Hle) as Hlt.
  pose proof (lookup_lt_Some _ _ _ Hle') as Hlt'. cbn in Hlt, Hlt'.
  pose proof localEdge_positions as Hpos. rewrite Forall_forall in Hpos.
  assert (entity_key (local_entries cn le) = entity_key (local_entries cn le'))
    as Heq by congruence.
  apply key_positions in Heq; [|done|..];
    [|eapply Hpos, list_elem_of_lookup_2; eassumption..].
  pose proof localEdge_differ as Hd. rewrite Forall_forall in Hd.
  specialize (Hd (Z.of_nat k) ltac:(apply elem_of_seqZ; lia)).
  rewrite Forall_forall in Hd.
  specialize (Hd (Z.of_nat k') ltac:(apply elem_of_seqZ; lia)).
  rewrite !Nat2Z.id in Hd.
  rewrite (list_lookup_total_correct _ _ _ Hle) in Hd.
  rewrite (list_lookup_total_correct _ _ _ Hle') in Hd.
  specialize (Hd Heq). lia.
Qed.

Section faces_brought.

Context (c : Z) (cn erow : list Z) (face0 f2e0 : list (list Z)).
Hypothesis Hvalid : valid_cell cn.

Lemma register_face_added k ft ft' :
  0 ≤ k < 6 →
  faces_added face0 f2e0 cn erow k ft →
  register_face c cn erow ft k = Ok ft' →
  faces_added face0 f2e0 cn erow (k + 1) ft'.
Proof.
  intros Hk [Hmap (new & Hface & Hnew) (newe & Hf2e) Hlen Hrl Hrow].
  unfold register_face. fold (face_key cn k).
  destruct (ft_map ft !! face_key cn k) as [f|] eqn:Hkey.
  - case_decide; [|done]. intros [= <-]. cbn.
    destruct (Hmap _ _ Hkey) as (Hf0 & fnodes & Hfn & Hfk).
    split; cbn; [done| |by exists newe|done|rewrite length_app; cbn; lia|].
    + exists new. split; [done|]. eapply Forall_impl; [exact Hnew|].
      cbn. intros x (j & Hj & ->). exists j. split; [lia|done].
    + intros j f' Hj. apply lookup_app_Some in Hj as [Hj|[Hjl Hj]];
        [by apply Hrow|].
      apply list_lookup_singleton_Some in Hj as [Hj0 <-].
      assert (Z.of_nat j = k) as Hjk by lia.
      split; [done|]. exists fnodes. split; [done|]. split; [by rewrite Hjk|].
      intros Hge. exfalso. rewrite Hface in Hfn.
      rewrite lookup_app_r in Hfn by done.
      rewrite Forall_forall in Hnew.
      destruct (Hnew _ (list_elem_of_lookup_2 _ _ _ Hfn)) as (j' & Hj' & ->).
      assert (j' = k); [|lia].
      apply (face_key_inj cn); [done|lia|lia|done].
  - intros [= <-]. cbn.
    set (nodes := local_entries cn (localFace !!! Z.to_nat k)) in *.
    split; cbn.
    + intros key f. rewrite lookup_insert. case_decide as Hd.
      * intros [= <-]. split; [lia|]. exists nodes. rewrite Nat2Z.id.
        split; [by apply list_lookup_middle|]. by destruct Hd.
      * intros (Hf0 & fnodes & Hfn & Hfk)%Hmap. split; [done|].
        exists fnodes. split; [by apply lookup_app_l_Some|done].
    + exists (new ++ [nodes]). split; [by rewrite Hface, app_assoc|].
      apply Forall_app. split.
      * eapply Forall_impl; [exact Hnew|].
        cbn. intros x (j & Hj & ->). exists j. split; [lia|done].
      * constructor; [|constructor]. exists k. split; [lia|done].
    + exists (newe ++ [local_entries erow (localFace2edge !!! Z.to_nat k)]).
      by rewrite Hf2e, app_assoc.
    + rewrite !length_app, Hlen. done.
    + rewrite length_app. cbn. lia.
    + intros j f' Hj. apply lookup_app_Some in Hj as [Hj|[Hjl Hj]].
      * destruct (Hrow _ _ Hj) as (Hf0 & fnodes & Hfn & Hfk & Hfe).
        split; [done|]. exists fnodes. split; [by apply lookup_app_l_Some|].
        split; [done|]. intros Hge. by apply lookup_app_l_Some, Hfe.
      * apply list_lookup_singleton_Some in Hj as [Hj0 <-].
        assert (j = Z.to_nat k) as -> by lia.
        split; [lia|]. exists nodes. rewrite Nat2Z.id.
        split; [by apply list_lookup_middle|].
        split; [by rewrite Z2Nat.id by lia|]. intros _.
        rewrite <- Hlen. by apply list_lookup_middle.
Qed.

Lemma register_faces_added (m : nat) k ft ft' :
  0 ≤ k → k + Z.of_nat m ≤ 6 →
  faces_added face0 f2e0 cn erow k ft →
  foldM (register_face c cn erow) ft (seqZ k (Z.of_nat m)) = Ok ft' →
  faces_added face0 f2e0 cn erow (k + Z.of_nat m) ft'.
Proof.
  revert k ft. induction m as [|m IH]; intros k ft Hk Hkm Hfa.
  - cbn. intros [= <-]. by rewrite Z.add_0_r.
  - rewrite Nat2Z.inj_succ, seqZ_cons by lia. cbn [foldM].
    intros (ft1 & Hft1 & Hrest)%bind_Ok.
    replace (Z.pred (Z.succ (Z.of_nat m))) with (Z.of_nat m) in Hrest by lia.
    replace (Z.succ k) with (k + 1) in Hrest by lia.
    replace (k + Z.succ (Z.of_nat m)) with (k + 1 + Z.of_nat m) by lia.
    apply (IH (k + 1) ft1); [lia|lia| |done].
    apply (register_face_added k ft); [lia|done|done].
Qed.

End faces_brought.

Lemma local_entries_NoDup (row pattern : list Z) :
  NoDup row → NoDup pattern →
  Forall (λ k, 0 ≤ k < Z.of_nat (length row)) pattern →
  NoDup (local_entries row pattern).
Proof.
  intros Hrow Hpat Hin. unfold local_entries.
  apply NoDup_fmap_2_strong; [|done].
  rewrite Forall_forall in Hin. intros x y Hx%Hin Hy%Hin Heq.
  assert (Z.to_nat x = Z.to_nat y); [|lia].
  eapply (NoDup_lookup row); [done| |].
  - apply list_lookup_lookup_total_lt. lia.
  - rewrite Heq. apply list_lookup_lookup_total_lt. lia.
Qed.

(** Every position of a cell lies on its local face 4 or 5. *)
Lemma position_on_face_4_or_5 (pos : nat) :
  (pos < 8)%nat →
  ∃ i, (i = 4 ∨ i = 5) ∧ Z.of_nat pos ∈ localFace !!! Z.to_nat i.
Proof.
  intros Hpos.
  do 8 (destruct pos as [|pos];
        [first [exists 4; split; [by left|]; set_solver
               |exists 5; split; [by right|]; set_solver]|]).
  lia.
Qed.

Lemma add_cell_brought NN st c cn st' :
  topology_ok NN st → nodes_brought st → c ≠ -1 →
  valid_cell cn → Forall (λ v, 0 ≤ v < NN) cn →
  add_cell st (c, cn) = Ok st' →
  nodes_brought st'
  ∧ (∀ v, brought (t_face st) (t_face2edge st) (t_cell2face st)
            (t_cell2edge st) v →
          brought (t_face st') (t_face2edge st') (t_cell2face st')
            (t_cell2edge st') v)
  ∧ ∀ v, v ∈ cn →
      brought (t_face st') (t_face2edge st') (t_cell2face st')
        (t_cell2edge st') v.
Proof.
  intros (Hedges & Hidx & Hfit & Hc2e & Hc2f) (Hmap & Hlf & Hlc & Hb) Hc
    Hvalid Hrange. unfold add_cell.
  destruct (foldl register_edge _ _) as [[em edges] erow] eqn:Hfold.
  destruct (register_edges_loop NN _ _ _ _ _ _ _ Hedges
              (local_edges_shape NN cn (proj1 Hvalid) Hrange) Hfold)
    as (Hedges' & [ext ->] & gs & -> & Hgs).
  clear Hfold. rewrite app_nil_l.
  intros (ft & Hft & [= <-])%bind_Ok.
  cbn [t_edgeMap t_edge t_faceMap t_face t_face2edge t_face2cell t_cell2edge
       t_cell2face].
  pose proof (cell_edges_differ _ _ _ Hvalid Hgs) as Hgnd.
  assert (length gs = 12%nat) as Hg12
    by (rewrite <- (Forall2_length _ _ _ Hgs); by rewrite length_fmap).
  apply (register_faces_added c cn gs (t_face st) (t_face2edge st) Hvalid
           6 0) in Hft; [|lia|lia|].
  2:{ split; cbn; [done|exists []; by rewrite app_nil_r
                  |exists []; by rewrite app_nil_r|done|done|].
      intros j f Hj. by rewrite lookup_nil in Hj. }
  destruct Hft as [Hmap' (new & Hface & Hnew) (newe & Hf2e) Hlen Hrl Hrow].
  rewrite Hface, Hf2e.
  assert (∀ v, brought (t_face st) (t_face2edge st) (t_cell2face st)
                 (t_cell2edge st) v →
               brought (t_face st ++ new) (t_face2edge st ++ newe)
                 (t_cell2face st ++ [ft_row ft]) (t_cell2edge st ++ [gs]) v)
    as Hmono by (intros v; apply brought_app).
  assert (∀ v, v ∈ cn →
               brought (t_face st ++ new) (t_face2edge st ++ newe)
                 (t_cell2face st ++ [ft_row ft]) (t_cell2edge st ++ [gs]) v)
    as Hcell.
  { intros v Hv. apply list_elem_of_lookup in Hv as [pos Hpos].
    pose proof (lookup_lt_Some _ _ _ Hpos) as Hlt.
    destruct Hvalid as [Hl8 Hnd]. rewrite Hl8 in Hlt.
    destruct (position_on_face_4_or_5 pos Hlt) as (i & Hi & Hin).
    assert (v ∈ local_entries cn (localFace !!! Z.to_nat i)) as Hvl.
    { unfold local_entries. apply list_elem_of_fmap. exists (Z.of_nat pos).
      split; [|done]. rewrite Nat2Z.id.
      by rewrite (list_lookup_total_correct _ _ _ Hpos). }
    destruct (lookup_lt_is_Some_2 (ft_row ft) (Z.to_nat i)) as [f Hf];
      [rewrite Hrl; lia|].
    destruct (Hrow _ _ Hf) as (Hf0 & fnodes & Hfn & Hfk & Hfe).
    rewrite Z2Nat.id in Hfk by lia.
    assert (v ∈ fnodes) as Hvf.
    { unfold face_key, entity_key in Hfk.
      assert (fnodes ≡ₚ local_entries cn (localFace !!! Z.to_nat i)) as ->;
        [|done].
      rewrite <- (merge_sort_Permutation Z.le fnodes), Hfk.
      apply merge_sort_Permutation. }
    rewrite Hface in Hfn. rewrite Hf2e in Hfe.
    destruct (decide (length (t_face st) ≤ Z.to_nat f)%nat) as [Hge|Hlt'].
    - exists (length (t_cell2face st)), i, fnodes. split; [done|].
      split; [|done]. exists (ft_row ft), gs, f.
      split; [by apply list_lookup_middle|]. split; [done|].
      split; [by apply list_lookup_middle|]. split; [done|].
      split; [by apply Hfe|].
      apply local_entries_NoDup; [done|..];
        destruct Hi as [-> | ->]; rewrite ?Hg12;
        (refine (bool_decide_unpack _ _); vm_compute; exact I).
    - apply Hmono, (Hb fnodes); [|done].
      rewrite lookup_app_l in Hfn by lia. by eapply list_elem_of_lookup_2. }
  split; [|split; [exact Hmono|exact Hcell] ].
  unfold nodes_brought.
  cbn [t_edgeMap t_edge t_faceMap t_face t_face2edge t_face2cell t_cell2edge
       t_cell2face].
  split; [by rewrite <- Hface|]. split; [by rewrite <- Hface, <- Hf2e|].
  split; [rewrite !length_app; cbn; lia|].
  intros fnodes v Hfn Hv. apply elem_of_app in Hfn as [Hfn|Hfn].
  - apply Hmono. by eapply Hb.
  - rewrite Forall_forall in Hnew.
    destruct (Hnew _ Hfn) as (j & Hj & ->). apply Hcell.
    unfold local_entries in Hv. apply list_elem_of_fmap in Hv as (p & -> & Hp).
    apply lookup_total_elem_of.
    pose proof localFace_positions as Hpos. rewrite Forall_forall in Hpos.
    specialize (Hpos (localFace !!! Z.to_nat j)
                  ltac:(apply lookup_total_elem_of; cbn; lia)).
    rewrite Forall_forall in Hpos. specialize (Hpos p Hp).
    destruct Hvalid as [-> _]. lia.
Qed.

Lemma add_cells_brought NN (l : list (Z * list Z)) st st' :
  topology_ok NN st → nodes_brought st →
  Forall (λ x, x.1 ≠ -1 ∧ valid_cell x.2 ∧ Forall (λ v, 0 ≤ v < NN) x.2) l →
  foldM add_cell st l = Ok st' →
  nodes_brought st'
  ∧ (∀ v, brought (t_face st) (t_face2edge st) (t_cell2face st)
            (t_cell2edge st) v →
          brought (t_face st') (t_face2edge st') (t_cell2face st')
            (t_cell2edge st') v)
  ∧ ∀ x v, x ∈ l → v ∈ x.2 →
      brought (t_face st') (t_face2edge st') (t_cell2face st')
        (t_cell2edge st') v.
Proof.
  intros Hok Hnb Hl. revert st Hok Hnb.
  induction Hl as [|[c cn] l (Hc & Hv & Hr) _ IH]; intros st Hok Hnb;
    cbn [foldM].
  - intros [= <-]. split; [done|]. split; [done|].
    by intros x v ?%elem_of_nil.
  - intros (st1 & Hst1 & Hrest)%bind_Ok.
    destruct (add_cell_ok _ _ _ _ _ Hok Hc Hv Hr Hst1) as (Hok1 & _).
    destruct (add_cell_brought _ _ _ _ _ Hok Hnb Hc Hv Hr Hst1)
      as (Hnb1 & Hmono1 & Hcell1).
    destruct (IH _ Hok1 Hnb1 Hrest) as (Hnb' & Hmono' & Hcells').
    split; [done|]. split; [by intros v ?%Hmono1%Hmono'|].
    intros x v [->|Hx]%elem_of_cons Hvx.
    + by apply Hmono', Hcell1.
    + by eapply Hcells'.
Qed.

(** Every node of a cell of a mesh from the constructor lies on a face
    that some cell brought as its local face 4 or 5. *)
Lemma init_nodes_brought (node : list (list Q)) (cell : list (list Z)) mesh :
  init node cell = Ok mesh →
  Forall (Forall (λ v, 0 ≤ v < Z.of_nat (length node))) cell →
  ∀ c v, c ∈ cell → v ∈ c →
    brought (ds_face (ds mesh)) (ds_face2edge (ds mesh))
      (ds_cell2face (ds mesh)) (ds_cell2edge (ds mesh)) v.
Proof.
  unfold init. intros (d & Hd & [= <-])%bind_Ok Hrange.
  revert Hd. unfold construct. case_decide as Hvalid; [|done].
  intros (t & Ht & [= <-])%bind_Ok. cbn [ds ds_face ds_face2edge ds_cell2face
                                          ds_cell2edge].
  assert (Forall (λ x : Z * list Z,
                    x.1 ≠ -1 ∧ valid_cell x.2
                    ∧ Forall (λ v, 0 ≤ v < Z.of_nat (length node)) x.2)
            (zip (seqZ 0 (Z.of_nat (length cell))) cell)) as Hcells.
  { apply Forall_forall. intros [c cn] Hin. cbn.
    pose proof (elem_of_zip_l _ _ _ _ Hin) as Hc%elem_of_seqZ.
    pose proof (elem_of_zip_r _ _ _ _ Hin) as Hcn.
    rewrite Forall_forall in Hvalid, Hrange. split; [lia|]. split; auto. }
  assert (nodes_brought empty_topology) as Hnb.
  { split; [intros k f; cbn; by rewrite lookup_empty|]. split; [done|].
    split; [done|]. cbn. by intros fnodes v ?%elem_of_nil. }
  destruct (add_cells_brought (Z.of_nat (length node)) _ _ _
              (topology_ok_empty _) Hnb Hcells Ht)
    as (_ & _ & Hall).
  intros c v Hc Hv.
  apply list_elem_of_lookup in Hc as [n Hn].
  apply (Hall (Z.of_nat n, c)); [|done].
  apply list_elem_of_lookup. exists n.
  apply lookup_zip_with_Some. exists (Z.of_nat n), c. split; [done|].
  split; [|done]. apply lookup_seqZ. split; [lia|].
  apply lookup_lt_Some in Hn. lia.
Qed.

(** For [p = 1] the table of a mesh from the constructor holds every node
    that a cell uses. *)
Lemma order_one_holds_the_nodes (node : list (list Q)) (cell : list (list Z))
    mesh :
  init node cell = Ok mesh →
  Forall (Forall (λ v, 0 ≤ v < Z.of_nat (length node))) cell →
  ∀ c v, c ∈ cell → v ∈ c →
    ∃ c2i r col, cell_to_ipoint mesh 1 = Ok c2i ∧ entry c2i r col = Some v.
Proof.
  intros Hinit Hrange c v Hc Hv.
  assert (cell ≠ []) as Hne by (intros ->; by apply elem_of_nil in Hc).
  destruct (init_well_formed node cell mesh Hinit Hne Hrange) as [Hwf Hfit].
  destruct (init_nodes_brought node cell mesh Hinit Hrange c v Hc Hv)
    as (n & i & fnodes & Hi & Hb & Hvf).
  destruct (order_one_row mesh n i fnodes Hwf Hfit Hi Hb)
    as (c2i & row & Hc2i & Hrow & Hin).
  apply Hin, list_elem_of_lookup in Hvf as [col Hcol].
  exists c2i, n, col. split; [done|]. unfold entry. by rewrite Hrow.
Qed.

Lemma init_number_of_nodes (nodes : list (list Q)) (cell : list (list Z)) mesh :
  init nodes cell = Ok mesh →
  number_of_nodes mesh = Z.of_nat (length (node mesh)).
Proof.
  unfold init. intros (d & Hd & [= <-])%bind_Ok.
  revert Hd. unfold construct. case_decide; [|done].
  by intros (t & _ & [= <-])%bind_Ok.
Qed.

(** On the twisted two-cell mesh, which the constructor returns for its
    nodes and cells, the largest entry of [cell_to_ipoint(1)] is the node
    11: the largest entry plus one is the number of nodes. *)
Lemma order_one_on_the_twisted_mesh :
  ∃ mesh c2i, twisted_mesh = Ok mesh ∧
    init (node mesh) (ds_cell (ds mesh)) = Ok mesh ∧
    entries_in 0 (number_of_nodes mesh) (ds_cell (ds mesh)) ∧
    (∃ c, c ∈ ds_cell (ds mesh) ∧ number_of_nodes mesh - 1 ∈ c) ∧
    number_of_global_ipoints mesh 1 = Ok 12 ∧
    cell_to_ipoint mesh 1 = Ok c2i ∧ table_max c2i + 1 = 12.
Proof.
  eexists _, _. split; [vm_compute; reflexivity|].
  split; [vm_compute; reflexivity|].
  split; [refine (bool_decide_unpack _ _); vm_compute; exact I|].
  split; [exists [11; 8; 4; 7; 10; 9; 5; 6]; split;
          refine (bool_decide_unpack _ _); vm_compute; exact I|].
  split; [vm_compute; reflexivity|]. split; [vm_compute; reflexivity|].
  vm_compute. reflexivity.
Qed.

(** Well-formed tables alone do not give this: with the table [cell2face]
    that names face 0 in all six slots, the cell uses the node 7 and the
    largest entry of [cell_to_ipoint(1)] is 3. *)
Lemma order_one_needs_the_constructor :
  ∃ mesh c2i, cube_with_one_face = Ok mesh ∧ well_formed mesh ∧
    (∃ c, c ∈ ds_cell (ds mesh) ∧ number_of_nodes mesh - 1 ∈ c) ∧
    number_of_global_ipoints mesh 1 = Ok 8 ∧
    cell_to_ipoint mesh 1 = Ok c2i ∧ table_max c2i + 1 = 4.
Proof.
  eexists _, _. split; [vm_compute; reflexivity|].
  split; [refine (bool_decide_unpack _ _); vm_compute; exact I|].
  split; [exists [0; 1; 2; 3; 4; 5; 6; 7]; split;
          refine (bool_decide_unpack _ _); vm_compute; exact I|].
  split; [vm_compute; reflexivity|]. split; [vm_compute; reflexivity|].
  vm_compute. reflexivity.
Qed.

(** ** The tiers of the global numbering *)

(** C2 fails as stated: with one cube and a ninth node that no cell uses,
    [number_of_global_ipoints(1)] is 9 while the largest index of
    [cell_to_ipoint(1)] is 7. *)
Lemma spare_node_is_counted_but_not_numbered :
  ∃ mesh tbl, cube_with_spare_node = Ok mesh ∧ well_formed mesh ∧
    number_of_global_ipoints mesh 1 = Ok 9 ∧
    cell_to_ipoint mesh 1 = Ok tbl ∧
    table_max tbl + 1 = 8.
Proof.
  eexists _, _. split; [vm_compute; reflexivity|].
  split; [refine (bool_decide_unpack _ _); vm_compute; exact I|].
  split; [vm_compute; reflexivity|]. split; [vm_compute; reflexivity|].
  vm_compute. reflexivity.
Qed.

(** C2, amended: for a well-formed mesh and [p >= 1] the four tiers start at
    [0], [NN], [NN + NE (p-1)] and [faceBase + NF (p-1)^2], in this order, and
    end at the value of [number_of_global_ipoints]; the tables of the edges
    and of the faces stay below the base of the next tier; every entry of
    [cell_to_ipoint] lies in [0, total); the own points of cell [c] are
    [cellBase + c (p-1)^3 + t]; for [p >= 2] the largest entry plus one is
    the total.  For [p = 1] the largest entry plus one is the total exactly
    when the node [NN - 1] is an entry of the table; this is the case
    whenever the mesh is what the constructor returns for its nodes and
    cells, the cells hold node indices in [0, NN), and some cell uses the
    node [NN - 1]. *)
Theorem global_ipoint_tiers (mesh : HexahedronMesh) (p : Z) :
  well_formed mesh → 1 ≤ p →
  let NN := number_of_nodes mesh in
  let NE := number_of_edges mesh in
  let NF := number_of_faces mesh in
  let NC := number_of_cells mesh in
  let edgeBase := NN in
  let faceBase := NN + NE * (p - 1) in
  let cellBase := faceBase + NF * (p - 1) ^ 2 in
  let total := cellBase + NC * (p - 1) ^ 3 in
  number_of_global_ipoints mesh p = Ok total ∧
  0 < edgeBase ∧ edgeBase ≤ faceBase ∧ faceBase ≤ cellBase ∧ cellBase ≤ total ∧
  ∃ e2i f2i c2i mi,
    edge_to_ipoint mesh p = Ok e2i ∧ entries_in 0 faceBase e2i ∧
    face_to_ipoint mesh p = Ok f2i ∧ entries_in 0 cellBase f2i ∧
    cell_to_ipoint mesh p = Ok c2i ∧ entries_in 0 total c2i ∧
    multi_index3 p = Ok mi ∧
    (∀ (c t : nat) col, (c < length (ds_cell (ds mesh)))%nat →
        np.where_ (interior_mask mi p) !! t = Some col →
        entry c2i c (Z.to_nat col)
        = Some (cellBase + Z.of_nat c * (p - 1) ^ 3 + Z.of_nat t)) ∧
    (2 ≤ p → table_max c2i + 1 = total) ∧
    (p = 1 →
     (table_max c2i + 1 = total ↔ ∃ c col, entry c2i c col = Some (NN - 1))
     ∧ (init (node mesh) (ds_cell (ds mesh)) = Ok mesh →
        entries_in 0 NN (ds_cell (ds mesh)) →
        (∃ c, c ∈ ds_cell (ds mesh) ∧ NN - 1 ∈ c) →
        table_max c2i + 1 = total)).
Proof.
  intros Hwf Hp. cbv zeta.
  pose proof (wf_NF_pos mesh Hwf) as HNF.
  pose proof (wf_NE_pos mesh Hwf) as HNE.
  pose proof (wf_NN_pos mesh Hwf) as HNN.
  assert (1 ≤ length (ds_cell (ds mesh)))%nat as HNC by (by destruct Hwf).
  assert (0 ≤ (p - 1) ^ 2) as Hsq' by lia.
  assert (0 ≤ (p - 1) ^ 3) as Hcu' by lia.
  assert (0 ≤ number_of_edges mesh * (p - 1)) as HE
    by (apply Z.mul_nonneg_nonneg; unfold number_of_edges; lia).
  assert (0 ≤ number_of_faces mesh * (p - 1) ^ 2) as HF
    by (apply Z.mul_nonneg_nonneg; unfold number_of_faces; lia).
  assert (0 ≤ number_of_cells mesh * (p - 1) ^ 3) as HC
    by (apply Z.mul_nonneg_nonneg; unfold number_of_cells; lia).
  assert (1 ≤ number_of_nodes mesh) as HN by (unfold number_of_nodes; lia).
  split; [done|]. split; [lia|]. split; [lia|]. split; [lia|]. split; [lia|].
  destruct (face_to_ipoint_spec mesh p Hwf Hp) as (f2i & Hf2i & _ & Hfin & _).
  destruct (cell_to_ipoint_spec mesh p Hwf Hp)
    as (c2i & Hc2i & [Hcl Hcw] & Hcin & Hown).
  exists (edge_rows mesh p), f2i, c2i, (cube_rows p).
  split; [apply edge_to_ipoint_Ok; by destruct Hwf as (_ & _ & _ & [_ ?] & _)|].
  split; [by apply e2i_bounds|].
  split; [done|]. split; [done|]. split; [done|]. split; [done|].
  split; [apply multi_index3_Ok; lia|]. split; [exact Hown|].
  split; cycle 1.
  { intros ->.
    replace (number_of_nodes mesh + number_of_edges mesh * (1 - 1)
             + number_of_faces mesh * (1 - 1) ^ 2
             + number_of_cells mesh * (1 - 1) ^ 3)
      with (number_of_nodes mesh) in * by ring.
    assert (table_max c2i + 1 = number_of_nodes mesh
            ↔ ∃ c col, entry c2i c col = Some (number_of_nodes mesh - 1))
      as Hiff.
    { rewrite <- (table_max_iff c2i (number_of_nodes mesh - 1)).
      - lia.
      - unfold entries_in in Hcin. eapply Forall_impl; [exact Hcin|].
        intros r Hr. eapply Forall_impl; [exact Hr|]. cbv beta. lia.
      - destruct (lookup_lt_is_Some_2 c2i 0) as [row Hrow]; [lia|].
        destruct (lookup_lt_is_Some_2 row 0) as [v Hv].
        { rewrite Forall_forall in Hcw.
          rewrite (Hcw row (list_elem_of_lookup_2 _ _ _ Hrow)). cbn. lia. }
        exists 0%nat, 0%nat, v. unfold entry. by rewrite Hrow. }
    split; [exact Hiff|]. intros Hinit Hin (c & Hc & Hv).
    assert (number_of_nodes mesh = Z.of_nat (length (node mesh))) as HNN'
      by (by apply (init_number_of_nodes (node mesh) (ds_cell (ds mesh)))).
    rewrite HNN' in Hin.
    destruct (order_one_holds_the_nodes _ _ _ Hinit Hin c _ Hc Hv)
      as (c2i' & r & col & Hc2i' & He).
    rewrite Hc2i in Hc2i'. injection Hc2i' as <-.
    apply Hiff. by exists r, col. }
  intros Hp2.
  set (total := number_of_nodes mesh + number_of_edges mesh * (p - 1)
                + number_of_faces mesh * (p - 1) ^ 2
                + number_of_cells mesh * (p - 1) ^ 3) in *.
  assert (table_max c2i = total - 1) as ->; [|ring].
  assert (1 ≤ (p - 1) ^ 3) as Hcu1.
  { replace ((p - 1) ^ 3) with ((p - 1) * ((p - 1) * (p - 1))) by lia. nia. }
  assert (1 * (p - 1) ^ 3 ≤ number_of_cells mesh * (p - 1) ^ 3) as HC1
    by (apply Z.mul_le_mono_nonneg_r; unfold number_of_cells; lia).
  apply table_max_eq.
  - unfold total. lia.
  - unfold entries_in in Hcin. eapply Forall_impl; [exact Hcin|].
    intros r Hr. eapply Forall_impl; [exact Hr|]. intros v Hv.
    cbv beta in *. unfold total in *. lia.
  - destruct (lookup_lt_is_Some_2 (np.where_ (interior_mask (cube_rows p) p))
                (Z.to_nat ((p - 1) ^ 3) - 1)) as [col Hcol].
    { rewrite length_where, count_interior3, <- to_nat_pred_cube by lia. lia. }
    exists (length (ds_cell (ds mesh)) - 1)%nat, (Z.to_nat col).
    rewrite (Hown (length (ds_cell (ds mesh)) - 1)%nat _ _ ltac:(lia) Hcol).
    f_equal.
    unfold total, number_of_cells.
    rewrite Nat2Z.inj_sub, Nat2Z.inj_sub by lia.
    rewrite Z2Nat.id by lia. change (Z.of_nat 1) with 1. ring.
Qed.

Lemma global_ipoint_tiers_witness :
  ∃ mesh, twisted_mesh = Ok mesh ∧ well_formed mesh ∧ 1 ≤ 2 ∧
    let p := 2 in
    let NN := number_of_nodes mesh in
    let NE := number_of_edges mesh in
    let NF := number_of_faces mesh in
    let NC := number_of_cells mesh in
    let edgeBase := NN in
    let faceBase := NN + NE * (p - 1) in
    let cellBase := faceBase + NF * (p - 1) ^ 2 in
    let total := cellBase + NC * (p - 1) ^ 3 in
    number_of_global_ipoints mesh p = Ok total ∧
    0 < edgeBase ∧ edgeBase ≤ faceBase ∧ faceBase ≤ cellBase ∧ cellBase ≤ total ∧
    ∃ e2i f2i c2i mi,
      edge_to_ipoint mesh p = Ok e2i ∧ entries_in 0 faceBase e2i ∧
      face_to_ipoint mesh p = Ok f2i ∧ entries_in 0 cellBase f2i ∧
      cell_to_ipoint mesh p = Ok c2i ∧ entries_in 0 total c2i ∧
      multi_index3 p = Ok mi ∧
      (∀ (c t : nat) col, (c < length (ds_cell (ds mesh)))%nat →
          np.where_ (interior_mask mi p) !! t = Some col →
          entry c2i c (Z.to_nat col)
          = Some (cellBase + Z.of_nat c * (p - 1) ^ 3 + Z.of_nat t)) ∧
      (2 ≤ p → table_max c2i + 1 = total) ∧
      (p = 1 →
       (table_max c2i + 1 = total ↔ ∃ c col, entry c2i c col = Some (NN - 1))
       ∧ (init (node mesh) (ds_cell (ds mesh)) = Ok mesh →
          entries_in 0 NN (ds_cell (ds mesh)) →
          (∃ c, c ∈ ds_cell (ds mesh) ∧ NN - 1 ∈ c) →
          table_max c2i + 1 = total)).
Proof.
  eexists. split; [vm_compute; reflexivity|].
  assert (1 ≤ 2) as Hp by lia.
  match goal with |- well_formed ?m ∧ _ =>
    assert (well_formed m) as Hwf
      by (refine (bool_decide_unpack _ _); vm_compute; exact I)
  end.
  split; [exact Hwf|]. split; [exact Hp|].
  exact (global_ipoint_tiers _ 2 Hwf Hp).
Defined.

(** * More on the tables of faces and cells *)

(** ** What the block of own points leaves alone *)

Lemma own_block_other (a : list (list Z)) (mask : list bool) (lo w n : Z) out :
  0 < n → Z.of_nat (length a) = n → 0 ≤ w →
  Forall (λ row, length row = length mask) a →
  count_true mask = Z.to_nat w →
  (np.reshape_rows (np.arange lo (lo + n * w)) n
   ≫= λ own, np.put_mask_columns a mask own) = Ok out →
  ∀ (c : nat) row row' (j : nat),
    a !! c = Some row → out !! c = Some row' →
    Z.of_nat j ∉ np.where_ mask → row' !! j = row !! j.
Proof.
  intros Hn Hln Hw Ha Hc.
  rewrite reshape_rows_arange by lia. cbn [mbind PyResult_bind].
  replace (Z.to_nat n) with (length a) by lia.
  rewrite put_mask_columns_Ok by done. intros [= <-] c row row' j Hrow Hrow' Hj.
  apply lookup_zip_with_Some in Hrow' as (row0 & vals & -> & Hrow0 & Hvals).
  simplify_eq. apply stores_lookup_other. apply Forall_forall.
  intros x Hx Heq. apply Hj.
  pose proof (where_from_bounds 0 mask) as Hb. rewrite Forall_forall in Hb.
  specialize (Hb x Hx). replace (Z.of_nat j) with x by lia. done.
Qed.

(** Two numbers [lo + f w + t] with [t < w] are equal only for equal [f] and
    [t]. *)
Lemma block_index_inj (w f t f' t' : Z) :
  0 ≤ t < w → 0 ≤ t' < w → f * w + t = f' * w + t' → f = f' ∧ t = t'.
Proof. intros Ht Ht' Heq. assert (f = f') by nia. subst. lia. Qed.

(** ** The tiers in the table of the faces *)

Section face_tiers.

Context (mesh : HexahedronMesh) (p : Z).
Hypothesis Hwf : well_formed mesh.
Hypothesis Hp : 1 ≤ p.

Local Abbreviation NN := (number_of_nodes mesh).
Local Abbreviation NE := (number_of_edges mesh).
Local Abbreviation NF := (number_of_faces mesh).
Local Abbreviation NC := (number_of_cells mesh).
Local Abbreviation face := (ds_face (ds mesh)).
Local Abbreviation cells := (ds_cell (ds mesh)).

Lemma face_to_ipoint_tiers :
  ∃ tbl, face_to_ipoint mesh p = Ok tbl ∧
    length tbl = length face ∧
    (∀ (f t : nat) col, (f < length face)%nat →
        np.where_ (interior_mask (square_rows p) p) !! t = Some col →
        entry tbl f (Z.to_nat col)
        = Some (NN + NE * (p - 1) + Z.of_nat f * (p - 1) ^ 2 + Z.of_nat t)) ∧
    (∀ (f col : nat) v, entry tbl f col = Some v →
        Z.of_nat col ∉ np.where_ (interior_mask (square_rows p) p) →
        0 ≤ v < NN + NE * (p - 1)).
Proof.
  pose proof (wf_NF_pos mesh Hwf) as HNF.
  pose proof (wf_NE_pos mesh Hwf) as HNE.
  pose proof (wf_NN_pos mesh Hwf) as HNN.
  assert (0 ≤ (p + 1) ^ 2) as Hsq by lia.
  assert (0 ≤ (p - 1) ^ 2) as Hsq' by lia.
  unfold face_to_ipoint.
  rewrite edge_to_ipoint_Ok by (by destruct Hwf as (_ & _ & _ & [_ ?] & _)).
  cbn [mbind PyResult_bind].
  rewrite multi_index2_Ok by lia. cbn [mbind PyResult_bind].
  rewrite face_dofidx_Ok by lia. cbn [mbind PyResult_bind].
  rewrite zeros2_Ok by (unfold number_of_faces; lia).
  cbn [mbind PyResult_bind].
  change 4 with (Z.of_nat 4).
  destruct (face_loop mesh p Hwf Hp 4
              (replicate (Z.to_nat NF) (replicate (Z.to_nat ((p + 1) ^ 2)) 0)))
    as (tbl4 & -> & [Hl4 Hw4] & Hb4 & _).
  { lia. }
  { split; [rewrite length_replicate; unfold number_of_faces; lia|].
    apply Forall_replicate. by rewrite length_replicate. }
  { apply Forall_replicate, Forall_replicate. unfold number_of_nodes.
    unfold number_of_edges. nia. }
  cbn [mbind PyResult_bind]. fold (square_rows p).
  assert (Forall (λ row, length row = length (interior_mask (square_rows p) p))
            tbl4) as Hrows.
  { eapply Forall_impl; [exact Hw4|]. intros row ->.
    by rewrite length_interior_mask, length_square_rows by lia. }
  assert (count_true (interior_mask (square_rows p) p) = Z.to_nat ((p - 1) ^ 2))
    as Hcount.
  { unfold square_rows. rewrite count_interior2, to_nat_pred_square by done. done. }
  destruct (own_block_spec tbl4 (interior_mask (square_rows p) p)
              (NN + NE * (p - 1)) ((p - 1) ^ 2) NF)
    as (out & Hout & [Hol _] & _ & Hown);
    [unfold number_of_faces; lia|unfold number_of_faces; lia|done|done|done|].
  assert (0 < NF) as HNF0 by (unfold number_of_faces; lia).
  assert (Z.of_nat (length tbl4) = NF) as HNF1 by (unfold number_of_faces; lia).
  pose proof (own_block_other tbl4 (interior_mask (square_rows p) p)
                (NN + NE * (p - 1)) ((p - 1) ^ 2) NF out
                HNF0 HNF1 Hsq' Hrows Hcount Hout) as Hother.
  exists out. split; [exact Hout|]. split; [lia|]. split.
  - intros f t col Hf Hcol. apply Hown; [lia|done].
  - intros f col v Hv Hcol. unfold entry in Hv.
    destruct (out !! f) as [row'|] eqn:Hrow'; [|done]. cbn in Hv.
    destruct (lookup_lt_is_Some_2 tbl4 f) as [row Hrow];
      [apply lookup_lt_Some in Hrow'; lia|].
    rewrite (Hother f row row' col Hrow Hrow' Hcol) in Hv.
    unfold entries_in in Hb4. rewrite Forall_forall in Hb4.
    specialize (Hb4 row (list_elem_of_lookup_2 _ _ _ Hrow)).
    rewrite Forall_forall in Hb4. apply Hb4.
    by eapply list_elem_of_lookup_2.
Qed.

End face_tiers.

(** Every index of the tier of the faces stands at exactly one place of the
    table of the faces: face [f] holds [faceBase + f (p-1)^2 + t] at its
    [t]-th interior position, and nothing else of that tier. *)
Theorem face_tier_indices_occur_once (mesh : HexahedronMesh) (p : Z) :
  well_formed mesh → 1 ≤ p →
  ∃ f2i mi,
    face_to_ipoint mesh p = Ok f2i ∧ multi_index2 p = Ok mi ∧
    let faceBase := number_of_nodes mesh + number_of_edges mesh * (p - 1) in
    let interior := np.where_ (interior_mask mi p) in
    (∀ (f t : nat) col, (f < length (ds_face (ds mesh)))%nat →
        interior !! t = Some col →
        entry f2i f (Z.to_nat col)
        = Some (faceBase + Z.of_nat f * (p - 1) ^ 2 + Z.of_nat t)) ∧
    (∀ (f col : nat) v, entry f2i f col = Some v → faceBase ≤ v →
        ∃ t : nat, interior !! t = Some (Z.of_nat col)
                   ∧ v = faceBase + Z.of_nat f * (p - 1) ^ 2 + Z.of_nat t) ∧
    (∀ (f col f' col' : nat) v,
        entry f2i f col = Some v → entry f2i f' col' = Some v → faceBase ≤ v →
        f = f' ∧ col = col').
Proof.
  intros Hwf Hp.
  destruct (face_to_ipoint_tiers mesh p Hwf Hp) as (f2i & Hf2i & Hlen & Hown & Hother).
  exists f2i, (square_rows p). split; [done|].
  split; [apply multi_index2_Ok; lia|]. cbv zeta.
  assert (∀ (f col : nat) v, entry f2i f col = Some v →
            number_of_nodes mesh + number_of_edges mesh * (p - 1) ≤ v →
            ∃ t : nat,
              np.where_ (interior_mask (square_rows p) p) !! t = Some (Z.of_nat col)
              ∧ v = number_of_nodes mesh + number_of_edges mesh * (p - 1)
                    + Z.of_nat f * (p - 1) ^ 2 + Z.of_nat t) as Honly.
  { intros f col v Hv Hge.
    destruct (decide (Z.of_nat col ∈ np.where_ (interior_mask (square_rows p) p)))
      as [Hin|Hout]; [|specialize (Hother f col v Hv Hout); lia].
    apply list_elem_of_lookup in Hin as [t Ht]. exists t. split; [done|].
    assert (f < length (ds_face (ds mesh)))%nat as Hf.
    { unfold entry in Hv. destruct (f2i !! f) eqn:E; [|done].
      apply lookup_lt_Some in E. lia. }
    pose proof (Hown f t _ Hf Ht) as Hv'. rewrite Nat2Z.id in Hv'. congruence. }
  split; [exact Hown|]. split; [exact Honly|].
  intros f col f' col' v Hv Hv' Hge.
  destruct (Honly f col v Hv Hge) as (t & Ht & Heq).
  destruct (Honly f' col' v Hv' Hge) as (t' & Ht' & Heq').
  assert (Z.of_nat t < (p - 1) ^ 2 ∧ Z.of_nat t' < (p - 1) ^ 2) as [Hlt Hlt'].
  { apply lookup_lt_Some in Ht, Ht'. rewrite length_where in Ht, Ht'.
    unfold square_rows in Ht, Ht'.
    rewrite count_interior2, <- to_nat_pred_square in Ht, Ht' by done. lia. }
  destruct (block_index_inj ((p - 1) ^ 2) (Z.of_nat f) (Z.of_nat t)
              (Z.of_nat f') (Z.of_nat t')) as [Hf Ht2]; [lia|lia|lia|].
  split; [lia|]. assert (t = t') as -> by lia.
  rewrite Ht in Ht'. injection Ht' as Hc. lia.
Qed.

Lemma face_tier_indices_occur_once_witness :
  ∃ mesh, twisted_mesh = Ok mesh ∧ well_formed mesh ∧ 1 ≤ 3 ∧
    ∃ f2i mi,
      face_to_ipoint mesh 3 = Ok f2i ∧ multi_index2 3 = Ok mi ∧
      let faceBase := number_of_nodes mesh + number_of_edges mesh * (3 - 1) in
      let interior := np.where_ (interior_mask mi 3) in
      (∀ (f t : nat) col, (f < length (ds_face (ds mesh)))%nat →
          interior !! t = Some col →
          entry f2i f (Z.to_nat col)
          = Some (faceBase + Z.of_nat f * (3 - 1) ^ 2 + Z.of_nat t)) ∧
      (∀ (f col : nat) v, entry f2i f col = Some v → faceBase ≤ v →
          ∃ t : nat, interior !! t = Some (Z.of_nat col)
                     ∧ v = faceBase + Z.of_nat f * (3 - 1) ^ 2 + Z.of_nat t) ∧
      (∀ (f col f' col' : nat) v,
          entry f2i f col = Some v → entry f2i f' col' = Some v → faceBase ≤ v →
          f = f' ∧ col = col').
Proof.
  eexists. split; [vm_compute; reflexivity|].
  assert (1 ≤ 3) as Hp by lia.
  match goal with |- well_formed ?m ∧ _ =>
    assert (well_formed m) as Hwf
      by (refine (bool_decide_unpack _ _); vm_compute; exact I)
  end.
  split; [exact Hwf|]. split; [exact Hp|].
  exact (face_tier_indices_occur_once _ 3 Hwf Hp).
Defined.

Lemma own_block_tiers (a : list (list Z)) (mask : list bool) (lo w n : Z) :
  0 < n → Z.of_nat (length a) = n → 0 ≤ w →
  Forall (λ row, length row = length mask) a →
  count_true mask = Z.to_nat w →
  Forall (Forall (λ v, 0 ≤ v < lo)) a →
  ∃ out,
    (np.reshape_rows (np.arange lo (lo + n * w)) n
     ≫= λ own, np.put_mask_columns a mask own) = Ok out ∧
    length out = length a ∧
    (∀ (c t : nat) col, (c < length a)%nat →
        np.where_ mask !! t = Some col →
        entry out c (Z.to_nat col) = Some (lo + Z.of_nat c * w + Z.of_nat t)) ∧
    (∀ (c col : nat) v, entry out c col = Some v →
        Z.of_nat col ∉ np.where_ mask → 0 ≤ v < lo).
Proof.
  intros Hn Hln Hw Ha Hc Hlo.
  destruct (own_block_spec a mask lo w n Hn Hln Hw Ha Hc)
    as (out & Hout & [Hol _] & _ & Hown).
  pose proof (own_block_other a mask lo w n out Hn Hln Hw Ha Hc Hout) as Hother.
  exists out. split; [done|]. split; [done|]. split; [done|].
  intros c col v Hv Hcol. unfold entry in Hv.
  destruct (out !! c) as [row'|] eqn:Hrow'; [|done]. cbn in Hv.
  destruct (lookup_lt_is_Some_2 a c) as [row Hrow];
    [apply lookup_lt_Some in Hrow'; lia|].
  rewrite (Hother c row row' col Hrow Hrow' Hcol) in Hv.
  rewrite Forall_forall in Hlo.
  specialize (Hlo row (list_elem_of_lookup_2 _ _ _ Hrow)).
  rewrite Forall_forall in Hlo. apply Hlo. by eapply list_elem_of_lookup_2.
Qed.

(** From the own entries and the bound on the others: an index of the tier
    stands at one place only. *)
Lemma tier_occurs_once (tbl : list (list Z)) (cols : list Z) (lo w : Z) :
  Z.of_nat (length cols) = w →
  (∀ (c t : nat) col, (c < length tbl)%nat → cols !! t = Some col →
      entry tbl c (Z.to_nat col) = Some (lo + Z.of_nat c * w + Z.of_nat t)) →
  (∀ (c col : nat) v, entry tbl c col = Some v → Z.of_nat col ∉ cols →
      0 ≤ v < lo) →
  (∀ (c col : nat) v, entry tbl c col = Some v → lo ≤ v →
      ∃ t : nat, cols !! t = Some (Z.of_nat col)
                 ∧ v = lo + Z.of_nat c * w + Z.of_nat t)
  ∧ (∀ (c col c' col' : nat) v,
      entry tbl c col = Some v → entry tbl c' col' = Some v → lo ≤ v →
      c = c' ∧ col = col').
Proof.
  intros Hlen Hown Hother.
  assert (∀ (c col : nat) v, entry tbl c col = Some v → lo ≤ v →
      ∃ t : nat, cols !! t = Some (Z.of_nat col)
                 ∧ v = lo + Z.of_nat c * w + Z.of_nat t) as Honly.
  { intros c col v Hv Hge.
    destruct (decide (Z.of_nat col ∈ cols))
      as [Hin|Hout]; [|specialize (Hother c col v Hv Hout); lia].
    apply list_elem_of_lookup in Hin as [t Ht]. exists t. split; [done|].
    assert (c < length tbl)%nat as Hc.
    { unfold entry in Hv. destruct (tbl !! c) eqn:E; [|done].
      by apply lookup_lt_Some in E. }
    pose proof (Hown c t _ Hc Ht) as Hv'. rewrite Nat2Z.id in Hv'. congruence. }
  split; [exact Honly|].
  intros c col c' col' v Hv Hv' Hge.
  destruct (Honly c col v Hv Hge) as (t & Ht & Heq).
  destruct (Honly c' col' v Hv' Hge) as (t' & Ht' & Heq').
  pose proof (lookup_lt_Some _ _ _ Ht). pose proof (lookup_lt_Some _ _ _ Ht').
  destruct (block_index_inj w (Z.of_nat c) (Z.of_nat t)
              (Z.of_nat c') (Z.of_nat t')) as [Hf Ht2]; [lia|lia|lia|].
  split; [lia|]. assert (t = t') as -> by lia.
  rewrite Ht in Ht'. injection Ht' as Hc. lia.
Qed.

(** ** The tiers in the table of the cells *)

Section cell_tiers.

Context (mesh : HexahedronMesh) (p : Z).
Hypothesis Hwf : well_formed mesh.
Hypothesis Hp : 1 ≤ p.

Local Abbreviation NN := (number_of_nodes mesh).
Local Abbreviation NE := (number_of_edges mesh).
Local Abbreviation NF := (number_of_faces mesh).
Local Abbreviation NC := (number_of_cells mesh).
Local Abbreviation cells := (ds_cell (ds mesh)).
Local Abbreviation cellBase := (NN + NE * (p - 1) + NF * (p - 1) ^ 2).

Lemma cell_to_ipoint_tiers :
  ∃ tbl, cell_to_ipoint mesh p = Ok tbl ∧
    length tbl = length cells ∧
    (∀ (c t : nat) col, (c < length cells)%nat →
        np.where_ (interior_mask (cube_rows p) p) !! t = Some col →
        entry tbl c (Z.to_nat col)
        = Some (cellBase + Z.of_nat c * (p - 1) ^ 3 + Z.of_nat t)) ∧
    (∀ (c col : nat) v, entry tbl c col = Some v →
        Z.of_nat col ∉ np.where_ (interior_mask (cube_rows p) p) →
        0 ≤ v < cellBase).
Proof.
  pose proof (wf_NF_pos mesh Hwf) as HNF.
  pose proof (wf_NE_pos mesh Hwf) as HNE.
  pose proof (wf_NN_pos mesh Hwf) as HNN.
  assert (0 ≤ (p + 1) ^ 2) as Hsq by lia.
  assert (0 < (p + 1) ^ 3) as Hcu by lia.
  assert (0 ≤ (p - 1) ^ 2) as Hsq' by lia.
  assert (0 ≤ (p - 1) ^ 3) as Hcu' by lia.
  assert (0 ≤ NE * (p - 1)) as HE by (unfold number_of_edges; nia).
  assert (0 ≤ NF * (p - 1) ^ 2) as HF
    by (apply Z.mul_nonneg_nonneg; unfold number_of_faces; lia).
  unfold cell_to_ipoint.
  destruct (face_to_ipoint_spec mesh p Hwf Hp) as (f2i & -> & Hf2i & Hf2i_in & _).
  cbn [mbind PyResult_bind].
  rewrite multi_index3_Ok by lia. cbn [mbind PyResult_bind].
  destruct (cell_dofidx_spec p [2; 2; 0; 0; 1; 1]) as (dofidx & -> & Hdl & Hdw);
    [lia|repeat constructor; lia|].
  cbn [mbind PyResult_bind].
  rewrite zeros2_Ok by (unfold number_of_cells; lia).
  cbn [mbind PyResult_bind].
  destruct cell_lf2e_columns as (lf2e & -> & Hlf & Hlf_in).
  cbn [mbind PyResult_bind].
  destruct Hwf as (HNC & _ & _ & _ & _ & Hc2f & Hc2f_in & Hc2e & Hf2e & _).
  rewrite columns_Ok_fmap; cycle 1.
  { destruct Hf2e as [_ Hw]. eapply Forall_impl; [exact Hw|]. intros r ->.
    repeat constructor; unfold in_range; lia. }
  cbn [mbind PyResult_bind].
  destruct (square_multi_index p) as [Hml Hmw]; [lia|]. cbn zeta in Hml, Hmw.
  set (P := λ v, 0 ≤ v < cellBase).
  edestruct (foldM_success
    (cell_face_step p (ds_cell2face (ds mesh))
       ((λ row : list Z, (λ j, row !!! Z.to_nat j) <$> [3; 0; 1; 2])
          <$> ds_face2edge (ds mesh))
       (ds_cell2edge (ds mesh)) lf2e
       (zip_with app
          (drop 1 <$> take (Z.to_nat ((p + 1) ^ 2)) (cube_rows p))
          (fmap (λ x, p - x) <$>
             (drop 1 <$> take (Z.to_nat ((p + 1) ^ 2)) (cube_rows p))))
       f2i dofidx)
    (λ c2i, table_shape (length cells) (Z.to_nat ((p + 1) ^ 3)) c2i
            ∧ Forall (Forall P) c2i))
    as (c2i & -> & [Hcl Hcw] & HcP); cycle 2.
  { cbn [mbind PyResult_bind].
    destruct (own_block_tiers c2i (interior_mask (cube_rows p) p)
                cellBase ((p - 1) ^ 3) NC)
      as (out & -> & Hol & Hown & Hother).
    - unfold number_of_cells. lia.
    - unfold number_of_cells. lia.
    - done.
    - rewrite length_interior_mask, length_cube_rows by lia. done.
    - rewrite count_interior3, to_nat_pred_cube by done. done.
    - exact HcP.
    - exists out. split; [done|]. split; [lia|]. rewrite Hcl in Hown.
      split; [exact Hown|exact Hother]. }
  - intros c2i i [Hs HP] Hi%elem_of_seqZ.
    destruct (cell_face_step_spec p (length (ds_face (ds mesh))) (length cells)
                (Z.to_nat ((p + 1) ^ 3)) (ds_cell2face (ds mesh)) f2i dofidx)
      with (f2e := (λ row : list Z, (λ j, row !!! Z.to_nat j) <$> [3; 0; 1; 2])
                     <$> ds_face2edge (ds mesh))
           (cell2edge := ds_cell2edge (ds mesh)) (lf2e := lf2e)
           (mi2d := zip_with app
                      (drop 1 <$> take (Z.to_nat ((p + 1) ^ 2)) (cube_rows p))
                      (fmap (λ x, p - x) <$>
                         (drop 1 <$> take (Z.to_nat ((p + 1) ^ 2)) (cube_rows p))))
           (c2i := c2i) (i := i)
      as (out & -> & Hos & HoP);
      [lia|done|done|done|done|lia| |done|done|done|done| |done|].
    + destruct Hf2e as [Hl _]. split; [by rewrite length_fmap|].
      apply Forall_fmap, Forall_true. intros r. done.
    + rewrite Hml. exact Hdw.
    + exists out. split; [done|]. split; [done|]. apply HoP; [|done].
      exact Hf2i_in.
  - split.
    + split; [rewrite length_replicate; unfold number_of_cells; lia|].
      apply Forall_replicate. by rewrite length_replicate.
    + apply Forall_replicate, Forall_replicate. unfold P.
      unfold number_of_nodes. lia.
Qed.

Lemma cell_to_ipoint0_tiers :
  ∃ tbl, cell_to_ipoint0 mesh p = Ok tbl ∧
    length tbl = length cells ∧
    (∀ (c t : nat) col, (c < length cells)%nat →
        np.where_ (interior_mask (cube_rows p) p) !! t = Some col →
        entry tbl c (Z.to_nat col)
        = Some (cellBase + Z.of_nat c * (p - 1) ^ 3 + Z.of_nat t)) ∧
    (∀ (c col : nat) v, entry tbl c col = Some v →
        Z.of_nat col ∉ np.where_ (interior_mask (cube_rows p) p) →
        0 ≤ v < cellBase).
Proof.
  pose proof (wf_NF_pos mesh Hwf) as HNF.
  pose proof (wf_NE_pos mesh Hwf) as HNE.
  pose proof (wf_NN_pos mesh Hwf) as HNN.
  assert (0 ≤ (p + 1) ^ 2) as Hsq by lia.
  assert (0 < (p + 1) ^ 3) as Hcu by lia.
  assert (0 ≤ (p - 1) ^ 2) as Hsq' by lia.
  assert (0 ≤ (p - 1) ^ 3) as Hcu' by lia.
  assert (0 ≤ NE * (p - 1)) as HE by (unfold number_of_edges; nia).
  assert (0 ≤ NF * (p - 1) ^ 2) as HF
    by (apply Z.mul_nonneg_nonneg; unfold number_of_faces; lia).
  unfold cell_to_ipoint0.
  destruct (face_to_ipoint_spec mesh p Hwf Hp) as (f2i & -> & Hf2i & Hf2i_in & _).
  cbn [mbind PyResult_bind].
  rewrite multi_index3_Ok by lia. cbn [mbind PyResult_bind].
  destruct (cell_dofidx_spec p [2; 2; 1; 1; 0; 0]) as (dofidx & -> & Hdl & Hdw);
    [lia|repeat constructor; lia|].
  cbn [mbind PyResult_bind].
  rewrite zeros2_Ok by (unfold number_of_cells; lia).
  cbn [mbind PyResult_bind].
  destruct (multi_index0_spec p) as (mi0 & -> & Hml & Hmw); [lia|].
  cbn [mbind PyResult_bind].
  destruct Hwf as (HNC & Hcell & Hface & _ & _ & Hc2f & Hc2f_in & _).
  set (P := λ v, 0 ≤ v < cellBase).
  edestruct (foldM_success
    (cell_face_step0 p (ds_cell2face (ds mesh)) (ds_face (ds mesh)) cells
       mi0 f2i dofidx)
    (λ c2i, table_shape (length cells) (Z.to_nat ((p + 1) ^ 3)) c2i
            ∧ Forall (Forall P) c2i))
    as (c2i & -> & [Hcl Hcw] & HcP); cycle 2.
  { cbn [mbind PyResult_bind].
    destruct (own_block_tiers c2i (interior_mask (cube_rows p) p)
                cellBase ((p - 1) ^ 3) NC)
      as (out & -> & Hol & Hown & Hother).
    - unfold number_of_cells. lia.
    - unfold number_of_cells. lia.
    - done.
    - rewrite length_interior_mask, length_cube_rows by lia. done.
    - rewrite count_interior3, to_nat_pred_cube by done. done.
    - exact HcP.
    - exists out. split; [done|]. split; [lia|]. rewrite Hcl in Hown.
      split; [exact Hown|exact Hother]. }
  - intros c2i i [Hs HP] Hi%elem_of_seqZ.
    destruct (cell_face_step0_spec p (length (ds_face (ds mesh))) (length cells)
                (Z.to_nat ((p + 1) ^ 3)) (ds_cell2face (ds mesh)) f2i dofidx)
      with (face := ds_face (ds mesh)) (cell := cells) (mi0 := mi0)
           (c2i := c2i) (i := i)
      as (out & -> & Hos & HoP);
      [lia|done|done|done|done|lia|done|done|done| |done|].
    + rewrite Hml. exact Hdw.
    + exists out. split; [done|]. split; [done|]. apply HoP; [|done].
      exact Hf2i_in.
  - split.
    + split; [rewrite length_replicate; unfold number_of_cells; lia|].
      apply Forall_replicate. by rewrite length_replicate.
    + apply Forall_replicate, Forall_replicate. unfold P.
      unfold number_of_nodes. lia.
Qed.

End cell_tiers.

(** The tier of the cells in both versions of the numbering: row [c] holds
    [cellBase + c (p-1)^3 + t] at its [t]-th interior position; an entry
    [v >= cellBase] of row [c] stands at an interior position, the [t]-th
    one, and is that number; and no such index stands at two places. *)
Theorem cell_tier_indices_occur_once (mesh : HexahedronMesh) (p : Z) :
  well_formed mesh → 1 ≤ p →
  ∃ c2i c2i0 mi,
    cell_to_ipoint mesh p = Ok c2i ∧ cell_to_ipoint0 mesh p = Ok c2i0 ∧
    multi_index3 p = Ok mi ∧
    let cellBase := number_of_nodes mesh + number_of_edges mesh * (p - 1)
                    + number_of_faces mesh * (p - 1) ^ 2 in
    let interior := np.where_ (interior_mask mi p) in
    ∀ tbl, tbl = c2i ∨ tbl = c2i0 →
      (∀ (c t : nat) col, (c < length (ds_cell (ds mesh)))%nat →
          interior !! t = Some col →
          entry tbl c (Z.to_nat col)
          = Some (cellBase + Z.of_nat c * (p - 1) ^ 3 + Z.of_nat t)) ∧
      (∀ (c col : nat) v, entry tbl c col = Some v → cellBase ≤ v →
          ∃ t : nat, interior !! t = Some (Z.of_nat col)
                     ∧ v = cellBase + Z.of_nat c * (p - 1) ^ 3 + Z.of_nat t) ∧
      (∀ (c col c' col' : nat) v,
          entry tbl c col = Some v → entry tbl c' col' = Some v → cellBase ≤ v →
          c = c' ∧ col = col').
Proof.
  intros Hwf Hp.
  destruct (cell_to_ipoint_tiers mesh p Hwf Hp) as (c2i & Hc & Hl & Hown & Hoth).
  destruct (cell_to_ipoint0_tiers mesh p Hwf Hp)
    as (c2i0 & Hc0 & Hl0 & Hown0 & Hoth0).
  exists c2i, c2i0, (cube_rows p). split; [done|]. split; [done|].
  split; [apply multi_index3_Ok; lia|]. cbv zeta.
  assert (Z.of_nat (length (np.where_ (interior_mask (cube_rows p) p)))
          = (p - 1) ^ 3) as Hw.
  { rewrite length_where, count_interior3, <- to_nat_pred_cube by done. lia. }
  intros tbl [-> | ->].
  - split; [exact Hown|].
    apply (tier_occurs_once c2i _ _ _ Hw); [|exact Hoth].
    intros c t col Hlt. apply Hown. lia.
  - split; [exact Hown0|].
    apply (tier_occurs_once c2i0 _ _ _ Hw); [|exact Hoth0].
    intros c t col Hlt. apply Hown0. lia.
Qed.

Lemma cell_tier_indices_occur_once_witness :
  ∃ mesh, twisted_mesh = Ok mesh ∧ well_formed mesh ∧ 1 ≤ 3 ∧
    ∃ c2i c2i0 mi,
      cell_to_ipoint mesh 3 = Ok c2i ∧ cell_to_ipoint0 mesh 3 = Ok c2i0 ∧
      multi_index3 3 = Ok mi ∧
      let cellBase := number_of_nodes mesh + number_of_edges mesh * (3 - 1)
                      + number_of_faces mesh * (3 - 1) ^ 2 in
      let interior := np.where_ (interior_mask mi 3) in
      ∀ tbl, tbl = c2i ∨ tbl = c2i0 →
        (∀ (c t : nat) col, (c < length (ds_cell (ds mesh)))%nat →
            interior !! t = Some col →
            entry tbl c (Z.to_nat col)
            = Some (cellBase + Z.of_nat c * (3 - 1) ^ 3 + Z.of_nat t)) ∧
        (∀ (c col : nat) v, entry tbl c col = Some v → cellBase ≤ v →
            ∃ t : nat, interior !! t = Some (Z.of_nat col)
                       ∧ v = cellBase + Z.of_nat c * (3 - 1) ^ 3 + Z.of_nat t) ∧
        (∀ (c col c' col' : nat) v,
            entry tbl c col = Some v → entry tbl c' col' = Some v →
            cellBase ≤ v → c = c' ∧ col = col').
Proof.
  eexists. split; [vm_compute; reflexivity|].
  assert (1 ≤ 3) as Hp by lia.
  match goal with |- well_formed ?m ∧ _ =>
    assert (well_formed m) as Hwf
      by (refine (bool_decide_unpack _ _); vm_compute; exact I)
  end.
  split; [exact Hwf|]. split; [exact Hp|].
  exact (cell_tier_indices_occur_once _ 3 Hwf Hp).
Defined.

(** ** The corners of the faces *)

(** In the row of a face the four corner positions [0], [p], [p (p+1)] and
    [(p+1)^2 - 1] hold the nodes 0, 3, 1 and 2 of the face. *)
Theorem face_to_ipoint_corners (mesh : HexahedronMesh) (p : Z) :
  well_formed mesh → edges_fit_faces mesh → 1 ≤ p →
  ∃ f2i, face_to_ipoint mesh p = Ok f2i ∧
    ∀ (f : nat) fnodes, ds_face (ds mesh) !! f = Some fnodes →
      ∃ row n0 n1 n2 n3,
        f2i !! f = Some row ∧ fnodes = [n0; n1; n2; n3] ∧
        row !! 0%nat = Some n0 ∧
        row !! Z.to_nat p = Some n3 ∧
        row !! Z.to_nat (p * (p + 1)) = Some n1 ∧
        row !! Z.to_nat ((p + 1) ^ 2 - 1) = Some n2.
Proof.
  intros Hwf Hfit Hp.
  destruct (face_to_ipoint_spec mesh p Hwf Hp) as (f2i & Hf2i & [Hfl _] & _ & Hw).
  specialize (Hw Hfit). exists f2i. split; [done|].
  intros f fnodes Hfn.
  pose proof (lookup_lt_Some _ _ _ Hfn) as Hf.
  destruct (lookup_lt_is_Some_2 f2i f) as [row Hrow]; [lia|].
  assert (length fnodes = 4%nat) as Hl4.
  { destruct Hwf as (_ & _ & [_ Hface] & _). rewrite Forall_forall in Hface.
    eapply Hface, list_elem_of_lookup_2, Hfn. }
  destruct fnodes as [|n0 [|n1 [|n2 [|n3 [|]]]]]; try done.
  exists row, n0, n1, n2, n3. split; [done|]. split; [done|].
  assert (∀ i T, 0 ≤ i < 4 → T = 0 ∨ T = p →
            row !! Z.to_nat (edge_position p i T)
            = Some ([n0; n1; n2; n3] !!! Z.to_nat (end_vertex i T))) as Hend.
  { intros i T Hi HT.
    pose proof (oriented_ends mesh p Hwf Hp i f T Hfit Hf Hi HT) as Ho.
    rewrite (list_lookup_total_correct _ _ _ Hfn) in Ho.
    apply (Hw f row Hrow i (Z.to_nat T)); [lia| |exact Ho].
    apply edge_positions_lookup. split; [f_equal; lia|lia]. }
  destruct (edge_position_eqs p 0) as (E00 & _ & E20 & _).
  destruct (edge_position_eqs p p) as (E0p & _ & E2p & _).
  pose proof (Hend 0 0 ltac:(lia) ltac:(lia)) as H00.
  pose proof (Hend 0 p ltac:(lia) ltac:(lia)) as H0p.
  pose proof (Hend 2 0 ltac:(lia) ltac:(lia)) as H20.
  pose proof (Hend 2 p ltac:(lia) ltac:(lia)) as H2p.
  rewrite E00 in H00. rewrite E0p in H0p. rewrite E20 in H20. rewrite E2p in H2p.
  unfold end_vertex in H00, H0p, H20, H2p.
  rewrite decide_True in H00, H20 by done.
  rewrite decide_False in H0p, H2p by lia.
  cbn in H00, H20. cbn [lookup_total list_lookup_total] in H0p, H2p.
  split; [exact H00|]. split.
  { replace (0 * (p + 1) + p) with p in H20 by lia. exact H20. }
  split; [exact H0p|].
  replace ((p + 1) ^ 2 - 1) with (p * (p + 1) + p) by lia. exact H2p.
Qed.

Lemma face_to_ipoint_corners_witness :
  ∃ mesh, twisted_mesh = Ok mesh ∧
    well_formed mesh ∧ edges_fit_faces mesh ∧ 1 ≤ 2 ∧
    ∃ f2i, face_to_ipoint mesh 2 = Ok f2i ∧
      ∀ (f : nat) fnodes, ds_face (ds mesh) !! f = Some fnodes →
        ∃ row n0 n1 n2 n3,
          f2i !! f = Some row ∧ fnodes = [n0; n1; n2; n3] ∧
          row !! 0%nat = Some n0 ∧
          row !! Z.to_nat 2 = Some n3 ∧
          row !! Z.to_nat (2 * (2 + 1)) = Some n1 ∧
          row !! Z.to_nat ((2 + 1) ^ 2 - 1) = Some n2.
Proof.
  eexists. split; [vm_compute; reflexivity|].
  assert (1 ≤ 2) as Hp by lia.
  match goal with |- well_formed ?m ∧ _ =>
    assert (well_formed m) as Hwf
      by (refine (bool_decide_unpack _ _); vm_compute; exact I);
    assert (edges_fit_faces m) as Hfit
      by (refine (bool_decide_unpack _ _); vm_compute; exact I)
  end.
  split; [exact Hwf|]. split; [exact Hfit|]. split; [exact Hp|].
  exact (face_to_ipoint_corners _ 2 Hwf Hfit Hp).
Defined.

(** ** The number of local points and the width of the tables *)

(** [number_of_local_ipoints] gives the number of columns of the tables:
    [face_to_ipoint] has one row per face with the number of points of a
    face, [cell_to_ipoint] and [cell_to_ipoint0] one row per cell with the
    number of points of a cell. *)
Theorem tables_have_local_width (mesh : HexahedronMesh) (p : Z) :
  well_formed mesh → 1 ≤ p →
  ∃ f2i c2i c2i0,
    face_to_ipoint mesh p = Ok f2i ∧
    cell_to_ipoint mesh p = Ok c2i ∧ cell_to_ipoint0 mesh p = Ok c2i0 ∧
    Z.of_nat (length f2i) = number_of_faces mesh ∧
    Z.of_nat (length c2i) = number_of_cells mesh ∧
    Z.of_nat (length c2i0) = number_of_cells mesh ∧
    Forall (λ r, Z.of_nat (length r) = number_of_local_ipoints p ip_face) f2i ∧
    Forall (λ r, Z.of_nat (length r) = number_of_local_ipoints p ip_cell) c2i ∧
    Forall (λ r, Z.of_nat (length r) = number_of_local_ipoints p ip_cell) c2i0.
Proof.
  intros Hwf Hp.
  destruct (face_to_ipoint_spec mesh p Hwf Hp) as (f2i & Hf & [Hfl Hfw] & _).
  destruct (cell_to_ipoint_spec mesh p Hwf Hp) as (c2i & Hc & [Hcl Hcw] & _).
  destruct (cell_to_ipoint0_spec mesh p Hwf Hp) as (c2i0 & Hc0 & [Hcl0 Hcw0] & _).
  exists f2i, c2i, c2i0. split; [done|]. split; [done|]. split; [done|].
  unfold number_of_faces, number_of_cells, number_of_local_ipoints.
  split; [lia|]. split; [lia|]. split; [lia|].
  split; [|split]; (eapply Forall_impl; [eassumption|]); intros r ->; lia.
Qed.

Lemma tables_have_local_width_witness :
  ∃ mesh, twisted_mesh = Ok mesh ∧ well_formed mesh ∧ 1 ≤ 2 ∧
    ∃ f2i c2i c2i0,
      face_to_ipoint mesh 2 = Ok f2i ∧
      cell_to_ipoint mesh 2 = Ok c2i ∧ cell_to_ipoint0 mesh 2 = Ok c2i0 ∧
      Z.of_nat (length f2i) = number_of_faces mesh ∧
      Z.of_nat (length c2i) = number_of_cells mesh ∧
      Z.of_nat (length c2i0) = number_of_cells mesh ∧
      Forall (λ r, Z.of_nat (length r) = number_of_local_ipoints 2 ip_face) f2i ∧
      Forall (λ r, Z.of_nat (length r) = number_of_local_ipoints 2 ip_cell) c2i ∧
      Forall (λ r, Z.of_nat (length r) = number_of_local_ipoints 2 ip_cell) c2i0.
Proof.
  eexists. split; [vm_compute; reflexivity|].
  assert (1 ≤ 2) as Hp by lia.
  match goal with |- well_formed ?m ∧ _ =>
    assert (well_formed m) as Hwf
      by (refine (bool_decide_unpack _ _); vm_compute; exact I)
  end.
  split; [exact Hwf|]. split; [exact Hp|].
  exact (tables_have_local_width _ 2 Hwf Hp).
Defined.

(** * Meshes of a box *)

(** ** Lists over three axes *)

Lemma length_bind_const {A B} (l : list A) (f : A → list B) n :
  (∀ x, x ∈ l → length (f x) = n) → length (l ≫= f) = (length l * n)%nat.
Proof.
  induction l as [|x l IH]; intros Hf; [done|].
  rewrite bind_cons, length_app, IH, Hf; [cbn; lia|left|].
  intros y Hy. apply Hf. by right.
Qed.

Lemma length_bind_singleton {A B} (l : list A) (f : A → B) :
  length (l ≫= λ x, [f x]) = length l.
Proof. rewrite (length_bind_const _ _ 1); [lia|done]. Qed.

Lemma length_bind_bind_singleton {A B C} (l : list A) (k : list B)
    (f : A → B → C) :
  length (l ≫= λ x, k ≫= λ y, [f x y]) = (length l * length k)%nat.
Proof.
  apply length_bind_const. intros x _. apply length_bind_singleton.
Qed.

Lemma length_grid3 {A B C D} (xs : list A) (ys : list B) (zs : list C)
    (g : A → B → C → D) :
  length (grid3 xs ys zs g) = (length xs * (length ys * length zs))%nat.
Proof.
  unfold grid3. apply length_bind_const. intros x _.
  apply length_bind_const. intros y _.
  rewrite (length_bind_const _ _ 1); [lia|done].
Qed.

Lemma zip_with_bind {A B C D} (f : B → C → D) (l : list A)
    (g : A → list B) (h : A → list C) :
  (∀ x, x ∈ l → length (g x) = length (h x)) →
  zip_with f (l ≫= g) (l ≫= h) = l ≫= λ x, zip_with f (g x) (h x).
Proof.
  induction l as [|x l IH]; intros Hl; [done|].
  rewrite !bind_cons, zip_with_app by (apply Hl; left).
  rewrite IH; [done|]. intros y Hy. apply Hl. by right.
Qed.

Lemma zip_with_grid3 {A B C D E F} (f : D → E → F) (xs : list A)
    (ys : list B) (zs : list C) (g : A → B → C → D) (h : A → B → C → E) :
  zip_with f (grid3 xs ys zs g) (grid3 xs ys zs h)
  = grid3 xs ys zs (λ x y z, f (g x y z) (h x y z)).
Proof.
  unfold grid3. rewrite zip_with_bind; cycle 1.
  { intros x _. by rewrite !length_bind_bind_singleton. }
  apply list_bind_ext; [|done]. intros x.
  rewrite zip_with_bind; cycle 1.
  { intros y _. by rewrite !length_bind_singleton. }
  apply list_bind_ext; [|done]. intros y.
  rewrite zip_with_bind by done. done.
Qed.

Lemma fmap_list_bind {A B C} (f : B → C) (g : A → list B) (l : list A) :
  f <$> (l ≫= g) = l ≫= λ x, f <$> g x.
Proof.
  induction l as [|x l IH]; [done|]. by rewrite !bind_cons, fmap_app, IH.
Qed.

Lemma fmap_grid3 {A B C D E} (f : D → E) (xs : list A) (ys : list B)
    (zs : list C) (g : A → B → C → D) :
  f <$> grid3 xs ys zs g = grid3 xs ys zs (λ x y z, f (g x y z)).
Proof.
  unfold grid3. rewrite fmap_list_bind.
  apply list_bind_ext; [|done]. intros x. rewrite fmap_list_bind.
  apply list_bind_ext; [|done]. intros y. rewrite fmap_list_bind. done.
Qed.

Lemma list_join_cons {A} (x : list A) (l : list (list A)) :
  mjoin (x :: l) = x ++ mjoin l.
Proof. done. Qed.

Lemma replicate_bind {A B} (l : list A) (c : list B) :
  mjoin (replicate (length l) c) = l ≫= λ _, c.
Proof.
  induction l as [|x l IH]; [done|]. cbn [length replicate].
  by rewrite list_join_cons, bind_cons, IH.
Qed.

Lemma replicate_bind_singleton {A B} (l : list A) (c : B) :
  replicate (length l) c = l ≫= λ _, [c].
Proof.
  induction l as [|x l IH]; [done|]. cbn [length replicate].
  by rewrite bind_cons, IH.
Qed.

Lemma replicate_grid3 {A B C D} (xs : list A) (ys : list B) (zs : list C)
    (c : D) n :
  n = (length xs * (length ys * length zs))%nat →
  replicate n c = grid3 xs ys zs (λ _ _ _, c).
Proof.
  intros ->. unfold grid3. induction xs as [|x xs IH]; [done|].
  rewrite bind_cons, <- IH. cbn [length Nat.mul].
  rewrite replicate_add. f_equal. clear IH.
  induction ys as [|y ys IH]; [done|].
  rewrite bind_cons, <- IH. cbn [length Nat.mul].
  rewrite replicate_add. f_equal. apply replicate_bind_singleton.
Qed.

Lemma join_fmap_bind {A B} (f : A → list B) (l : list A) :
  mjoin (f <$> l) = l ≫= f.
Proof.
  induction l as [|x l IH]; [done|]. by rewrite fmap_cons, list_join_cons, bind_cons, IH.
Qed.

Lemma bind_singleton_id {A} (l : list A) : l = l ≫= λ x, [x].
Proof.
  induction l as [|x l IH]; [done|]. rewrite bind_cons. cbn [app]. by f_equal.
Qed.

Lemma flat_mgrid3 (xs ys zs : list Q) :
  let '(X, Y, Z) := nd.mgrid3 xs ys zs in
  nd.flat X = grid3 xs ys zs (λ x _ _, x)
  ∧ nd.flat Y = grid3 xs ys zs (λ _ y _, y)
  ∧ nd.flat Z = grid3 xs ys zs (λ _ _ z, z).
Proof.
  unfold nd.mgrid3, nd.flat, grid3. split; [|split].
  - induction xs as [|x xs IH]; [done|].
    rewrite fmap_cons, list_join_cons, join_app, IH, bind_cons. f_equal.
    rewrite replicate_bind. apply list_bind_ext; [|done]. intros _.
    apply replicate_bind_singleton.
  - rewrite replicate_bind.
    induction xs as [|x xs IH]; [done|].
    rewrite !bind_cons, join_app, IH. f_equal.
    rewrite join_fmap_bind. apply list_bind_ext; [|done]. intros y.
    apply replicate_bind_singleton.
  - rewrite replicate_bind.
    induction xs as [|x xs IH]; [done|].
    rewrite !bind_cons, join_app, IH. f_equal.
    rewrite replicate_bind. apply list_bind_ext; [|done]. intros _.
    apply bind_singleton_id.
Qed.

Lemma elem_of_grid3 {A B C D} (xs : list A) (ys : list B) (zs : list C)
    (g : A → B → C → D) d :
  d ∈ grid3 xs ys zs g ↔ ∃ x y z, x ∈ xs ∧ y ∈ ys ∧ z ∈ zs ∧ d = g x y z.
Proof.
  unfold grid3. rewrite list_elem_of_bind. split.
  - intros (x & (y & (z & Hd%list_elem_of_singleton & Hz)%list_elem_of_bind
                 & Hy)%list_elem_of_bind & Hx). eauto 10.
  - intros (x & y & z & Hx & Hy & Hz & ->). exists x. split; [|done].
    apply list_elem_of_bind. exists y. split; [|done].
    apply list_elem_of_bind. exists z. split; [|done]. by left.
Qed.

Lemma lookup_bind_const {A B} (l : list A) (f : A → list B) (n i k : nat) x :
  (∀ x, x ∈ l → length (f x) = n) → l !! i = Some x → (k < n)%nat →
  (l ≫= f) !! (i * n + k)%nat = f x !! k.
Proof.
  revert i. induction l as [|y l IH]; intros i Hf Hi Hk; [done|].
  rewrite bind_cons. destruct i as [|i].
  - injection Hi as ->. cbn. rewrite lookup_app_l; [done|].
    rewrite Hf; [done|left].
  - cbn in Hi. rewrite lookup_app_r; rewrite Hf; [|left|lia|left].
    replace (S i * n + k - n)%nat with (i * n + k)%nat by lia.
    apply IH; [|done..]. intros z Hz. apply Hf. by right.
Qed.

Lemma lookup_grid3 {A B C D} (xs : list A) (ys : list B) (zs : list C)
    (g : A → B → C → D) (i j k : nat) x y z :
  xs !! i = Some x → ys !! j = Some y → zs !! k = Some z →
  grid3 xs ys zs g !! ((i * length ys + j) * length zs + k)%nat
  = Some (g x y z).
Proof.
  intros Hx Hy Hz. unfold grid3.
  pose proof (lookup_lt_Some _ _ _ Hy) as Hj.
  pose proof (lookup_lt_Some _ _ _ Hz) as Hk.
  replace ((i * length ys + j) * length zs + k)%nat
    with (i * (length ys * length zs) + (j * length zs + k))%nat by lia.
  rewrite (lookup_bind_const xs _ (length ys * length zs) i _ x);
    [|intros x' _; apply length_bind_bind_singleton|done|nia].
  rewrite (lookup_bind_const ys _ (length zs) j k y);
    [|intros y' _; apply length_bind_singleton|done|done].
  replace k with (k * 1 + 0)%nat by lia.
  rewrite (lookup_bind_const zs _ 1 k 0 z); [done|done| |lia].
  by replace (k * 1 + 0)%nat with k by lia.
Qed.

(** ** The array operations of [from_box] on lists over three axes *)

Lemma to_nat_mul3 a b c :
  0 ≤ a → 0 ≤ b → 0 ≤ c →
  Z.to_nat (a * b * c) = (Z.to_nat a * (Z.to_nat b * Z.to_nat c))%nat.
Proof. intros. rewrite !Z2Nat.inj_mul by nia. lia. Qed.

Lemma nd_zeros2_Ok r c :
  0 ≤ r → 0 ≤ c →
  nd.zeros2 r c = Ok (replicate (Z.to_nat r) (replicate (Z.to_nat c) 0%Q)).
Proof. intros. unfold nd.zeros2. by rewrite !dim_Ok by done. Qed.

Lemma nd_set_column_Ok a j col :
  Forall (λ row, in_range (length row) j) a → length col = length a →
  nd.set_column a j col
  = Ok (zip_with (λ row v, <[Z.to_nat j := v]> row) a col).
Proof.
  intros Ha Hl. unfold nd.set_column, np.broadcast.
  rewrite decide_True by done. cbn.
  apply map2M_Ok_zip_with.
  apply Forall2_same_length_lookup_2; [done|].
  intros i row v Hrow _. apply setitem_Ok.
  rewrite Forall_forall in Ha. apply (Ha row). by eapply list_elem_of_lookup_2.
Qed.

Section grid_tables.

Context {A B C : Type} (xs : list A) (ys : list B) (zs : list C).

Lemma nd_set_column_grid3 (g : A → B → C → list Q) (h : A → B → C → Q) j :
  (∀ x y z, in_range (length (g x y z)) j) →
  nd.set_column (grid3 xs ys zs g) j (grid3 xs ys zs h)
  = Ok (grid3 xs ys zs (λ x y z, <[Z.to_nat j := h x y z]> (g x y z))).
Proof.
  intros Hg. rewrite nd_set_column_Ok.
  - by rewrite zip_with_grid3.
  - apply Forall_forall. intros row (x & y & z & _ & _ & _ & ->)%elem_of_grid3.
    apply Hg.
  - by rewrite !length_grid3.
Qed.

Lemma np_set_column_grid3 (g : A → B → C → list Z) (h : A → B → C → Z) j :
  (∀ x y z, in_range (length (g x y z)) j) →
  np.set_column (grid3 xs ys zs g) j (grid3 xs ys zs h)
  = Ok (grid3 xs ys zs (λ x y z, <[Z.to_nat j := h x y z]> (g x y z))).
Proof.
  intros Hg. rewrite set_column_Ok.
  - by rewrite zip_with_grid3.
  - apply Forall_forall. intros row (x & y & z & _ & _ & _ & ->)%elem_of_grid3.
    apply Hg.
  - by rewrite !length_grid3.
Qed.

Lemma np_column_grid3 (g : A → B → C → list Z) j :
  (∀ x y z, in_range (length (g x y z)) j) →
  np.column (grid3 xs ys zs g) j
  = Ok (grid3 xs ys zs (λ x y z, g x y z !!! Z.to_nat j)).
Proof.
  intros Hg. rewrite column_Ok_fmap.
  - by rewrite fmap_grid3.
  - apply Forall_forall. intros row (x & y & z & _ & _ & _ & ->)%elem_of_grid3.
    apply Hg.
Qed.

End grid_tables.

Lemma grid3_fmap_axes {A B C A' B' C' D} (f : A → A') (g : B → B')
    (h : C → C') (xs : list A) (ys : list B) (zs : list C)
    (F : A' → B' → C' → D) :
  grid3 (f <$> xs) (g <$> ys) (h <$> zs) F
  = grid3 xs ys zs (λ x y z, F (f x) (g y) (h z)).
Proof.
  unfold grid3. rewrite list_fmap_bind. apply list_bind_ext; [|done].
  intros x. cbn. rewrite list_fmap_bind. apply list_bind_ext; [|done].
  intros y. cbn. rewrite list_fmap_bind. done.
Qed.

(** ** Reshaping a range and dropping the last layer *)

Lemma infer_dims_nonneg a b c :
  0 ≤ a → 0 ≤ b → 0 ≤ c →
  nd.infer_dims (a * b * c) [a; b; c] = Ok [a; b; c].
Proof.
  intros Ha Hb Hc. unfold nd.infer_dims.
  rewrite decide_False; cycle 1.
  { rewrite !Exists_cons, Exists_nil. lia. }
  rewrite !filter_cons, filter_nil.
  rewrite !decide_False by lia.
  rewrite decide_True; [done|]. cbn. lia.
Qed.

Lemma reshape3_arange a b c :
  0 ≤ a → 0 ≤ b → 0 ≤ c →
  nd.reshape3 (np.arange 0 (a * b * c)) a b c
  = Ok ((λ i : nat,
           (λ j : nat, seqZ (Z.of_nat i * (b * c) + Z.of_nat j * c) c)
             <$> seq 0 (Z.to_nat b))
          <$> seq 0 (Z.to_nat a)).
Proof.
  intros Ha Hb Hc. unfold nd.reshape3. rewrite arange_0, length_seqZ.
  rewrite Z2Nat.id by nia. rewrite infer_dims_nonneg by done.
  cbn [mbind PyResult_bind]. f_equal.
  replace (a * b * c) with (Z.of_nat (Z.to_nat a * Z.to_nat (b * c))) by nia.
  rewrite chunks_seqZ, <- list_fmap_compose.
  apply list_fmap_ext. intros _ i _. cbn.
  replace (Z.of_nat (Z.to_nat (b * c)))
    with (Z.of_nat (Z.to_nat b * Z.to_nat c)) by nia.
  rewrite chunks_seqZ. apply list_fmap_ext. intros _ j _.
  f_equal; nia.
Qed.

Lemma drop_last_fmap_seq {A} (f : nat → A) n :
  nd.drop_last (f <$> seq 0 n) = f <$> seq 0 (n - 1).
Proof.
  unfold nd.drop_last. rewrite length_fmap, length_seq, <- fmap_take.
  f_equal. destruct n as [|n]; [done|].
  replace (S n - 1)%nat with n by lia.
  rewrite seq_S, take_app_length'; [done|by rewrite length_seq].
Qed.

Lemma drop_last_seqZ lo n : nd.drop_last (seqZ lo n) = seqZ lo (n - 1).
Proof.
  unfold seqZ. rewrite drop_last_fmap_seq. do 2 f_equal. lia.
Qed.

Lemma join_bind {A B} (f : A → list (list B)) (l : list A) :
  mjoin (l ≫= f) = l ≫= λ x, mjoin (f x).
Proof.
  induction l as [|x l IH]; [done|]. by rewrite !bind_cons, join_app, IH.
Qed.

Lemma bind_seq_seqZ {A} (F : Z → list A) n :
  seq 0 (Z.to_nat n) ≫= (λ i : nat, F (Z.of_nat i)) = seqZ 0 n ≫= F.
Proof.
  unfold seqZ. rewrite list_fmap_bind. apply list_bind_ext; [|done].
  intros i. cbn. f_equal. lia.
Qed.

Lemma seqZ_bind lo n : seqZ lo n = seqZ 0 n ≫= λ k, [lo + k].
Proof.
  rewrite <- (Z.add_0_r lo) at 1. rewrite <- fmap_add_seqZ.
  generalize (seqZ 0 n). intros l.
  induction l as [|x l IH]; [done|]. rewrite fmap_cons, bind_cons, IH. done.
Qed.

Lemma flat_box_origins nx ny nz :
  nd.flat
    ((λ plane, nd.drop_last <$> nd.drop_last plane)
       <$> nd.drop_last
             ((λ i : nat,
                 (λ j : nat,
                    seqZ (Z.of_nat i * ((ny + 1) * (nz + 1))
                          + Z.of_nat j * (nz + 1)) (nz + 1))
                   <$> seq 0 (Z.to_nat (ny + 1)))
                <$> seq 0 (Z.to_nat (nx + 1))))
  = grid3 (seqZ 0 nx) (seqZ 0 ny) (seqZ 0 nz)
      (λ i j k, i * ((ny + 1) * (nz + 1)) + j * (nz + 1) + k).
Proof.
  rewrite drop_last_fmap_seq, <- list_fmap_compose.
  unfold nd.flat, grid3. rewrite join_fmap_bind, join_bind.
  replace (Z.to_nat (nx + 1) - 1)%nat with (Z.to_nat nx) by lia.
  rewrite <- (bind_seq_seqZ _ nx). apply list_bind_ext; [|done].
  intros i. unfold compose. cbv beta.
  rewrite drop_last_fmap_seq, <- list_fmap_compose.
  rewrite join_fmap_bind.
  replace (Z.to_nat (ny + 1) - 1)%nat with (Z.to_nat ny) by lia.
  rewrite <- (bind_seq_seqZ _ ny). apply list_bind_ext; [|done].
  intros j. unfold compose. cbv beta. rewrite drop_last_seqZ.
  replace (nz + 1 - 1) with nz by lia. apply seqZ_bind.
Qed.

(** ** The arrays of [from_box] without a threshold *)

Lemma from_box_arrays_grid threshold b0 b1 b2 b3 b4 b5 rest nx ny nz :
  -1 ≤ nx → -1 ≤ ny → -1 ≤ nz →
  (0 ≤ nx ∧ 0 ≤ ny ∧ 0 ≤ nz) ∨ nx * ny * nz = 0 →
  from_box_arrays threshold (b0 :: b1 :: b2 :: b3 :: b4 :: b5 :: rest) nx ny nz
  = match threshold with
    | None => Ok (box_nodes b0 b1 b2 b3 b4 b5 nx ny nz, box_cells nx ny nz)
    | Some th =>
        from_box_threshold th ((nx + 1) * (ny + 1) * (nz + 1))
          (box_nodes b0 b1 b2 b3 b4 b5 nx ny nz) (box_cells nx ny nz)
    end.
Proof.
  intros Hx Hy Hz Hc. unfold from_box_arrays.
  assert (0 ≤ (nx + 1) * (ny + 1) * (nz + 1)) as HNN
    by (apply Z.mul_nonneg_nonneg; [apply Z.mul_nonneg_nonneg|]; lia).
  assert (0 ≤ nx * ny * nz) as HNC.
  { destruct Hc as [(? & ? & ?) | ->]; [|done].
    apply Z.mul_nonneg_nonneg; [apply Z.mul_nonneg_nonneg|]; lia. }
  assert (Z.to_nat (nx * ny * nz)
          = (Z.to_nat nx * (Z.to_nat ny * Z.to_nat nz))%nat) as HNCn.
  { destruct Hc as [(? & ? & ?)|Hc]; [apply to_nat_mul3; lia|]. rewrite Hc.
    assert (nx = 0 ∨ ny = 0 ∨ nz = 0) as [-> | [-> | ->] ] by nia; cbn; lia. }
  rewrite nd_zeros2_Ok by lia. cbn [mbind PyResult_bind].
  rewrite (getitem_Ok _ 0 b0), (getitem_Ok _ 1 b1), (getitem_Ok _ 2 b2),
    (getitem_Ok _ 3 b3), (getitem_Ok _ 4 b4), (getitem_Ok _ 5 b5) by done.
  cbn [mbind PyResult_bind].
  pose proof (flat_mgrid3 (nd.grid_axis b0 b1 (nx + 1))
                (nd.grid_axis b2 b3 (ny + 1)) (nd.grid_axis b4 b5 (nz + 1)))
    as Hflat.
  destruct (nd.mgrid3 _ _ _) as [[Xa Ya] Za]. destruct Hflat as (-> & -> & ->).
  rewrite (replicate_grid3 (nd.grid_axis b0 b1 (nx + 1))
             (nd.grid_axis b2 b3 (ny + 1)) (nd.grid_axis b4 b5 (nz + 1))
             (replicate (Z.to_nat 3) 0%Q)
             (Z.to_nat ((nx + 1) * (ny + 1) * (nz + 1)))); cycle 1.
  { unfold nd.grid_axis. rewrite !length_fmap, !length_seqZ.
    rewrite !Z.abs_eq by lia. apply to_nat_mul3; lia. }
  rewrite nd_set_column_grid3 by (intros; unfold in_range; rewrite ?length_insert, ?length_replicate; lia).
  cbn [mbind PyResult_bind].
  rewrite nd_set_column_grid3 by (intros; unfold in_range; rewrite ?length_insert, ?length_replicate; lia).
  cbn [mbind PyResult_bind].
  rewrite nd_set_column_grid3 by (intros; unfold in_range; rewrite ?length_insert, ?length_replicate; lia).
  cbn [mbind PyResult_bind].
  rewrite reshape3_arange by lia. cbn [mbind PyResult_bind].
  rewrite flat_box_origins.
  rewrite zeros2_Ok by lia. cbn [mbind PyResult_bind].
  rewrite (replicate_grid3 (seqZ 0 nx) (seqZ 0 ny) (seqZ 0 nz)
             (replicate (Z.to_nat 8) 0) (Z.to_nat (nx * ny * nz))); cycle 1.
  { rewrite !length_seqZ. exact HNCn. }
  repeat first
    [ rewrite np_set_column_grid3 by (intros; unfold in_range; rewrite ?length_insert, ?length_replicate; lia);
      cbn [mbind PyResult_bind]
    | rewrite np_column_grid3 by (intros; unfold in_range; rewrite ?length_insert, ?length_replicate; lia);
      cbn [mbind PyResult_bind]
    | rewrite fmap_grid3 ].
  assert (grid3 (nd.grid_axis b0 b1 (nx + 1)) (nd.grid_axis b2 b3 (ny + 1))
            (nd.grid_axis b4 b5 (nz + 1)) (λ x y z, [x; y; z])
          = box_nodes b0 b1 b2 b3 b4 b5 nx ny nz) as Hnodes.
  { unfold box_nodes, nd.grid_axis. rewrite grid3_fmap_axes.
    rewrite !Z.abs_eq by lia. done. }
  destruct threshold as [th|];
    [f_equal|f_equal; f_equal]; first [done | rewrite <- Hnodes; done].
Qed.

Lemma from_box_arrays_Ok b0 b1 b2 b3 b4 b5 rest nx ny nz :
  -1 ≤ nx → -1 ≤ ny → -1 ≤ nz →
  (0 ≤ nx ∧ 0 ≤ ny ∧ 0 ≤ nz) ∨ nx * ny * nz = 0 →
  from_box_arrays None (b0 :: b1 :: b2 :: b3 :: b4 :: b5 :: rest) nx ny nz
  = Ok (box_nodes b0 b1 b2 b3 b4 b5 nx ny nz, box_cells nx ny nz).
Proof. intros. by rewrite from_box_arrays_grid. Qed.

(** ** What [from_box] hands to the constructor *)

Lemma box_cell_valid ny nz b : 1 ≤ ny → 1 ≤ nz → valid_cell (box_cell ny nz b).
Proof.
  intros Hy Hz. split; [done|]. unfold box_cell. cbv zeta.
  set (M := (ny + 1) * (nz + 1)).
  assert (2 * (nz + 1) ≤ M) as HM by (unfold M; nia).
  repeat (apply NoDup_cons_2;
          [rewrite ?elem_of_cons, elem_of_nil; lia|]).
  constructor.
Qed.

Lemma box_cell_range nx ny nz i j k :
  0 ≤ i < nx → 0 ≤ j < ny → 0 ≤ k < nz →
  Forall (λ v, 0 ≤ v < (nx + 1) * (ny + 1) * (nz + 1))
         (box_cell ny nz (i * ((ny + 1) * (nz + 1)) + j * (nz + 1) + k)).
Proof.
  intros Hi Hj Hk. unfold box_cell. cbv zeta.
  replace ((nx + 1) * (ny + 1) * (nz + 1))
    with ((nx + 1) * ((ny + 1) * (nz + 1))) by ring.
  set (M := (ny + 1) * (nz + 1)).
  assert (M = ny * (nz + 1) + nz + 1) as HM by (unfold M; ring).
  assert (0 ≤ M) as HM0 by (unfold M; apply Z.mul_nonneg_nonneg; lia).
  assert (0 ≤ i * M) by (apply Z.mul_nonneg_nonneg; lia).
  assert (0 ≤ j * (nz + 1)) by (apply Z.mul_nonneg_nonneg; lia).
  assert ((i + 1) * M ≤ nx * M)
    by (apply Z.mul_le_mono_nonneg_r; lia).
  assert ((j + 1) * (nz + 1) ≤ ny * (nz + 1))
    by (apply Z.mul_le_mono_nonneg_r; lia).
  assert ((i + 1) * M = i * M + M) as E1 by ring.
  assert ((j + 1) * (nz + 1) = j * (nz + 1) + nz + 1) as E2 by ring.
  assert ((nx + 1) * M = nx * M + M) as E3 by ring.
  repeat (constructor; [lia|]). constructor.
Qed.

Lemma box_arrays_shape b0 b1 b2 b3 b4 b5 nx ny nz :
  -1 ≤ nx → -1 ≤ ny → -1 ≤ nz →
  (0 ≤ nx ∧ 0 ≤ ny ∧ 0 ≤ nz) ∨ nx * ny * nz = 0 →
  Z.of_nat (length (box_nodes b0 b1 b2 b3 b4 b5 nx ny nz))
  = (nx + 1) * (ny + 1) * (nz + 1) ∧
  Forall (λ x, length x = 3%nat) (box_nodes b0 b1 b2 b3 b4 b5 nx ny nz) ∧
  Z.of_nat (length (box_cells nx ny nz)) = nx * ny * nz ∧
  Forall valid_cell (box_cells nx ny nz) ∧
  Forall (Forall (λ v, 0 ≤ v < (nx + 1) * (ny + 1) * (nz + 1)))
         (box_cells nx ny nz).
Proof.
  intros Hx Hy Hz Hc.
  assert (Z.of_nat (length (box_nodes b0 b1 b2 b3 b4 b5 nx ny nz))
          = (nx + 1) * (ny + 1) * (nz + 1)) as Hn.
  { unfold box_nodes. rewrite length_grid3, !length_seqZ. nia. }
  split; [exact Hn|]. split.
  { apply Forall_forall. intros x Hin. unfold box_nodes in Hin.
    apply elem_of_grid3 in Hin as (i & j & k & _ & _ & _ & ->). done. }
  split.
  { unfold box_cells. rewrite length_grid3, !length_seqZ.
    destruct Hc as [(? & ? & ?)|Hc]; [nia|]. rewrite Hc.
    assert (nx = 0 ∨ ny = 0 ∨ nz = 0) as [-> | [-> | ->] ] by nia; cbn; lia. }
  split.
  - apply Forall_forall. intros c Hin. unfold box_cells in Hin.
    apply elem_of_grid3 in Hin
      as (i & j & k & Hi%elem_of_seqZ & Hj%elem_of_seqZ & Hk%elem_of_seqZ & ->).
    apply box_cell_valid; lia.
  - apply Forall_forall. intros c Hin. unfold box_cells in Hin.
    apply elem_of_grid3 in Hin
      as (i & j & k & Hi%elem_of_seqZ & Hj%elem_of_seqZ & Hk%elem_of_seqZ & ->).
    apply box_cell_range; lia.
Qed.

(** With at least six bounds and numbers of divisions that are not negative
    (or, with a division number [-1], no cell at all), [from_box] without a
    threshold builds [(nx+1)(ny+1)(nz+1)] nodes with three coordinates and
    [nx ny nz] cells; every cell has eight different nodes, all of them
    indices of the node array. *)
Theorem from_box_arrays_are_a_mesh_input (box : list Q) (nx ny nz : Z) :
  (6 ≤ length box)%nat →
  -1 ≤ nx → -1 ≤ ny → -1 ≤ nz →
  (0 ≤ nx ∧ 0 ≤ ny ∧ 0 ≤ nz) ∨ nx * ny * nz = 0 →
  ∃ node cell,
    from_box_arrays None box nx ny nz = Ok (node, cell) ∧
    Z.of_nat (length node) = (nx + 1) * (ny + 1) * (nz + 1) ∧
    Forall (λ x, length x = 3%nat) node ∧
    Z.of_nat (length cell) = nx * ny * nz ∧
    Forall valid_cell cell ∧
    Forall (Forall (λ v, 0 ≤ v < Z.of_nat (length node))) cell.
Proof.
  intros Hbox Hx Hy Hz Hc.
  destruct box as [|b0 [|b1 [|b2 [|b3 [|b4 [|b5 rest]]]]]]; cbn in Hbox; try lia.
  rewrite from_box_arrays_Ok by done. eexists _, _. split; [done|].
  destruct (box_arrays_shape b0 b1 b2 b3 b4 b5 nx ny nz Hx Hy Hz Hc)
    as (Hn & H3 & HNC & Hvalid & Hrange).
  rewrite Hn. done.
Qed.

Lemma from_box_arrays_are_a_mesh_input_witness :
  (6 ≤ length [0; 1; 0; 2; 0; 3]%Q)%nat ∧ -1 ≤ 2 ∧ -1 ≤ 1 ∧ -1 ≤ 3 ∧
  ((0 ≤ 2 ∧ 0 ≤ 1 ∧ 0 ≤ 3) ∨ 2 * 1 * 3 = 0) ∧
  ∃ node cell,
    from_box_arrays None [0; 1; 0; 2; 0; 3]%Q 2 1 3 = Ok (node, cell) ∧
    Z.of_nat (length node) = (2 + 1) * (1 + 1) * (3 + 1) ∧
    Forall (λ x, length x = 3%nat) node ∧
    Z.of_nat (length cell) = 2 * 1 * 3 ∧
    Forall valid_cell cell ∧
    Forall (Forall (λ v, 0 ≤ v < Z.of_nat (length node))) cell.
Proof.
  assert (6 ≤ length [0; 1; 0; 2; 0; 3]%Q)%nat as H6 by (cbn; lia).
  assert (-1 ≤ 2) as Hx by lia. assert (-1 ≤ 1) as Hy by lia.
  assert (-1 ≤ 3) as Hz by lia.
  assert ((0 ≤ 2 ∧ 0 ≤ 1 ∧ 0 ≤ 3) ∨ 2 * 1 * 3 = 0) as Hc by (left; lia).
  split; [exact H6|]. split; [exact Hx|]. split; [exact Hy|].
  split; [exact Hz|]. split; [exact Hc|].
  exact (from_box_arrays_are_a_mesh_input _ 2 1 3 H6 Hx Hy Hz Hc).
Defined.

(** ** Numbers of divisions that [from_box] refuses *)

Lemma to_nat_abs_mul3 a b c :
  0 ≤ a * b * c →
  Z.to_nat (a * b * c)
  = (Z.to_nat (Z.abs a) * (Z.to_nat (Z.abs b) * Z.to_nat (Z.abs c)))%nat.
Proof.
  intros H. rewrite <- (Z.abs_eq (a * b * c)) by done.
  rewrite !Z.abs_mul. apply to_nat_mul3; apply Z.abs_nonneg.
Qed.

Lemma infer_dims_negative size a b c :
  size = a * b * c → 0 ≤ size → a < 0 ∨ b < 0 ∨ c < 0 →
  nd.infer_dims size [a; b; c] = Raise ValueError.
Proof.
  intros Hs Hsize Hneg. unfold nd.infer_dims.
  case_decide as Hex; [done|].
  rewrite !Exists_cons, Exists_nil in Hex.
  assert (-1 ≤ a ∧ -1 ≤ b ∧ -1 ≤ c) as (Ha & Hb & Hc) by lia.
  rewrite !filter_cons, !filter_nil.
  destruct (decide (a = -1)) as [Ea|Ea], (decide (b = -1)) as [Eb|Eb],
    (decide (c = -1)) as [Ec|Ec]; try done; try lia;
    rewrite ?(decide_False (P := a ≠ -1)), ?(decide_True (P := a ≠ -1)),
      ?(decide_False (P := b ≠ -1)), ?(decide_True (P := b ≠ -1)),
      ?(decide_False (P := c ≠ -1)), ?(decide_True (P := c ≠ -1)) by tauto;
    cbn [foldr]; cbv zeta; (rewrite decide_True; [done|nia]).
Qed.

(** The node array of [from_box], as far as it is built before the cells:
    [k] is what follows. *)
Lemma from_box_nodes_first {T} b0 b1 b2 b3 b4 b5 rest nx ny nz
    (k : list (list Q) → PyResult T) :
  0 ≤ (nx + 1) * (ny + 1) * (nz + 1) →
  (node ← nd.zeros2 ((nx + 1) * (ny + 1) * (nz + 1)) 3;
   c0 ← np.getitem (b0 :: b1 :: b2 :: b3 :: b4 :: b5 :: rest) 0;
   c1 ← np.getitem (b0 :: b1 :: b2 :: b3 :: b4 :: b5 :: rest) 1;
   c2 ← np.getitem (b0 :: b1 :: b2 :: b3 :: b4 :: b5 :: rest) 2;
   c3 ← np.getitem (b0 :: b1 :: b2 :: b3 :: b4 :: b5 :: rest) 3;
   c4 ← np.getitem (b0 :: b1 :: b2 :: b3 :: b4 :: b5 :: rest) 4;
   c5 ← np.getitem (b0 :: b1 :: b2 :: b3 :: b4 :: b5 :: rest) 5;
   let '(X, Y, Z) :=
     nd.mgrid3 (nd.grid_axis c0 c1 (nx + 1)) (nd.grid_axis c2 c3 (ny + 1))
               (nd.grid_axis c4 c5 (nz + 1)) in
   node ← nd.set_column node 0 (nd.flat X);
   node ← nd.set_column node 1 (nd.flat Y);
   node ← nd.set_column node 2 (nd.flat Z);
   k node)
  = k (grid3 (nd.grid_axis b0 b1 (nx + 1)) (nd.grid_axis b2 b3 (ny + 1))
         (nd.grid_axis b4 b5 (nz + 1)) (λ x y z, [x; y; z])).
Proof.
  intros HNN.
  rewrite nd_zeros2_Ok by lia. cbn [mbind PyResult_bind].
  rewrite (getitem_Ok _ 0 b0), (getitem_Ok _ 1 b1), (getitem_Ok _ 2 b2),
    (getitem_Ok _ 3 b3), (getitem_Ok _ 4 b4), (getitem_Ok _ 5 b5) by done.
  cbn [mbind PyResult_bind].
  pose proof (flat_mgrid3 (nd.grid_axis b0 b1 (nx + 1))
                (nd.grid_axis b2 b3 (ny + 1)) (nd.grid_axis b4 b5 (nz + 1)))
    as Hflat.
  destruct (nd.mgrid3 _ _ _) as [[Xa Ya] Za]. destruct Hflat as (-> & -> & ->).
  rewrite (replicate_grid3 (nd.grid_axis b0 b1 (nx + 1))
             (nd.grid_axis b2 b3 (ny + 1)) (nd.grid_axis b4 b5 (nz + 1))
             (replicate (Z.to_nat 3) 0%Q)
             (Z.to_nat ((nx + 1) * (ny + 1) * (nz + 1)))); cycle 1.
  { unfold nd.grid_axis. rewrite !length_fmap, !length_seqZ.
    by apply to_nat_abs_mul3. }
  rewrite nd_set_column_grid3
    by (intros; unfold in_range; rewrite ?length_insert, ?length_replicate; lia).
  cbn [mbind PyResult_bind].
  rewrite nd_set_column_grid3
    by (intros; unfold in_range; rewrite ?length_insert, ?length_replicate; lia).
  cbn [mbind PyResult_bind].
  rewrite nd_set_column_grid3
    by (intros; unfold in_range; rewrite ?length_insert, ?length_replicate; lia).
  cbn [mbind PyResult_bind]. done.
Qed.

(** Every other choice of the numbers of divisions is a [ValueError],
    whatever the threshold: a number below [-1], or [-1] with a product
    [nx ny nz] that is not zero. *)
Theorem from_box_arrays_refuses (threshold : option (list (list Q) → PyResult (list bool)))
    (box : list Q) (nx ny nz : Z) :
  (6 ≤ length box)%nat →
  ¬ (-1 ≤ nx ∧ -1 ≤ ny ∧ -1 ≤ nz
     ∧ ((0 ≤ nx ∧ 0 ≤ ny ∧ 0 ≤ nz) ∨ nx * ny * nz = 0)) →
  from_box_arrays threshold box nx ny nz = Raise ValueError.
Proof.
  intros Hbox Hnot.
  destruct box as [|b0 [|b1 [|b2 [|b3 [|b4 [|b5 rest]]]]]]; cbn in Hbox; try lia.
  unfold from_box_arrays.
  destruct (decide (0 ≤ (nx + 1) * (ny + 1) * (nz + 1))) as [HNN|HNN]; cycle 1.
  { unfold nd.zeros2, np.dim.
    rewrite (decide_False (P := 0 ≤ (nx + 1) * (ny + 1) * (nz + 1))) by done.
    reflexivity. }
  rewrite from_box_nodes_first by done.
  destruct (decide (nx + 1 < 0 ∨ ny + 1 < 0 ∨ nz + 1 < 0)) as [Hneg|Hpos].
  { unfold nd.reshape3. rewrite arange_0, length_seqZ, Z2Nat.id by done.
    by rewrite infer_dims_negative. }
  rewrite reshape3_arange by lia. cbn [mbind PyResult_bind].
  rewrite flat_box_origins.
  destruct (decide (0 ≤ nx * ny * nz)) as [HNC|HNC]; cycle 1.
  { unfold np.zeros2, np.dim.
    rewrite (decide_False (P := 0 ≤ nx * ny * nz)) by done. reflexivity. }
  rewrite zeros2_Ok by lia. cbn [mbind PyResult_bind].
  assert (grid3 (seqZ 0 nx) (seqZ 0 ny) (seqZ 0 nz)
            (λ i j k, i * ((ny + 1) * (nz + 1)) + j * (nz + 1) + k) = [])
    as ->.
  { apply nil_length_inv. rewrite length_grid3, !length_seqZ.
    assert (nx = -1 ∨ ny = -1 ∨ nz = -1) as [-> | [-> | ->] ] by lia;
      cbn; lia. }
  unfold np.set_column, np.broadcast. rewrite length_replicate.
  rewrite decide_False; [done|]. cbn.
  assert (nx * ny * nz ≠ 0) by lia. lia.
Qed.

Lemma from_box_arrays_refuses_witness :
  (6 ≤ length [0; 1; 0; 1; 0; 1]%Q)%nat ∧
  ¬ (-1 ≤ -2 ∧ -1 ≤ -2 ∧ -1 ≤ 1
     ∧ ((0 ≤ -2 ∧ 0 ≤ -2 ∧ 0 ≤ 1) ∨ -2 * -2 * 1 = 0)) ∧
  from_box_arrays None [0; 1; 0; 1; 0; 1]%Q (-2) (-2) 1 = Raise ValueError.
Proof.
  assert (6 ≤ length [0; 1; 0; 1; 0; 1]%Q)%nat as H6 by (cbn; lia).
  assert (¬ (-1 ≤ -2 ∧ -1 ≤ -2 ∧ -1 ≤ 1
             ∧ ((0 ≤ -2 ∧ 0 ≤ -2 ∧ 0 ≤ 1) ∨ -2 * -2 * 1 = 0))) as Hn by lia.
  split; [exact H6|]. split; [exact Hn|].
  exact (from_box_arrays_refuses None _ (-2) (-2) 1 H6 Hn).
Defined.

(** ** The cells of [from_box] as boxes of the grid *)

Lemma lookup_seqZ_0 n I : 0 ≤ I < n → seqZ 0 n !! Z.to_nat I = Some I.
Proof.
  intros HI. replace (Some I) with (Some (0 + Z.of_nat (Z.to_nat I)))
    by (f_equal; lia).
  apply lookup_seqZ. lia.
Qed.

Lemma box_nodes_lookup b0 b1 b2 b3 b4 b5 nx ny nz I J K n :
  0 ≤ I ≤ nx → 0 ≤ J ≤ ny → 0 ≤ K ≤ nz →
  n = I * ((ny + 1) * (nz + 1)) + J * (nz + 1) + K →
  box_nodes b0 b1 b2 b3 b4 b5 nx ny nz !! Z.to_nat n
  = Some [ nd.grid_point b0 b1 (nx + 1) I; nd.grid_point b2 b3 (ny + 1) J;
           nd.grid_point b4 b5 (nz + 1) K ].
Proof.
  intros HI HJ HK ->. unfold box_nodes.
  replace (Z.to_nat (I * ((ny + 1) * (nz + 1)) + J * (nz + 1) + K))
    with ((Z.to_nat I * length (seqZ 0 (ny + 1)) + Z.to_nat J)
          * length (seqZ 0 (nz + 1)) + Z.to_nat K)%nat.
  - apply (lookup_grid3 (seqZ 0 (nx + 1)) (seqZ 0 (ny + 1)) (seqZ 0 (nz + 1))
             (λ i j k, [ nd.grid_point b0 b1 (nx + 1) i;
                         nd.grid_point b2 b3 (ny + 1) j;
                         nd.grid_point b4 b5 (nz + 1) k ])
             (Z.to_nat I) (Z.to_nat J) (Z.to_nat K) I J K);
      apply lookup_seqZ_0; lia.
  - rewrite !length_seqZ. apply Nat2Z.inj.
    rewrite Nat2Z.inj_add, Nat2Z.inj_mul, Nat2Z.inj_add, Nat2Z.inj_mul.
    assert (0 ≤ I * ((ny + 1) * (nz + 1))) by (apply Z.mul_nonneg_nonneg; nia).
    assert (0 ≤ J * (nz + 1)) by nia.
    rewrite !Z2Nat.id by lia. ring.
Qed.

Lemma box_cells_lookup nx ny nz i j k :
  0 ≤ i < nx → 0 ≤ j < ny → 0 ≤ k < nz →
  box_cells nx ny nz !! Z.to_nat ((i * ny + j) * nz + k)
  = Some (box_cell ny nz (i * ((ny + 1) * (nz + 1)) + j * (nz + 1) + k)).
Proof.
  intros Hi Hj Hk. unfold box_cells.
  replace (Z.to_nat ((i * ny + j) * nz + k))
    with ((Z.to_nat i * length (seqZ 0 ny) + Z.to_nat j)
          * length (seqZ 0 nz) + Z.to_nat k)%nat.
  - apply (lookup_grid3 (seqZ 0 nx) (seqZ 0 ny) (seqZ 0 nz)
             (λ i j k, box_cell ny nz
                         (i * ((ny + 1) * (nz + 1)) + j * (nz + 1) + k))
             (Z.to_nat i) (Z.to_nat j) (Z.to_nat k) i j k);
      apply lookup_seqZ_0; lia.
  - rewrite !length_seqZ. apply Nat2Z.inj.
    rewrite Nat2Z.inj_add, Nat2Z.inj_mul, Nat2Z.inj_add, Nat2Z.inj_mul.
    assert (0 ≤ i * ny) by nia.
    assert (0 ≤ (i * ny + j) * nz) by (apply Z.mul_nonneg_nonneg; lia).
    rewrite !Z2Nat.id by lia. ring.
Qed.

(** The node with the grid indices [I], [J], [K] has the number
    [I (ny+1) (nz+1) + J (nz+1) + K], and its three coordinates depend on
    [I], on [J] and on [K] alone.  The cell with the grid indices [i], [j],
    [k] is the row number [(i ny + j) nz + k] of the cell array, and its
    eight entries are the numbers of the nodes [(i + dx, j + dy, k + dz)],
    for the corners [(dx, dy, dz)] of the reference cube in their order. *)
Theorem from_box_cells_are_grid_boxes (b0 b1 b2 b3 b4 b5 : Q) (rest : list Q)
    (nx ny nz i j k : Z) :
  0 ≤ i < nx → 0 ≤ j < ny → 0 ≤ k < nz →
  ∃ node cell (xs ys zs : Z → Q) row,
    from_box_arrays None (b0 :: b1 :: b2 :: b3 :: b4 :: b5 :: rest) nx ny nz
    = Ok (node, cell) ∧
    (∀ I J K, 0 ≤ I ≤ nx → 0 ≤ J ≤ ny → 0 ≤ K ≤ nz →
       node !! Z.to_nat (I * ((ny + 1) * (nz + 1)) + J * (nz + 1) + K)
       = Some [xs I; ys J; zs K]) ∧
    cell !! Z.to_nat ((i * ny + j) * nz + k) = Some row ∧
    Forall2 (λ n off,
               ∃ dx dy dz,
                 off = [dx; dy; dz] ∧
                 n = (i + dx) * ((ny + 1) * (nz + 1)) + (j + dy) * (nz + 1)
                     + (k + dz))
            row corner_offsets.
Proof.
  intros Hi Hj Hk.
  rewrite from_box_arrays_Ok by lia.
  exists (box_nodes b0 b1 b2 b3 b4 b5 nx ny nz), (box_cells nx ny nz),
    (nd.grid_point b0 b1 (nx + 1)), (nd.grid_point b2 b3 (ny + 1)),
    (nd.grid_point b4 b5 (nz + 1)).
  eexists. split; [done|]. split.
  { intros I J K HI HJ HK. by apply box_nodes_lookup. }
  split; [by apply box_cells_lookup|].
  unfold box_cell, corner_offsets. cbv zeta.
  repeat (constructor; [eexists _, _, _; split; [done|ring] |]).
  constructor.
Qed.

Lemma from_box_cells_are_grid_boxes_witness :
  0 ≤ 1 < 2 ∧ 0 ≤ 0 < 1 ∧ 0 ≤ 2 < 3 ∧
  ∃ node cell (xs ys zs : Z → Q) row,
    from_box_arrays None [0; 1; 0; 2; 0; 3]%Q 2 1 3 = Ok (node, cell) ∧
    (∀ I J K, 0 ≤ I ≤ 2 → 0 ≤ J ≤ 1 → 0 ≤ K ≤ 3 →
       node !! Z.to_nat (I * ((1 + 1) * (3 + 1)) + J * (3 + 1) + K)
       = Some [xs I; ys J; zs K]) ∧
    cell !! Z.to_nat ((1 * 1 + 0) * 3 + 2) = Some row ∧
    Forall2 (λ n off,
               ∃ dx dy dz,
                 off = [dx; dy; dz] ∧
                 n = (1 + dx) * ((1 + 1) * (3 + 1)) + (0 + dy) * (3 + 1)
                     + (2 + dz))
            row corner_offsets.
Proof.
  assert (0 ≤ 1 < 2) as Hi by lia. assert (0 ≤ 0 < 1) as Hj by lia.
  assert (0 ≤ 2 < 3) as Hk by lia.
  split; [exact Hi|]. split; [exact Hj|]. split; [exact Hk|].
  exact (from_box_cells_are_grid_boxes 0 1 0 2 0 3 [] 2 1 3 1 0 2 Hi Hj Hk).
Defined.

(** ** Removing cells from the mesh of a box *)

Lemma length_marked flags idx : length (marked flags idx) = length flags.
Proof.
  unfold marked. revert flags.
  induction idx as [|i idx IH]; intros flags; [done|]. cbn.
  by rewrite IH, length_insert.
Qed.

Lemma mark_Ok flags idx :
  Forall (Forall (in_range (length flags))) idx →
  nd.mark flags idx = Ok (marked flags (mjoin idx)).
Proof.
  intros Hidx. unfold nd.mark, marked.
  apply (foldM_Ok_foldl _ _ (λ acc, length acc = length flags)); [|done].
  intros acc i Hacc Hi.
  apply list_elem_of_join in Hi as (row & Hi & Hrow).
  rewrite Forall_forall in Hidx. specialize (Hidx _ Hrow).
  rewrite Forall_forall in Hidx. specialize (Hidx _ Hi). unfold in_range in Hidx.
  rewrite setitem_Ok by (rewrite Hacc; lia).
  split; [done|]. by rewrite length_insert.
Qed.

Lemma marked_lookup flags idx n :
  Forall (λ i, 0 ≤ i) idx →
  marked flags idx !! n = Some true
  ↔ flags !! n = Some true ∨ ((n < length flags)%nat ∧ Z.of_nat n ∈ idx).
Proof.
  unfold marked. revert flags.
  induction idx as [|i idx IH]; intros flags Hidx.
  - cbn. split; [by left|]. intros [H|[_ H]]; [done|]. by apply elem_of_nil in H.
  - apply Forall_cons in Hidx as [Hi Hidx]. cbn. rewrite IH by done.
    rewrite length_insert, list_lookup_insert_Some, elem_of_cons.
    split.
    + intros [[(<- & _ & Hn) | (_ & H)] | (Hn & H)].
      * right. split; [done|]. left. lia.
      * by left.
      * right. split; [done|]. by right.
    + intros [H | (Hn & [H | H])].
      * destruct (decide (Z.to_nat i = n)) as [E|E].
        -- left. left. apply lookup_lt_Some in H. done.
        -- left. right. done.
      * left. left. subst i. rewrite Nat2Z.id. done.
      * right. done.
Qed.

Lemma count_true_cons b m :
  count_true (b :: m) = ((if b then 1 else 0) + count_true m)%nat.
Proof.
  unfold count_true. rewrite filter_cons.
  destruct b; [rewrite decide_True by done|rewrite decide_False by done]; done.
Qed.

Lemma rank_cons b flags n :
  rank (b :: flags) (S n) = ((if b then 1 else 0) + rank flags n)%nat.
Proof. unfold rank. cbn [take]. apply count_true_cons. Qed.

Lemma where_lookup_rank s flags n :
  flags !! n = Some true →
  np.where_from s flags !! rank flags n = Some (s + Z.of_nat n).
Proof.
  revert s n. induction flags as [|b flags IH]; intros s n Hn; [done|].
  destruct n as [|n].
  - injection Hn as ->. cbn. f_equal. lia.
  - rewrite rank_cons. cbn in Hn. apply (IH (s + 1)) in Hn.
    destruct b;
      (transitivity (Some (s + 1 + Z.of_nat n)); [exact Hn|f_equal; lia]).
Qed.

Lemma pick_lookup_rank {A} (a : list A) flags n :
  flags !! n = Some true → nd.pick a flags !! rank flags n = a !! n.
Proof.
  revert a n. induction flags as [|b flags IH]; intros a n Hn; [done|].
  destruct a as [|x a]; [by rewrite lookup_nil|].
  destruct n as [|n].
  - by injection Hn as ->.
  - rewrite rank_cons. cbn in Hn. apply (IH a) in Hn.
    destruct b; exact Hn.
Qed.

Lemma length_pick {A} (a : list A) flags :
  length a = length flags → length (nd.pick a flags) = count_true flags.
Proof.
  revert a. induction flags as [|b flags IH]; intros [|x a] Hlen;
    try done.
  injection Hlen as Hlen. rewrite count_true_cons, <- (IH a) by done.
  by destruct b.
Qed.

Lemma select_Ok {A} (a : list A) mask :
  length mask = length a → nd.select a mask = Ok (nd.pick a mask).
Proof. intros. unfold nd.select. by rewrite decide_True. Qed.

Lemma pick_Forall {A} (P : A → Prop) (a : list A) flags :
  Forall P a → Forall P (nd.pick a flags).
Proof.
  intros Ha. revert flags. induction Ha as [|x a Hx Ha IH]; intros [|b flags];
    try constructor.
  destruct b; cbn; [constructor|]; auto.
Qed.

Lemma rank_lt flags n :
  flags !! n = Some true → (rank flags n < count_true flags)%nat.
Proof.
  intros Hn%(where_lookup_rank 0)%lookup_lt_Some.
  by rewrite length_where_from in Hn.
Qed.

Lemma rank_inj flags n m :
  flags !! n = Some true → flags !! m = Some true →
  rank flags n = rank flags m → n = m.
Proof.
  intros Hn%(where_lookup_rank 0) Hm%(where_lookup_rank 0) E.
  rewrite E in Hn. rewrite Hn in Hm. injection Hm. lia.
Qed.

Lemma rank_surj flags k :
  (k < count_true flags)%nat →
  ∃ n, flags !! n = Some true ∧ rank flags n = k.
Proof.
  intros Hk. unfold count_true in Hk. rewrite <- (length_where_from 0) in Hk.
  apply lookup_lt_is_Some in Hk as [i Hi].
  pose proof (list_elem_of_lookup_2 _ _ _ Hi) as Hin.
  apply elem_of_where_from in Hin as (n & -> & Hn).
  exists n. split; [done|].
  eapply NoDup_lookup; [apply (where_from_NoDup 0 flags)| |done].
  by apply where_lookup_rank.
Qed.

(** The array [idxMap] holds the new number of every node that is kept. *)
Lemma index_map_lookup flags n :
  flags !! n = Some true →
  stores (replicate (length flags) 0) (np.where_ flags)
         (seqZ 0 (Z.of_nat (count_true flags))) !! n
  = Some (Z.of_nat (rank flags n)).
Proof.
  intros Hn. rewrite <- (Nat2Z.id n) at 1.
  apply (stores_lookup _ _ _ (rank flags n)).
  - rewrite length_replicate. apply where_in_range.
  - apply where_from_NoDup.
  - unfold np.where_. by rewrite (where_lookup_rank 0 flags n).
  - apply lookup_seqZ. split; [lia|]. apply rank_lt in Hn. lia.
Qed.

Lemma from_box_threshold_Ok (th : list (list Q) → PyResult (list bool))
    (NN : Z) (node : list (list Q)) (cell : list (list Z)) (mask : list bool) :
  Z.of_nat (length node) = NN →
  Forall (λ row, length row = 8%nat) cell →
  Forall (Forall (λ v, 0 ≤ v < NN)) cell →
  th (barycentres node cell) = Ok mask → length mask = length cell →
  from_box_threshold th NN node cell
  = Ok (nd.pick node (used_nodes NN (kept_cells cell mask)),
        renumbered (used_nodes NN (kept_cells cell mask))
                   (kept_cells cell mask)).
Proof.
  intros HNN H8 Hrange Hth Hmask. unfold from_box_threshold.
  rewrite (mapM_Ok_fmap _ (λ row, (λ n, node !!! Z.to_nat n) <$> row)); cycle 1.
  { eapply Forall_impl; [exact Hrange|]. intros row Hrow.
    apply getitems_Ok. eapply Forall_impl; [exact Hrow|]. cbn. lia. }
  cbn [mbind PyResult_bind].
  assert (match cell with [] => 8 | row :: _ => Z.of_nat (length row) end = 8)
    as ->.
  { destruct H8 as [|row cell' Hrow _]; [done|]. by rewrite Hrow. }
  cbv zeta. rewrite <- list_fmap_compose.
  unfold barycentres in Hth. unfold compose. rewrite Hth.
  cbn [mbind PyResult_bind].
  rewrite select_Ok by (by rewrite length_fmap).
  cbn [mbind PyResult_bind].
  fold (kept_cells cell mask). set (kept := kept_cells cell mask).
  assert (Forall (Forall (λ v, 0 ≤ v < NN)) kept) as Hkept
    by by apply pick_Forall.
  rewrite dim_Ok by lia. cbn [mbind PyResult_bind].
  rewrite mark_Ok; cycle 1.
  { eapply Forall_impl; [exact Hkept|]. intros row Hrow.
    eapply Forall_impl; [exact Hrow|]. unfold in_range.
    rewrite length_replicate. cbn. lia. }
  cbn [mbind PyResult_bind].
  fold (used_nodes NN kept). set (flags := used_nodes NN kept).
  assert (length flags = Z.to_nat NN) as Hflags
    by (unfold flags, used_nodes; by rewrite length_marked, length_replicate).
  rewrite select_Ok by lia. cbn [mbind PyResult_bind].
  rewrite zeros_Ok by lia. cbn [mbind PyResult_bind].
  unfold np.put_mask. rewrite decide_True by (by rewrite length_replicate).
  rewrite arange_0.
  rewrite put_Ok; cycle 1.
  { rewrite length_seqZ, Nat2Z.id. symmetry. apply length_where_from. }
  { rewrite length_replicate, <- Hflags. apply where_in_range. }
  cbn [mbind PyResult_bind].
  rewrite (mapM_Ok_fmap _ (λ row : list Z, new_index flags <$> row));
    [done|].
  eapply Forall_forall. intros row Hrow.
  rewrite getitems_Ok; cycle 1.
  { rewrite length_stores, length_replicate.
    rewrite Forall_forall in Hkept. specialize (Hkept _ Hrow).
    eapply Forall_impl; [exact Hkept|]. cbn. lia. }
  f_equal. apply Forall_fmap_ext, Forall_forall. intros v Hv.
  apply list_lookup_total_correct. unfold new_index.
  rewrite <- Hflags. apply index_map_lookup.
  apply marked_lookup.
  { apply Forall_forall. intros i (r & Hi & Hr)%list_elem_of_join.
    rewrite Forall_forall in Hkept. specialize (Hkept _ Hr).
    rewrite Forall_forall in Hkept. specialize (Hkept _ Hi). lia. }
  right. rewrite Forall_forall in Hkept. specialize (Hkept _ Hrow).
  rewrite Forall_forall in Hkept. specialize (Hkept _ Hv).
  rewrite length_replicate. split; [lia|].
  rewrite Z2Nat.id by lia. apply list_elem_of_join. eauto.
Qed.

Section renumbering.

Variable NN : Z.
Variable kept : list (list Z).
Hypothesis kept_range : Forall (Forall (λ v, 0 ≤ v < NN)) kept.

Local Abbreviation flags := (used_nodes NN kept).

Lemma length_used_nodes : length flags = Z.to_nat NN.
Proof. unfold used_nodes. by rewrite length_marked, length_replicate. Qed.

Lemma kept_entry_range row v : row ∈ kept → v ∈ row → 0 ≤ v < NN.
Proof.
  intros Hrow Hv. pose proof kept_range as H.
  rewrite Forall_forall in H. specialize (H _ Hrow).
  rewrite Forall_forall in H. by apply H.
Qed.

Lemma used_nodes_lookup n :
  flags !! n = Some true ↔ ∃ row, row ∈ kept ∧ Z.of_nat n ∈ row.
Proof.
  unfold used_nodes. rewrite marked_lookup; cycle 1.
  { apply Forall_forall. intros i (r & Hi & Hr)%list_elem_of_join.
    pose proof (kept_entry_range r i Hr Hi). lia. }
  rewrite length_replicate. split.
  - intros [H | (_ & H)].
    + apply lookup_replicate in H as [? _]. done.
    + apply list_elem_of_join in H as (row & ? & ?). eauto.
  - intros (row & Hrow & Hn). right.
    pose proof (kept_entry_range row _ Hrow Hn).
    split; [lia|]. apply list_elem_of_join. eauto.
Qed.

Lemma used_nodes_entry row v :
  row ∈ kept → v ∈ row → flags !! Z.to_nat v = Some true.
Proof.
  intros Hrow Hv. pose proof (kept_entry_range row v Hrow Hv).
  apply used_nodes_lookup. exists row. split; [done|].
  by rewrite Z2Nat.id by lia.
Qed.

(** The cells stay cells with eight different nodes. *)
Lemma renumbered_valid :
  Forall valid_cell kept → Forall valid_cell (renumbered flags kept).
Proof.
  intros Hvalid. unfold renumbered. apply Forall_fmap, Forall_forall.
  intros row Hrow. rewrite Forall_forall in Hvalid.
  destruct (Hvalid _ Hrow) as [H8 Hnd]. split; [by rewrite length_fmap|].
  apply NoDup_fmap_2_strong; [|done].
  intros v w Hv Hw E. unfold new_index in E. apply Nat2Z.inj in E.
  apply rank_inj in E; eauto using used_nodes_entry.
  pose proof (kept_entry_range row v Hrow Hv).
  pose proof (kept_entry_range row w Hrow Hw). lia.
Qed.

Variable node : list (list Q).
Hypothesis node_count : Z.of_nat (length node) = NN.

(** A node of a cell that is kept is found under its new number. *)
Lemma renumbered_points :
  Forall2 (Forall2 (λ v' v,
                      0 ≤ v' < Z.of_nat (length (nd.pick node flags)) ∧
                      ∃ pt, node !! Z.to_nat v = Some pt ∧
                            nd.pick node flags !! Z.to_nat v' = Some pt))
          (renumbered flags kept) kept.
Proof.
  unfold renumbered. apply Forall2_fmap_l, Forall_Forall2_diag, Forall_forall.
  intros row Hrow. cbn.
  apply Forall2_fmap_l, Forall_Forall2_diag, Forall_forall.
  intros v Hv. cbn. unfold new_index.
  pose proof (kept_entry_range row v Hrow Hv) as Hrange.
  pose proof (used_nodes_entry row v Hrow Hv) as Hflag.
  rewrite length_pick by (rewrite length_used_nodes; lia).
  split; [pose proof (rank_lt _ _ Hflag); lia|].
  destruct (lookup_lt_is_Some_2 node (Z.to_nat v)) as [pt Hpt]; [lia|].
  exists pt. split; [done|].
  by rewrite Nat2Z.id, pick_lookup_rank.
Qed.

(** Every node that is left belongs to a cell. *)
Lemma renumbered_all_used m :
  (m < length (nd.pick node flags))%nat →
  ∃ row, row ∈ renumbered flags kept ∧ Z.of_nat m ∈ row.
Proof.
  rewrite length_pick by (rewrite length_used_nodes; lia).
  intros (n & Hn & <-)%rank_surj.
  pose proof Hn as (row & Hrow & Hin)%used_nodes_lookup.
  exists (new_index flags <$> row). split.
  - unfold renumbered. apply list_elem_of_fmap. eauto.
  - apply list_elem_of_fmap. exists (Z.of_nat n). split; [|done].
    unfold new_index. by rewrite Nat2Z.id.
Qed.

End renumbering.

(** [from_box] with a threshold, for a box and numbers of divisions that
    give the arrays [node] and [cell] without one: if [threshold] answers the
    barycentres of the cells with one flag per cell, the cells without a flag
    are kept, in their order.  Each of them has the same eight points as
    before, under indices of the new node array; the cells still have eight
    different nodes each; and every node of the new array belongs to a
    cell. *)
Theorem from_box_threshold_renumbers
    (th : list (list Q) → PyResult (list bool)) (box : list Q)
    (nx ny nz : Z) (node : list (list Q)) (cell : list (list Z))
    (mask : list bool) :
  (6 ≤ length box)%nat →
  -1 ≤ nx → -1 ≤ ny → -1 ≤ nz →
  (0 ≤ nx ∧ 0 ≤ ny ∧ 0 ≤ nz) ∨ nx * ny * nz = 0 →
  from_box_arrays None box nx ny nz = Ok (node, cell) →
  th (barycentres node cell) = Ok mask →
  length mask = length cell →
  ∃ node' cell',
    from_box_arrays (Some th) box nx ny nz = Ok (node', cell') ∧
    Forall2 (Forall2 (λ v' v,
                        0 ≤ v' < Z.of_nat (length node') ∧
                        ∃ pt, node !! Z.to_nat v = Some pt ∧
                              node' !! Z.to_nat v' = Some pt))
            cell' (kept_cells cell mask) ∧
    Forall valid_cell cell' ∧
    (∀ m, (m < length node')%nat → ∃ row, row ∈ cell' ∧ Z.of_nat m ∈ row).
Proof.
  intros Hbox Hx Hy Hz Hc Hnone Hth Hmask.
  destruct box as [|b0 [|b1 [|b2 [|b3 [|b4 [|b5 rest]]]]]]; cbn in Hbox; try lia.
  rewrite from_box_arrays_Ok in Hnone by done. injection Hnone as <- <-.
  rewrite from_box_arrays_grid by done.
  destruct (box_arrays_shape b0 b1 b2 b3 b4 b5 nx ny nz Hx Hy Hz Hc)
    as (Hn & _ & _ & Hvalid & Hrange).
  rewrite (from_box_threshold_Ok th _ _ _ mask); try done; cycle 1.
  { eapply Forall_impl; [exact Hvalid|]. by intros row [H8 _]. }
  assert (Forall (Forall (λ v, 0 ≤ v < (nx + 1) * (ny + 1) * (nz + 1)))
                 (kept_cells (box_cells nx ny nz) mask)) as Hkept
    by by apply pick_Forall.
  eexists _, _. split; [done|]. split; [|split].
  - exact (renumbered_points _ _ Hkept _ Hn).
  - apply (renumbered_valid _ _ Hkept). by apply pick_Forall.
  - exact (renumbered_all_used _ _ Hkept _ Hn).
Qed.

Lemma from_box_threshold_renumbers_witness :
  let th := λ bc : list (list Q),
              Ok ((λ pt : list Q, match pt with
                                  | x :: _ => Qle_bool x (1 # 2)
                                  | [] => false
                                  end) <$> bc) in
  ∃ node cell mask,
    (6 ≤ length [0; 1; 0; 1; 0; 1]%Q)%nat ∧ -1 ≤ 2 ∧ -1 ≤ 1 ∧ -1 ≤ 1 ∧
    ((0 ≤ 2 ∧ 0 ≤ 1 ∧ 0 ≤ 1) ∨ 2 * 1 * 1 = 0) ∧
    from_box_arrays None [0; 1; 0; 1; 0; 1]%Q 2 1 1 = Ok (node, cell) ∧
    th (barycentres node cell) = Ok mask ∧
    length mask = length cell ∧
    ∃ node' cell',
      from_box_arrays (Some th) [0; 1; 0; 1; 0; 1]%Q 2 1 1 = Ok (node', cell') ∧
      Forall2 (Forall2 (λ v' v,
                          0 ≤ v' < Z.of_nat (length node') ∧
                          ∃ pt, node !! Z.to_nat v = Some pt ∧
                                node' !! Z.to_nat v' = Some pt))
              cell' (kept_cells cell mask) ∧
      Forall valid_cell cell' ∧
      (∀ m, (m < length node')%nat → ∃ row, row ∈ cell' ∧ Z.of_nat m ∈ row).
Proof.
  intros th.
  assert (6 ≤ length [0; 1; 0; 1; 0; 1]%Q)%nat as H6 by (cbn; lia).
  assert (-1 ≤ 2) as Hx by lia. assert (-1 ≤ 1) as Hy by lia.
  assert ((0 ≤ 2 ∧ 0 ≤ 1 ∧ 0 ≤ 1) ∨ 2 * 1 * 1 = 0) as Hc by (left; lia).
  eexists _, _, _.
  split; [exact H6|]. split; [exact Hx|]. split; [exact Hy|].
  split; [exact Hy|]. split; [exact Hc|].
  assert (from_box_arrays None [0; 1; 0; 1; 0; 1]%Q 2 1 1
          = Ok (box_nodes 0 1 0 1 0 1 2 1 1, box_cells 2 1 1)) as Hnone
    by (vm_compute; reflexivity).
  assert (th (barycentres (box_nodes 0 1 0 1 0 1 2 1 1) (box_cells 2 1 1))
          = Ok [true; false]) as Hth by (vm_compute; reflexivity).
  assert (length [true; false] = length (box_cells 2 1 1)) as Hlen
    by (vm_compute; reflexivity).
  split; [exact Hnone|]. split; [exact Hth|]. split; [exact Hlen|].
  exact (from_box_threshold_renumbers th _ 2 1 1 _ _ _ H6 Hx Hy Hy Hc
           Hnone Hth Hlen).
Defined.

(** ** What the threshold of [from_box] is asked *)

(** The function [threshold] is applied once, to the barycentres of the
    cells. *)
Lemma from_box_threshold_call (th : list (list Q) → PyResult (list bool))
    (NN : Z) (node : list (list Q)) (cell : list (list Z)) :
  Forall (λ row, length row = 8%nat) cell →
  Forall (Forall (λ v, 0 ≤ v < Z.of_nat (length node))) cell →
  from_box_threshold th NN node cell
  = th (barycentres node cell)
    ≫= λ mask, from_box_threshold (λ _, Ok mask) NN node cell.
Proof.
  intros H8 Hrange. unfold from_box_threshold.
  rewrite (mapM_Ok_fmap _ (λ row, (λ n, node !!! Z.to_nat n) <$> row)); cycle 1.
  { eapply Forall_impl; [exact Hrange|]. intros row Hrow.
    by apply getitems_Ok. }
  cbn [mbind PyResult_bind].
  assert (match cell with [] => 8 | row :: _ => Z.of_nat (length row) end = 8)
    as ->.
  { destruct H8 as [|row cell' Hrow _]; [done|]. by rewrite Hrow. }
  cbv zeta. rewrite <- list_fmap_compose. unfold compose.
  change ((λ x : list Z,
             (λ s : Q, (s / inject_Z 8)%Q)
               <$> nd.sum_points ((λ n : Z, node !!! Z.to_nat n) <$> x))
            <$> cell) with (barycentres node cell).
  by destruct (th (barycentres node cell)).
Qed.

Lemma length_sum_points (pts : list (list Q)) :
  Forall (λ x, length x = 3%nat) pts → length (nd.sum_points pts) = 3%nat.
Proof.
  unfold nd.sum_points. induction 1 as [|x pts Hx _ IH]; [done|].
  cbn [foldr]. rewrite length_zip_with. lia.
Qed.

(** [from_box] with a threshold applies it once, to an array with one point
    of three coordinates per cell, and goes on with its answer alone. *)
Theorem from_box_threshold_is_asked_once (b0 b1 b2 b3 b4 b5 : Q)
    (rest : list Q) (nx ny nz : Z) :
  0 ≤ nx → 0 ≤ ny → 0 ≤ nz →
  ∃ bc : list (list Q),
    (∀ th, from_box_arrays (Some th)
             (b0 :: b1 :: b2 :: b3 :: b4 :: b5 :: rest) nx ny nz
           = th bc ≫= λ mask,
               from_box_arrays (Some (λ _, Ok mask))
                 (b0 :: b1 :: b2 :: b3 :: b4 :: b5 :: rest) nx ny nz) ∧
    Z.of_nat (length bc) = nx * ny * nz ∧
    Forall (λ c, length c = 3%nat) bc.
Proof.
  intros Hx Hy Hz.
  destruct (box_arrays_shape b0 b1 b2 b3 b4 b5 nx ny nz)
    as (Hn & H3 & HNC & Hvalid & Hrange); [lia|lia|lia|left; lia|].
  exists (barycentres (box_nodes b0 b1 b2 b3 b4 b5 nx ny nz)
                      (box_cells nx ny nz)).
  split; [|split].
  - intros th. rewrite from_box_arrays_grid by lia.
    rewrite from_box_threshold_call; cycle 1.
    { eapply Forall_impl; [exact Hvalid|]. by intros row [H8 _]. }
    { by rewrite Hn. }
    destruct (th _) as [mask|e]; [|done]. cbn [mbind PyResult_bind].
    by rewrite from_box_arrays_grid by lia.
  - unfold barycentres. by rewrite length_fmap.
  - unfold barycentres. apply Forall_fmap.
    eapply Forall_impl; [exact Hrange|]. cbn. intros row Hrow.
    rewrite length_fmap. apply length_sum_points, Forall_fmap.
    eapply Forall_impl; [exact Hrow|]. cbn. intros n Hn'.
    rewrite Forall_forall in H3. apply H3, lookup_total_elem_of. lia.
Qed.

Lemma from_box_threshold_is_asked_once_witness :
  0 ≤ 2 ∧ 0 ≤ 1 ∧ 0 ≤ 3 ∧
  ∃ bc : list (list Q),
    (∀ th, from_box_arrays (Some th) [0; 1; 0; 2; 0; 3]%Q 2 1 3
           = th bc ≫= λ mask,
               from_box_arrays (Some (λ _, Ok mask))
                 [0; 1; 0; 2; 0; 3]%Q 2 1 3) ∧
    Z.of_nat (length bc) = 2 * 1 * 3 ∧
    Forall (λ c, length c = 3%nat) bc.
Proof.
  assert (0 ≤ 2) as Hx by lia. assert (0 ≤ 1) as Hy by lia.
  assert (0 ≤ 3) as Hz by lia.
  split; [exact Hx|]. split; [exact Hy|]. split; [exact Hz|].
  exact (from_box_threshold_is_asked_once 0 1 0 2 0 3 [] 2 1 3 Hx Hy Hz).
Defined.

(** ** Arguments that [from_box] does not accept *)

Lemma getitem_beyond {A} (l : list A) i :
  Z.of_nat (length l) ≤ i → np.getitem l i = Raise IndexError.
Proof.
  intros Hi. unfold np.getitem, np.index.
  rewrite decide_False by lia. rewrite decide_False by lia. done.
Qed.

(** A box with fewer than six bounds is an [IndexError], whatever the
    threshold, as soon as the number of nodes is not negative (a negative
    number of nodes is refused before the bounds are read). *)
Theorem from_box_arrays_short_box
    (threshold : option (list (list Q) → PyResult (list bool)))
    (box : list Q) (nx ny nz : Z) :
  (length box < 6)%nat →
  0 ≤ (nx + 1) * (ny + 1) * (nz + 1) →
  from_box_arrays threshold box nx ny nz = Raise IndexError.
Proof.
  intros Hbox HNN. unfold from_box_arrays.
  rewrite nd_zeros2_Ok by lia. cbn [mbind PyResult_bind].
  destruct box as [|b0 box]; [by rewrite getitem_beyond by (cbn; lia)|].
  rewrite (getitem_Ok _ 0 b0) by done. cbn [mbind PyResult_bind].
  destruct box as [|b1 box]; [by rewrite getitem_beyond by (cbn; lia)|].
  rewrite (getitem_Ok _ 1 b1) by done. cbn [mbind PyResult_bind].
  destruct box as [|b2 box]; [by rewrite getitem_beyond by (cbn; lia)|].
  rewrite (getitem_Ok _ 2 b2) by done. cbn [mbind PyResult_bind].
  destruct box as [|b3 box]; [by rewrite getitem_beyond by (cbn; lia)|].
  rewrite (getitem_Ok _ 3 b3) by done. cbn [mbind PyResult_bind].
  destruct box as [|b4 box]; [by rewrite getitem_beyond by (cbn; lia)|].
  rewrite (getitem_Ok _ 4 b4) by done. cbn [mbind PyResult_bind].
  destruct box as [|b5 box]; [by rewrite getitem_beyond by (cbn; lia)|].
  cbn in Hbox. lia.
Qed.

Lemma from_box_arrays_short_box_witness :
  (length [0; 1; 0; 1; 0]%Q < 6)%nat ∧ 0 ≤ (2 + 1) * (2 + 1) * (2 + 1) ∧
  from_box_arrays None [0; 1; 0; 1; 0]%Q 2 2 2 = Raise IndexError.
Proof.
  assert (length [0; 1; 0; 1; 0]%Q < 6)%nat as Hbox by (cbn; lia).
  assert (0 ≤ (2 + 1) * (2 + 1) * (2 + 1)) as HNN by lia.
  split; [exact Hbox|]. split; [exact HNN|].
  exact (from_box_arrays_short_box None _ 2 2 2 Hbox HNN).
Defined.

(** If the threshold answers with an array that has not one flag per cell,
    [from_box] raises an [IndexError]. *)
Theorem from_box_threshold_wrong_mask
    (th : list (list Q) → PyResult (list bool)) (box : list Q)
    (nx ny nz : Z) (node : list (list Q)) (cell : list (list Z))
    (mask : list bool) :
  (6 ≤ length box)%nat →
  -1 ≤ nx → -1 ≤ ny → -1 ≤ nz →
  (0 ≤ nx ∧ 0 ≤ ny ∧ 0 ≤ nz) ∨ nx * ny * nz = 0 →
  from_box_arrays None box nx ny nz = Ok (node, cell) →
  th (barycentres node cell) = Ok mask →
  length mask ≠ length cell →
  from_box_arrays (Some th) box nx ny nz = Raise IndexError.
Proof.
  intros Hbox Hx Hy Hz Hc Hnone Hth Hmask.
  destruct box as [|b0 [|b1 [|b2 [|b3 [|b4 [|b5 rest]]]]]]; cbn in Hbox; try lia.
  rewrite from_box_arrays_Ok in Hnone by done. injection Hnone as <- <-.
  rewrite from_box_arrays_grid by done.
  destruct (box_arrays_shape b0 b1 b2 b3 b4 b5 nx ny nz Hx Hy Hz Hc)
    as (Hn & _ & _ & Hvalid & Hrange).
  rewrite from_box_threshold_call; cycle 1.
  { eapply Forall_impl; [exact Hvalid|]. by intros row [H8 _]. }
  { by rewrite Hn. }
  rewrite Hth. cbn [mbind PyResult_bind]. unfold from_box_threshold.
  destruct (mapM _ _) as [pts|e] eqn:Hpts; cycle 1.
  { rewrite (mapM_Ok_fmap _ (λ row, (λ n, box_nodes b0 b1 b2 b3 b4 b5 nx ny nz
                                            !!! Z.to_nat n) <$> row))
      in Hpts; [done|].
    eapply Forall_impl; [exact Hrange|]. intros row Hrow.
    apply getitems_Ok. by rewrite Hn. }
  cbn [mbind PyResult_bind]. unfold nd.select.
  rewrite decide_False by (by rewrite length_fmap). done.
Qed.

Lemma from_box_threshold_wrong_mask_witness :
  let th := λ bc : list (list Q), Ok [true] in
  ∃ node cell mask,
    (6 ≤ length [0; 1; 0; 1; 0; 1]%Q)%nat ∧ -1 ≤ 2 ∧ -1 ≤ 1 ∧ -1 ≤ 1 ∧
    ((0 ≤ 2 ∧ 0 ≤ 1 ∧ 0 ≤ 1) ∨ 2 * 1 * 1 = 0) ∧
    from_box_arrays None [0; 1; 0; 1; 0; 1]%Q 2 1 1 = Ok (node, cell) ∧
    th (barycentres node cell) = Ok mask ∧
    length mask ≠ length cell ∧
    from_box_arrays (Some th) [0; 1; 0; 1; 0; 1]%Q 2 1 1 = Raise IndexError.
Proof.
  intros th.
  assert (6 ≤ length [0; 1; 0; 1; 0; 1]%Q)%nat as H6 by (cbn; lia).
  assert (-1 ≤ 2) as Hx by lia. assert (-1 ≤ 1) as Hy by lia.
  assert ((0 ≤ 2 ∧ 0 ≤ 1 ∧ 0 ≤ 1) ∨ 2 * 1 * 1 = 0) as Hc by (left; lia).
  eexists _, _, _.
  split; [exact H6|]. split; [exact Hx|]. split; [exact Hy|].
  split; [exact Hy|]. split; [exact Hc|].
  assert (from_box_arrays None [0; 1; 0; 1; 0; 1]%Q 2 1 1
          = Ok (box_nodes 0 1 0 1 0 1 2 1 1, box_cells 2 1 1)) as Hnone
    by (vm_compute; reflexivity).
  assert (th (barycentres (box_nodes 0 1 0 1 0 1 2 1 1) (box_cells 2 1 1))
          = Ok [true]) as Hth by reflexivity.
  assert (length [true] ≠ length (box_cells 2 1 1)) as Hlen
    by (vm_compute; lia).
  split; [exact Hnone|]. split; [exact Hth|]. split; [exact Hlen|].
  exact (from_box_threshold_wrong_mask th _ 2 1 1 _ _ _ H6 Hx Hy Hy Hc
           Hnone Hth Hlen).
Defined.

(** ** The orientation of the cells of a box *)

Lemma det3_of_a_box (x x' y y' z z' : Q) :
  (det3 (vector [x; y; z] [x'; y; z]) (vector [x; y; z] [x; y'; z])
        (vector [x; y; z] [x; y; z'])
   == (x' - x) * (y' - y) * (z' - z))%Q.
Proof. unfold det3, vector. cbn [zip_with]. ring. Qed.

(** In exact arithmetic: over a table of nodes that is a grid, the node
    with the grid indices [I], [J], [K] standing at the index
    [I (ny+1) (nz+1) + J (nz+1) + K] with the coordinates [xs I], [ys J],
    [zs K], the cell that [from_box] builds for the grid indices [i], [j],
    [k] is positively oriented when the three axes increase across it: the
    edge vectors from its local vertex 0 to its local vertices 1, 3 and 4
    have a positive determinant. *)
Theorem from_box_cells_are_positively_oriented (b0 b1 b2 b3 b4 b5 : Q)
    (rest : list Q) (nx ny nz i j k : Z) (nodes : list (list Q))
    (xs ys zs : Z → Q) :
  0 ≤ i < nx → 0 ≤ j < ny → 0 ≤ k < nz →
  (∀ I J K, 0 ≤ I ≤ nx → 0 ≤ J ≤ ny → 0 ≤ K ≤ nz →
     nodes !! Z.to_nat (I * ((ny + 1) * (nz + 1)) + J * (nz + 1) + K)
     = Some [xs I; ys J; zs K]) →
  (xs i < xs (i + 1)%Z)%Q → (ys j < ys (j + 1)%Z)%Q →
  (zs k < zs (k + 1)%Z)%Q →
  ∃ node0 cell row,
    from_box_arrays None (b0 :: b1 :: b2 :: b3 :: b4 :: b5 :: rest) nx ny nz
    = Ok (node0, cell) ∧
    cell !! Z.to_nat ((i * ny + j) * nz + k) = Some row ∧
    ∀ mesh, node mesh = nodes →
      ∃ d, det_at_vertex0 mesh row = Ok d ∧ (0 < d)%Q.
Proof.
  intros Hi Hj Hk Hgrid Hx Hy Hz.
  rewrite from_box_arrays_Ok by lia. eexists _, _, _. split; [done|].
  split; [by apply box_cells_lookup|].
  intros mesh Hnode. unfold det_at_vertex0, box_cell. cbv zeta. rewrite Hnode.
  set (b := i * ((ny + 1) * (nz + 1)) + j * (nz + 1) + k).
  rewrite (getitem_Ok _ 0 b), (getitem_Ok _ 1 (b + (ny + 1) * (nz + 1))),
    (getitem_Ok _ 3 (b + nz + 1)), (getitem_Ok _ 4 (b + 1)) by done.
  cbn [mbind PyResult_bind].
  assert (0 ≤ (ny + 1) * (nz + 1)) as HM by (apply Z.mul_nonneg_nonneg; lia).
  assert (0 ≤ i * ((ny + 1) * (nz + 1))) by (apply Z.mul_nonneg_nonneg; lia).
  assert (0 ≤ j * (nz + 1)) by (apply Z.mul_nonneg_nonneg; lia).
  assert (0 ≤ b) as Hb by (unfold b; lia).
  rewrite (getitem_Ok nodes b [xs i; ys j; zs k]);
    [|lia|apply Hgrid; lia].
  cbn [mbind PyResult_bind].
  rewrite (getitem_Ok nodes (b + (ny + 1) * (nz + 1))
             [xs (i + 1); ys j; zs k]); [|lia|].
  2:{ replace (b + (ny + 1) * (nz + 1))
        with ((i + 1) * ((ny + 1) * (nz + 1)) + j * (nz + 1) + k)
        by (unfold b; ring).
      apply Hgrid; lia. }
  cbn [mbind PyResult_bind].
  rewrite (getitem_Ok nodes (b + nz + 1) [xs i; ys (j + 1); zs k]); [|lia|].
  2:{ replace (b + nz + 1)
        with (i * ((ny + 1) * (nz + 1)) + (j + 1) * (nz + 1) + k)
        by (unfold b; ring).
      apply Hgrid; lia. }
  cbn [mbind PyResult_bind].
  rewrite (getitem_Ok nodes (b + 1) [xs i; ys j; zs (k + 1)]); [|lia|].
  2:{ replace (b + 1)
        with (i * ((ny + 1) * (nz + 1)) + j * (nz + 1) + (k + 1))
        by (unfold b; ring).
      apply Hgrid; lia. }
  cbn [mbind PyResult_bind].
  eexists. split; [done|]. rewrite det3_of_a_box.
  apply Qlt_minus_iff in Hx, Hy, Hz.
  apply Qmult_lt_0_compat; [apply Qmult_lt_0_compat|]; done.
Qed.

Lemma from_box_cells_are_positively_oriented_witness :
  let nodes : list (list Q) :=
    [ [0; 0; 0]; [0; 0; 1]; [0; 1; 0]; [0; 1; 1];
      [1; 0; 0]; [1; 0; 1]; [1; 1; 0]; [1; 1; 1] ]%Q in
  0 ≤ 0 < 1 ∧ 0 ≤ 0 < 1 ∧ 0 ≤ 0 < 1 ∧
  (∀ I J K, 0 ≤ I ≤ 1 → 0 ≤ J ≤ 1 → 0 ≤ K ≤ 1 →
     nodes !! Z.to_nat (I * ((1 + 1) * (1 + 1)) + J * (1 + 1) + K)
     = Some [inject_Z I; inject_Z J; inject_Z K]) ∧
  (inject_Z 0 < inject_Z (0 + 1)%Z)%Q ∧
  ∃ node0 cell row,
    from_box_arrays None [0; 1; 0; 1; 0; 1]%Q 1 1 1 = Ok (node0, cell) ∧
    cell !! Z.to_nat ((0 * 1 + 0) * 1 + 0) = Some row ∧
    ∀ mesh, node mesh = nodes →
      ∃ d, det_at_vertex0 mesh row = Ok d ∧ (0 < d)%Q.
Proof.
  intros nodes.
  assert (0 ≤ 0 < 1) as H01 by lia.
  assert (∀ I J K, 0 ≤ I ≤ 1 → 0 ≤ J ≤ 1 → 0 ≤ K ≤ 1 →
            nodes !! Z.to_nat (I * ((1 + 1) * (1 + 1)) + J * (1 + 1) + K)
            = Some [inject_Z I; inject_Z J; inject_Z K]) as Hgrid.
  { intros I J K HI HJ HK.
    assert (I = 0 ∨ I = 1) as [-> | ->] by lia;
      assert (J = 0 ∨ J = 1) as [-> | ->] by lia;
      assert (K = 0 ∨ K = 1) as [-> | ->] by lia; reflexivity. }
  assert (inject_Z 0 < inject_Z (0 + 1)%Z)%Q as Hlt by reflexivity.
  split; [exact H01|]. split; [exact H01|]. split; [exact H01|].
  split; [exact Hgrid|]. split; [exact Hlt|].
  exact (from_box_cells_are_positively_oriented 0 1 0 1 0 1 [] 1 1 1 0 0 0
           nodes inject_Z inject_Z inject_Z H01 H01 H01 Hgrid Hlt Hlt Hlt).
Defined.

(** * Interpolation points, shape functions and the first fundamental form *)

(** ** The interpolation points of a cell *)






Section cell_points.

Variable node : list (list Q).
Variables n0 n1 n2 n3 n4 n5 n6 n7 : Z.
Variables x0 x1 x2 x3 x4 x5 x6 x7 : list Q.
Variable p : Z.
Hypothesis nodes_found :
  Forall2 (λ n x, 0 ≤ n ∧ node !! Z.to_nat n = Some x)
          [n0; n1; n2; n3; n4; n5; n6; n7] [x0; x1; x2; x3; x4; x5; x6; x7].
Hypothesis order : 0 ≤ p.

Local Abbreviation p04 := (mjoin (linspace [x0] [x4] (p + 1))).
Local Abbreviation p37 := (mjoin (linspace [x3] [x7] (p + 1))).
Local Abbreviation p15 := (mjoin (linspace [x1] [x5] (p + 1))).
Local Abbreviation p26 := (mjoin (linspace [x2] [x6] (p + 1))).
Local Abbreviation p0 := (mjoin (linspace p04 p37 (p + 1))).
Local Abbreviation p1 := (mjoin (linspace p15 p26 (p + 1))).





End cell_points.



(** ** Shapes of the shape functions *)

Lemma reshape_to_columns_product n c :
  0 < c → fp.reshape_to_columns [n; c] c = Ok [n; c].
Proof.
  intros Hc. unfold fp.reshape_to_columns, fp.size. cbn [foldr].
  rewrite decide_True; cycle 1.
  { split; [done|]. rewrite Z.mul_1_r. apply Z_mod_mult. }
  rewrite Z.mul_1_r, Z_div_mult by lia. done.
Qed.

Lemma reshape_to_columns_Ok s c n :
  0 < c → fp.size s = n * c → fp.reshape_to_columns s c = Ok [n; c].
Proof.
  intros Hc Hs. unfold fp.reshape_to_columns. rewrite Hs.
  rewrite decide_True by (split; [done|apply Z_mod_mult]).
  by rewrite Z_div_mult by lia.
Qed.

Section shape_function_shapes.

Variable sf : fp.shape → Z → PyResult fp.shape.

Lemma shape_function_triple b0 b1 b2 p q0 q1 q2 :
  0 ≤ p →
  sf b0 p = Ok [q0; p + 1] → sf b1 p = Ok [q1; p + 1] →
  sf b2 p = Ok [q2; p + 1] →
  shape_function sf (bc_tuple [b0; b1; b2]) p
  = Ok [q0 * q1 * q2; (p + 1) ^ 3].
Proof.
  intros Hp H0 H1 H2. unfold shape_function.
  cbn [mapM length]. rewrite H0, H1, H2. cbn [mbind PyResult_bind mret PyResult_ret].
  rewrite decide_True by done.
  rewrite (getitem_Ok _ 0 [q0; p + 1]), (getitem_Ok _ 1 [q1; p + 1]),
    (getitem_Ok _ 2 [q2; p + 1]) by done.
  cbn [mbind PyResult_bind].
  set (v := fp.einsum _ _ _).
  assert (v = Ok [q0; q1; q2; p + 1; p + 1; p + 1]) as -> by reflexivity.
  cbn [mbind PyResult_bind].
  apply reshape_to_columns_Ok; [lia|]. unfold fp.size. cbn [foldr]. ring.
Qed.

Lemma shape_function_pair b0 b1 p q0 q1 :
  0 ≤ p →
  sf b0 p = Ok [q0; p + 1] → sf b1 p = Ok [q1; p + 1] →
  shape_function sf (bc_tuple [b0; b1]) p = Ok [q0 * q1; (p + 1) ^ 2].
Proof.
  intros Hp H0 H1. unfold shape_function.
  cbn [mapM length]. rewrite H0, H1. cbn [mbind PyResult_bind mret PyResult_ret].
  rewrite decide_False by done.
  rewrite (getitem_Ok _ 0 [q0; p + 1]), (getitem_Ok _ 1 [q1; p + 1]) by done.
  cbn [mbind PyResult_bind].
  set (v := fp.einsum _ _ _).
  assert (v = Ok [q0; q1; p + 1; p + 1]) as -> by reflexivity.
  cbn [mbind PyResult_bind].
  apply reshape_to_columns_Ok; [lia|]. unfold fp.size. cbn [foldr]. ring.
Qed.

End shape_function_shapes.

(** If the one-dimensional shape functions of order [p] give an array of
    shape [(q, p+1)] for each of the two or three arrays of reference
    coordinates, [shape_function] gives one of shape [(q0 q1, (p+1)^2)] or
    [(q0 q1 q2, (p+1)^3)]. *)
Theorem shape_function_tensor_shape
    (sf : fp.shape → Z → PyResult fp.shape) (b0 b1 b2 : fp.shape)
    (p q0 q1 q2 : Z) :
  0 ≤ p →
  sf b0 p = Ok [q0; p + 1] → sf b1 p = Ok [q1; p + 1] →
  sf b2 p = Ok [q2; p + 1] →
  shape_function sf (bc_tuple [b0; b1]) p = Ok [q0 * q1; (p + 1) ^ 2] ∧
  shape_function sf (bc_tuple [b0; b1; b2]) p
  = Ok [q0 * q1 * q2; (p + 1) ^ 3].
Proof.
  intros Hp H0 H1 H2. split.
  - by apply shape_function_pair.
  - by apply shape_function_triple.
Qed.

Lemma shape_function_tensor_shape_witness :
  let sf := λ (b : fp.shape) (p : Z),
              match b with
              | [q; _] => Ok [q; p + 1]
              | _ => Raise ValueError
              end in
  0 ≤ 2 ∧
  sf [4; 2] 2 = Ok [4; 2 + 1] ∧ sf [5; 2] 2 = Ok [5; 2 + 1] ∧
  sf [6; 2] 2 = Ok [6; 2 + 1] ∧
  shape_function sf (bc_tuple [[4; 2]; [5; 2]]) 2 = Ok [4 * 5; (2 + 1) ^ 2] ∧
  shape_function sf (bc_tuple [[4; 2]; [5; 2]; [6; 2]]) 2
  = Ok [4 * 5 * 6; (2 + 1) ^ 3].
Proof.
  intros sf.
  assert (0 ≤ 2) as Hp by lia.
  assert (sf [4; 2] 2 = Ok [4; 2 + 1]) as H0 by reflexivity.
  assert (sf [5; 2] 2 = Ok [5; 2 + 1]) as H1 by reflexivity.
  assert (sf [6; 2] 2 = Ok [6; 2 + 1]) as H2 by reflexivity.
  split; [exact Hp|]. split; [exact H0|]. split; [exact H1|].
  split; [exact H2|].
  exact (shape_function_tensor_shape sf _ _ _ 2 4 5 6 Hp H0 H1 H2).
Defined.

(** A tuple with fewer than two arrays is an [IndexError]: the branch for
    every length but three reads the first two entries of the list of
    one-dimensional shape functions. *)
Theorem shape_function_short_tuple
    (sf : fp.shape → Z → PyResult fp.shape) (b s : fp.shape) (p : Z) :
  sf b p = Ok s →
  shape_function sf (bc_tuple []) p = Raise IndexError ∧
  shape_function sf (bc_tuple [b]) p = Raise IndexError.
Proof.
  intros Hs. split; [reflexivity|].
  unfold shape_function. cbn [mapM length]. rewrite Hs. reflexivity.
Qed.

Lemma shape_function_short_tuple_witness :
  let sf := λ (b : fp.shape) (p : Z), Ok (b ++ [p + 1]) in
  sf [4] 2 = Ok [4; 3] ∧
  shape_function sf (bc_tuple []) 2 = Raise IndexError ∧
  shape_function sf (bc_tuple [[4]]) 2 = Raise IndexError.
Proof.
  intros sf.
  assert (sf [4] 2 = Ok [4; 3]) as Hs by reflexivity.
  split; [exact Hs|].
  exact (shape_function_short_tuple sf [4] [4; 3] 2 Hs).
Defined.

(** ** [bc_to_point] for a cell *)

Lemma reshape_to_columns_inv s c s' :
  fp.reshape_to_columns s c = Ok s' → s' = [fp.size s `div` c; c].
Proof. unfold fp.reshape_to_columns. case_decide; congruence. Qed.

Lemma rows_inv node t x :
  gather.rows node t = Ok x → ∃ rest, x = t ++ rest.
Proof. destruct node; [done|]. intros [= <-]. eauto. Qed.

Lemma bind_assoc {A B C} (m : PyResult A) (f : A → PyResult B)
    (g : B → PyResult C) :
  (m ≫= f) ≫= g = m ≫= λ x, f x ≫= g.
Proof. by destruct m. Qed.

Ltac bind_step :=
  rewrite ?bind_assoc;
  match goal with
  | |- raises (?m ≫= _) =>
      let E := fresh "E" in
      destruct m eqn:E; [cbn [mbind PyResult_bind] | apply raises_Raise]
  end.

(** Eight weights per point against the two nodes of an edge. *)
Lemma einsum_cell_weights_on_edges n NE rest :
  fp.einsum [fp.dots ["j"]; fp.sub ["e"; "j"; "k"]] (fp.dots ["e"; "k"])
    [[n; 8]; [NE; 2] ++ rest]
  = Raise ValueError.
Proof.
  destruct rest as [|GD [|? ?]]; [reflexivity| |reflexivity].
  reflexivity.
Qed.

(** For three arrays of reference coordinates, the points of the cells,
    [bc_to_point] does not return: after the branch for cells the name [bc]
    holds the array of the eight weights, for which the second [if] takes
    its [else], the branch for edges, and multiplies the eight weights with
    the two nodes of every edge. *)
Theorem bc_to_point_of_a_cell_raises (entity : string → PyResult fp.shape)
    (b0 b1 b2 : fp.shape) :
  (∀ s, entity "edge" = Ok s → ∃ NE, s = [NE; 2]) →
  raises (bc_to_point entity (bc_tuple [b0; b1; b2])).
Proof.
  intros Hedge. unfold bc_to_point.
  destruct (entity "node") as [node|];
    [cbn [mbind PyResult_bind]|apply raises_Raise].
  do 9 bind_step.
  match goal with
  | H : fp.reshape_to_columns _ 8 = Ok _ |- _ =>
      apply reshape_to_columns_inv in H as ->
  end.
  destruct (entity "edge") as [edge|] eqn:Eedge;
    [cbn [mbind PyResult_bind]|apply raises_Raise].
  destruct (Hedge _ eq_refl) as [NE ->].
  destruct (gather.rows node [NE; 2]) as [x|] eqn:Ex;
    [cbn [mbind PyResult_bind]|apply raises_Raise].
  apply rows_inv in Ex as [rest ->].
  rewrite einsum_cell_weights_on_edges. apply raises_Raise.
Qed.

Lemma bc_to_point_of_a_cell_raises_witness :
  let entity := λ name : string,
                  if decide (name = "node") then Ok [12; 3]
                  else if decide (name = "cell") then Ok [2; 8]
                  else if decide (name = "face") then Ok [11; 4]
                  else Ok [20; 2] in
  (∀ s, entity "edge" = Ok s → ∃ NE, s = [NE; 2]) ∧
  raises (bc_to_point entity (bc_tuple [[3; 2]; [3; 2]; [3; 2]])).
Proof.
  intros entity.
  assert (∀ s, entity "edge" = Ok s → ∃ NE, s = [NE; 2]) as Hedge
    by (intros s [= <-]; by exists 20).
  split; [exact Hedge|].
  exact (bc_to_point_of_a_cell_raises entity _ _ _ Hedge).
Defined.

(** ** The first fundamental form *)

Lemma square_row n G i :
  square n G → 0 ≤ i < n → Z.of_nat (length (G !!! Z.to_nat i)) = n.
Proof.
  intros [Hlen Hrows] Hi. rewrite Forall_forall in Hrows. apply Hrows.
  apply list_elem_of_lookup. exists (Z.to_nat i).
  apply list_lookup_lookup_total_lt. lia.
Qed.

Lemma square_set2 n G i j v : square n G → square n (set2 G i j v).
Proof.
  intros [Hlen Hrows]. unfold set2. split; [by rewrite length_insert|].
  destruct (decide (Z.to_nat i < length G)%nat) as [Hi|Hi].
  - apply Forall_insert; [done|]. rewrite length_insert.
    rewrite Forall_forall in Hrows. apply Hrows.
    apply list_elem_of_lookup. exists (Z.to_nat i).
    by apply list_lookup_lookup_total_lt.
  - rewrite list_insert_ge by lia. done.
Qed.

Lemma entry_set2_eq n G i j v :
  square n G → 0 ≤ i < n → 0 ≤ j < n →
  entry (set2 G i j v) (Z.to_nat i) (Z.to_nat j) = Some v.
Proof.
  intros HG Hi Hj. pose proof (square_row _ _ _ HG Hi).
  destruct HG as [Hlen _]. unfold entry, set2.
  rewrite list_lookup_insert_eq by lia. cbn.
  rewrite list_lookup_insert_eq by lia. done.
Qed.

Lemma entry_set2_ne n G i j v a b :
  square n G → 0 ≤ i < n → 0 ≤ j → 0 ≤ a → 0 ≤ b → ¬ (a = i ∧ b = j) →
  entry (set2 G i j v) (Z.to_nat a) (Z.to_nat b)
  = entry G (Z.to_nat a) (Z.to_nat b).
Proof.
  intros [Hlen _] Hi Hj Ha Hb Hne. unfold entry, set2.
  destruct (decide (a = i)) as [->|Hai].
  - rewrite list_lookup_insert_eq by lia.
    rewrite (list_lookup_lookup_total_lt G (Z.to_nat i)) by lia. cbn.
    rewrite list_lookup_insert_ne by lia. done.
  - rewrite list_lookup_insert_ne by lia. done.
Qed.

Lemma setitem2_Ok n G i j v :
  square n G → 0 ≤ i < n → 0 ≤ j < n →
  values.setitem2 G i j v = Ok (set2 G i j v).
Proof.
  intros HG Hi Hj. pose proof (square_row _ _ _ HG Hi).
  destruct HG as [Hlen _]. unfold values.setitem2, set2.
  rewrite getitem_Ok_total by lia. cbn [mbind PyResult_bind].
  rewrite setitem_Ok by lia. cbn [mbind PyResult_bind].
  by rewrite setitem_Ok by lia.
Qed.

Lemma getitem2_Ok G i j v :
  0 ≤ i → 0 ≤ j → entry G (Z.to_nat i) (Z.to_nat j) = Some v →
  values.getitem2 G i j = Ok v.
Proof.
  intros Hi Hj. unfold entry, values.getitem2.
  destruct (G !! Z.to_nat i) as [row|] eqn:Hrow; [|done]. cbn. intros Hv.
  rewrite (getitem_Ok _ _ row) by done. cbn [mbind PyResult_bind].
  by apply getitem_Ok.
Qed.

Section gram.

Variable J : list (list Q).
Variable TD : Z.
Hypothesis J_rows : Forall (λ row, Z.of_nat (length row) = TD) J.

Local Abbreviation d := (λ i j, values.dot (col J i) (col J j)).

Lemma column_Ok i : 0 ≤ i < TD → np.column J i = Ok (col J i).
Proof.
  intros Hi. apply column_Ok_fmap.
  eapply Forall_impl; [exact J_rows|]. intros row Hrow. cbv beta in Hrow. unfold in_range. lia.
Qed.

Lemma square_gram_inner i G j : square TD G → square TD (gram_inner J i G j).
Proof. intros. unfold gram_inner. by do 2 apply square_set2. Qed.

Lemma square_inner_loop i G l :
  square TD G → square TD (foldl (gram_inner J i) G l).
Proof.
  revert G. induction l as [|j l IH]; intros G HG; [done|].
  cbn. by apply IH, square_gram_inner.
Qed.

Lemma square_gram_outer G i : square TD G → square TD (gram_outer J TD G i).
Proof. intros. unfold gram_outer. by apply square_inner_loop, square_set2. Qed.

(** One turn of the inner loop. *)
Lemma inner_turn_Ok i G j :
  square TD G → 0 ≤ i < TD → 0 ≤ j < TD →
  (Jj ← np.column J j;
   G ← values.setitem2 G i j (values.dot (col J i) Jj);
   v ← values.getitem2 G i j;
   values.setitem2 G j i v) = Ok (gram_inner J i G j).
Proof.
  intros HG Hi Hj. rewrite column_Ok by done. cbn [mbind PyResult_bind].
  rewrite (setitem2_Ok TD) by done. cbn [mbind PyResult_bind].
  rewrite (getitem2_Ok _ _ _ (d i j));
    [|lia|lia|by apply (entry_set2_eq TD)].
  cbn [mbind PyResult_bind].
  by rewrite (setitem2_Ok TD) by (done || by apply square_set2).
Qed.

(** One turn of the outer loop. *)
Lemma outer_turn_Ok G i :
  square TD G → 0 ≤ i < TD →
  (Ji ← np.column J i;
   G ← values.setitem2 G i i (values.dot Ji Ji);
   foldM (λ G j,
            Jj ← np.column J j;
            G ← values.setitem2 G i j (values.dot Ji Jj);
            v ← values.getitem2 G i j;
            values.setitem2 G j i v)
         G (np.arange (i + 1) TD)) = Ok (gram_outer J TD G i).
Proof.
  intros HG Hi. rewrite column_Ok by done. cbn [mbind PyResult_bind].
  rewrite (setitem2_Ok TD) by done. cbn [mbind PyResult_bind].
  unfold gram_outer, np.arange.
  apply (foldM_Ok_foldl _ _ (square TD)); [|by apply square_set2].
  intros G' j HG' Hj%elem_of_seqZ. split; [|by apply square_gram_inner].
  apply inner_turn_Ok; [done|lia|lia].
Qed.

(** What the inner loop writes, and what it leaves. *)
Lemma inner_loop_entries i G l :
  square TD G → 0 ≤ i < TD → Forall (λ j, 0 ≤ j < TD) l →
  (∀ j, j ∈ l →
     entry (foldl (gram_inner J i) G l) (Z.to_nat i) (Z.to_nat j)
     = Some (d i j) ∧
     entry (foldl (gram_inner J i) G l) (Z.to_nat j) (Z.to_nat i)
     = Some (d i j)) ∧
  (∀ a b, 0 ≤ a → 0 ≤ b → ¬ (a = i ∧ b ∈ l) → ¬ (b = i ∧ a ∈ l) →
     entry (foldl (gram_inner J i) G l) (Z.to_nat a) (Z.to_nat b)
     = entry G (Z.to_nat a) (Z.to_nat b)).
Proof.
  intros HG Hi. induction l as [|j l IH] using rev_ind; intros Hl.
  { split; [by intros j ?%elem_of_nil|done]. }
  apply Forall_app in Hl as [Hl [Hj _]%Forall_cons].
  destruct (IH Hl) as [IHw IHf]. rewrite foldl_snoc.
  set (F := foldl (gram_inner J i) G l) in *.
  assert (square TD F) as HF by by apply square_inner_loop.
  assert (square TD (set2 F i j (d i j))) as HF' by by apply square_set2.
  assert (entry (gram_inner J i F j) (Z.to_nat i) (Z.to_nat j) = Some (d i j)
          ∧ entry (gram_inner J i F j) (Z.to_nat j) (Z.to_nat i)
            = Some (d i j)) as [Hij Hji].
  { unfold gram_inner. split; [|by apply (entry_set2_eq TD)].
    destruct (decide (i = j)) as [->|Hne]; [by apply (entry_set2_eq TD)|].
    rewrite (entry_set2_ne TD) by (done || lia).
    by apply (entry_set2_eq TD). }
  assert (∀ a b, 0 ≤ a → 0 ≤ b → ¬ (a = i ∧ b = j) → ¬ (a = j ∧ b = i) →
            entry (gram_inner J i F j) (Z.to_nat a) (Z.to_nat b)
            = entry F (Z.to_nat a) (Z.to_nat b)) as Hframe.
  { intros a b Ha Hb H1 H2. unfold gram_inner.
    rewrite (entry_set2_ne TD) by (done || lia).
    by rewrite (entry_set2_ne TD) by (done || lia). }
  split.
  - intros j' [Hj'| ->%list_elem_of_singleton]%elem_of_app; [|done].
    destruct (decide (j' = j)) as [->|Hne]; [done|].
    assert (0 ≤ j' < TD) by (rewrite Forall_forall in Hl; by apply Hl).
    rewrite !Hframe by lia. by apply IHw.
  - intros a b Ha Hb H1 H2.
    rewrite Hframe; [|done|done|..].
    + apply IHf; [done|done|..].
      * intros [-> ?]. apply H1. split; [done|]. apply elem_of_app. by left.
      * intros [-> ?]. apply H2. split; [done|]. apply elem_of_app. by left.
    + intros [-> ->]. apply H1. split; [done|].
      apply elem_of_app. right. by apply list_elem_of_singleton.
    + intros [-> ->]. apply H2. split; [done|].
      apply elem_of_app. right. by apply list_elem_of_singleton.
Qed.

(** What one turn of the outer loop writes, and what it leaves. *)
Lemma gram_outer_entries G i :
  square TD G → 0 ≤ i < TD →
  (∀ j, i ≤ j < TD →
     entry (gram_outer J TD G i) (Z.to_nat i) (Z.to_nat j) = Some (d i j) ∧
     entry (gram_outer J TD G i) (Z.to_nat j) (Z.to_nat i) = Some (d i j)) ∧
  (∀ a b, 0 ≤ a < TD → 0 ≤ b < TD →
     ¬ (a = i ∧ i ≤ b) → ¬ (b = i ∧ i ≤ a) →
     entry (gram_outer J TD G i) (Z.to_nat a) (Z.to_nat b)
     = entry G (Z.to_nat a) (Z.to_nat b)).
Proof.
  intros HG Hi. unfold gram_outer.
  assert (square TD (set2 G i i (d i i))) as HG' by by apply square_set2.
  destruct (inner_loop_entries i (set2 G i i (d i i))
              (seqZ (i + 1) (TD - (i + 1))) HG' Hi) as [Hw Hf].
  { apply Forall_forall. intros j Hj%elem_of_seqZ. lia. }
  split.
  - intros j Hj. destruct (decide (j = i)) as [->|Hne].
    + rewrite Hf; [|lia|lia|..].
      * split; by apply (entry_set2_eq TD).
      * intros [_ H%elem_of_seqZ]. lia.
      * intros [_ H%elem_of_seqZ]. lia.
    + apply Hw. apply elem_of_seqZ. lia.
  - intros a b Ha Hb H1 H2. rewrite Hf; [|lia|lia|..].
    + apply (entry_set2_ne TD); [done|done|lia|lia|lia|]. intros [-> ->]. lia.
    + intros [-> H%elem_of_seqZ]. lia.
    + intros [-> H%elem_of_seqZ]. lia.
Qed.

(** The outer loop over any rows [l]. *)
Lemma outer_loop_entries G l :
  square TD G → Forall (λ i, 0 ≤ i < TD) l →
  ∀ i j, i ∈ l → i ≤ j < TD →
    entry (foldl (gram_outer J TD) G l) (Z.to_nat i) (Z.to_nat j)
    = Some (d i j) ∧
    entry (foldl (gram_outer J TD) G l) (Z.to_nat j) (Z.to_nat i)
    = Some (d i j).
Proof.
  intros HG. induction l as [|i' l IH] using rev_ind; intros Hl i j Hi Hj.
  { by apply elem_of_nil in Hi. }
  apply Forall_app in Hl as [Hl [Hi' _]%Forall_cons].
  rewrite foldl_snoc.
  set (F := foldl (gram_outer J TD) G l) in *.
  assert (square TD F) as HF.
  { unfold F. clear -HG. revert G HG.
    induction l as [|k l IHl]; intros G HG; [done|].
    cbn. by apply IHl, square_gram_outer. }
  destruct (gram_outer_entries F i' HF Hi') as [Hw Hf].
  destruct (decide (i = i')) as [->|Hne]; [by apply Hw|].
  apply elem_of_app in Hi as [Hi| ->%list_elem_of_singleton]; [|done].
  assert (0 ≤ i < TD) by (rewrite Forall_forall in Hl; by apply Hl).
  rewrite !Hf by lia. by apply IH.
Qed.

Lemma first_fundamental_form_Ok :
  0 ≤ TD →
  values.first_fundamental_form J TD
  = Ok (foldl (gram_outer J TD)
          (replicate (Z.to_nat TD) (replicate (Z.to_nat TD) 0%Q))
          (seqZ 0 TD)).
Proof.
  intros HTD. unfold values.first_fundamental_form.
  rewrite nd_zeros2_Ok by lia. cbn [mbind PyResult_bind].
  rewrite arange_0.
  apply (foldM_Ok_foldl _ _ (square TD)).
  - intros G i HG Hi%elem_of_seqZ. split; [|by apply square_gram_outer].
    apply outer_turn_Ok; [done|lia].
  - split; [rewrite length_replicate; lia|].
    apply Forall_replicate. rewrite length_replicate. lia.
Qed.

End gram.

(** For a matrix [J] with [TD] columns, [first_fundamental_form] returns the
    matrix of the scalar products of the columns of [J]: the entries
    [(i, j)] and [(j, i)] both hold the product of column [i] with column
    [j], computed once, for [i <= j], so the result is symmetric entry by
    entry. *)
Theorem first_fundamental_form_is_the_gram_matrix
    (J : list (list Q)) (TD : Z) :
  0 ≤ TD →
  Forall (λ row, Z.of_nat (length row) = TD) J →
  ∃ G,
    values.first_fundamental_form J TD = Ok G ∧
    square TD G ∧
    ∀ i j, 0 ≤ i → i ≤ j → j < TD →
      entry G (Z.to_nat i) (Z.to_nat j)
      = Some (values.dot (col J i) (col J j)) ∧
      entry G (Z.to_nat j) (Z.to_nat i)
      = Some (values.dot (col J i) (col J j)).
Proof.
  intros HTD HJ. eexists. split; [by apply (first_fundamental_form_Ok J TD HJ)|].
  assert (square TD (replicate (Z.to_nat TD) (replicate (Z.to_nat TD) 0%Q)))
    as H0.
  { split; [rewrite length_replicate; lia|].
    apply Forall_replicate. rewrite length_replicate. lia. }
  split.
  - generalize (seqZ 0 TD). intros l. revert H0.
    generalize (replicate (Z.to_nat TD) (replicate (Z.to_nat TD) 0%Q)).
    induction l as [|k l IHl]; intros G HG; [done|].
    cbn. by apply IHl, square_gram_outer.
  - intros i j Hi Hij Hj. apply (outer_loop_entries J TD _ _ H0); [| |lia].
    + apply Forall_forall. intros k Hk%elem_of_seqZ. lia.
    + apply elem_of_seqZ. lia.
Qed.

Lemma first_fundamental_form_is_the_gram_matrix_witness :
  let J := [ [1; 2]; [0; 1]; [3 # 2; -1] ]%Q in
  0 ≤ 2 ∧
  Forall (λ row, Z.of_nat (length row) = 2) J ∧
  ∃ G,
    values.first_fundamental_form J 2 = Ok G ∧
    square 2 G ∧
    ∀ i j, 0 ≤ i → i ≤ j → j < 2 →
      entry G (Z.to_nat i) (Z.to_nat j)
      = Some (values.dot (col J i) (col J j)) ∧
      entry G (Z.to_nat j) (Z.to_nat i)
      = Some (values.dot (col J i) (col J j)).
Proof.
  intros J.
  assert (0 ≤ 2) as HTD by lia.
  assert (Forall (λ row, Z.of_nat (length row) = 2) J) as HJ
    by (repeat constructor).
  split; [exact HTD|]. split; [exact HJ|].
  exact (first_fundamental_form_is_the_gram_matrix J 2 HTD HJ).
Defined.
